(* ===== verification/_CoqProject ===== *)
-Q . S2P
Prelude.v
Heap.v
Binary.v
VisitedList.v
VisitedThreads.v
ParallelFor.v
Arith.v
Floats.v
Simd.v
SpaceL2.v
Cpu.v
Rvv.v
Gem5Utility.v
Gem5Vset.v
Gem5Vector.v
Gem5VectorLaws.v
Gem5Kernel.v
Gem5Theorems.v
Gem5Int.v
SpaceIP.v
Bruteforce.v
BrutePersist.v
Dataset.v
Args.v
Tools.v
ToolsLaws.v
Hdf52bin.v
BeamSearch.v
Hnsw.v
HnswPersist.v
HnswSearch.v
HnswInsert.v
StopConditions.v
HnswWf.v
HnswSearchLaws.v
HnswKnn.v
HeuristicLaws.v
HnswConnectLaws.v
HnswAddLaws.v
HnswUpdateLaws.v
HnswIndexLaws.v
HnswCopy.v
HnswPersistLaws.v
HnswChecks.v
HnswSpec.v
InsertThreads.v
PendingElements.v
InsertThreadsInv.v
InsertThreadsSteps.v
InsertThreadsMoves.v
InsertThreadsWrites.v
InsertThreadsClaims.v
InsertThreadsLaws.v
InsertThreadsProgress.v
InsertThreadsEnd.v
InsertThreadsSpec.v
InsertThreadsAlone.v
InsertThreadsTheorems.v
Driver.v
PyText.v
M5Stats.v
M5StatsLaws.v
M5StatsTheorems.v
BenchLogs.v
BenchLogsLaws.v
BenchLogsTheorems.v
BenchNames.v
DriverLog.v
PyIndex.v
PyLaws.v
PyBF.v
PyLazy.v
PyPickle.v
PyPickleLaws.v
HnswTheorems.v
HnswFindings.v
