(* ===== verification/Prelude.v ===== *)
(** * A verification of hnsw-rvv

    The program is the approximate nearest-neighbour library hnswlib with
    distance kernels for the RISC-V vector extension, its Python bindings, a
    benchmark with tools that make and check datasets, scripts that tabulate its
    measurements, and a copy of the simulator gem5 on which the vector kernels
    are measured.  This file is the root of the development: this header
    describes all of it, and the rest of the file holds what the components
    share.

    ** The parts and how they interact

    An index ([HierarchicalNSW], hnswalg.h) keeps labelled vectors in a graph of
    levels.  It compares vectors with the distance function of a space
    (space_l2.h, space_ip.h), marks visited nodes in lists from a pool
    (visited_list_pool.h), and is told when to stop by a stop condition
    (stop_condition.h).  [BruteforceSearch] (bruteforce.h) scans all vectors and
    gives exact answers; the tools use it as ground truth.  The Python classes
    (python_bindings/) own one index each, check and normalise arrays, and use
    [ParallelFor] to add and query rows.  tools/create_dataset writes a file,
    tools/check_dataset verifies one, tools/dataset_hdf52bin converts one, and
    src/hnsw_search builds an index from one and measures it.  The vector unit of
    gem5 (gem5/src/arch/riscv) executes the instructions of the RVV kernel.  The
    shell scripts (bvb-*.sh) run the benchmark and the simulator, and the
    scripts of script/ read what they left: the logs of the benchmark and the
    statistics of the simulator.

    ** How code becomes definitions

    A call returns, throws, has no defined continuation, or runs out of fuel:
    [res].  A call that changes an object is a state transformer [eff]; what was
    written before an exception stays written.  [let*] sequences such calls, in
    the order of the code.  [Undef] stands for an access outside an object, a
    read of memory never written, [top()] or [back()] of an empty container, a
    failed [assert], signed overflow and calls through null or freed pointers,
    so that a theorem that a call returns [Ok] also shows that none of these
    happens.  Fixed-width integers are [N] or [Z] with their wrap-around or
    overflow written out.  Vectors are bytes.  Memory that was allocated and
    never written is an absent entry of a map.

    Code that is not part of the repository is an interface, a type class with
    its documented behaviour as laws, and an instance for the runs:
    [HeapImpl] (std::push_heap and pop_heap), [Alloc] and [RawMemory] (what
    malloc returns), [RandomEngine], [DataRng] (random generators), [HashOrder]
    (iteration of an unordered_set), [Arith], [ExactArith] (the arithmetic of a
    kernel), [DistT], [DistOrder] (distances), [RVV], [Cpu] (cpuid and xgetbv),
    [Numpy], [Hdf5], [SoftFloat] (the float routines of the simulator), [PySum]
    ([sum] of floats, which differs between versions of Python).  Distances are
    compared by a strict weak order, which floating-point values without NaN
    have (Arith.v); kernels are correct over an exact arithmetic, since
    floating-point sums depend on their order.

    ** The files

    - Prelude: effects, their total-correctness rules, comparisons, orders, lists.
    - Heap: priority queues over the heap interface, their draining in order.
    - Binary: little-endian values and [std::ifstream] with its failure flags.
    - VisitedList, VisitedThreads: visited lists; the pool shared by threads, as
      a step relation.
    - Arith, Floats, Simd: exact and binary32 arithmetic, distances, the bits of
      a [float], vector registers.
    - SpaceL2, SpaceIP, Rvv, Cpu: the kernels, the choice of a kernel, the RVV
      kernel, the detection of the processor (hnswlib.h).
    - Gem5Utility, Gem5Vset, Gem5Vector, Gem5VectorLaws, Gem5Kernel,
      Gem5Theorems, Gem5Int: gem5's RISC-V vector unit (arch/riscv/utility.hh,
      insts/, isa/): helpers, configuration, micro-ops on registers of bytes,
      the L2 kernel executed by them, and the integer instructions.
    - Bruteforce, BrutePersist: bruteforce.h.
    - Dataset, Args, Tools, ToolsLaws, Hdf52bin: utils/dataset.cpp, the options
      of the three programs, the tools.
    - BeamSearch: the search loop of one level over an abstract graph.
    - Hnsw, HnswPersist, HnswSearch, HnswInsert: hnswalg.h, its state
      (the record [hnsw], whose fields are the members of the class) and its
      operations under their names in the code.
    - StopConditions: stop_condition.h.
    - HnswWf: the invariant [graph_ok]; HnswSearchLaws, HnswKnn, HeuristicLaws,
      HnswConnectLaws, HnswAddLaws, HnswUpdateLaws, HnswIndexLaws, HnswCopy,
      HnswPersistLaws, HnswChecks: what each operation does to it.
    - HnswSpec: the index as a labelled collection, and the simulation.
    - InsertThreads: [addPoint] by several threads, a step for every section
      between two lock operations; PendingElements and InsertThreadsInv: the
      invariant while calls are in progress; InsertThreadsSteps, -Moves,
      -Writes, -Claims, -Laws: every step keeps it; InsertThreadsProgress, -End,
      -Spec, -Alone, -Theorems: what follows for runs.
    - ParallelFor, PyIndex, PyLaws, PyBF, PyLazy, PyPickle, PyPickleLaws: the
      Python bindings.
    - Driver: src/hnsw_search.cpp.
    - PyText: the strings, regular expressions, dictionaries and floats of
      Python that the scripts use.
    - M5Stats, M5StatsLaws, M5StatsTheorems: script/gem5_metrics.py,
      grep_stats.py, merge_stats.py, parse-m5out-rvv.py, parse-m5out-hifive.py.
    - BenchLogs, BenchLogsLaws, BenchLogsTheorems, BenchNames, DriverLog: the
      four scripts for the logs, the names of the logs, and the text that
      hnsw_search prints.
    - HnswTheorems, HnswFindings: the theorems about the index, with runs; and
      runs in which the code does not do what it means to.

    ** What the theorems show

    - The index: a new index and every sequence of supported calls implement the
      collection of HnswSpec ([index_refines_collection]); each kind of
      [addPoint], [resizeIndex] and the deletion marks keep the invariant
      [index_ok] and change what they should and nothing else; queries return,
      with the nearest of the nodes they visited, and exactly the nearest
      elements when nothing is pruned; the neighbour heuristic, the greedy
      descent and the layer search have the properties the graph relies on.
    - Files: saving and loading, of both indexes and of datasets, are inverse;
      a damaged index file is rejected.
    - Kernels: every build computes the mathematical distance; the byte kernel
      does not overflow in the stated range; the RVV kernel is right when the
      tail of a register is undisturbed, and a run shows that it is not in
      general.
    - Threads: [ParallelFor] makes each call once in every interleaving and
      ends; searches never share a visited list.  Concurrent insertions end in
      every schedule, never deadlock, meet no undefined operation, and leave a
      well-formed index that holds what the calls one after the other would
      leave; a thread that runs alone does what the sequential model does.
    - Simulator: the configuration of the vector unit stays well-typed; the
      micro-ops of an instruction implement it over the register group, with
      the ISA's value in every element for the integer ones; the kernel's
      instructions compute what the kernel model says.
    - Python: rows added and queried by several threads leave and report the
      same collection whatever the schedule; pickling copies an index;
      [LazyIndex] behaves like [Index]; [BFIndex] is exact.
    - Programs: a dataset that the tool wrote passes the check, and the
      benchmark runs on it to its end; the conversion tool recognises its file.
    - Scripts: the names the shell scripts build and the lines the benchmark
      prints are read back; a table has a row for each run, or each key, with
      the values of the files and the averages of all its times.
    - Where the code fails, a theorem gives a run ([addPoint_back_of_empty],
      [addPoint_replace_duplicates], [L2SqrSIMDExtRVV_tail_agnostic],
      [insert_races], [vfredusum_loses_registers], [vsetvli_departures],
      [vmul_overflow_undefined], [random_logs_end_to_end], [random_logs_table],
      [recall_tables_empty]).

    ** Bounds and fuel

    Loops over a counter recurse on it.  A search loop gets one unit of fuel for
    each slot of the index and one more: a node enters the candidates once, when
    it is marked visited, and each round removes one.  The greedy loop gets as much:
    each round moves to a strictly closer node.  The heuristic gets the number
    of candidates.  The theorems say that the calls return [Ok], so the fuel is
    enough.  Indexes have at most 2^31 elements, which the [int] loops of the
    code need, and at most 65535 links in a list, which its counter needs.
    The level that [getRandomLevel] computes is infinite for a draw of 0 or for
    [M = 1]; the theorems ask for draws that have a level.

    ** Not modelled

    - The locks inside [searchKnn], [markDelete] and updates, and these calls
      while others insert: there a call is one step, and the interleavings
      considered are those of whole calls, of the calls of [ParallelFor], and of
      the critical sections of the pool.  Concurrent insertion (InsertThreads)
      is for new labels in an index without deleted elements.
    - Timing (the durations that hnsw_search prints are inputs), metrics for
      output, the console output of the tools, prefetching and the layout of
      vector registers beyond the lanes that the kernels use.
    - Most failing allocations: an allocation can fail in
      [BruteforceSearch::loadIndex] and for the arrays of a dataset
      ([RawMemory]), and fails in [HierarchicalNSW::loadIndex] when no object can
      have the size; elsewhere, in the constructors too, it succeeds.
    - pybind11 (conversions, the GIL, reference counts) beyond array access.
    - The examples and the tests; the shell scripts beyond the names of their
      files; the notebooks; the walk of the file system, the tar format, the
      quoting of CSV files and characters outside ASCII in the scripts.
    - Of gem5, everything but the part of the vector unit named above: other
      instruction sets, processor pipelines, caches and devices, and of the
      vector unit the scalar and immediate forms of the integer instructions,
      those that use vxsat or vxrm, the widening, mask, permutation, strided,
      indexed and segment instructions and the stores. *)

From Stdlib Require Import ZArith NArith Lia.
From stdpp Require Import base numbers list gmap strings sorting.

#[global] Set Default Goal Selector "!".

(** ** Results and effects

    A C++ call either returns, throws (the message of the exception is kept),
    has no defined continuation (an access outside an object, a read of
    indeterminate memory, [back()] of an empty vector, a failed [assert]) or,
    in the model only, runs out of the fuel that bounds a [while] loop. *)
Inductive res (A : Type) : Type :=
| Ok (a : A)
| Throw (msg : string)
| Undef (why : string)
| Fuel.
Arguments Ok {A} a.
Arguments Throw {A} msg%_string.
Arguments Undef {A} why%_string.
Arguments Fuel {A}.

Definition res_bind {A B} (m : res A) (f : A → res B) : res B :=
  match m with
  | Ok a => f a
  | Throw e => Throw e
  | Undef u => Undef u
  | Fuel => Fuel
  end.

Definition of_opt {A} (why : string) (o : option A) : res A :=
  match o with Some a => Ok a | None => Undef why end.

(** A stateful call returns the new state with the result, so that what was
    written before an exception is thrown stays visible. *)
Definition eff (S A : Type) : Type := S → S * res A.

Definition eff_ret {S A} (a : A) : eff S A := λ s, (s, Ok a).
Definition eff_bind {S A B} (m : eff S A) (f : A → eff S B) : eff S B := λ s,
  let '(s', r) := m s in
  match r with
  | Ok a => f a s'
  | Throw e => (s', Throw e)
  | Undef u => (s', Undef u)
  | Fuel => (s', Fuel)
  end.
Definition eff_lift {S A} (f : S → res A) : eff S A := λ s, (s, f s).
Definition eff_mod {S} (f : S → S) : eff S unit := λ s, (f s, Ok tt).
Definition eff_get {S A} (f : S → A) : eff S A := λ s, (s, Ok (f s)).
Definition eff_throw {S A} (msg : string) : eff S A := λ s, (s, Throw msg).
Definition eff_undef {S A} (why : string) : eff S A := λ s, (s, Undef why).

(** Raw vector data is a list of bytes; external labels are 64-bit. *)
Abbreviation point := (list N).
Abbreviation labeltype := N.
Abbreviation tableint := N.

Declare Scope cpp_scope.
Delimit Scope cpp_scope with cpp.
Notation "x <- m ;; f" := (res_bind m (λ x, f))
  (at level 100, m at next level, right associativity) : cpp_scope.
Notation "'let*' x := m 'in' f" := (eff_bind m (λ x, f))
  (at level 10, x name, f at level 200) : cpp_scope.
Notation "'let*' ' p := m 'in' f" := (eff_bind m (λ p, f))
  (at level 10, p strict pattern, f at level 200) : cpp_scope.
Open Scope cpp_scope.

(** [memcpy(dst, datapoint, n)] *)
Definition copy_point (n : N) (datapoint : point) : res point :=
  if (N.to_nat n <=? length datapoint)%nat then Ok (take (N.to_nat n) datapoint)
  else Undef "memcpy reads past the vector".

Lemma copy_point_ok n p :
  (N.to_nat n ≤ length p)%nat → copy_point n p = Ok (take (N.to_nat n) p).
Proof. intros H. unfold copy_point. by rewrite (proj2 (Nat.leb_le _ _)) by done. Qed.

Lemma eff_bind_ok {S A B} (m : eff S A) (f : A → eff S B) s s' a :
  m s = (s', Ok a) → eff_bind m f s = f a s'.
Proof. unfold eff_bind. by intros ->. Qed.
Lemma eff_bind_lift {S A B} (g : S → res A) (f : A → eff S B) s a :
  g s = Ok a → eff_bind (eff_lift g) f s = f a s.
Proof. unfold eff_bind, eff_lift. by intros ->. Qed.

(** ** Total correctness of effectful code

    [eff_wp m Q s]: run from [s], [m] returns (no exception, no undefined
    behaviour, fuel to spare) in a state and with a value that satisfy [Q]. *)
Definition eff_wp {S A} (m : eff S A) (Q : S → A → Prop) (s : S) : Prop :=
  ∃ s' a, m s = (s', Ok a) ∧ Q s' a.

Section wp.
Context {S : Type}.

Lemma wp_ret {A} (a : A) Q (s : S) : Q s a → eff_wp (eff_ret a) Q s.
Proof. intros H. by exists s, a. Qed.
Lemma wp_lift {A} (f : S → res A) a (Q : S → A → Prop) s :
  f s = Ok a → Q s a → eff_wp (eff_lift f) Q s.
Proof. intros Hf H. exists s, a. unfold eff_lift. by rewrite Hf. Qed.
Lemma wp_mod (f : S → S) Q s : Q (f s) tt → eff_wp (eff_mod f) Q s.
Proof. intros H. by exists (f s), tt. Qed.
Lemma wp_get {A} (f : S → A) Q s : Q s (f s) → eff_wp (eff_get f) Q s.
Proof. intros H. by exists s, (f s). Qed.
Lemma wp_mono {A} (m : eff S A) (Q Q' : S → A → Prop) s :
  eff_wp m Q s → (∀ s' a, Q s' a → Q' s' a) → eff_wp m Q' s.
Proof. intros (s' & a & E & H) HQ. exists s', a. auto. Qed.
Lemma wp_bind {A B} (m : eff S A) (f : A → eff S B) Q s :
  eff_wp m (λ s' a, eff_wp (f a) Q s') s → eff_wp (eff_bind m f) Q s.
Proof.
  intros (s' & a & E & s'' & b & E' & H). exists s'', b. split; [|done].
  unfold eff_bind. by rewrite E.
Qed.
(** The usual step: a specification of the first call, then the rest. *)
Lemma wp_seq {A B} (m : eff S A) (f : A → eff S B) (R : S → A → Prop) Q s :
  eff_wp m R s → (∀ s' a, R s' a → eff_wp (f a) Q s') → eff_wp (eff_bind m f) Q s.
Proof. intros H HR. apply wp_bind. eapply wp_mono; eauto. Qed.
Lemma wp_assoc {A B C} (m : eff S A) (f : A → eff S B) (g : B → eff S C) Q s :
  eff_wp (let* y := (let* x := m in f x) in g y) Q s → eff_wp (let* x := m in let* y := f x in g y) Q s.
Proof. unfold eff_wp, eff_bind. by destruct (m s) as [s' []]. Qed.
Lemma wp_bind_lift {A B} (f : S → res A) a (g : A → eff S B) Q s :
  f s = Ok a → eff_wp (g a) Q s → eff_wp (eff_bind (eff_lift f) g) Q s.
Proof. intros. apply wp_bind. by eapply wp_lift. Qed.
End wp.

(** Step over the calls whose outcome is read off the state. *)
Ltac wp_pure :=
  repeat first
    [ apply wp_ret
    | apply wp_bind, wp_get; cbv beta
    | apply wp_bind, wp_mod; cbv beta
    | apply wp_bind, wp_ret; cbv beta
    | apply wp_mod
    | apply wp_get ].
(** Facts that [eauto with hnsw] may use: the rules above, and what the
    components declare. *)
Create HintDb hnsw.
#[export] Hint Resolve wp_ret wp_mod wp_get wp_lift : hnsw.
(** Step over a read, given the equation of its result. *)
Ltac wp_read E := eapply wp_bind_lift; [exact E|].

(** ** Comparisons that [lia] decides

    [decide_cmp] evaluates the boolean comparisons of a goal whose outcome
    follows from the hypotheses. *)
Create Rewrite HintDb cmp.
Lemma N_ltb_true (a b : N) : (a < b)%N → (a <? b)%N = true.
Proof. apply N.ltb_lt. Qed.
Lemma N_ltb_false (a b : N) : (b ≤ a)%N → (a <? b)%N = false.
Proof. apply N.ltb_ge. Qed.
Lemma N_leb_true (a b : N) : (a ≤ b)%N → (a <=? b)%N = true.
Proof. apply N.leb_le. Qed.
Lemma N_leb_false (a b : N) : (b < a)%N → (a <=? b)%N = false.
Proof. apply N.leb_gt. Qed.
Lemma N_eqb_false (a b : N) : (a ≠ b)%N → (a =? b)%N = false.
Proof. apply N.eqb_neq. Qed.
Lemma Z_ltb_true (a b : Z) : (a < b)%Z → (a <? b)%Z = true.
Proof. apply Z.ltb_lt. Qed.
Lemma Z_ltb_false (a b : Z) : (b ≤ a)%Z → (a <? b)%Z = false.
Proof. apply Z.ltb_ge. Qed.
Lemma Z_leb_true (a b : Z) : (a ≤ b)%Z → (a <=? b)%Z = true.
Proof. apply Z.leb_le. Qed.
Lemma Z_leb_false (a b : Z) : (b < a)%Z → (a <=? b)%Z = false.
Proof. apply Z.leb_gt. Qed.
Lemma Z_eqb_false (a b : Z) : (a ≠ b)%Z → (a =? b)%Z = false.
Proof. apply Z.eqb_neq. Qed.
Lemma Nat_ltb_true (a b : nat) : (a < b)%nat → (a <? b)%nat = true.
Proof. apply Nat.ltb_lt. Qed.
Lemma Nat_ltb_false (a b : nat) : (b ≤ a)%nat → (a <? b)%nat = false.
Proof. apply Nat.ltb_ge. Qed.
Lemma Nat_leb_true (a b : nat) : (a ≤ b)%nat → (a <=? b)%nat = true.
Proof. apply Nat.leb_le. Qed.
Lemma Nat_leb_false (a b : nat) : (b < a)%nat → (a <=? b)%nat = false.
Proof. apply Nat.leb_gt. Qed.
Lemma Nat_eqb_false (a b : nat) : (a ≠ b)%nat → (a =? b)%nat = false.
Proof. apply Nat.eqb_neq. Qed.
#[export] Hint Rewrite N_ltb_true N_ltb_false N_leb_true N_leb_false N_eqb_false Z_ltb_true Z_ltb_false Z_leb_true Z_leb_false Z_eqb_false Nat_ltb_true Nat_ltb_false Nat_leb_true Nat_leb_false Nat_eqb_false using lia : cmp.
Ltac decide_cmp := autorewrite with cmp.

(** ** Strict weak orders

    [std::priority_queue] and the comparison of distances need what the C++
    standard calls a strict weak ordering. *)
Class StrictWeak {A} (lt : A → A → bool) : Prop := {
  sw_irrefl a : lt a a = false;
  sw_negtrans a b c : lt a b = false → lt b c = false → lt a c = false;
  sw_trans a b c : lt a b = true → lt b c = true → lt a c = true
}.

Lemma sw_asym {A} (lt : A → A → bool) `{!StrictWeak lt} a b :
  lt a b = true → lt b a = false.
Proof.
  intros H. destruct (lt b a) eqn:E; [|done].
  pose proof (sw_trans _ _ _ H E) as H'. by rewrite sw_irrefl in H'.
Qed.

Lemma sw_lt_le_trans {A} (lt : A → A → bool) `{!StrictWeak lt} a b c :
  lt a b = true → lt c b = false → lt a c = true.
Proof.
  intros H1 H2. destruct (lt a c) eqn:E; [done|].
  by rewrite (sw_negtrans a c b E H2) in H1.
Qed.

Lemma sw_le_lt_trans {A} (lt : A → A → bool) `{!StrictWeak lt} a b c :
  lt b a = false → lt b c = true → lt a c = true.
Proof.
  intros H1 H2. destruct (lt a c) eqn:E; [done|].
  by rewrite (sw_negtrans b a c H1 E) in H2.
Qed.

#[global] Instance StrictWeak_Z : StrictWeak Z.ltb.
Proof. split; intros *; rewrite ?Z.ltb_lt, ?Z.ltb_ge; lia. Qed.
#[global] Instance StrictWeak_N : StrictWeak N.ltb.
Proof. split; intros *; rewrite ?N.ltb_lt, ?N.ltb_ge; lia. Qed.

(** Comparison of pairs by the first component ([CompareByFirst]) and
    lexicographically ([operator<] of [std::pair]). *)
Definition lt_fst {A B} (lt : A → A → bool) (x y : A * B) : bool := lt x.1 y.1.
Definition lt_pair {A B} (lta : A → A → bool) (ltb : B → B → bool) (x y : A * B) : bool :=
  lta x.1 y.1 || (negb (lta y.1 x.1) && ltb x.2 y.2).

#[global] Instance StrictWeak_fst {A B} (lt : A → A → bool) :
  StrictWeak lt → StrictWeak (lt_fst (B:=B) lt).
Proof. intros [H1 H2 H3]. split; unfold lt_fst; eauto. Qed.

#[global] Instance StrictWeak_pair {A B} (lta : A → A → bool) (ltb : B → B → bool) :
  StrictWeak lta → StrictWeak ltb → StrictWeak (lt_pair lta ltb).
Proof.
  intros Ha Hb. unfold lt_pair.
  split.
  - intros a. by rewrite !sw_irrefl.
  - intros a b c. rewrite !orb_false_iff, !andb_false_iff, !negb_false_iff.
    intros [H1 H2] [H3 H4]. split; [by eapply sw_negtrans|].
    destruct H2 as [H2|H2]; [left; by apply (sw_le_lt_trans lta c.1 b.1 a.1)|].
    destruct H4 as [H4|H4].
    + left. destruct (lta c.1 a.1) eqn:E; [done|].
      by rewrite (sw_negtrans c.1 a.1 b.1 E H1) in H4.
    + right. by eapply sw_negtrans.
  - intros a b c. rewrite !orb_true_iff, !andb_true_iff, !negb_true_iff.
    intros [H1|[H1 H1']] [H2|[H2 H2']].
    + left. by eapply sw_trans.
    + left. by eapply sw_lt_le_trans.
    + left. by eapply sw_le_lt_trans.
    + right. split; [by eapply sw_negtrans | by eapply sw_trans].
Qed.

(** ** Lists *)
Lemma filter_ext_in {A} (P Q : A → Prop) `{∀ x, Decision (P x), ∀ x, Decision (Q x)} (l : list A) :
  (∀ x, x ∈ l → P x ↔ Q x) → filter P l = filter Q l.
Proof.
  induction l as [|x l IH]; intros Hl; [done|]. rewrite !filter_cons.
  assert (P x ↔ Q x) as Hx by (apply Hl; left).
  rewrite IH by (intros y Hy; apply Hl; by right).
  destruct (decide (P x)), (decide (Q x)); tauto.
Qed.
Lemma filter_every {A} (P : A → Prop) `{∀ x, Decision (P x)} (l : list A) : Forall P l → filter P l = l.
Proof. induction 1 as [|x l Hx _ IH]; [done|]. by rewrite filter_cons_True, IH. Qed.
Lemma nodup_fmap_filter {A B} (f : A → B) (P : A → Prop) `{∀ x, Decision (P x)} (l : list A) :
  NoDup (f <$> l) → NoDup (f <$> filter P l).
Proof.
  induction l as [|x l IH]; simpl; [done|]. rewrite NoDup_cons, filter_cons. intros [Hx Hl].
  case_decide; [|auto]. simpl. constructor; [|auto].
  intros (y & E & [_ Hy]%list_elem_of_filter)%list_elem_of_fmap. apply Hx, list_elem_of_fmap. eauto.
Qed.
Lemma rev_sorted {A} (R : A → A → Prop) (l : list A) :
  StronglySorted R l → StronglySorted (λ x y, R y x) (rev l).
Proof.
  induction 1 as [|x l Hl IH Hx]; simpl; [constructor|].
  assert (∀ a b, StronglySorted (λ x y, R y x) a → Forall (λ y, R b y) a →
    StronglySorted (λ x y, R y x) (a ++ [b])) as Happ.
  { intros a b Ha. induction Ha as [|y a Ha IHa Hy]; simpl; intros Hf; [by repeat constructor|].
    apply Forall_cons in Hf as [? Hf]. constructor; [by apply IHa|]. apply Forall_app. split; [done|].
    by apply Forall_singleton. }
  apply Happ; [done|]. by apply Forall_rev.
Qed.
Lemma sorted_mono {A} (R R' : A → A → Prop) (l : list A) :
  (∀ x y, R x y → R' x y) → StronglySorted R l → StronglySorted R' l.
Proof.
  intros HR. induction 1 as [|x l Hl IH Hx]; constructor; [done|]. eapply Forall_impl; [exact Hx|]. auto.
Qed.
