(* ===== verification/Heap.v ===== *)
(** * std::priority_queue

    hnswlib keeps every working set in a [std::priority_queue] over a
    [std::vector].  The C++ standard fixes what [std::push_heap] and
    [std::pop_heap] guarantee, not the exact arrangement they produce, and in
    particular not which of several equivalent elements comes out first.  The
    development is therefore parametric in an implementation of the two
    functions ([HeapImpl]) that satisfies the standard's contract; a
    vector kept in descending order is one such implementation
    ([sorted_heap]). *)

From Stdlib Require Import Lia.
From stdpp Require Import base numbers list sets sorting.
From S2P Require Import Prelude.

(** [std::is_heap]: the parent of index [i] is [(i-1)/2], and no parent is
    less than its child. *)
Definition is_heap {A} (lt : A → A → bool) (l : list A) : Prop :=
  ∀ i x y, 0 < i → l !! Nat.div2 (i - 1) = Some x → l !! i = Some y → lt x y = false.

Class HeapImpl : Type := {
  (** [c.push_back(x); std::push_heap(...)] *)
  push_heap {A} : (A → A → bool) → list A → A → list A;
  (** [std::pop_heap(...); c.pop_back()] of a non-empty container *)
  pop_heap {A} : (A → A → bool) → list A → list A;
  push_heap_perm {A} (lt : A → A → bool) l x : push_heap lt l x ≡ₚ x :: l;
  pop_heap_perm {A} (lt : A → A → bool) x l : pop_heap lt (x :: l) ≡ₚ l;
  push_heap_heap {A} (lt : A → A → bool) l x :
    StrictWeak lt → is_heap lt l → is_heap lt (push_heap lt l x);
  pop_heap_heap {A} (lt : A → A → bool) l :
    StrictWeak lt → is_heap lt l → is_heap lt (pop_heap lt l)
}.

(** ** The operations of the adaptor *)
Section pq.
Context `{HI : HeapImpl} {A : Type} (lt : A → A → bool).

Definition pq_push (q : list A) (x : A) : list A := push_heap lt q x.
Definition pq_top (q : list A) : option A := head q.
Definition pq_pop (q : list A) : list A :=
  match q with [] => [] | _ :: _ => pop_heap lt q end.
Definition pq_size (q : list A) : N := N.of_nat (length q).

(** [while (q.size() > 0) { out.push_back(q.top()); q.pop(); }] *)
Fixpoint pq_drain_aux (n : nat) (q : list A) : list A :=
  match n, q with
  | S n', x :: _ => x :: pq_drain_aux n' (pq_pop q)
  | _, _ => []
  end.
Definition pq_drain (q : list A) : list A := pq_drain_aux (length q) q.

(** [while (q.size() > k) q.pop();] *)
Fixpoint pq_shrink_aux (n : nat) (k : N) (q : list A) : list A :=
  match n with
  | S n' => if (k <? pq_size q)%N then pq_shrink_aux n' k (pq_pop q) else q
  | O => q
  end.
Definition pq_shrink (k : N) (q : list A) : list A := pq_shrink_aux (length q) k q.

(** [for (x : l) q.push(x);] *)
Definition pq_push_all (q : list A) (l : list A) : list A := foldl pq_push q l.
End pq.

(** ** Laws *)
Section laws.
Context `{HI : HeapImpl} {A : Type} (lt : A → A → bool).
Implicit Types (q l : list A) (x y : A).

Lemma pq_push_perm q x : pq_push lt q x ≡ₚ x :: q.
Proof. apply push_heap_perm. Qed.
Lemma pq_pop_perm q x : pq_top q = Some x → q ≡ₚ x :: pq_pop lt q.
Proof. destruct q; simpl; [done|]. intros [= ->]. by rewrite pop_heap_perm. Qed.
Lemma pq_push_length q x : length (pq_push lt q x) = S (length q).
Proof. by rewrite pq_push_perm. Qed.
Lemma pq_pop_length q : length (pq_pop lt q) = length q - 1.
Proof. destruct q; simpl; [done|]. rewrite pop_heap_perm. simpl. lia. Qed.
Lemma pq_push_size q x : pq_size (pq_push lt q x) = (pq_size q + 1)%N.
Proof. unfold pq_size. rewrite pq_push_length. lia. Qed.
Lemma pq_pop_size q : pq_size (pq_pop lt q) = (pq_size q - 1)%N.
Proof. unfold pq_size. rewrite pq_pop_length. lia. Qed.
Lemma pq_top_None q : pq_top q = None ↔ q = [].
Proof. by destruct q. Qed.
Lemma pq_top_elem q x : pq_top q = Some x → x ∈ q.
Proof. destruct q; [done|]. intros [= ->]. left. Qed.
Lemma pq_elem_push q x y : y ∈ pq_push lt q x ↔ y = x ∨ y ∈ q.
Proof. rewrite pq_push_perm. apply elem_of_cons. Qed.
Lemma pq_elem_pop q x : x ∈ pq_pop lt q → x ∈ q.
Proof. destruct q; simpl; [done|]. rewrite pop_heap_perm. by right. Qed.

Lemma pq_push_Forall (P : A → Prop) q x :
  Forall P q → P x → Forall P (pq_push lt q x).
Proof. intros. rewrite pq_push_perm. by constructor. Qed.
Lemma pq_pop_Forall (P : A → Prop) q : Forall P q → Forall P (pq_pop lt q).
Proof. rewrite !Forall_forall. eauto using pq_elem_pop. Qed.

Lemma pq_push_heap `{!StrictWeak lt} q x : is_heap lt q → is_heap lt (pq_push lt q x).
Proof. intros. by apply push_heap_heap. Qed.
Lemma pq_pop_heap `{!StrictWeak lt} q : is_heap lt q → is_heap lt (pq_pop lt q).
Proof. intros. destruct q; [done|]. by apply pop_heap_heap. Qed.
Lemma is_heap_nil : is_heap lt [].
Proof. intros i x y _ H. done. Qed.
Lemma is_heap_singleton x : is_heap lt [x].
Proof. intros [|[|i]] a b Hi Ha Hb; [lia|done|done]. Qed.

(** The top of a heap is a maximum. *)
Lemma is_heap_max `{!StrictWeak lt} q x y :
  is_heap lt q → pq_top q = Some x → y ∈ q → lt x y = false.
Proof.
  intros Hh Hx Hy. apply list_elem_of_lookup in Hy as [i Hi].
  revert y Hi. induction (lt_wf i) as [i _ IH]. intros y Hi.
  destruct (decide (i = 0)) as [->|Hi0].
  { destruct q; simplify_eq/=. apply sw_irrefl. }
  assert (Nat.div2 (i - 1) < i) as Hp.
  { pose proof (Nat.le_div2_diag_l (i - 1)). lia. }
  destruct (lookup_lt_is_Some_2 q (Nat.div2 (i - 1))) as [z Hz].
  { apply lookup_lt_Some in Hi. lia. }
  eapply sw_negtrans; [by eapply IH|]. eapply (Hh i); eauto; lia.
Qed.

(** Draining returns every element once, largest first. *)
Lemma pq_drain_aux_perm n q : length q ≤ n → pq_drain_aux lt n q ≡ₚ q.
Proof.
  revert q. induction n as [|n IH]; intros [|x q] Hn; simpl in *; [done|lia|done|].
  rewrite IH; [|rewrite pop_heap_perm; lia]. by rewrite pop_heap_perm.
Qed.
Lemma pq_drain_perm q : pq_drain lt q ≡ₚ q.
Proof. by apply pq_drain_aux_perm. Qed.

Lemma pq_drain_aux_sorted `{!StrictWeak lt} n q :
  is_heap lt q → length q ≤ n → StronglySorted (λ x y, lt x y = false) (pq_drain_aux lt n q).
Proof.
  revert q. induction n as [|n IH]; intros [|x q] Hh Hn; simpl in *; try by constructor.
  constructor.
  - apply IH; [by apply pop_heap_heap|]. rewrite pop_heap_perm. lia.
  - rewrite pq_drain_aux_perm; [|rewrite pop_heap_perm; lia].
    apply Forall_forall. intros y Hy.
    apply (is_heap_max (x :: q)); [done|done|].
    right. by rewrite pop_heap_perm in Hy.
Qed.
Lemma pq_drain_sorted `{!StrictWeak lt} q :
  is_heap lt q → StronglySorted (λ x y, lt x y = false) (pq_drain lt q).
Proof. intros. by apply pq_drain_aux_sorted. Qed.

Lemma pq_push_all_perm q l : pq_push_all lt q l ≡ₚ l ++ q.
Proof.
  revert q. induction l as [|x l IH]; intros q; simpl; [done|].
  rewrite IH, pq_push_perm. by rewrite Permutation_middle.
Qed.
Lemma pq_push_all_heap `{!StrictWeak lt} q l :
  is_heap lt q → is_heap lt (pq_push_all lt q l).
Proof.
  revert q. induction l as [|x l IH]; intros q Hq; simpl; [done|].
  by apply IH, pq_push_heap.
Qed.

(** [pq_shrink k] keeps a sub-multiset of size [min k |q|], and what it drops
    is at least as large as what it keeps. *)
Lemma pq_shrink_aux_spec n k q :
  length q ≤ n →
  ∃ dropped, q ≡ₚ dropped ++ pq_shrink_aux lt n k q ∧
    pq_size (pq_shrink_aux lt n k q) = N.min k (pq_size q) ∧
    (StrictWeak lt → is_heap lt q →
      is_heap lt (pq_shrink_aux lt n k q) ∧
      ∀ d y, d ∈ dropped → y ∈ pq_shrink_aux lt n k q → lt d y = false).
Proof.
  revert q. induction n as [|n IH]; intros q Hn; simpl.
  { exists []. destruct q; simpl in Hn; [|lia]. unfold pq_size. simpl.
    split_and!; [done|lia|set_solver]. }
  case_match eqn:E; rewrite ?N.ltb_lt, ?N.ltb_ge in E.
  2:{ exists []. split_and!; [done|lia|set_solver]. }
  destruct q as [|x q]; [unfold pq_size in E; simpl in E; lia|].
  destruct (IH (pq_pop lt (x :: q))) as (dr & Hp & Hs & Hh).
  { rewrite pq_pop_length. simpl in *. lia. }
  exists (x :: dr). split_and!.
  - trans (x :: pq_pop lt (x :: q)); [by apply pq_pop_perm|].
    simpl. by apply Permutation_skip.
  - rewrite Hs, pq_pop_size. lia.
  - intros Hw Hq. destruct Hh as [Hh1 Hh2]; [done|by apply pq_pop_heap|].
    split; [done|]. intros d y. rewrite elem_of_cons. intros [->|Hd] Hy.
    + apply (is_heap_max (x :: q)); [done|done|]. apply pq_elem_pop.
      rewrite Hp. set_solver.
    + by apply Hh2.
Qed.
Lemma pq_shrink_spec k q :
  ∃ dropped, q ≡ₚ dropped ++ pq_shrink lt k q ∧
    pq_size (pq_shrink lt k q) = N.min k (pq_size q) ∧
    (StrictWeak lt → is_heap lt q →
      is_heap lt (pq_shrink lt k q) ∧
      ∀ d y, d ∈ dropped → y ∈ pq_shrink lt k q → lt d y = false).
Proof. by apply pq_shrink_aux_spec. Qed.

(** A bounded queue: push, then drop the top.  What is dropped bounds what is
    kept, and the bound of a non-empty queue stays a bound. *)
Lemma pq_push_pop `{!StrictWeak lt} q x :
  is_heap lt q →
  ∃ e, x :: q ≡ₚ e :: pq_pop lt (pq_push lt q x) ∧
    (∀ y, y ∈ pq_pop lt (pq_push lt q x) → lt e y = false) ∧
    (q ≠ [] → ∀ z, (∀ y, y ∈ q → lt z y = false) →
       ∀ y, y ∈ pq_pop lt (pq_push lt q x) → lt z y = false).
Proof.
  intros Hq. assert (is_heap lt (pq_push lt q x)) as Hh by by apply pq_push_heap.
  destruct (pq_top (pq_push lt q x)) as [e|] eqn:Ht.
  2:{ apply pq_top_None in Ht. pose proof (pq_push_length q x) as Hl.
      rewrite Ht in Hl. done. }
  exists e. pose proof (pq_pop_perm _ _ Ht) as Hp. rewrite pq_push_perm in Hp at 1.
  assert (∀ y, y ∈ pq_pop lt (pq_push lt q x) → lt e y = false) as He.
  { intros y Hy. eapply is_heap_max; [done|done|]. by apply pq_elem_pop. }
  split_and!; [done|done|].
  intros _ z Hz y Hy.
  assert (y ∈ x :: q) as Hyq by (rewrite Hp; by right).
  apply elem_of_cons in Hyq as [->|Hyq]; [|by apply Hz].
  assert (e ∈ x :: q) as Heq by (rewrite Hp; by left).
  apply elem_of_cons in Heq as [->|Heq].
  - apply Hz. apply Permutation_cons_inv in Hp. by rewrite Hp.
  - eapply sw_negtrans; [by apply Hz|]. by apply He.
Qed.
End laws.

(** ** An implementation: a vector kept in descending order *)
Section sorted_impl.
Context {A : Type} (lt : A → A → bool).

Fixpoint insert_desc (l : list A) (x : A) : list A :=
  match l with
  | [] => [x]
  | y :: l' => if lt y x then x :: l else y :: insert_desc l' x
  end.

(** Rebuild in descending order: the container need not be descending when
    it was not built with [insert_desc]. *)
Definition sort_desc (l : list A) : list A := foldl insert_desc [] l.

Lemma insert_desc_perm l x : insert_desc l x ≡ₚ x :: l.
Proof.
  induction l as [|y l IH]; simpl; [done|]. case_match; [done|].
  rewrite IH. apply Permutation_swap.
Qed.
Lemma foldl_insert_desc_perm l acc : foldl insert_desc acc l ≡ₚ l ++ acc.
Proof.
  revert acc. induction l as [|x l IH]; intros acc; simpl; [done|].
  rewrite IH, insert_desc_perm. by rewrite Permutation_middle.
Qed.
Lemma sort_desc_perm l : sort_desc l ≡ₚ l.
Proof. unfold sort_desc. rewrite foldl_insert_desc_perm. by rewrite (right_id_L [] (++)). Qed.

Context `{!StrictWeak lt}.
#[local] Abbreviation desc := (StronglySorted (λ x y : A, lt x y = false)).

Lemma insert_desc_sorted l x : desc l → desc (insert_desc l x).
Proof.
  induction 1 as [|y l Hl IH Hy]; simpl; [repeat constructor|].
  case_match eqn:E.
  - constructor; [by constructor|]. constructor; [by apply sw_asym|].
    eapply Forall_impl; [exact Hy|]. intros z Hz.
    eapply sw_negtrans; [|exact Hz]. by apply sw_asym.
  - constructor; [done|]. rewrite insert_desc_perm. by constructor.
Qed.
Lemma sort_desc_sorted l : desc (sort_desc l).
Proof.
  unfold sort_desc. assert (desc []) as H by constructor. revert H.
  generalize (@nil A). induction l as [|x l IH]; intros acc H; simpl; [done|].
  by apply IH, insert_desc_sorted.
Qed.
Lemma desc_is_heap l : desc l → is_heap lt l.
Proof.
  intros Hl i x y Hi Hx Hy.
  assert (Nat.div2 (i - 1) < i) as Hlt.
  { pose proof (Nat.le_div2_diag_l (i - 1)). lia. }
  revert Hx Hy Hlt. generalize (Nat.div2 (i - 1)). intros p Hx Hy Hlt. clear Hi.
  revert p i Hx Hy Hlt. induction Hl as [|z l Hl IH Hz]; intros p i Hx Hy Hlt; [done|].
  destruct i as [|i]; [lia|]. destruct p as [|p]; simplify_eq/=.
  - by eapply (Forall_lookup_1 _ _ _ _ Hz Hy).
  - eapply (IH p i); eauto; lia.
Qed.
End sorted_impl.

#[global, program] Instance sorted_heap : HeapImpl := {
  push_heap A lt l x := sort_desc lt (l ++ [x]);
  pop_heap A lt l := sort_desc lt (tail l)
}.
Next Obligation. intros. rewrite sort_desc_perm. by rewrite Permutation_app_comm. Qed.
Next Obligation. intros. by rewrite sort_desc_perm. Qed.
Next Obligation. intros. by apply desc_is_heap, sort_desc_sorted. Qed.
Next Obligation. intros. by apply desc_is_heap, sort_desc_sorted. Qed.

(** ** The smallest elements of a collection

    When no two elements of [l] are equivalent, the [k] smallest in increasing
    order are a prefix of the [k'] smallest, for [k] at most [k']. *)
Lemma smallest_prefix {A} (lt : A → A → bool) `{!StrictWeak lt} (l a ra b rb : list A) :
  (∀ x y, x ∈ l → y ∈ l → lt x y = false → lt y x = false → x = y) →
  l ≡ₚ a ++ ra → l ≡ₚ b ++ rb →
  StronglySorted (λ x y, lt y x = false) a → StronglySorted (λ x y, lt y x = false) b →
  (∀ x y, x ∈ ra → y ∈ a → lt x y = false) → (∀ x y, x ∈ rb → y ∈ b → lt x y = false) →
  length b ≤ length a → b = take (length b) a.
Proof.
  intros Huniq Ha Hb Sa Sb La Lb Hle.
  assert (∀ u ru, l ≡ₚ u ++ ru → StronglySorted (λ x y, lt y x = false) u → (∀ x y, x ∈ ru → y ∈ u → lt x y = false) →
    l ≡ₚ u ++ rev (sort_desc lt ru) ∧ StronglySorted (λ x y, lt y x = false) (u ++ rev (sort_desc lt ru))) as Hext.
  { intros u ru Hu Su Lu. assert (rev (sort_desc lt ru) ≡ₚ ru) as Hr.
    { rewrite <- Permutation_rev. apply sort_desc_perm. }
    split; [by rewrite Hr|]. apply StronglySorted_app; split_and!; [|done|].
    - intros x y Hx Hy. apply Lu; [|done]. by rewrite Hr in Hy.
    - apply (rev_sorted (λ x y, lt x y = false)), sort_desc_sorted; apply _. }
  destruct (Hext a ra Ha Sa La) as [Pa Ta]. destruct (Hext b rb Hb Sb Lb) as [Pb Tb].
  assert (b ++ rev (sort_desc lt rb) = a ++ rev (sort_desc lt ra)) as E.
  { apply (StronglySorted_unique_strong (λ x y, lt y x = false)); [|done|done|by rewrite <- Pa, <- Pb].
    intros x y Hx Hy H1 H2. apply Huniq; [by rewrite Pb|by rewrite Pa|done|done]. }
  apply (f_equal (take (length b))) in E. rewrite take_app_length in E. rewrite E at 1.
  by rewrite take_app_le.
Qed.
