(* ===== verification/Binary.v ===== *)
(** * Binary files

    [writeBinaryPOD] and [readBinaryPOD] of hnswlib.h copy the object
    representation of a value, little-endian on the supported targets.  An
    input file is a [stream]: its bytes, the position and the fail flag, with
    the behaviour of [std::ifstream] on reads and seeks past the end. *)

From Stdlib Require Import ZArith NArith Lia.
From stdpp Require Import base numbers list.
From S2P Require Import Prelude.
#[local] Open Scope N_scope.

(** ** Little-endian words *)
Fixpoint le (n : nat) (v : N) : list N :=
  match n with
  | O => []
  | S n => v mod 256 :: le n (v / 256)
  end.
Fixpoint of_le (bs : list N) : N :=
  match bs with
  | [] => 0
  | b :: bs => b + 256 * of_le bs
  end.

Lemma le_length n : ∀ v, length (le n v) = n.
Proof. induction n; intros v; simpl; auto. Qed.
Lemma of_le_le n : ∀ v, v < 256 ^ N.of_nat n → of_le (le n v) = v.
Proof.
  induction n as [|n IH]; intros v Hv; simpl.
  - simpl in Hv. lia.
  - rewrite Nat2N.inj_succ, N.pow_succ_r' in Hv. rewrite IH.
    + pose proof (N.div_mod v 256). lia.
    + apply N.Div0.div_lt_upper_bound. lia.
Qed.
Lemma le_bytes n : ∀ v, Forall (λ b, b < 256) (le n v).
Proof. induction n; intros v; simpl; constructor; [|done]. by apply N.mod_lt. Qed.

(** Two's complement of 32-bit [int]. *)
Definition of_int (z : Z) : N := Z.to_N (z mod 4294967296).
Definition to_int (v : N) : Z := if v <? 2147483648 then Z.of_N v else (Z.of_N v - 4294967296)%Z.
Lemma to_of_int z : (-2147483648 ≤ z < 2147483648)%Z → to_int (of_int z) = z ∧ of_int z < 4294967296.
Proof.
  intros Hz. unfold to_int, of_int. destruct (Z.ltb_spec z 0) as [Hn|Hn].
  - assert (z mod 4294967296 = z + 4294967296)%Z as ->.
    { symmetry. apply Z.mod_unique with (-1)%Z; lia. }
    destruct (N.ltb_spec (Z.to_N (z + 4294967296)) 2147483648); lia.
  - rewrite Z.mod_small by lia. destruct (N.ltb_spec (Z.to_N z) 2147483648); lia.
Qed.

(** ** Input files *)
Record stream := mkStream { file : list N; pos : Z; bad : bool }.

Definition total_filesize (st : stream) : Z := Z.of_nat (length (file st)).
Definition tellg (st : stream) : Z := if bad st then (-1)%Z else pos st.
(** A seek does nothing on a failed stream; seeking past the end is allowed,
    before the start it fails. *)
Definition seekg (p : Z) (st : stream) : stream :=
  if bad st then st
  else if (p <? 0)%Z then mkStream (file st) (pos st) true
  else mkStream (file st) p false.
Definition clear_flags (st : stream) : stream := mkStream (file st) (pos st) false.

(** The bytes that [read(_, n)] delivers. *)
Definition sread (n : N) (st : stream) : list N * stream :=
  if bad st then ([], st)
  else
    let rest := drop (Z.to_nat (pos st)) (file st) in
    if (N.to_nat n <=? length rest)%nat
    then (take (N.to_nat n) rest, mkStream (file st) (pos st + Z.of_N n) false)
    else (rest, mkStream (file st) (total_filesize st) true).

(** [readBinaryPOD(in, x)] with [old] the value of [x] before; a short read
    overwrites the low bytes only. *)
Definition read_pod (n : nat) (old : N) (st : stream) : N * stream :=
  let '(bs, st) := sread (N.of_nat n) st in
  (of_le (bs ++ drop (length bs) (le n old)), st).

(** A good stream between the bytes [pre] and [rest]. *)
Definition stands (st : stream) (pre rest : list N) : Prop :=
  st = mkStream (pre ++ rest) (Z.of_nat (length pre)) false.

Lemma stands_start bs : stands (mkStream bs 0 false) [] bs.
Proof. done. Qed.
Lemma stands_seek st pre mid rest :
  stands st pre (mid ++ rest) → stands (seekg (pos st + Z.of_nat (length mid)) st) (pre ++ mid) rest.
Proof.
  intros ->. unfold seekg, stands. simpl. decide_cmp.
  rewrite <- app_assoc, length_app. f_equal. lia.
Qed.
Lemma sread_app st pre bs rest n :
  stands st pre (bs ++ rest) → n = N.of_nat (length bs) →
  ∃ st', sread n st = (bs, st') ∧ stands st' (pre ++ bs) rest.
Proof.
  intros -> ->. unfold sread. simpl. rewrite Nat2Z.id, drop_app_length, Nat2N.id.
  rewrite (proj2 (Nat.leb_le _ _)) by (rewrite length_app; lia).
  eexists. rewrite take_app_length. split; [done|]. unfold stands. rewrite <- app_assoc, length_app.
  f_equal. lia.
Qed.
Lemma read_pod_app st pre rest n v old :
  stands st pre (le n v ++ rest) → v < 256 ^ N.of_nat n →
  ∃ st', read_pod n old st = (v, st') ∧ stands st' (pre ++ le n v) rest.
Proof.
  intros Hst Hv. destruct (sread_app st pre (le n v) rest (N.of_nat n) Hst) as (st' & Hrun & Hst').
  { by rewrite le_length. }
  exists st'. unfold read_pod. rewrite Hrun. rewrite drop_ge by by rewrite !le_length.
  rewrite (right_id_L [] (++)), of_le_le by done. done.
Qed.

(** Failed, or [k] bytes into [f]. *)
Definition advanced (f : list N) (st : stream) (k : nat) : Prop :=
  bad st = true ∨ st = mkStream f (Z.of_nat k) false ∧ (k ≤ length f)%nat.
Lemma advanced_read f st k n old : advanced f st k → advanced f (read_pod n old st).2 (k + n).
Proof.
  intros [Hb|[-> Hk]]; unfold read_pod, sread; cbn [bad file pos].
  - rewrite Hb. by left.
  - rewrite Nat2Z.id, Nat2N.id, length_drop. destruct (Nat.leb_spec n (length f - k)); [|by left].
    right. simpl. split; [f_equal; lia|lia].
Qed.
