(* ===== verification/VisitedList.v ===== *)
(** * visited_list_pool.h: visited lists and their pool

    A search marks a node as visited by writing the list's current 16-bit tag
    [curV] at the node's index; [reset] advances the tag instead of clearing
    the array, and clears it only when the tag wraps around.  The invariant
    [vl_ok] (no entry exceeds the tag) makes every [reset] leave no node
    visited, whatever the array held before, indeterminate memory included.

    [VisitedListPool] is modelled twice: here as a value for the single-threaded
    index ([getFreeVisitedList], [releaseVisitedList]), and in VisitedThreads.v
    as a shared store of list objects with one step per critical section of the
    code, for any number of threads. *)

From Stdlib Require Import Lia.
From stdpp Require Import base numbers list gmap.
From S2P Require Import Prelude.
#[local] Open Scope N_scope.

(** ** The list *)
Record VisitedList := mkVL {
  curV : N;               (* vl_type, 16 bits *)
  mass : list N;          (* vl_type[numelements] *)
  numelements : N
}.

(** [new vl_type[n]] leaves the array indeterminate: any 16-bit contents. *)
Class Alloc := {
  garbage : N → list N;
  garbage_length n : length (garbage n) = N.to_nat n;
  garbage_u16 n : Forall (λ x, x < 65536) (garbage n)
}.

Definition VisitedList_new `{Alloc} (numelements1 : N) : VisitedList :=
  {| curV := 65535; numelements := numelements1; mass := garbage numelements1 |}.

Definition reset (vl : VisitedList) : VisitedList :=
  let c := (curV vl + 1) mod 65536 in
  if c =? 0
  then {| curV := (c + 1) mod 65536;
          mass := replicate (N.to_nat (numelements vl)) 0;
          numelements := numelements vl |}
  else {| curV := c; mass := mass vl; numelements := numelements vl |}.

(** [visited_array[i] == visited_array_tag], and the write that marks [i]. *)
Definition is_visited (vl : VisitedList) (i : N) : option bool :=
  x ← mass vl !! N.to_nat i; Some (x =? curV vl).
Definition mark_visited (vl : VisitedList) (i : N) : VisitedList :=
  {| curV := curV vl; mass := <[N.to_nat i := curV vl]> (mass vl);
     numelements := numelements vl |}.

(** ** The pool, as a value *)
Record VisitedListPool := mkPool {
  pool : list VisitedList;
  pool_numelements : N
}.

Definition VisitedListPool_new `{Alloc} (initmaxpools numelements1 : N) : VisitedListPool :=
  {| pool := replicate (N.to_nat initmaxpools) (VisitedList_new numelements1);
     pool_numelements := numelements1 |}.

Definition getFreeVisitedList `{Alloc} (p : VisitedListPool) : VisitedList * VisitedListPool :=
  match pool p with
  | rez :: rest => (reset rez, {| pool := rest; pool_numelements := pool_numelements p |})
  | [] => (reset (VisitedList_new (pool_numelements p)), p)
  end.

Definition releaseVisitedList (p : VisitedListPool) (vl : VisitedList) : VisitedListPool :=
  {| pool := vl :: pool p; pool_numelements := pool_numelements p |}.

(** ** Invariants *)
Definition vl_ok (vl : VisitedList) : Prop :=
  length (mass vl) = N.to_nat (numelements vl) ∧ curV vl < 65536 ∧
  Forall (λ x, x ≤ curV vl) (mass vl).

(** The nodes marked in [vl]. *)
Definition visited_in (vl : VisitedList) (i : N) : Prop := is_visited vl i = Some true.

(** Number of nodes not yet marked: the measure of a search. *)
Definition unvisited (vl : VisitedList) : nat :=
  length (filter (λ x, x ≠ curV vl) (mass vl)).

Definition pool_ok (p : VisitedListPool) : Prop :=
  Forall (λ vl, vl_ok vl ∧ numelements vl = pool_numelements p) (pool p).

Lemma vl_new_ok `{Alloc} n : vl_ok (VisitedList_new n).
Proof.
  split_and!; simpl; [apply garbage_length|lia|].
  eapply Forall_impl; [apply garbage_u16|]. intros x Hx. simpl in Hx. lia.
Qed.

Lemma reset_ok vl : vl_ok vl → vl_ok (reset vl).
Proof.
  intros (Hl & Hc & Hm). unfold reset. case_match eqn:E; split_and!; simpl.
  - by rewrite length_replicate.
  - by apply N.mod_lt.
  - apply Forall_replicate. apply N.le_0_l.
  - done.
  - by apply N.mod_lt.
  - eapply Forall_impl; [exact Hm|]. intros x Hx. simpl in Hx.
    apply N.eqb_neq in E.
    destruct (decide (curV vl + 1 = 65536)) as [E'|E'];
      [rewrite E' in E; done|]. rewrite N.mod_small by lia. lia.
Qed.

Lemma reset_no_tag vl : vl_ok vl → Forall (λ x, x ≠ curV (reset vl)) (mass (reset vl)).
Proof.
  intros (Hl & Hc & Hm). unfold reset. case_match eqn:E; simpl.
  - apply N.eqb_eq in E. rewrite E. apply Forall_replicate. done.
  - apply N.eqb_neq in E.
    assert (curV vl + 1 < 65536).
    { destruct (decide (curV vl + 1 = 65536)) as [E'|E']; [rewrite E' in E; done|lia]. }
    rewrite N.mod_small by lia.
    eapply Forall_impl; [exact Hm|]. simpl. lia.
Qed.

Lemma reset_numelements vl : numelements (reset vl) = numelements vl.
Proof. unfold reset. by case_match. Qed.

(** After [reset] nothing is visited, and the whole range can be tested. *)
Lemma reset_unvisited vl i :
  vl_ok vl → i < numelements vl → is_visited (reset vl) i = Some false.
Proof.
  intros Hok Hi. pose proof (reset_ok _ Hok) as (Hl & _ & _).
  pose proof (reset_no_tag _ Hok) as Hf.
  rewrite reset_numelements in Hl. unfold is_visited.
  destruct (lookup_lt_is_Some_2 (mass (reset vl)) (N.to_nat i)) as [x Hx]; [lia|].
  rewrite Hx. simpl. f_equal. apply N.eqb_neq. eapply Forall_lookup_1 in Hf; done.
Qed.

Lemma mark_visited_ok vl i : vl_ok vl → vl_ok (mark_visited vl i).
Proof.
  intros (Hl & Hc & Hm). split_and!; simpl; [by rewrite length_insert|done|].
  apply Forall_insert; [done|lia].
Qed.

Lemma is_visited_lt vl i b : vl_ok vl → is_visited vl i = Some b → i < numelements vl.
Proof.
  intros (Hl & _ & _) H. unfold is_visited in H.
  destruct (mass vl !! N.to_nat i) eqn:E; [|done]. apply lookup_lt_Some in E. lia.
Qed.
Lemma is_visited_is_Some vl i : vl_ok vl → i < numelements vl → is_Some (is_visited vl i).
Proof.
  intros (Hl & _ & _) Hi. unfold is_visited.
  destruct (lookup_lt_is_Some_2 (mass vl) (N.to_nat i)) as [x Hx]; [lia|].
  rewrite Hx. simpl. eauto.
Qed.

Lemma is_visited_mark_eq vl i :
  vl_ok vl → i < numelements vl → is_visited (mark_visited vl i) i = Some true.
Proof.
  intros (Hl & _ & _) Hi. unfold is_visited, mark_visited. simpl.
  rewrite list_lookup_insert_eq by lia. simpl. by rewrite N.eqb_refl.
Qed.
Lemma is_visited_mark_ne vl i j :
  i ≠ j → is_visited (mark_visited vl i) j = is_visited vl j.
Proof.
  intros Hij. unfold is_visited, mark_visited. simpl.
  rewrite list_lookup_insert_ne by lia. done.
Qed.

Lemma unvisited_mark vl i :
  is_visited vl i = Some false → S (unvisited (mark_visited vl i)) = unvisited vl.
Proof.
  unfold is_visited, unvisited, mark_visited. simpl.
  generalize (curV vl) as c, (N.to_nat i) as n. intros c n.
  generalize (mass vl) as m. intros m. clear vl.
  revert n. induction m as [|x m IH]; intros n H; [done|].
  destruct n as [|n]; simpl in *.
  - injection H as H%N.eqb_neq. rewrite !filter_cons.
    rewrite decide_False by naive_solver. rewrite decide_True by done. done.
  - rewrite !filter_cons. destruct (decide (x ≠ c)); simpl; rewrite IH; done.
Qed.
Lemma unvisited_le vl : vl_ok vl → (unvisited vl ≤ N.to_nat (numelements vl))%nat.
Proof. intros (Hl & _ & _). rewrite <- Hl. apply length_filter. Qed.

Lemma pool_new_ok `{Alloc} k n : pool_ok (VisitedListPool_new k n).
Proof. apply Forall_replicate. split; [apply vl_new_ok|done]. Qed.

Lemma getFree_ok `{Alloc} p :
  pool_ok p →
  let '(vl, p') := getFreeVisitedList p in
  vl_ok vl ∧ numelements vl = pool_numelements p ∧ pool_ok p' ∧
  pool_numelements p' = pool_numelements p ∧
  ∀ i, i < pool_numelements p → is_visited vl i = Some false.
Proof.
  intros Hp. unfold getFreeVisitedList. destruct (pool p) as [|v rest] eqn:E.
  - rewrite reset_numelements. split_and!; auto using reset_ok, vl_new_ok.
    intros i Hi. apply reset_unvisited; [apply vl_new_ok|done].
  - unfold pool_ok in Hp. rewrite E in Hp. apply Forall_cons in Hp as [[H1 H2] Hr].
    rewrite reset_numelements. split_and!; auto using reset_ok.
    intros i Hi. apply reset_unvisited; [done|]. by rewrite H2.
Qed.

Lemma release_ok p vl :
  pool_ok p → vl_ok vl → numelements vl = pool_numelements p →
  pool_ok (releaseVisitedList p vl).
Proof. intros. constructor; done. Qed.

(** A deterministic allocator, for running the model. *)
#[export, program] Instance zero_alloc : Alloc := {
  garbage n := replicate (N.to_nat n) 0
}.
Next Obligation. intros. simpl. by rewrite length_replicate. Qed.
Next Obligation. intros. simpl. apply Forall_replicate. lia. Qed.
