(* ===== verification/VisitedThreads.v ===== *)
(** * visited_list_pool.h: the pool, shared by threads

    [VisitedListPool] hands list objects to concurrent searches.  The state is
    the store of list objects, the deque of free ones and, per thread, where it
    stands: it has taken a list and not yet reset it, or works on it.  Each
    constructor of [step] is one critical section of the code, or an access to
    a list outside of the lock; any interleaving is a sequence of steps. *)

From Stdlib Require Import Lia.
From stdpp Require Import base numbers list gmap relations.
From S2P Require Import Prelude VisitedList.
#[local] Open Scope N_scope.

(** [Using p marked]: the thread reset the list at [p] and has marked [marked] since. *)
Inductive tstate :=
| Taken (p : N)
| Using (p : N) (marked : gset N).

Record pstate := mkPS {
  objs : gmap N VisitedList;     (* the heap objects *)
  deque : list N;                (* pool *)
  threads : gmap N tstate;       (* threads between getFree and release *)
  fresh_obj : N
}.

Section pool.
Context `{AL : Alloc} (numelements1 : N).
Implicit Types (s : pstate) (t p : N).

Definition pool_start (initmaxpools : nat) : pstate :=
  {| objs := list_to_map ((λ k, (N.of_nat k, VisitedList_new numelements1)) <$> seq 0 initmaxpools);
     deque := N.of_nat <$> rev (seq 0 initmaxpools); threads := ∅; fresh_obj := N.of_nat initmaxpools |}.

Inductive pool_step s : pstate → Prop :=
| take_front t p rest : threads s !! t = None → deque s = p :: rest →
    pool_step s (mkPS (objs s) rest (<[t := Taken p]> (threads s)) (fresh_obj s))
| take_new t : threads s !! t = None → deque s = [] →
    pool_step s (mkPS (<[fresh_obj s := VisitedList_new numelements1]> (objs s)) []
                   (<[t := Taken (fresh_obj s)]> (threads s)) (fresh_obj s + 1))
| reset_list t p vl : threads s !! t = Some (Taken p) → objs s !! p = Some vl →
    pool_step s (mkPS (<[p := reset vl]> (objs s)) (deque s) (<[t := Using p ∅]> (threads s)) (fresh_obj s))
| mark_node t p m vl i : threads s !! t = Some (Using p m) → objs s !! p = Some vl → i < numelements vl →
    pool_step s (mkPS (<[p := mark_visited vl i]> (objs s)) (deque s)
                   (<[t := Using p ({[i]} ∪ m)]> (threads s)) (fresh_obj s))
| release_list t p m : threads s !! t = Some (Using p m) →
    pool_step s (mkPS (objs s) (p :: deque s) (delete t (threads s)) (fresh_obj s)).

(** The list a thread holds. *)
Definition list_of (x : tstate) : N := match x with Taken p => p | Using p _ => p end.
Definition holds s t p : Prop := ∃ x, threads s !! t = Some x ∧ list_of x = p.

Record pool_inv s : Prop := {
  pi_objs p vl : objs s !! p = Some vl → vl_ok vl ∧ numelements vl = numelements1 ∧ p < fresh_obj s;
  pi_deque p : p ∈ deque s → is_Some (objs s !! p);
  pi_nodup : NoDup (deque s);
  pi_held t p : holds s t p → is_Some (objs s !! p) ∧ p ∉ deque s;
  pi_excl t1 t2 p : holds s t1 p → holds s t2 p → t1 = t2;
  pi_seen t p m vl i : threads s !! t = Some (Using p m) → objs s !! p = Some vl → i < numelements1 →
    is_visited vl i = Some (bool_decide (i ∈ m))
}.

(** ** A step of one thread *)
Lemma holds_insert s o d f t x t' p :
  holds (mkPS o d (<[t := x]> (threads s)) f) t' p ↔ (t' = t ∧ list_of x = p) ∨ (t' ≠ t ∧ holds s t' p).
Proof.
  unfold holds. simpl. destruct (decide (t' = t)) as [->|Hne].
  - rewrite lookup_insert_eq. split.
    + intros (y & [= <-] & H). by left.
    + intros [[_ H]|[? _]]; [|done]. by exists x.
  - rewrite lookup_insert_ne by done. split; [by right|]. by intros [[? _]|[_ ?]].
Qed.

(** A thread that keeps or takes [p], which no other thread and not the new
    deque has, and leaves an intact object at [p]. *)
Lemma inv_update s t x p vl d f :
  pool_inv s → list_of x = p → vl_ok vl → numelements vl = numelements1 → p < f → fresh_obj s ≤ f →
  NoDup d → p ∉ d → (∀ q, q ∈ d → q ∈ deque s) → (∀ t', holds s t' p → t' = t) →
  (∀ m i, x = Using p m → i < numelements1 → is_visited vl i = Some (bool_decide (i ∈ m))) →
  pool_inv (mkPS (<[p := vl]> (objs s)) d (<[t := x]> (threads s)) f).
Proof.
  intros [I1 I2 I3 I4 I5 I6] Hx Hok Hn Hp Hf Hd Hpd Hsub Hown Hseen. split.
  - intros q v. simpl. destruct (decide (q = p)) as [->|].
    + rewrite lookup_insert_eq. intros [= <-]. done.
    + rewrite lookup_insert_ne by done. intros Hq. destruct (I1 _ _ Hq) as (? & ? & ?). split_and!; [done|done|lia].
  - simpl. intros q Hq. rewrite lookup_insert_ne by congruence. by apply I2, Hsub.
  - done.
  - intros t' q. rewrite holds_insert. simpl. intros [[-> <-]|[Hne Hh]].
    + rewrite Hx, lookup_insert_eq. by split.
    + assert (q ≠ p) as Hqp by (intros ->; by apply Hne, Hown).
      rewrite lookup_insert_ne by done. destruct (I4 _ _ Hh) as [? Hq]. split; [done|]. intros Hin. by apply Hq, Hsub.
  - intros t1 t2 q. rewrite !holds_insert. intros [[-> E1]|[H1 H1']] [[-> E2]|[H2 H2']]; [done|..].
    + rewrite Hx in E1. subst q. symmetry. by apply Hown.
    + rewrite Hx in E2. subst q. by apply Hown.
    + by eapply I5.
  - simpl. intros t' q m v i. destruct (decide (t' = t)) as [->|Hne].
    + rewrite lookup_insert_eq. intros [= ->]. simpl in Hx. subst q. rewrite lookup_insert_eq. intros [= <-]. by apply Hseen.
    + rewrite lookup_insert_ne by done. intros Ht. assert (q ≠ p) as Hqp.
      { intros ->. apply Hne, Hown. by exists (Using p m). }
      rewrite lookup_insert_ne by done. by apply I6 with t'.
Qed.

Lemma visited_mark vl m i j : vl_ok vl → i < numelements vl →
  is_visited vl j = Some (bool_decide (j ∈ m)) →
  is_visited (mark_visited vl i) j = Some (bool_decide (j ∈ ({[i]} ∪ m : gset N))).
Proof.
  intros Hok Hi Hj. destruct (decide (j = i)) as [->|Hne].
  - rewrite is_visited_mark_eq by done. rewrite bool_decide_eq_true_2; [done|]. apply elem_of_union. left. by apply elem_of_singleton.
  - rewrite is_visited_mark_ne, Hj by done. f_equal. apply bool_decide_ext.
    rewrite elem_of_union, elem_of_singleton. tauto.
Qed.

Lemma pool_step_inv s s' : pool_inv s → pool_step s s' → pool_inv s'.
Proof.
  intros Hi Hs. pose proof Hi as [I1 I2 I3 I4 I5 I6].
  destruct Hs as [t p rest Ht Hd|t Ht Hd|t p vl Ht Hp|t p m vl i Ht Hp Hlt|t p m Ht].
  - destruct (I2 p) as [vl Hvl]; [rewrite Hd; left|]. destruct (I1 _ _ Hvl) as (? & ? & ?).
    rewrite Hd in I3. apply NoDup_cons in I3 as [? ?].
    rewrite <- (insert_id (objs s) p vl) by done. apply inv_update; try done.
    + intros q Hq. rewrite Hd. by right.
    + intros t' Hh. apply I4 in Hh as [_ Hh]. exfalso. apply Hh. rewrite Hd. left.
  - apply inv_update; try done; try lia.
    + apply vl_new_ok.
    + constructor.
    + apply not_elem_of_nil.
    + intros q Hq. by apply not_elem_of_nil in Hq.
    + intros t' Hh. apply I4 in Hh as [[vl Hvl] _]. apply I1 in Hvl as (_ & _ & ?). lia.
  - destruct (I1 _ _ Hp) as (? & Hn & ?). assert (holds s t p) as Hh by by exists (Taken p).
    apply inv_update; try done.
    + by apply reset_ok.
    + by rewrite reset_numelements.
    + by apply (I4 t p).
    + intros t' Ht'. by apply (I5 t' t p).
    + intros m i [= <-] Hi'. rewrite reset_unvisited by (done || by rewrite Hn).
      by rewrite bool_decide_eq_false_2 by apply not_elem_of_empty.
  - destruct (I1 _ _ Hp) as (Hok & Hn & ?). assert (holds s t p) as Hh by by exists (Using p m).
    apply inv_update; try done.
    + by apply mark_visited_ok.
    + by apply (I4 t p).
    + intros t' Ht'. by apply (I5 t' t p).
    + intros m' j [= <-] Hj. apply visited_mark; [done|done|]. by apply (I6 t p).
  - assert (holds s t p) as Hh by by exists (Using p m). destruct (I4 _ _ Hh) as [Hp Hnd].
    assert (∀ o d f t' q, holds (mkPS o d (delete t (threads s)) f) t' q ↔ t' ≠ t ∧ holds s t' q) as Hdel.
    { intros o d f t' q. unfold holds. simpl. destruct (decide (t' = t)) as [->|].
      - rewrite lookup_delete_eq. split; [by intros (? & ? & _)|by intros [? _]].
      - rewrite lookup_delete_ne by done. split; [done|by intros [_ ?]]. }
    split; simpl; try done.
    + intros q [->|Hq]%elem_of_cons; [done|by apply I2].
    + by constructor.
    + intros t' q [Hne Hq]%Hdel. destruct (I4 _ _ Hq) as [? Hqd]. split; [done|].
      intros [->|?]%elem_of_cons; [|done]. by apply Hne, (I5 t' t p).
    + intros t1 t2 q [_ H1]%Hdel [_ H2]%Hdel. by eapply I5.
    + intros t' q m' vl i. destruct (decide (t' = t)) as [->|]; [by rewrite lookup_delete_eq|].
      rewrite lookup_delete_ne by done. apply I6.
Qed.

Lemma pool_start_inv k : pool_inv (pool_start k).
Proof.
  assert (∀ p vl, objs (pool_start k) !! p = Some vl → vl = VisitedList_new numelements1 ∧ p < N.of_nat k) as Hobj.
  { intros p vl H%elem_of_list_to_map_2. apply list_elem_of_fmap in H as (n & [= -> ->] & Hn%elem_of_seq).
    split; [done|lia]. }
  split; simpl.
  - intros p vl H. destruct (Hobj p vl H) as [-> ?]. split_and!; [apply vl_new_ok|done|done].
  - intros p Hp. apply list_elem_of_fmap in Hp as (n & -> & Hn).
    destruct (list_to_map ((λ k0, (N.of_nat k0, VisitedList_new numelements1)) <$> seq 0 k) !! N.of_nat n) eqn:E; [done|].
    exfalso. apply not_elem_of_list_to_map_2 in E. apply E. rewrite <- list_fmap_compose. apply list_elem_of_fmap. exists n.
    split; [done|]. by apply list_elem_of_In, in_rev, list_elem_of_In.
  - apply NoDup_fmap_2; [apply _|]. apply NoDup_ListNoDup, NoDup_rev, NoDup_ListNoDup, NoDup_seq.
  - intros t p (x & Hx & _). simpl in Hx. by rewrite lookup_empty in Hx.
  - intros t1 t2 p (x & Hx & _). simpl in Hx. by rewrite lookup_empty in Hx.
  - intros t p m vl i Ht. by rewrite lookup_empty in Ht.
Qed.

Lemma pool_reachable_inv k s : rtc pool_step (pool_start k) s → pool_inv s.
Proof.
  revert s. apply rtc_ind_r; [apply pool_start_inv|]. intros s s' _ Hs Hi. by eapply pool_step_inv.
Qed.

(** C22. However many threads search at the same time and however their steps
    interleave: no list is held by two threads, no held list is in the pool, a
    thread that holds none can get one, and a thread that works on a list sees
    as visited exactly the nodes it has marked itself. *)
Theorem pool_threads_isolated (initmaxpools : nat) s :
  rtc pool_step (pool_start initmaxpools) s →
  (∀ t1 t2 p, holds s t1 p → holds s t2 p → t1 = t2) ∧
  (∀ t p, holds s t p → p ∉ deque s) ∧
  (∀ t, threads s !! t = None → ∃ s' p, pool_step s s' ∧ holds s' t p) ∧
  ∀ t p m, threads s !! t = Some (Using p m) →
    ∃ vl, objs s !! p = Some vl ∧ ∀ i, i < numelements1 → is_visited vl i = Some (bool_decide (i ∈ m)).
Proof.
  intros [I1 I2 I3 I4 I5 I6]%pool_reachable_inv. split_and!.
  - exact I5.
  - intros t p Hh. by apply (I4 t).
  - intros t Ht. destruct (deque s) as [|p rest] eqn:Hd; eexists _, _; (split; [by econstructor|]);
      eexists; (split; [apply lookup_insert_eq|done]).
  - intros t p m Ht. destruct (I4 t p) as [[vl Hvl] _]; [by exists (Using p m)|]. exists vl. split; [done|].
    intros i Hi. by eapply I6.
Qed.
End pool.

(** Two threads, the second served by a new list; the first marks node 2. *)
Lemma pool_demo : ∃ s, rtc (pool_step 4) (pool_start 4 1) s ∧
  threads s !! 7 = Some (Using 0 {[2]}) ∧ threads s !! 8 = Some (Taken 1).
Proof.
  eexists. split; [|split].
  - eapply rtc_l; [apply (take_front _ _ 7 0 []); vm_compute; reflexivity|].
    eapply rtc_l; [apply (take_new _ _ 8); vm_compute; reflexivity|].
    eapply rtc_l; [apply (reset_list _ _ 7 0 (VisitedList_new 4)); vm_compute; reflexivity|].
    eapply rtc_l; [apply (mark_node _ _ 7 0 ∅ (reset (VisitedList_new 4)) 2); vm_compute; reflexivity|].
    apply rtc_refl.
  - vm_compute. done.
  - vm_compute. done.
Qed.

Lemma pool_threads_isolated_witness : ∃ s,
  rtc (pool_step 4) (pool_start 4 1) s ∧ threads s !! 7 = Some (Using 0 {[2]}) ∧
  ∃ vl, objs s !! 0 = Some vl ∧ ∀ i, i < 4 → is_visited vl i = Some (bool_decide (i ∈ ({[2]} : gset N))).
Proof.
  destruct pool_demo as (s & Hs & H7 & _). exists s. split; [done|]. split; [done|].
  destruct (pool_threads_isolated 4 1 s Hs) as (_ & _ & _ & H). by apply H with 7.
Defined.
