(* ===== verification/ParallelFor.v ===== *)
(** * python_bindings/bindings.cpp: [ParallelFor]

    [numThreads] threads take ids from one atomic counter.  A thread is at the
    top of its loop, in a call of [fn], in the [catch] block before and after
    [lastException] is set, or done.  A step is one atomic action of one thread,
    so that every interleaving is a sequence of steps; the counter is a [size_t]
    and wraps.  What a call of [fn] does to the data is not part of this model,
    only whether it returns or throws. *)

From Stdlib Require Import Lia.
From stdpp Require Import base numbers list strings relations.
From S2P Require Import Prelude.
#[local] Open Scope N_scope.

Definition size_max1 : N := 18446744073709551616.

Inductive wstate :=
| Loop
| Calling (id : N)
| Catching (e : string)
| Storing
| Done.
#[global] Instance wstate_eq_dec : EqDecision wstate.
Proof. solve_decision. Defined.

(** [calls] and [thrown] record the calls made (the last first) and the
    exceptions caught. *)
Record fstate := mkFS {
  current : N;
  lastException : option string;
  workers : list wstate;
  calls : list (N * N);
  thrown : list string
}.

Section parallel_for.
Variables start end_ : N.
(** [fn id threadId] may return [Ok tt] or throw. *)
Variable fn : N → N → res unit → Prop.

Definition fetched (s : fstate) : N := (current s + 1) mod size_max1.
Definition for_init (numThreads : N) : fstate :=
  mkFS start None (replicate (N.to_nat numThreads) Loop) [] [].

Inductive for_step (s : fstate) : fstate → Prop :=
| step_take t : workers s !! t = Some Loop → current s < end_ →
    for_step s (mkFS (fetched s) (lastException s) (<[t := Calling (current s)]> (workers s))
                  ((current s, N.of_nat t) :: calls s) (thrown s))
| step_leave t : workers s !! t = Some Loop → end_ ≤ current s →
    for_step s (mkFS (fetched s) (lastException s) (<[t := Done]> (workers s)) (calls s) (thrown s))
| step_return t id : workers s !! t = Some (Calling id) → fn id (N.of_nat t) (Ok tt) →
    for_step s (mkFS (current s) (lastException s) (<[t := Loop]> (workers s)) (calls s) (thrown s))
| step_throw t id e : workers s !! t = Some (Calling id) → fn id (N.of_nat t) (Throw e) →
    for_step s (mkFS (current s) (lastException s) (<[t := Catching e]> (workers s)) (calls s) (e :: thrown s))
| step_catch t e : workers s !! t = Some (Catching e) →
    for_step s (mkFS (current s) (Some e) (<[t := Storing]> (workers s)) (calls s) (thrown s))
| step_store t : workers s !! t = Some Storing →
    for_step s (mkFS end_ (lastException s) (<[t := Done]> (workers s)) (calls s) (thrown s)).

Definition joined (s : fstate) : Prop := Forall (λ w, w = Done) (workers s).
Definition rethrown (s : fstate) : res unit :=
  match lastException s with Some e => Throw e | None => Ok tt end.

(** The loop with one thread, from [id] on: the calls in reverse, and the outcome. *)
Inductive for_seq : N → list (N * N) → list (N * N) → res unit → Prop :=
| seq_end id cs : end_ ≤ id → for_seq id cs cs (Ok tt)
| seq_next id cs cs' r : id < end_ → fn id 0 (Ok tt) → for_seq (id + 1) ((id, 0) :: cs) cs' r → for_seq id cs cs' r
| seq_throw id cs e : id < end_ → fn id 0 (Throw e) → for_seq id cs ((id, 0) :: cs) (Throw e).

(** [hardware] is [std::thread::hardware_concurrency()]. *)
Definition thread_count (numThreads hardware : N) : N := if numThreads =? 0 then hardware else numThreads.
Definition parallel_for (numThreads hardware : N) (cs : list (N * N)) (r : res unit) : Prop :=
  let n := thread_count numThreads hardware in
  if n =? 1 then for_seq start [] cs r
  else ∃ s, rtc for_step (for_init n) s ∧ joined s ∧ calls s = cs ∧ rethrown s = r.

(** ** Invariant *)
Definition dones (ws : list wstate) : N := N.of_nat (length (filter (λ w, w = Done) ws)).
Definition ids (n : nat) : list N := (λ k, start + N.of_nat k) <$> seq 0 n.

Lemma dones_insert ws t w w' : ws !! t = Some w →
  dones (<[t := w']> ws) + (if decide (w = Done) then 1 else 0) = dones ws + (if decide (w' = Done) then 1 else 0).
Proof.
  unfold dones. revert t. induction ws as [|x ws IH]; intros [|t]; simpl; [done|done| |].
  - intros [= ->]. rewrite !filter_cons. repeat case_decide; simpl; lia.
  - intros Ht. specialize (IH t Ht). rewrite !filter_cons. repeat case_decide; simpl in *; lia.
Qed.
Lemma dones_length ws : dones ws ≤ N.of_nat (length ws).
Proof. unfold dones. pose proof (length_filter (λ w, w = Done) ws). lia. Qed.
Lemma not_all_done ws t w : ws !! t = Some w → w ≠ Done → dones ws < N.of_nat (length ws).
Proof.
  intros Ht Hw. pose proof (dones_insert ws t w Done Ht) as H. rewrite decide_False, decide_True in H by done.
  pose proof (dones_length (<[t := Done]> ws)) as Hl. rewrite length_insert in Hl. lia.
Qed.
Lemma ids_snoc n : ids (S n) = ids n ++ [start + N.of_nat n].
Proof. unfold ids. by rewrite seq_S, fmap_app. Qed.
Lemma elem_ids n x : x ∈ ids n ↔ start ≤ x < start + N.of_nat n.
Proof.
  unfold ids. rewrite list_elem_of_fmap. split.
  - intros (k & -> & Hk%elem_of_seq). lia.
  - intros Hx. exists (N.to_nat (x - start)). split; [lia|]. apply elem_of_seq. lia.
Qed.
Lemma nodup_ids n : NoDup (ids n).
Proof. unfold ids. apply NoDup_fmap_2; [intros a b; lia|]. apply NoDup_seq. Qed.

Context (numThreads : N) (room : N.max start end_ + numThreads < size_max1).

Record for_inv (s : fstate) : Prop := {
  fi_threads : N.of_nat (length (workers s)) = numThreads;
  fi_calls : rev (calls s).*1 = ids (length (calls s));
  fi_bound : calls s = [] ∨ start + N.of_nat (length (calls s)) ≤ end_;
  fi_current : current s ≤ N.max start end_ + dones (workers s);
  fi_next : current s = start + N.of_nat (length (calls s)) ∨ end_ ≤ current s;
  fi_clean : thrown s = [] → current s = start + N.of_nat (length (calls s)) + dones (workers s) ∧
    (0 < dones (workers s) → end_ ≤ start + N.of_nat (length (calls s)));
  fi_last e : lastException s = Some e → e ∈ thrown s;
  fi_thrown e : e ∈ thrown s → ∃ id t, (id, t) ∈ calls s ∧ fn id t (Throw e);
  fi_tid id t : (id, t) ∈ calls s → t < numThreads;
  fi_calling t id : workers s !! t = Some (Calling id) → (id, N.of_nat t) ∈ calls s;
  fi_catching t e : workers s !! t = Some (Catching e) → e ∈ thrown s;
  fi_caught : thrown s ≠ [] → lastException s ≠ None ∨ ∃ t e, workers s !! t = Some (Catching e);
  fi_storing t : workers s !! t = Some Storing → thrown s ≠ []
}.

Lemma for_init_inv : for_inv (for_init numThreads).
Proof.
  assert (dones (replicate (N.to_nat numThreads) Loop) = 0) as Hz.
  { unfold dones. induction (N.to_nat numThreads) as [|n IH]; simpl; [done|]. by rewrite filter_cons_False. }
  assert (∀ t w, replicate (N.to_nat numThreads) Loop !! t = Some w → w = Loop) as Hw.
  { intros t w [-> _]%lookup_replicate. done. }
  split; simpl; rewrite ?Hz.
  - rewrite length_replicate. lia.
  - done.
  - by left.
  - lia.
  - left. lia.
  - split; lia.
  - done.
  - by intros e ?%elem_of_nil.
  - by intros id t ?%elem_of_nil.
  - intros t id H. by apply Hw in H.
  - intros t e H. by apply Hw in H.
  - done.
  - intros t H. by apply Hw in H.
Qed.

(** Cases of a lookup in the updated workers. *)
Ltac worker_cases H := apply list_lookup_insert_Some in H as [(<- & ? & _)|[? H]].
Ltac count_done H := pose proof (dones_insert _ _ _ Done H); pose proof (not_all_done _ _ _ H ltac:(done)).

Lemma fetched_next s t : for_inv s → workers s !! t = Some Loop → fetched s = current s + 1.
Proof.
  intros Hs Ht. pose proof (not_all_done _ _ _ Ht ltac:(done)). destruct Hs as [F1 _ _ F4 _ _ _ _ _ _ _ _ _].
  unfold fetched. apply N.mod_small. lia.
Qed.

Lemma take_inv s t : for_inv s → workers s !! t = Some Loop → current s < end_ →
  for_inv (mkFS (fetched s) (lastException s) (<[t := Calling (current s)]> (workers s))
             ((current s, N.of_nat t) :: calls s) (thrown s)).
Proof.
  intros Hs Ht Hlt. rewrite (fetched_next s t) by done. destruct Hs as [F1 F2 F3 F4 F5 F6 F7 F8 F8' F9 F10 F11 F12].
  destruct F5 as [F5|F5]; [|lia]. pose proof (dones_insert _ _ _ (Calling (current s)) Ht) as Hd.
  rewrite !decide_False in Hd by done.
  split; cbn [workers calls current thrown lastException length].
  - by rewrite length_insert.
  - rewrite fmap_cons. cbn [rev]. rewrite F2, ids_snoc. by rewrite <- F5.
  - right. lia.
  - lia.
  - left. lia.
  - intros E. destruct (F6 E) as [F6a F6b]. split; [lia|]. intros Hz. lia.
  - done.
  - intros e He. destruct (F8 e He) as (id & t' & ? & ?). exists id, t'. split; [by right|done].
  - intros id t' [[= -> ->]|Hin]%elem_of_cons; [|eauto]. apply lookup_lt_Some in Ht. lia.
  - intros t' id H. worker_cases H; [|right; auto]. simplify_eq. left.
  - intros t' e H. worker_cases H; [done|eauto].
  - intros E. destruct (F11 E) as [?|(t' & e & He)]; [by left|]. right. exists t', e.
    rewrite list_lookup_insert_ne; [done|]. intros <-. congruence.
  - intros t' H. worker_cases H; [done|eauto].
Qed.
Lemma leave_inv s t : for_inv s → workers s !! t = Some Loop → end_ ≤ current s →
  for_inv (mkFS (fetched s) (lastException s) (<[t := Done]> (workers s)) (calls s) (thrown s)).
Proof.
  intros Hs Ht Hge. rewrite (fetched_next s t) by done. destruct Hs as [F1 F2 F3 F4 F5 F6 F7 F8 F8' F9 F10 F11 F12].
  count_done Ht. rewrite decide_False, decide_True in * by done.
  split; cbn [workers calls current thrown lastException]; try done.
  - by rewrite length_insert.
  - lia.
  - right. lia.
  - intros E. destruct (F6 E) as [F6a F6b]. split; lia.
  - intros t' id H'. worker_cases H'; [done|eauto].
  - intros t' e H'. worker_cases H'; [done|eauto].
  - intros E. destruct (F11 E) as [?|(t' & e & He)]; [by left|]. right. exists t', e.
    rewrite list_lookup_insert_ne; [done|]. intros <-. congruence.
  - intros t' H'. worker_cases H'; [done|eauto].
Qed.

Lemma return_inv s t id : for_inv s → workers s !! t = Some (Calling id) →
  for_inv (mkFS (current s) (lastException s) (<[t := Loop]> (workers s)) (calls s) (thrown s)).
Proof.
  intros [F1 F2 F3 F4 F5 F6 F7 F8 F8' F9 F10 F11 F12] Ht. pose proof (dones_insert _ _ _ Loop Ht) as Hd.
  rewrite !decide_False in Hd by done.
  split; cbn [workers calls current thrown lastException]; try done.
  - by rewrite length_insert.
  - lia.
  - intros E. destruct (F6 E) as [F6a F6b]. split; lia.
  - intros t' id' H'. worker_cases H'; [done|eauto].
  - intros t' e H'. worker_cases H'; [done|eauto].
  - intros E. destruct (F11 E) as [?|(t' & e & He)]; [by left|]. right. exists t', e.
    rewrite list_lookup_insert_ne; [done|]. intros <-. congruence.
  - intros t' H'. worker_cases H'; [done|eauto].
Qed.

Lemma throw_inv s t id e : for_inv s → workers s !! t = Some (Calling id) → fn id (N.of_nat t) (Throw e) →
  for_inv (mkFS (current s) (lastException s) (<[t := Catching e]> (workers s)) (calls s) (e :: thrown s)).
Proof.
  intros [F1 F2 F3 F4 F5 F6 F7 F8 F8' F9 F10 F11 F12] Ht Hfn. pose proof (dones_insert _ _ _ (Catching e) Ht) as Hd.
  rewrite !decide_False in Hd by done.
  split; cbn [workers calls current thrown lastException]; try done.
  - by rewrite length_insert.
  - lia.
  - intros e' He. right. auto.
  - intros e' [->|He]%elem_of_cons; [|auto]. exists id, (N.of_nat t). auto.
  - intros t' id' H'. worker_cases H'; [done|eauto].
  - intros t' e' H'. worker_cases H'; [|right; eauto]. simplify_eq. left.
  - intros _. right. exists t, e. apply list_lookup_insert_eq. by eapply lookup_lt_Some.
Qed.

Lemma catch_inv s t e : for_inv s → workers s !! t = Some (Catching e) →
  for_inv (mkFS (current s) (Some e) (<[t := Storing]> (workers s)) (calls s) (thrown s)).
Proof.
  intros [F1 F2 F3 F4 F5 F6 F7 F8 F8' F9 F10 F11 F12] Ht. pose proof (dones_insert _ _ _ Storing Ht) as Hd.
  rewrite !decide_False in Hd by done. pose proof (F10 _ _ Ht) as He.
  split; cbn [workers calls current thrown lastException]; try done.
  - by rewrite length_insert.
  - lia.
  - intros E. rewrite E in He. by apply elem_of_nil in He.
  - by intros e' [= <-].
  - intros t' id' H'. worker_cases H'; [done|eauto].
  - intros t' e' H'. worker_cases H'; [done|eauto].
  - intros _. by left.
  - intros t' H' E. rewrite E in He. by apply elem_of_nil in He.
Qed.

Lemma store_inv s t : for_inv s → workers s !! t = Some Storing →
  for_inv (mkFS end_ (lastException s) (<[t := Done]> (workers s)) (calls s) (thrown s)).
Proof.
  intros [F1 F2 F3 F4 F5 F6 F7 F8 F8' F9 F10 F11 F12] Ht. pose proof (F12 _ Ht) as Hne.
  split; cbn [workers calls current thrown lastException]; try done.
  - by rewrite length_insert.
  - lia.
  - by right.
  - intros t' id' H'. worker_cases H'; [done|eauto].
  - intros t' e' H'. worker_cases H'; [done|eauto].
  - intros E. destruct (F11 E) as [?|(t' & e & He)]; [by left|]. right. exists t', e.
    rewrite list_lookup_insert_ne; [done|]. intros <-. congruence.
Qed.

#[local] Hint Resolve take_inv leave_inv return_inv throw_inv catch_inv store_inv : hnsw.
Lemma for_step_inv s s' : for_step s s' → for_inv s → for_inv s'.
Proof.
  intros Hst Hs. destruct Hst; eauto with hnsw.
Qed.
Lemma for_steps_inv s : rtc for_step (for_init numThreads) s → for_inv s.
Proof.
  assert (∀ x, for_inv x → rtc for_step x s → for_inv s) as H.
  { intros x Hx. induction 1 as [|x y z Hxy _ IH]; [done|]. eauto using for_step_inv. }
  intros Hr. eapply H; [apply for_init_inv|done].
Qed.

(** ** Outcome *)

(** What the calls are: each id of the range at most once, in order; all of
    them when nothing was thrown. *)
Record for_outcome (cs : list (N * N)) (r : res unit) : Prop := {
  oc_ids : rev cs.*1 = ids (length cs);
  oc_bound : cs = [] ∨ start + N.of_nat (length cs) ≤ end_;
  oc_tid id t : (id, t) ∈ cs → t < numThreads;
  oc_result : match r with
    | Ok _ => end_ ≤ start + N.of_nat (length cs)
    | Throw e => ∃ id t, (id, t) ∈ cs ∧ fn id t (Throw e)
    | _ => False
    end
}.
Lemma joined_outcome s : for_inv s → 1 ≤ numThreads → joined s → for_outcome (calls s) (rethrown s).
Proof.
  intros [F1 F2 F3 F4 F5 F6 F7 F8 F8' F9 F10 F11 F12] Hn Hj. split; [done..|]. unfold rethrown.
  destruct (lastException s) as [e|] eqn:E; [by apply F8, F7|].
  destruct (decide (thrown s = [])) as [E0|E0].
  - apply F6; [done|]. unfold dones. rewrite filter_every by done. lia.
  - destruct (F11 E0) as [?|(t & e & Ht)]; [done|]. unfold joined in Hj. rewrite Forall_lookup in Hj.
    by specialize (Hj _ _ Ht).
Qed.
Lemma seq_outcome id cs cs' r : for_seq id cs cs' r → 1 ≤ numThreads →
  rev cs.*1 = ids (length cs) → id = start + N.of_nat (length cs) → cs = [] ∨ id ≤ end_ →
  (∀ id t, (id, t) ∈ cs → t < numThreads) → for_outcome cs' r.
Proof.
  intros H Hn. induction H as [id cs Hge|id cs cs' r Hlt Hfn _ IH|id cs e Hlt Hfn]; intros E1 E2 E3 E4.
  - split; [done| |done|lia]. destruct E3; [by left|right; lia].
  - apply IH; [|simpl; lia|right; lia|].
    + rewrite fmap_cons. cbn [rev length fst]. rewrite E1, ids_snoc. by subst.
    + intros i t [[= -> ->]|Hi]%elem_of_cons; [lia|eauto].
  - split; [|right; simpl; lia| |].
    + rewrite fmap_cons. cbn [rev length fst]. rewrite E1, ids_snoc. by subst.
    + intros i t [[= -> ->]|Hi]%elem_of_cons; [lia|eauto].
    + exists id, 0. split; [left|done].
Qed.

Lemma outcome_once cs r : for_outcome cs r →
  NoDup cs.*1 ∧ (∀ id, id ∈ cs.*1 → start ≤ id < end_) ∧
  (r = Ok tt → cs.*1 ≡ₚ ids (N.to_nat (end_ - start))).
Proof.
  intros [O1 O2 _ O4]. assert (cs.*1 ≡ₚ ids (length cs)) as Hp by (rewrite <- O1; apply Permutation_rev).
  split_and!.
  - rewrite Hp. apply nodup_ids.
  - intros id. rewrite Hp, elem_ids. destruct O2 as [->|O2]; simpl; lia.
  - intros ->. rewrite Hp. destruct O2 as [->|O2]; simpl in *.
    + by replace (N.to_nat (end_ - start)) with 0%nat by lia.
    + by replace (N.to_nat (end_ - start)) with (length cs) by lia.
Qed.

(** ** Termination *)
Definition weight (w : wstate) : nat :=
  match w with Loop => 1 | Calling _ => 4 | Catching _ => 3 | Storing => 2 | Done => 0 end.
Definition for_measure (s : fstate) : nat :=
  4 * (N.to_nat (end_ - start) - length (calls s)) + sum_list_with weight (workers s).
Lemma weight_insert ws t w w' : ws !! t = Some w →
  (sum_list_with weight (<[t := w']> ws) + weight w = sum_list_with weight ws + weight w')%nat.
Proof.
  revert t. induction ws as [|x ws IH]; intros [|t]; simpl; [done|done| |].
  - intros [= ->]. lia.
  - intros Ht. specialize (IH t Ht). lia.
Qed.
Lemma for_step_decreases s s' : for_inv s → for_step s s' → (for_measure s' < for_measure s)%nat.
Proof.
  intros Hs Hst. pose proof (fi_next _ Hs) as F5. unfold for_measure.
  destruct Hst as [t Ht Hlt|t Ht Hge|t id Ht _|t id e Ht _|t e Ht|t Ht]; cbn [workers calls length];
    pose proof (weight_insert _ _ _ Done Ht); pose proof (weight_insert _ _ _ Loop Ht);
    pose proof (weight_insert _ _ _ Storing Ht); pose proof (weight_insert _ _ _ (Calling (current s)) Ht);
    try pose proof (weight_insert _ _ _ (Catching e) Ht); simpl in *; lia.
Qed.
Lemma run_bound k s : nsteps for_step k (for_init numThreads) s →
  (k + for_measure s ≤ 4 * N.to_nat (end_ - start) + N.to_nat numThreads)%nat.
Proof.
  assert (∀ x, for_inv x → nsteps for_step k x s → (k + for_measure s ≤ for_measure x)%nat) as H.
  { intros x Hx. induction 1 as [|n x y z Hxy _ IH]; [lia|].
    pose proof (for_step_decreases _ _ Hx Hxy). specialize (IH (for_step_inv _ _ Hxy Hx)). lia. }
  intros Hr. specialize (H _ for_init_inv Hr). etrans; [exact H|]. unfold for_measure. simpl.
  assert (sum_list_with weight (replicate (N.to_nat numThreads) Loop) = N.to_nat numThreads) as ->; [|lia].
  induction (N.to_nat numThreads); simpl; lia.
Qed.

Context (fn_total : ∀ id t, fn id t (Ok tt) ∨ ∃ e, fn id t (Throw e)).
#[local] Hint Constructors for_step for_seq : hnsw.
Lemma for_progress s : joined s ∨ ∃ s', for_step s s'.
Proof.
  destruct (decide (Forall (λ w, w = Done) (workers s))) as [|Hn]; [by left|right].
  apply not_Forall_Exists in Hn; [|apply _]. apply Exists_exists in Hn as (w & Hw & Hne).
  apply list_elem_of_lookup in Hw as [t Ht]. destruct w as [|id|e| |]; [| | | |by destruct Hne].
  - destruct (N.lt_ge_cases (current s) end_); eauto with hnsw.
  - destruct (fn_total id (N.of_nat t)) as [|[e ?]]; eauto with hnsw.
  - eauto with hnsw.
  - eauto with hnsw.
Qed.
Lemma for_finishes n : ∀ s, for_inv s → (for_measure s ≤ n)%nat → ∃ s', rtc for_step s s' ∧ joined s'.
Proof.
  induction n as [|n IH]; intros s Hs Hm; (destruct (for_progress s) as [Hj|[s1 H1]]; [by exists s|]);
    pose proof (for_step_decreases s s1 Hs H1); [lia|].
  destruct (IH s1 (for_step_inv _ _ H1 Hs) ltac:(lia)) as (s' & Hr & Hj). exists s'. split; [by econstructor|done].
Qed.
Lemma seq_finishes n : ∀ id cs, (N.to_nat (end_ - id) ≤ n)%nat → ∃ cs' r, for_seq id cs cs' r.
Proof.
  induction n as [|n IH]; intros id cs Hn; (destruct (N.lt_ge_cases id end_); [|by eauto with hnsw]); [lia|].
  destruct (fn_total id 0) as [Hok|[e He]]; [|eauto with hnsw].
  destruct (IH (id + 1) ((id, 0) :: cs) ltac:(lia)) as (cs' & r & Hr). eauto with hnsw.
Qed.
End parallel_for.

Lemma ids_cons start n : ids start (S n) = start :: ids (start + 1) n.
Proof.
  unfold ids. cbn [seq fmap list_fmap]. rewrite N.add_0_r. f_equal. rewrite <- fmap_S_seq, <- list_fmap_compose.
  apply list_fmap_ext. intros _ k _. simpl. lia.
Qed.
Lemma parallel_for_outcome (start end_ numThreads hardware : N) (fn : N → N → res unit → Prop) cs r :
  let n := thread_count numThreads hardware in
  1 ≤ n → N.max start end_ + n < size_max1 → parallel_for start end_ fn numThreads hardware cs r →
  for_outcome start end_ fn n cs r.
Proof.
  intros n Hn Hroom Hrun. unfold parallel_for in Hrun. fold n in Hrun. destruct (N.eqb_spec n 1).
  - eapply seq_outcome with (id := start) (cs := []); [done|done|done|done|simpl; lia|by left|].
    by intros id t ?%elem_of_nil.
  - destruct Hrun as (s & Hs & Hj & <- & <-). eapply joined_outcome; eauto using for_steps_inv.
Qed.

(** ** Theorems *)

(** C20. [ParallelFor(start, end, numThreads, fn)] calls [fn] at most once for
    every id, only for ids of the range and with a thread number below the
    number of threads, in every interleaving; when it returns normally it has
    called [fn] for all ids of the range, and when it throws, the exception is
    one that a call threw.  The counter must have room above [end] for one
    increment per thread. *)
Theorem ParallelFor_once (start end_ numThreads hardware : N) (fn : N → N → res unit → Prop)
    (cs : list (N * N)) (r : res unit) :
  let n := thread_count numThreads hardware in
  1 ≤ n → N.max start end_ + n < size_max1 → parallel_for start end_ fn numThreads hardware cs r →
  NoDup cs.*1 ∧ (∀ id t, (id, t) ∈ cs → start ≤ id < end_ ∧ t < n) ∧
  match r with
  | Ok _ => cs.*1 ≡ₚ ids start (N.to_nat (end_ - start))
  | Throw e => ∃ id t, (id, t) ∈ cs ∧ fn id t (Throw e)
  | _ => False
  end.
Proof.
  intros n Hn Hroom Hrun. pose proof (parallel_for_outcome _ _ _ _ _ _ _ Hn Hroom Hrun) as Ho.
  apply outcome_once in Ho as Ho'; [|done]. destruct Ho' as (H1 & H2 & H3). split_and!; [done| |].
  - intros id t Hi. split; [|by eapply oc_tid]. apply H2, list_elem_of_fmap. by exists (id, t).
  - pose proof (oc_result _ _ _ _ _ _ Ho) as H4. destruct r as [[]|e|u|]; [by apply H3|done..].
Qed.

(** C21. [ParallelFor] ends: as long as every call of [fn] returns or throws,
    no run has more than four steps per id and one per thread, a run that is
    not over can go on, and so the call has an outcome. *)
Theorem ParallelFor_ends (start end_ numThreads hardware : N) (fn : N → N → res unit → Prop) :
  let n := thread_count numThreads hardware in
  1 ≤ n → N.max start end_ + n < size_max1 → (∀ id t, fn id t (Ok tt) ∨ ∃ e, fn id t (Throw e)) →
  (∀ k s, nsteps (for_step end_ fn) k (for_init start n) s →
    (k ≤ 4 * N.to_nat (end_ - start) + N.to_nat n)%nat ∧ (joined s ∨ ∃ s', for_step end_ fn s s')) ∧
  ∃ cs r, parallel_for start end_ fn numThreads hardware cs r.
Proof.
  intros n Hn Hroom Hfn. split.
  - intros k s Hk. split; [|by apply for_progress].
    pose proof (run_bound start end_ fn n Hroom k s Hk). lia.
  - unfold parallel_for. fold n. destruct (N.eqb_spec n 1).
    + by eapply seq_finishes.
    + destruct (for_finishes start end_ fn n Hroom Hfn (for_measure start end_ (for_init start n)) (for_init start n))
        as (s & Hs & Hj); [by apply for_init_inv|done|]. eauto 10.
Qed.

(** The comment in the [catch] block does not hold for the largest [end]:
    with [end = 2^64 - 1] the counter wraps to 0 as soon as a thread finds the
    range empty, and the next thread calls [fn] for id 0, outside of the range. *)
Theorem ParallelFor_wraps (fn : N → N → res unit → Prop) :
  let m := size_max1 - 1 in
  ∃ s, rtc (for_step m fn) (for_init m 2) s ∧ calls s = [(0, 1)].
Proof.
  intros m. eexists. split.
  - eapply rtc_l; [by apply (step_leave m fn _ 0)|]. eapply rtc_l; [by apply (step_take m fn _ 1)|]. apply rtc_refl.
  - by vm_compute.
Qed.

Definition fails_at (bad : N) (id _ : N) (r : res unit) : Prop := r = if id =? bad then Throw "bad" else Ok tt.
Lemma ParallelFor_once_witness :
  NoDup [(5, 1)].*1 ∧ (∀ id t, (id, t) ∈ [(5, 1)] → 5 ≤ id < 6 ∧ t < 2) ∧ [(5, 1)].*1 ≡ₚ ids 5 1.
Proof.
  apply (ParallelFor_once 5 6 2 0 (fails_at 9) [(5, 1)] (Ok tt)); [done|done|].
  exists (mkFS 8 None [Done; Done] [(5, 1)] []). split_and!; [|by repeat constructor|done|done].
  eapply (rtc_l _ _ (mkFS 6 None [Loop; Calling 5] [(5, 1)] [])); [by apply (step_take 6 (fails_at 9) (for_init 5 2) 1)|].
  eapply (rtc_l _ _ (mkFS 7 None [Done; Calling 5] [(5, 1)] [])); [by apply (step_leave 6 (fails_at 9) (mkFS 6 None [Loop; Calling 5] [(5, 1)] []) 0)|].
  eapply (rtc_l _ _ (mkFS 7 None [Done; Loop] [(5, 1)] [])); [by eapply (step_return 6 (fails_at 9) (mkFS 7 None [Done; Calling 5] [(5, 1)] []) 1)|].
  apply rtc_once. by apply (step_leave 6 (fails_at 9) (mkFS 7 None [Done; Loop] [(5, 1)] []) 1).
Defined.
Lemma ParallelFor_ends_witness : ∃ cs r, parallel_for 5 7 (fails_at 6) 0 4 cs r.
Proof.
  apply (ParallelFor_ends 5 7 0 4 (fails_at 6)); [done|done|].
  intros id t. unfold fails_at. destruct (id =? 6); [right; eauto|by left].
Defined.
