(* ===== verification/Arith.v ===== *)
(** * Arithmetic of the distance kernels

    The kernels of space_l2.h and space_ip.h are written once, over an
    interface [Arith] with the operations a kernel uses.  Two instances:

    - [b32_arith]: IEEE-754 binary32 with round-to-nearest-even, the [float]
      of the code, through the executable [SpecFloat] operations of the
      standard library with 24 bits of precision and [emax = 128];
    - [Z_arith]: exact integer arithmetic.

    [ExactArith] collects the laws under which the grouping of a sum does not
    matter.  Exact arithmetic has them and binary32 does not, so the kernels
    are proved to compute the same distance over [ExactArith], and run over
    binary32.

    The file also holds [DistT], what the index needs of a distance type
    ([<], unary minus, [numeric_limits::max]), with [int] and non-NaN
    [float] as instances. *)

From Stdlib Require Import ZArith Lia SpecFloat.
From stdpp Require Import base numbers list.
From S2P Require Import Prelude.

(** ** Scalars of the kernels *)
Class Arith (F : Type) := {
  azero : F;
  aone : F;
  aadd : F → F → F;
  asub : F → F → F;
  amul : F → F → F;
  afma : F → F → F → F;   (* a * b + c, one rounding *)
  aones : F               (* the value whose bits are all ones *)
}.

Class ExactArith (F : Type) `{Arith F} : Prop := {
  aadd_comm a b : aadd a b = aadd b a;
  aadd_assoc a b c : aadd a (aadd b c) = aadd (aadd a b) c;
  aadd_0_l a : aadd azero a = a;
  afma_exact a b c : afma a b c = aadd (amul a b) c
}.

Definition asum {F} `{Arith F} (l : list F) : F := foldr aadd azero l.

Section exact.
Context {F : Type} `{ExactArith F}.

Lemma aadd_0_r a : aadd a azero = a.
Proof. by rewrite aadd_comm, aadd_0_l. Qed.
Lemma asum_app l1 l2 : asum (l1 ++ l2) = aadd (asum l1) (asum l2).
Proof.
  induction l1 as [|x l1 IH]; simpl; [by rewrite aadd_0_l|].
  by rewrite IH, aadd_assoc.
Qed.
Lemma asum_zip_add l1 l2 :
  length l1 = length l2 → asum (zip_with aadd l1 l2) = aadd (asum l1) (asum l2).
Proof.
  revert l2. induction l1 as [|x l1 IH]; intros [|y l2] Hl; simplify_eq/=.
  { by rewrite aadd_0_l. }
  rewrite IH by done. rewrite <- !aadd_assoc. f_equal.
  rewrite !aadd_assoc. f_equal. apply aadd_comm.
Qed.
Lemma asum_replicate_0 n : asum (replicate n azero) = azero.
Proof. induction n as [|n IH]; simpl; [done|]. by rewrite IH, aadd_0_l. Qed.
Lemma foldl_aadd l a : foldl aadd a l = aadd a (asum l).
Proof.
  revert a. induction l as [|x l IH]; intros a; simpl; [by rewrite aadd_0_r|].
  by rewrite IH, aadd_assoc.
Qed.
End exact.

(** Exact integers. *)
#[export] Instance Z_arith : Arith Z := {
  azero := 0%Z; aone := 1%Z; aadd := Z.add; asub := Z.sub; amul := Z.mul;
  afma a b c := (a * b + c)%Z; aones := (-1)%Z
}.
#[export] Instance Z_exact : ExactArith Z.
Proof. split; intros; simpl; lia. Qed.

(** ** binary32 *)
Abbreviation float32 := spec_float.
Definition f32_prec : Z := 24.
Definition f32_emax : Z := 128.
Definition f32_add : float32 → float32 → float32 := SFadd f32_prec f32_emax.
Definition f32_sub : float32 → float32 → float32 := SFsub f32_prec f32_emax.
Definition f32_mul : float32 → float32 → float32 := SFmul f32_prec f32_emax.
Definition f32_div : float32 → float32 → float32 := SFdiv f32_prec f32_emax.
Definition f32_sqrt : float32 → float32 := SFsqrt f32_prec f32_emax.
Definition f32_of_Z (z : Z) : float32 := binary_normalize f32_prec f32_emax z 0 false.

(** Fused multiply-add: the exact product is added before the rounding. *)
Definition f32_fma (x y z : float32) : float32 :=
  match x, y with
  | S754_finite sx mx ex, S754_finite sy my ey =>
      let s := xorb sx sy in let m := (mx * my)%positive in let e := (ex + ey)%Z in
      match z with
      | S754_finite sz mz ez =>
          let e' := Z.min e ez in
          binary_normalize f32_prec f32_emax
            (cond_Zopp s (Z.pos (fst (shl_align m e e'))) +
             cond_Zopp sz (Z.pos (fst (shl_align mz ez e'))))%Z e' false
      | S754_zero _ => binary_round_aux f32_prec f32_emax s (Z.pos m) e loc_Exact
      | _ => z
      end
  | _, _ => f32_add (f32_mul x y) z
  end.

#[export] Instance b32_arith : Arith float32 := {
  azero := S754_zero false; aone := f32_of_Z 1;
  aadd := f32_add; asub := f32_sub; amul := f32_mul; afma := f32_fma;
  aones := S754_nan
}.

Definition is_nan (x : float32) : bool :=
  match x with S754_nan => true | _ => false end.

(** ** Distances *)
Class DistT (D : Type) := {
  dlt : D → D → bool;       (* operator< *)
  dneg : D → D;             (* unary minus *)
  dmax : D                  (* std::numeric_limits<dist_t>::max() *)
}.

Class DistOrder (D : Type) `{DistT D} : Prop := {
  dlt_sw :: StrictWeak dlt;
  dneg_lt a b : dlt (dneg a) (dneg b) = dlt b a;
  dneg_neg a : dneg (dneg a) = a
}.

(** [dist_t = int]. *)
#[export] Instance int_dist : DistT Z := {
  dlt := Z.ltb; dneg := Z.opp; dmax := 2147483647%Z
}.
#[export] Instance int_dist_order : DistOrder Z.
Proof.
  split; [apply _| |].
  - intros a b. simpl. destruct (Z.ltb_spec b a), (Z.ltb_spec (- a) (- b)); lia || done.
  - intros a. simpl. lia.
Qed.

(** [dist_t = float], NaN excluded: comparisons with NaN are not an order. *)
Record nfloat := NF { nf : float32; nf_ok : is_nan nf = false }.

Definition nf_neg (x : nfloat) : nfloat.
Proof. refine (NF (SFopp (nf x)) _). abstract (destruct x as [[] ?]; done). Defined.

#[export] Instance float_dist : DistT nfloat := {
  dlt x y := SFltb (nf x) (nf y);
  dneg := nf_neg;
  dmax := NF (SFmax_float f32_prec f32_emax) eq_refl
}.

Lemma nfloat_eq x y : nf x = nf y → x = y.
Proof. destruct x, y; simpl. intros ->. f_equal. apply proof_irrel. Qed.

(** The order of non-NaN floats is lexicographic on sign class, exponent and
    mantissa, mirrored for negative numbers. *)
Definition f32_key (x : float32) : Z * Z * Z :=
  match x with
  | S754_infinity false => (2, 0, 0)
  | S754_finite false m e => (1, e, Z.pos m)
  | S754_zero _ | S754_nan => (0, 0, 0)
  | S754_finite true m e => (-1, - e, Z.neg m)
  | S754_infinity true => (-2, 0, 0)
  end%Z.
Definition key_lt : Z * Z * Z → Z * Z * Z → bool := lt_pair (lt_pair Z.ltb Z.ltb) Z.ltb.

Lemma SFltb_key x y :
  is_nan x = false → is_nan y = false → SFltb x y = key_lt (f32_key x) (f32_key y).
Proof.
  intros Hx Hy. unfold SFltb, SFcompare, key_lt, lt_pair.
  destruct x as [sx|sx| |[] mx ex], y as [sy|sy| |[] my ey]; try done;
    try destruct sx; try destruct sy; simpl; try done.
  all: rewrite ?Z.ltb_irrefl; simpl; rewrite ?orb_false_r, ?andb_true_r.
  all: change (Pos.compare_cont Eq mx my) with (Pos.compare mx my).
  - destruct (Z.compare_spec ex ey);
      destruct (Z.ltb_spec (- ex) (- ey)), (Z.ltb_spec (- ey) (- ex)); try lia; try done;
      rewrite ?Z.ltb_irrefl; simpl;
      destruct (Pos.compare_spec mx my), (Z.ltb_spec (Z.neg mx) (Z.neg my)); simpl; try done; lia.
  - destruct (Z.compare_spec ex ey);
      destruct (Z.ltb_spec ex ey), (Z.ltb_spec ey ex); try lia; try done;
      rewrite ?Z.ltb_irrefl; simpl;
      destruct (Pos.compare_spec mx my), (Z.ltb_spec (Z.pos mx) (Z.pos my)); simpl; try done; lia.
Qed.

Lemma f32_key_opp x :
  f32_key (SFopp x) = (- (f32_key x).1.1, - (f32_key x).1.2, - (f32_key x).2)%Z.
Proof. destruct x as [[]|[]| |[] m e]; simpl; try done; f_equal; f_equal; lia. Qed.

Lemma key_lt_opp a b :
  key_lt (- a.1.1, - a.1.2, - a.2)%Z (- b.1.1, - b.1.2, - b.2)%Z = key_lt b a.
Proof.
  assert (∀ x y, Z.ltb (- x) (- y) = Z.ltb y x) as E.
  { intros x y. destruct (Z.ltb_spec y x), (Z.ltb_spec (- x) (- y)); lia || done. }
  unfold key_lt, lt_pair. simpl. by rewrite !E.
Qed.

#[export] Instance float_dist_order : DistOrder nfloat.
Proof.
  assert (∀ x y, dlt x y = key_lt (f32_key (nf x)) (f32_key (nf y))) as E.
  { intros [x Hx] [y Hy]. by apply SFltb_key. }
  assert (StrictWeak key_lt) as Hk by (unfold key_lt; apply _).
  split.
  - split; intros *; rewrite !E; [apply sw_irrefl|apply sw_negtrans|apply sw_trans].
  - intros a b. rewrite !E. simpl. rewrite !f32_key_opp. apply key_lt_opp.
  - intros a. apply nfloat_eq. simpl. destruct (nf a); simpl; by rewrite ?negb_involutive.
Qed.
