(* ===== verification/Floats.v ===== *)
(** * The bits of a [float]

    binary32 values as the 32-bit words that arrays and files hold. *)

From Stdlib Require Import ZArith NArith Lia SpecFloat.
From stdpp Require Import base numbers list strings.
From S2P Require Import Prelude Binary Arith.
#[local] Open Scope N_scope.

Definition sign_bit (s : bool) : N := if s then 2147483648 else 0.
Definition bits_of_float (x : float32) : N :=
  match x with
  | S754_zero s => sign_bit s
  | S754_infinity s => sign_bit s + 2139095040
  | S754_nan => 2143289344
  | S754_finite s m e =>
      sign_bit s +
      (if N.pos m <? 8388608 then N.pos m else Z.to_N (e + 150) * 8388608 + (N.pos m - 8388608))
  end.
Definition float_of_bits (bits : N) : float32 :=
  let s := 2147483648 <=? bits in
  let exponent := (bits / 8388608) mod 256 in
  let fraction := bits mod 8388608 in
  if exponent =? 255 then if fraction =? 0 then S754_infinity s else S754_nan
  else if exponent =? 0 then
    match fraction with N0 => S754_zero s | Npos m => S754_finite s m (-149) end
  else match fraction + 8388608 with N0 => S754_zero s | Npos m => S754_finite s m (Z.of_N exponent - 150) end.

(** The [n] floats at the start of an array of bytes. *)
Fixpoint read_vector (n : nat) (data : list N) : res (list float32) :=
  match n with
  | O => Ok []
  | S n =>
      if (length data <? 4)%nat then Undef "read past the array"
      else rest <- read_vector n (drop 4 data) ;; Ok (float_of_bits (of_le (take 4 data)) :: rest)
  end.
Definition write_vector (v : list float32) : list N := concat ((λ x, le 4 (bits_of_float x)) <$> v).

(** Values of binary32: normal numbers have 24 bits, subnormal ones the least exponent. *)
Definition f32_valid (x : float32) : Prop :=
  match x with
  | S754_finite _ m e =>
      (8388608 ≤ N.pos m < 16777216 ∧ (-149 ≤ e ≤ 104)%Z) ∨ (N.pos m < 8388608 ∧ e = (-149)%Z)
  | _ => True
  end.

Lemma bits_split s m E : m < 8388608 → E < 256 →
  let b := sign_bit s + (E * 8388608 + m) in
  (2147483648 <=? b) = s ∧ (b / 8388608) mod 256 = E ∧ b mod 8388608 = m.
Proof.
  intros Hm HE b. assert (b = (if s then 256 + E else E) * 8388608 + m) as Hb by (unfold b; destruct s; simpl; lia).
  split_and!.
  - unfold b. destruct s; simpl; [apply N.leb_le|apply N.leb_gt]; lia.
  - rewrite Hb, N.div_add_l, (N.div_small m), N.add_0_r by lia. destruct s; [|by apply N.mod_small].
    rewrite <- N.Div0.add_mod_idemp_l. simpl. by apply N.mod_small.
  - rewrite Hb, N.add_comm, N.Div0.mod_add. by apply N.mod_small.
Qed.

Lemma float_of_bits_of x : f32_valid x → float_of_bits (bits_of_float x) = x.
Proof.
  destruct x as [s|s| |s m e]; intros Hv; [by destruct s|by destruct s|done|]. simpl in Hv. unfold bits_of_float, float_of_bits.
  destruct Hv as [[Hm He]|[Hm ->]].
  - decide_cmp.
    destruct (bits_split s (N.pos m - 8388608) (Z.to_N (e + 150))) as (-> & -> & ->); [lia|lia|].
    rewrite (proj2 (N.eqb_neq _ 255)), (proj2 (N.eqb_neq _ 0)) by lia.
    replace (N.pos m - 8388608 + 8388608) with (N.pos m) by lia. f_equal. lia.
  - rewrite (proj2 (N.ltb_lt _ _)) by done.
    destruct (bits_split s (N.pos m) 0) as (H1 & H2 & H3); [done|done|].
    change (0 * 8388608 + N.pos m) with (N.pos m) in *. by rewrite H1, H2, H3.
Qed.
Lemma bits_of_float_range x : f32_valid x → bits_of_float x < 4294967296.
Proof.
  destruct x as [s|s| |s m e]; intros Hv; [by destruct s|by destruct s|done|]. simpl in Hv. unfold bits_of_float, sign_bit.
  destruct s; case_match eqn:E; [apply N.ltb_lt in E|apply N.ltb_ge in E|apply N.ltb_lt in E|apply N.ltb_ge in E]; try lia; nia.
Qed.
Lemma read_write_vector v rest : Forall f32_valid v → read_vector (length v) (write_vector v ++ rest) = Ok v.
Proof.
  induction 1 as [|x v Hx Hv IH]; [done|]. cbn [length read_vector]. unfold write_vector. cbn [fmap list_fmap concat].
  rewrite <- app_assoc, length_app, le_length. simpl Nat.ltb. cbv iota.
  rewrite take_app_length', drop_app_length' by by rewrite le_length.
  rewrite of_le_le by by apply bits_of_float_range. rewrite float_of_bits_of by done.
  fold (write_vector v). by rewrite IH.
Qed.
Lemma write_vector_length v : length (write_vector v) = (4 * length v)%nat.
Proof.
  unfold write_vector. induction v as [|x v IH]; [done|]. cbn [fmap list_fmap concat length].
  rewrite length_app, le_length, IH. lia.
Qed.
Lemma read_vector_ok n : ∀ data, (4 * n ≤ length data)%nat → ∃ v, read_vector n data = Ok v ∧ length v = n.
Proof.
  induction n as [|n IH]; intros data Hd; [by exists []|]. cbn [read_vector].
  decide_cmp. destruct (IH (drop 4 data)) as (v & -> & Hv); [rewrite length_drop; lia|].
  eexists. split; [done|]. simpl. lia.
Qed.
