(* ===== verification/Simd.v ===== *)
(** * Vector registers and unrolled loops

    What the kernels of space_l2.h and space_ip.h use of the x86 intrinsics: a
    register is the list of its lanes, an unaligned load of a register reads
    that many floats from an offset of the array (and has no result when the
    array is too short), arithmetic is lane-wise.  The one lemma the kernels
    share, [simd_while_sum], says what a loop that accumulates lane-wise has
    in its accumulator. *)

From Stdlib Require Import Lia.
From stdpp Require Import base numbers list.
From S2P Require Import Prelude Arith.
#[local] Open Scope N_scope.

Section simd.
Context {F : Type} `{Arith F}.

(** [_mm_loadu_ps], [_mm256_loadu_ps], [_mm512_loadu_ps] for [w = 4, 8, 16]. *)
Definition loadu (w : nat) (v : list F) (i : N) : option (list F) :=
  let l := take w (drop (N.to_nat i) v) in
  if (length l =? w)%nat then Some l else None.
Definition set1 (w : nat) (x : F) : list F := replicate w x.
Definition vadd : list F → list F → list F := zip_with aadd.
Definition vsub : list F → list F → list F := zip_with asub.
Definition vmul : list F → list F → list F := zip_with amul.
Fixpoint vfmadd (a b c : list F) : list F :=
  match a, b, c with
  | x :: a', y :: b', z :: c' => afma x y z :: vfmadd a' b' c'
  | _, _, _ => []
  end.

(** [TmpRes[0] + TmpRes[1] + ...], left to right. *)
Definition hsum (l : list F) : F :=
  match l with [] => azero | x :: r => foldl aadd x r end.

(** [_mm512_reduce_add_ps]: halves are added until one lane is left. *)
Fixpoint reduce_halves (n : nat) (l : list F) : F :=
  match n with
  | O => hsum l
  | S n' => let h := Nat.div2 (length l) in
            reduce_halves n' (vadd (take h l) (drop h l))
  end.
Definition reduce_add512 (l : list F) : F := reduce_halves 4 l.

(** [while (p < pEnd) body], the pointer being an offset of the array. *)
Fixpoint simd_while {L} (fuel : nat) (pEnd : N) (body : N → L → option (N * L))
    (i : N) (acc : L) : option (N * L) :=
  if i <? pEnd then
    match fuel with
    | O => None
    | S fuel' => r ← body i acc; simd_while fuel' pEnd body r.1 r.2
    end
  else Some (i, acc).

(** The terms [f v1[j] v2[j]] for [j] from [i] to [i + n - 1], and their sum. *)
Definition terms (f : F → F → F) (v1 v2 : list F) (i n : N) : list F :=
  zip_with f (take (N.to_nat n) (drop (N.to_nat i) v1))
             (take (N.to_nat n) (drop (N.to_nat i) v2)).
Definition tsum (f : F → F → F) (v1 v2 : list F) (i n : N) : F :=
  asum (terms f v1 v2 i n).

(** [v1] and [v2] can be read up to [e]. *)
Definition readable (v1 v2 : list F) (e : N) : Prop :=
  (N.to_nat e ≤ length v1)%nat ∧ (N.to_nat e ≤ length v2)%nat.

Lemma loadu_ok w v i :
  (N.to_nat i + w ≤ length v)%nat →
  loadu w v i = Some (take w (drop (N.to_nat i) v)).
Proof.
  intros Hl. unfold loadu. rewrite length_take, length_drop.
  rewrite (proj2 (Nat.eqb_eq _ _)); [done|lia].
Qed.
Lemma length_terms f v1 v2 i n :
  readable v1 v2 (i + n) → length (terms f v1 v2 i n) = N.to_nat n.
Proof.
  intros [H1 H2]. unfold terms.
  rewrite length_zip_with, !length_take, !length_drop. lia.
Qed.
Lemma readable_le v1 v2 a b : readable v1 v2 b → a ≤ b → readable v1 v2 a.
Proof. unfold readable. lia. Qed.
End simd.
Arguments terms {F} f v1 v2 i n.

Section exact.
Context {F : Type} `{ExactArith F} (f : F → F → F) (v1 v2 : list F).

Lemma hsum_asum l : hsum l = asum l.
Proof. destruct l as [|x l]; [done|]. simpl. by rewrite foldl_aadd. Qed.

Lemma vadd_sum l1 l2 :
  length l1 = length l2 → asum (vadd l1 l2) = aadd (asum l1) (asum l2).
Proof. apply asum_zip_add. Qed.
Lemma vfmadd_exact a b c :
  length a = length b → vfmadd a b c = vadd (vmul a b) c.
Proof.
  revert b c. induction a as [|x a IH]; intros [|y b] [|z c] Hl; simplify_eq/=; try done.
  by rewrite afma_exact, IH.
Qed.

Lemma reduce_halves_sum n l :
  (∃ m, length l = m * 2 ^ n)%nat → reduce_halves n l = asum l.
Proof.
  revert l. induction n as [|n IH]; intros l [m Hm]; [apply hsum_asum|].
  assert (Nat.div2 (length l) = m * 2 ^ n)%nat as Hd.
  { rewrite Hm, Nat.pow_succ_r'. replace (m * (2 * 2 ^ n))%nat with (2 * (m * 2 ^ n))%nat by lia.
    apply Nat.div2_double. }
  assert (length l = 2 * (m * 2 ^ n))%nat as Hl2 by (rewrite Hm, Nat.pow_succ_r'; lia).
  simpl. rewrite Hd, IH.
  - unfold vadd. rewrite asum_zip_add, <- asum_app, take_drop; [done|].
    rewrite length_take, length_drop. lia.
  - exists m. unfold vadd. rewrite length_zip_with, length_take, length_drop. lia.
Qed.
Lemma reduce_add512_sum l : length l = 16%nat → reduce_add512 l = asum l.
Proof. intros Hl. apply reduce_halves_sum. exists 1%nat. by rewrite Hl. Qed.

Lemma tsum_0 i : tsum f v1 v2 i 0 = azero.
Proof. unfold tsum, terms. by rewrite !take_0. Qed.

Lemma tsum_split i n m :
  readable v1 v2 (i + n + m) →
  tsum f v1 v2 i (n + m) = aadd (tsum f v1 v2 i n) (tsum f v1 v2 (i + n) m).
Proof.
  intros [H1 H2]. unfold tsum, terms.
  rewrite <- asum_app. f_equal.
  rewrite <- zip_with_app by (rewrite !length_take, !length_drop; lia).
  rewrite !N2Nat.inj_add, <- !drop_drop, !take_take_drop. done.
Qed.

(** A loop body of width [step]: it consumes [step] floats and adds the
    terms at those positions to the [w] lanes of the accumulator. *)
Definition body_spec (w : nat) (step pEnd : N)
    (body : N → list F → option (N * list F)) : Prop :=
  ∀ j acc, j + step ≤ pEnd → length acc = w →
    ∃ acc', body j acc = Some (j + step, acc') ∧ length acc' = w ∧
            asum acc' = aadd (asum acc) (tsum f v1 v2 j step).

Lemma simd_while_sum w step pEnd body fuel k i acc :
  0 < step → body_spec w step pEnd body → readable v1 v2 pEnd →
  pEnd = i + k * step → (N.to_nat k ≤ fuel)%nat → length acc = w →
  ∃ acc', simd_while fuel pEnd body i acc = Some (pEnd, acc') ∧ length acc' = w ∧
          asum acc' = aadd (asum acc) (tsum f v1 v2 i (k * step)).
Proof.
  intros Hs Hb Hr. revert fuel i acc. induction k as [|k IH] using N.peano_ind;
    intros fuel i acc He Hf Hl.
  { exists acc. rewrite N.mul_0_l, tsum_0, aadd_0_r. destruct fuel; simpl;
      (rewrite (proj2 (N.ltb_ge _ _)) by lia); split_and!; try done; do 2 f_equal; lia. }
  destruct fuel as [|fuel]; [lia|]. simpl. rewrite (proj2 (N.ltb_lt _ _)) by nia.
  destruct (Hb i acc) as (acc1 & -> & Hl1 & Hs1); [nia|done|]. simpl.
  destruct (IH fuel (i + step) acc1) as (acc2 & -> & Hl2 & Hs2); [nia|lia|done|].
  exists acc2. split_and!; [done|done|].
  rewrite Hs2, Hs1. replace (N.succ k * step) with (step + k * step) by lia.
  rewrite tsum_split, aadd_assoc; [done|]. eapply readable_le; [done|]. nia.
Qed.

(** One multiply-accumulate of a [w]-lane register. *)
Lemma lane_step w j acc :
  readable v1 v2 (j + N.of_nat w) → length acc = w →
  length (vadd acc (terms f v1 v2 j (N.of_nat w))) = w ∧
  asum (vadd acc (terms f v1 v2 j (N.of_nat w))) =
    aadd (asum acc) (tsum f v1 v2 j (N.of_nat w)).
Proof.
  intros Hr Hl. pose proof (length_terms f _ _ _ _ Hr) as Ht.
  unfold vadd. rewrite length_zip_with, asum_zip_add by lia. split; [lia|done].
Qed.

(** Two steps one after the other are one step of the double width. *)
Lemma body_app w s1 s2 e b1 b2 b :
  readable v1 v2 e →
  body_spec w s1 e b1 → body_spec w s2 e b2 →
  (∀ i acc, b i acc = (r ← b1 i acc; b2 r.1 r.2)) →
  body_spec w (s1 + s2) e b.
Proof.
  intros Hr H1 H2 Hb j acc Hj Hl. rewrite Hb.
  destruct (H1 j acc) as (a1 & -> & Hl1 & Hs1); [lia|done|]. simpl.
  destruct (H2 (j + s1) a1) as (a2 & -> & Hl2 & Hs2); [lia|done|].
  exists a2. rewrite N.add_assoc. split_and!; [done|done|].
  rewrite Hs2, Hs1, tsum_split, aadd_assoc; [done|]. eapply readable_le; [done|lia].
Qed.

Lemma while_block w step k fuel body :
  0 < step → readable v1 v2 (k * step) → (N.to_nat k ≤ fuel)%nat →
  body_spec w step (k * step) body →
  ∃ acc, simd_while fuel (k * step) body 0 (set1 w azero) = Some (k * step, acc) ∧
         hsum acc = tsum f v1 v2 0 (k * step).
Proof.
  intros Hs Hr Hf Hb.
  destruct (simd_while_sum w step (k * step) body fuel k 0 (set1 w azero))
    as (acc & Hw & Hl & Ha); [done..|by rewrite length_replicate|].
  exists acc. split; [done|]. rewrite hsum_asum, Ha. unfold set1.
  by rewrite asum_replicate_0, aadd_0_l.
Qed.

(** The number of coordinates a kernel of block size [2^b] covers. *)
Definition floor_block (b qty : N) : N := N.shiftl (N.shiftr qty b) b.

Lemma floor_block_spec b qty :
  floor_block b qty = qty / 2 ^ b * 2 ^ b ∧ floor_block b qty ≤ qty.
Proof.
  unfold floor_block. rewrite N.shiftl_mul_pow2, N.shiftr_div_pow2.
  split; [done|]. pose proof (N.Div0.mul_div_le qty (2 ^ b)). lia.
Qed.
Lemma div_le_self q b : q / 2 ^ b ≤ q.
Proof.
  apply N.Div0.div_le_upper_bound. assert (1 ≤ 2 ^ b); [|nia].
  apply (N.pow_le_mono_r 2 0 b); lia.
Qed.

Lemma floor_kernel b w qty body :
  readable v1 v2 qty →
  (∀ e, readable v1 v2 e → body_spec w (2 ^ b) e body) →
  (r ← simd_while (N.to_nat qty) (N.shiftl (N.shiftr qty b) b) body 0 (set1 w azero);
   Some (hsum r.2)) = Some (tsum f v1 v2 0 (floor_block b qty)).
Proof.
  intros Hr Hb. destruct (floor_block_spec b qty) as [Heq Hle].
  unfold floor_block in *. rewrite Heq in *.
  pose proof (readable_le _ _ _ _ Hr Hle) as Hr'.
  destruct (while_block w (2 ^ b) (qty / 2 ^ b) (N.to_nat qty) body) as (acc & -> & Ha).
  - apply N.neq_0_lt_0, N.pow_nonzero. done.
  - done.
  - pose proof (div_le_self qty b). lia.
  - by apply Hb.
  - simpl. by rewrite Ha.
Qed.

Lemma floor_block_idem b qty : floor_block b (floor_block b qty) = floor_block b qty.
Proof.
  destruct (floor_block_spec b qty) as [H1 _].
  destruct (floor_block_spec b (floor_block b qty)) as [-> _].
  rewrite H1, N.div_mul by (apply N.pow_nonzero; lia). done.
Qed.
Lemma floor_block_exact b qty : qty mod 2 ^ b = 0 → floor_block b qty = qty.
Proof.
  intros Hm. destruct (floor_block_spec b qty) as [-> _].
  pose proof (N.div_mod qty (2 ^ b)). assert (2 ^ b ≠ 0) by (apply N.pow_nonzero; lia). lia.
Qed.
End exact.
