(* ===== verification/SpaceL2.v ===== *)
(** * space_l2.h: squared Euclidean distance

    The scalar loop, the SSE, AVX and AVX-512 kernels, their residual
    variants, the choice [L2Space] makes among them, and the integer space
    [L2SpaceI].  A vector is the list of the floats of its array; a read past
    its end has no result ([None]).  The RVV kernel is in Rvv.v. *)

From Stdlib Require Import ZArith Lia.
From stdpp Require Import base numbers list.
From S2P Require Import Prelude Arith Simd.
#[local] Open Scope N_scope.

Section kernels.
Context {F : Type} `{Arith F}.

Definition sqr_diff (x y : F) : F := let t := asub x y in amul t t.

(** ** The scalar loop *)
Fixpoint L2Sqr_loop (n : nat) (pVect1 pVect2 : list F) (acc : F) : option F :=
  match n with
  | O => Some acc
  | S n' =>
      x ← head pVect1; y ← head pVect2;
      let t := asub x y in
      L2Sqr_loop n' (tail pVect1) (tail pVect2) (aadd acc (amul t t))
  end.
Definition L2Sqr (pVect1 pVect2 : list F) (qty : N) : option F :=
  L2Sqr_loop (N.to_nat qty) pVect1 pVect2 azero.

(** [v1 = load(p1); v2 = load(p2); diff = v1 - v2; sum = sum + diff * diff] *)
Definition l2_step (w : nat) (pVect1 pVect2 : list F) (i : N) (sum : list F) : option (list F) :=
  v1 ← loadu w pVect1 i; v2 ← loadu w pVect2 i;
  let diff := vsub v1 v2 in
  Some (vadd sum (vmul diff diff)).

Definition L2SqrSIMD16ExtAVX512 (pVect1 pVect2 : list F) (qty : N) : option F :=
  let qty16 := N.shiftr qty 4 in
  let pEnd1 := N.shiftl qty16 4 in
  r ← simd_while (N.to_nat qty) pEnd1
        (λ i sum, sum1 ← l2_step 16 pVect1 pVect2 i sum; Some (i + 16, sum1))
        0 (set1 16 azero);
  Some (hsum r.2).

Definition L2SqrSIMD16ExtAVX (pVect1 pVect2 : list F) (qty : N) : option F :=
  let qty16 := N.shiftr qty 4 in
  let pEnd1 := N.shiftl qty16 4 in
  r ← simd_while (N.to_nat qty) pEnd1
        (λ i sum, sum1 ← l2_step 8 pVect1 pVect2 i sum;
                  sum2 ← l2_step 8 pVect1 pVect2 (i + 8) sum1;
                  Some (i + 8 + 8, sum2))
        0 (set1 8 azero);
  Some (hsum r.2).

Definition L2SqrSIMD16ExtSSE (pVect1 pVect2 : list F) (qty : N) : option F :=
  let qty16 := N.shiftr qty 4 in
  let pEnd1 := N.shiftl qty16 4 in
  r ← simd_while (N.to_nat qty) pEnd1
        (λ i sum, sum1 ← l2_step 4 pVect1 pVect2 i sum;
                  sum2 ← l2_step 4 pVect1 pVect2 (i + 4) sum1;
                  sum3 ← l2_step 4 pVect1 pVect2 (i + 4 + 4) sum2;
                  sum4 ← l2_step 4 pVect1 pVect2 (i + 4 + 4 + 4) sum3;
                  Some (i + 4 + 4 + 4 + 4, sum4))
        0 (set1 4 azero);
  Some (hsum r.2).

(** The residual variant calls the kernel the static pointer
    [L2SqrSIMD16Ext] holds. *)
Definition L2SqrSIMD16ExtResiduals (L2SqrSIMD16Ext : list F → list F → N → option F)
    (pVect1v pVect2v : list F) (qty : N) : option F :=
  let qty16 := N.shiftl (N.shiftr qty 4) 4 in
  res ← L2SqrSIMD16Ext pVect1v pVect2v qty16;
  let pVect1 := drop (N.to_nat qty16) pVect1v in
  let pVect2 := drop (N.to_nat qty16) pVect2v in
  let qty_left := qty - qty16 in
  res_tail ← L2Sqr pVect1 pVect2 qty_left;
  Some (aadd res res_tail).

Definition L2SqrSIMD4Ext (pVect1 pVect2 : list F) (qty : N) : option F :=
  let qty4 := N.shiftr qty 2 in
  let pEnd1 := N.shiftl qty4 2 in
  r ← simd_while (N.to_nat qty) pEnd1
        (λ i sum, sum1 ← l2_step 4 pVect1 pVect2 i sum; Some (i + 4, sum1))
        0 (set1 4 azero);
  Some (hsum r.2).

Definition L2SqrSIMD4ExtResiduals (pVect1v pVect2v : list F) (qty : N) : option F :=
  let qty4 := N.shiftl (N.shiftr qty 2) 2 in
  res ← L2SqrSIMD4Ext pVect1v pVect2v qty4;
  let qty_left := qty - qty4 in
  let pVect1 := drop (N.to_nat qty4) pVect1v in
  let pVect2 := drop (N.to_nat qty4) pVect2v in
  res_tail ← L2Sqr pVect1 pVect2 qty_left;
  Some (aadd res res_tail).
End kernels.

(** ** The space

    [Build] is what the preprocessor and the processor decide: the macros of
    hnswlib.h and the answers of [AVXCapable] and [AVX512Capable]. *)
Record Build := mkBuild {
  USE_RVV : bool; USE_SSE : bool; USE_AVX : bool; USE_AVX512 : bool;
  avx_capable : bool; avx512_capable : bool
}.

Record Space (F D : Type) := mkSpace {
  get_data_size : N;
  get_dist_func : list F → list F → N → option D;
  get_dist_func_param : N
}.
Arguments mkSpace {F D}.
Arguments get_data_size {F D}.
Arguments get_dist_func {F D}.
Arguments get_dist_func_param {F D}.

Section space.
Context {F : Type} `{Arith F} (rvv_kernel : list F → list F → N → option F).

(** The kernel [L2SqrSIMD16Ext] points to after the constructor ran. *)
Definition L2SqrSIMD16Ext_ptr (b : Build) : list F → list F → N → option F :=
  if USE_AVX512 b then
    if avx512_capable b then L2SqrSIMD16ExtAVX512
    else if avx_capable b then L2SqrSIMD16ExtAVX else L2SqrSIMD16ExtSSE
  else if USE_AVX b then
    if avx_capable b then L2SqrSIMD16ExtAVX else L2SqrSIMD16ExtSSE
  else L2SqrSIMD16ExtSSE.

Definition L2Space (b : Build) (dim : N) : Space F F :=
  let fstdistfunc :=
    if USE_RVV b then rvv_kernel
    else if USE_SSE b || USE_AVX b || USE_AVX512 b then
      if dim mod 16 =? 0 then L2SqrSIMD16Ext_ptr b
      else if dim mod 4 =? 0 then L2SqrSIMD4Ext
      else if 16 <? dim then L2SqrSIMD16ExtResiduals (L2SqrSIMD16Ext_ptr b)
      else if 4 <? dim then L2SqrSIMD4ExtResiduals
      else L2Sqr
    else L2Sqr in
  {| get_data_size := dim * 4; get_dist_func := fstdistfunc; get_dist_func_param := dim |}.
End space.

(** ** Bytes: L2SpaceI

    [int] arithmetic: an intermediate result outside the type has no
    behaviour. *)
Definition int_ok (z : Z) : option Z :=
  if ((- 2147483648 <=? z) && (z <=? 2147483647))%Z then Some z else None.

(** One [res += (a[0] - b[0]) * (a[0] - b[0]); a++; b++;] of the loops. *)
Definition sqr_byte (r : Z) (a b : list N) : option Z :=
  x ← head a; y ← head b;
  let d := (Z.of_N x - Z.of_N y)%Z in
  sq ← int_ok (d * d)%Z;
  int_ok (r + sq)%Z.

Fixpoint L2SqrI4x_loop (n : nat) (a b : list N) (r : Z) : option Z :=
  match n with
  | O => Some r
  | S n' =>
      r1 ← sqr_byte r a b;
      r2 ← sqr_byte r1 (drop 1 a) (drop 1 b);
      r3 ← sqr_byte r2 (drop 2 a) (drop 2 b);
      r4 ← sqr_byte r3 (drop 3 a) (drop 3 b);
      L2SqrI4x_loop n' (drop 4 a) (drop 4 b) r4
  end.
Definition L2SqrI4x (pVect1 pVect2 : list N) (qty : N) : option Z :=
  L2SqrI4x_loop (N.to_nat (N.shiftr qty 2)) pVect1 pVect2 0%Z.

Fixpoint L2SqrI_loop (n : nat) (a b : list N) (r : Z) : option Z :=
  match n with
  | O => Some r
  | S n' => r1 ← sqr_byte r a b; L2SqrI_loop n' (drop 1 a) (drop 1 b) r1
  end.
Definition L2SqrI (pVect1 pVect2 : list N) (qty : N) : option Z :=
  L2SqrI_loop (N.to_nat qty) pVect1 pVect2 0%Z.

Definition L2SpaceI (dim : N) : Space N Z :=
  {| get_data_size := dim * 1;
     get_dist_func := if dim mod 4 =? 0 then L2SqrI4x else L2SqrI;
     get_dist_func_param := dim |}.

(** ** The kernels compute the sum of squared differences *)
Section exact.
Context {F : Type} `{ExactArith F}.

(** Reference: the sum over the first [n] coordinates. *)
Definition l2_sum (v1 v2 : list F) (n : N) : F := tsum sqr_diff v1 v2 0 n.

Lemma l2_step_terms w (p1 p2 : list F) i acc :
  readable p1 p2 (i + N.of_nat w) →
  l2_step w p1 p2 i acc = Some (vadd acc (terms sqr_diff p1 p2 i (N.of_nat w))).
Proof.
  intros [H1 H2]. unfold l2_step. rewrite !loadu_ok by lia. simpl.
  do 2 f_equal. unfold terms. rewrite Nat2N.id.
  generalize (take w (drop (N.to_nat i) p1)) as a, (take w (drop (N.to_nat i) p2)) as b.
  induction a as [|x a IH]; intros [|y b]; simpl; try done. by rewrite <- IH.
Qed.

Lemma L2Sqr_loop_sum n (p1 p2 : list F) acc :
  (n ≤ length p1)%nat → (n ≤ length p2)%nat →
  L2Sqr_loop n p1 p2 acc = Some (foldl aadd acc (zip_with sqr_diff (take n p1) (take n p2))).
Proof.
  revert p1 p2 acc. induction n as [|n IH]; intros [|x p1] [|y p2] acc H1 H2;
    simpl in *; try lia; try done. by rewrite IH by lia.
Qed.
Lemma L2Sqr_sum (p1 p2 : list F) n :
  readable p1 p2 n → L2Sqr p1 p2 n = Some (l2_sum p1 p2 n).
Proof.
  intros [H1 H2]. unfold L2Sqr. rewrite L2Sqr_loop_sum by done.
  rewrite foldl_aadd, aadd_0_l. unfold l2_sum, tsum, terms. by rewrite !drop_0.
Qed.

Lemma l2_sum_tail (p1 p2 : list F) n m :
  readable p1 p2 (n + m) →
  l2_sum p1 p2 (n + m) =
    aadd (l2_sum p1 p2 n) (l2_sum (drop (N.to_nat n) p1) (drop (N.to_nat n) p2) m).
Proof.
  intros Hr. unfold l2_sum. rewrite tsum_split by done. done.
Qed.

Lemma body_l2_1 w (p1 p2 : list F) e :
  readable p1 p2 e →
  body_spec sqr_diff p1 p2 w (N.of_nat w) e
    (λ i acc, a1 ← l2_step w p1 p2 i acc; Some (i + N.of_nat w, a1)).
Proof.
  intros Hr j acc Hj Hl.
  assert (readable p1 p2 (j + N.of_nat w)) as Hr1 by (eapply readable_le; [done|lia]).
  rewrite l2_step_terms by done. simpl. eexists. split; [done|]. by apply lane_step.
Qed.

Lemma L2SqrSIMD16ExtAVX512_sum (p1 p2 : list F) qty :
  readable p1 p2 qty →
  L2SqrSIMD16ExtAVX512 p1 p2 qty = Some (l2_sum p1 p2 (floor_block 4 qty)).
Proof. intros Hr. apply floor_kernel; [done|]. intros e He. by apply (body_l2_1 16). Qed.

Lemma L2SqrSIMD16ExtAVX_sum (p1 p2 : list F) qty :
  readable p1 p2 qty →
  L2SqrSIMD16ExtAVX p1 p2 qty = Some (l2_sum p1 p2 (floor_block 4 qty)).
Proof.
  intros Hr. apply floor_kernel; [done|]. intros e He.
  eapply (body_app _ _ _ 8 8 8); [done|by apply (body_l2_1 8)|by apply (body_l2_1 8)|].
  intros i acc. simpl. by destruct (l2_step 8 p1 p2 i acc).
Qed.

Lemma L2SqrSIMD16ExtSSE_sum (p1 p2 : list F) qty :
  readable p1 p2 qty →
  L2SqrSIMD16ExtSSE p1 p2 qty = Some (l2_sum p1 p2 (floor_block 4 qty)).
Proof.
  intros Hr. apply floor_kernel; [done|]. intros e He.
  eapply (body_app _ _ _ 4 8 8); [done| | |].
  1,2: eapply (body_app _ _ _ 4 4 4); [done|by apply (body_l2_1 4)|by apply (body_l2_1 4)|];
       intros i acc; reflexivity.
  intros i acc. cbv beta. change (N.of_nat 4) with 4.
  destruct (l2_step 4 p1 p2 i acc) as [a1|]; simpl; [|done].
  destruct (l2_step 4 p1 p2 (i + 4) a1) as [a2|]; simpl; [|done].
  by destruct (l2_step 4 p1 p2 (i + 4 + 4) a2).
Qed.

Lemma L2SqrSIMD4Ext_sum (p1 p2 : list F) qty :
  readable p1 p2 qty →
  L2SqrSIMD4Ext p1 p2 qty = Some (l2_sum p1 p2 (floor_block 2 qty)).
Proof. intros Hr. apply floor_kernel; [done|]. intros e He. by apply (body_l2_1 4). Qed.

(** A block kernel followed by the scalar loop on the rest covers all. *)
Lemma residual_sum b (k : list F → list F → N → option F) (p1 p2 : list F) qty :
  (∀ q, readable p1 p2 q → k p1 p2 q = Some (l2_sum p1 p2 (floor_block b q))) →
  readable p1 p2 qty →
  (res ← k p1 p2 (floor_block b qty);
   res_tail ← L2Sqr (drop (N.to_nat (floor_block b qty)) p1)
                    (drop (N.to_nat (floor_block b qty)) p2) (qty - floor_block b qty);
   Some (aadd res res_tail)) = Some (l2_sum p1 p2 qty).
Proof.
  intros Hk Hr. destruct (floor_block_spec b qty) as [_ Hle].
  rewrite Hk by (eapply readable_le; done). simpl.
  rewrite L2Sqr_sum by (destruct Hr; split; rewrite length_drop; lia). simpl.
  rewrite floor_block_idem, <- l2_sum_tail.
  - do 2 f_equal. lia.
  - eapply readable_le; [done|lia].
Qed.

Lemma L2SqrSIMD16Ext_ptr_sum b (p1 p2 : list F) qty :
  readable p1 p2 qty →
  L2SqrSIMD16Ext_ptr b p1 p2 qty = Some (l2_sum p1 p2 (floor_block 4 qty)).
Proof.
  intros Hr. unfold L2SqrSIMD16Ext_ptr.
  repeat case_match; auto using L2SqrSIMD16ExtAVX512_sum, L2SqrSIMD16ExtAVX_sum,
    L2SqrSIMD16ExtSSE_sum.
Qed.
End exact.

(** C23. On every build without RVV (scalar, SSE, AVX, AVX-512, whatever the
    processor reports), the function [L2Space(dim)] installs returns the sum of
    the squared differences of the first [dim] coordinates, in exact
    arithmetic: the choice of kernel by [dim % 16], [dim % 4] and [dim], the
    unrolling and the residual loops lose and repeat no coordinate. *)
Theorem L2Space_dist_correct {F} `{ExactArith F} rvv (b : Build) (dim : N) (v1 v2 : list F) :
  USE_RVV b = false →
  dim ≤ N.of_nat (length v1) → dim ≤ N.of_nat (length v2) →
  get_dist_func (L2Space rvv b dim) v1 v2 (get_dist_func_param (L2Space rvv b dim)) =
    Some (l2_sum v1 v2 dim).
Proof.
  intros Hb H1 H2. assert (readable v1 v2 dim) as Hr by (split; lia).
  unfold L2Space. rewrite Hb. simpl. repeat case_match; try by apply L2Sqr_sum.
  - rewrite L2SqrSIMD16Ext_ptr_sum, floor_block_exact by (done || by apply N.eqb_eq). done.
  - rewrite L2SqrSIMD4Ext_sum, floor_block_exact by (done || by apply N.eqb_eq). done.
  - apply (residual_sum 4); [|done]. intros. by apply L2SqrSIMD16Ext_ptr_sum.
  - apply (residual_sum 2); [|done]. intros. by apply L2SqrSIMD4Ext_sum.
Qed.

Lemma L2Space_dist_correct_witness :
  get_dist_func (L2Space (λ _ _ _, None) (mkBuild false true true true true false) 21)
    (Z.of_nat <$> seq 0 21) (replicate 21 3%Z) 21 = Some 1799%Z.
Proof.
  transitivity (Some (l2_sum (Z.of_nat <$> seq 0 21) (replicate 21 3%Z) 21));
    [|by vm_compute].
  apply (L2Space_dist_correct (λ _ _ _, None) (mkBuild false true true true true false) 21);
    by vm_compute.
Defined.

(** ** L2SpaceI *)
Definition byte (x : N) : Prop := x < 256.
Definition byte_dist (a b : list N) (n : nat) : Z :=
  foldr Z.add 0%Z (zip_with (λ x y, (Z.of_N x - Z.of_N y) * (Z.of_N x - Z.of_N y))%Z
                            (take n a) (take n b)).

Lemma int_ok_Some z : (0 ≤ z ≤ 2147483647)%Z → int_ok z = Some z.
Proof.
  intros Hz. unfold int_ok. decide_cmp. done.
Qed.

Lemma sqr_byte_ok r x y a b :
  byte x → byte y → (0 ≤ r ≤ 2147418622)%Z →
  ∃ s, sqr_byte r (x :: a) (y :: b) = Some (r + s)%Z ∧ (0 ≤ s ≤ 65025)%Z ∧
       s = ((Z.of_N x - Z.of_N y) * (Z.of_N x - Z.of_N y))%Z.
Proof.
  unfold byte. intros Hx Hy Hr.
  exists ((Z.of_N x - Z.of_N y) * (Z.of_N x - Z.of_N y))%Z.
  assert (0 ≤ (Z.of_N x - Z.of_N y) * (Z.of_N x - Z.of_N y) ≤ 65025)%Z as Hs.
  { assert (-255 ≤ Z.of_N x - Z.of_N y ≤ 255)%Z as Hd by lia.
    revert Hd. generalize (Z.of_N x - Z.of_N y)%Z. intros d Hd. nia. }
  split_and!; [|lia..|done].
  unfold sqr_byte. simpl. rewrite int_ok_Some by lia. simpl. by rewrite int_ok_Some by lia.
Qed.

Lemma byte_dist_bound a b n :
  Forall byte a → Forall byte b → (0 ≤ byte_dist a b n ≤ 65025 * Z.of_nat n)%Z.
Proof.
  intros Ha. revert b n. induction Ha as [|x a Hx Ha IH]; intros b n Hb.
  { unfold byte_dist. rewrite take_nil. simpl. lia. }
  destruct Hb as [|y b Hy Hb], n as [|n]; unfold byte_dist in *; simpl; try lia.
  specialize (IH b n Hb). destruct (sqr_byte_ok 0 x y a b Hx Hy) as (s & _ & Hs & Hs'); lia.
Qed.

Lemma L2SqrI_loop_ok n a b r :
  Forall byte a → Forall byte b → (n ≤ length a)%nat → (n ≤ length b)%nat →
  (0 ≤ r)%Z → (r + 65025 * Z.of_nat n ≤ 2147483647)%Z →
  L2SqrI_loop n a b r = Some (r + byte_dist a b n)%Z.
Proof.
  revert a b r. induction n as [|n IH]; intros a b r Ha Hb Hla Hlb Hr0 Hr.
  { unfold byte_dist. simpl. f_equal. lia. }
  destruct Ha as [|x a Hx Ha], Hb as [|y b Hy Hb]; simpl in Hla, Hlb; try lia.
  destruct (sqr_byte_ok r x y a b Hx Hy) as (s & Hs & Hb1 & Hs'); [lia|].
  simpl. rewrite Hs. simpl. rewrite !drop_0, IH; [|done|done|lia..].
  unfold byte_dist. simpl. f_equal. lia.
Qed.

Lemma L2SqrI4x_loop_eq n a b r : L2SqrI4x_loop n a b r = L2SqrI_loop (4 * n) a b r.
Proof.
  revert a b r. induction n as [|n IH]; intros a b r; [done|].
  replace (4 * S n)%nat with (S (S (S (S (4 * n))))) by lia. cbn [L2SqrI4x_loop L2SqrI_loop].
  repeat (match goal with |- context [sqr_byte ?r ?a ?b] => destruct (sqr_byte r a b) end;
          simpl; rewrite ?drop_drop; [|done]).
  apply IH.
Qed.

(** C27. For vectors of up to 33025 bytes the [int] accumulator of [L2SpaceI]
    never overflows, and the function the space installs (the unrolled
    [L2SqrI4x] or [L2SqrI]) returns the exact squared distance, which fits in
    [int]. *)
Theorem L2SpaceI_dist_correct (dim : N) (a b : list N) :
  Forall byte a → Forall byte b →
  dim ≤ N.of_nat (length a) → dim ≤ N.of_nat (length b) → dim ≤ 33025 →
  get_dist_func (L2SpaceI dim) a b (get_dist_func_param (L2SpaceI dim)) =
    Some (byte_dist a b (N.to_nat dim)) ∧
  (0 ≤ byte_dist a b (N.to_nat dim) ≤ 2147483647)%Z.
Proof.
  intros Ha Hb Hla Hlb Hd. split.
  2:{ pose proof (byte_dist_bound a b (N.to_nat dim) Ha Hb). lia. }
  assert (L2SqrI a b dim = Some (byte_dist a b (N.to_nat dim))) as Hi.
  { unfold L2SqrI. rewrite L2SqrI_loop_ok; [f_equal|..]; auto; lia. }
  unfold L2SpaceI. simpl. case_match eqn:E; [|done].
  rewrite <- Hi. unfold L2SqrI4x, L2SqrI. rewrite L2SqrI4x_loop_eq. f_equal.
  apply N.eqb_eq in E. rewrite N.shiftr_div_pow2. change (2 ^ 2) with 4.
  pose proof (N.div_mod dim 4). lia.
Qed.
Lemma L2SpaceI_dist_correct_witness :
  get_dist_func (L2SpaceI 4) [0; 255; 7; 9] [255; 0; 7; 1] 4 = Some 130114%Z ∧
  (0 ≤ 130114 ≤ 2147483647)%Z.
Proof.
  apply (L2SpaceI_dist_correct 4 [0; 255; 7; 9] [255; 0; 7; 1]);
    repeat constructor; by vm_compute.
Defined.

(** The bound is the best possible: one more byte overflows in the worst case. *)
Example L2SpaceI_overflow :
  get_dist_func (L2SpaceI 33026) (replicate (N.to_nat 33026) 255)
    (replicate (N.to_nat 33026) 0) 33026 = None.
Proof. by vm_compute. Qed.
