(* ===== verification/Cpu.v ===== *)
(** * hnswlib.h: which instruction sets may be used

    [AVXCapable] and [AVX512Capable] ask the processor ([cpuid]) and the
    operating system ([xgetbv]) whether AVX and AVX-512 can be used.  The two
    instructions are the interface [Cpu]; [xgetbv] faults unless the operating
    system has set the OSXSAVE bit, bit 27 of ECX of leaf 1. *)

From Stdlib Require Import ZArith Lia.
From stdpp Require Import base numbers list strings.
From S2P Require Import Prelude Arith Simd SpaceL2.
#[local] Open Scope Z_scope.

Record cpu_info := mkInfo { eax : Z; ebx : Z; ecx : Z; edx : Z }.

Class Cpu := {
  cpuid : Z → Z → cpu_info;
  xcr : N → Z
}.

Section detection.
Context `{C : Cpu}.

Definition xgetbv (index : N) : res Z :=
  if Z.land (ecx (cpuid 1 0)) (Z.shiftl 1 27) =? 0 then Undef "xgetbv: invalid opcode" else Ok (xcr index).

Definition AVXCapable : res bool :=
  let nIds := eax (cpuid 0 0) in
  let HW_AVX := if 1 <=? nIds then negb (Z.land (ecx (cpuid 1 0)) (Z.shiftl 1 28) =? 0) else false in
  let cpuInfo := cpuid 1 0 in
  let osUsesXSAVE_XRSTORE := negb (Z.land (ecx cpuInfo) (Z.shiftl 1 27) =? 0) in
  let cpuAVXSuport := negb (Z.land (ecx cpuInfo) (Z.shiftl 1 28) =? 0) in
  avxSupported <- (if osUsesXSAVE_XRSTORE && cpuAVXSuport then
                     xcrFeatureMask <- xgetbv 0 ;; Ok (Z.land xcrFeatureMask 6 =? 6)
                   else Ok false) ;;
  Ok (HW_AVX && avxSupported).

Definition AVX512Capable : res bool :=
  avx <- AVXCapable ;;
  if negb avx then Ok false
  else
    let nIds := eax (cpuid 0 0) in
    let HW_AVX512F := if 7 <=? nIds then negb (Z.land (ebx (cpuid 7 0)) (Z.shiftl 1 16) =? 0) else false in
    let cpuInfo := cpuid 1 0 in
    let osUsesXSAVE_XRSTORE := negb (Z.land (ecx cpuInfo) (Z.shiftl 1 27) =? 0) in
    let cpuAVXSuport := negb (Z.land (ecx cpuInfo) (Z.shiftl 1 28) =? 0) in
    avx512Supported <- (if osUsesXSAVE_XRSTORE && cpuAVXSuport then
                          xcrFeatureMask <- xgetbv 0 ;; Ok (Z.land xcrFeatureMask 230 =? 230)
                        else Ok false) ;;
    Ok (HW_AVX512F && avx512Supported).

(** The configuration the constructors of the spaces see on this processor. *)
Definition build_on (rvv sse avx avx512 : bool) : res Build :=
  a <- AVXCapable ;; b <- AVX512Capable ;; Ok (mkBuild rvv sse avx avx512 a b).

(** ** Bits and masks *)
Lemma bit_mask x n : 0 ≤ n → negb (Z.land x (Z.shiftl 1 n) =? 0) = Z.testbit x n.
Proof.
  intros Hn. destruct (Z.testbit x n) eqn:E; destruct (Z.eqb_spec (Z.land x (Z.shiftl 1 n)) 0) as [H|H]; try done.
  - exfalso. apply (f_equal (λ y, Z.testbit y n)) in H. rewrite Z.land_spec, E, Z.shiftl_spec, Z.sub_diag, Z.testbit_0_l in H by done.
    done.
  - exfalso. apply H, Z.bits_inj'. intros m Hm. rewrite Z.land_spec, Z.testbit_0_l, Z.shiftl_spec by done.
    destruct (decide (m = n)) as [->|Hne]; [by rewrite E|]. apply andb_false_iff. right.
    destruct (Z.lt_ge_cases m n); [apply Z.testbit_neg_r; lia|]. apply Z.bits_above_log2; [lia|]. simpl. lia.
Qed.

(** A mask is contained in [x] when each of its bits is. *)
Definition has_bits (x : Z) (bits : list Z) : bool := forallb (Z.testbit x) bits.
Definition mask (bits : list Z) : Z := foldr (λ b m, Z.lor (Z.shiftl 1 b) m) 0 bits.
Lemma mask_spec bits m : 0 ≤ m → Forall (λ b, 0 ≤ b) bits → Z.testbit (mask bits) m = bool_decide (m ∈ bits).
Proof.
  intros Hm. induction 1 as [|b bits Hb Hbs IH]; simpl; [by rewrite Z.testbit_0_l|].
  rewrite Z.lor_spec, IH, Z.shiftl_spec by done. destruct (decide (m = b)) as [->|Hne].
  - rewrite Z.sub_diag. simpl. symmetry. apply bool_decide_eq_true_2. left.
  - assert (Z.testbit 1 (m - b) = false) as ->.
    { destruct (Z.lt_ge_cases m b); [apply Z.testbit_neg_r; lia|]. apply Z.bits_above_log2; [lia|]. simpl. lia. }
    simpl. apply bool_decide_ext. rewrite elem_of_cons. split; [by right|by intros [?|?]].
Qed.
Lemma land_mask x bits : Forall (λ b, 0 ≤ b) bits → (Z.land x (mask bits) =? mask bits) = has_bits x bits.
Proof.
  intros Hb. unfold has_bits. apply eq_true_iff_eq. rewrite Z.eqb_eq, forallb_forall. split.
  - intros E b Hin%list_elem_of_In. apply (f_equal (λ y, Z.testbit y b)) in E. rewrite Forall_forall in Hb.
    rewrite Z.land_spec, mask_spec, bool_decide_eq_true_2, andb_true_r in E; [done|done|by apply Hb|by apply Forall_forall].
  - intros Hx. apply Z.bits_inj'. intros m Hm. rewrite Z.land_spec, mask_spec by done.
    case_bool_decide as Hin; [|apply andb_false_r]. rewrite Hx; [done|]. by apply list_elem_of_In.
Qed.

Lemma xcr_avx x : (Z.land x 6 =? 6) = has_bits x [1; 2].
Proof. apply (land_mask x [1; 2]). repeat constructor; lia. Qed.
Lemma xcr_avx512 x : (Z.land x 230 =? 230) = has_bits x [1; 2; 5; 6; 7].
Proof. apply (land_mask x [1; 2; 5; 6; 7]). repeat constructor; lia. Qed.
Lemma xgetbv_enabled : xgetbv 0 = if Z.testbit (ecx (cpuid 1 0)) 27 then Ok (xcr 0) else Undef "xgetbv: invalid opcode".
Proof.
  unfold xgetbv. rewrite <- (bit_mask _ 27) by lia. by destruct (_ =? 0).
Qed.
End detection.

(** The detection is safe and exact: [xgetbv] is executed only when the
    operating system has enabled it, and the two functions report exactly the
    bits the processor and the operating system document: AVX when bits 27 and
    28 of ECX of leaf 1 and bits 1 and 2 of XCR0 are set, AVX-512 when in
    addition leaf 7 exists, bit 16 of its EBX and bits 5, 6 and 7 of XCR0 are
    set. *)
Theorem AVXCapable_exact `{C : Cpu} :
  let leaf1 := (1 <=? eax (cpuid 0 0)) && has_bits (ecx (cpuid 1 0)) [27; 28] in
  let leaf7 := (7 <=? eax (cpuid 0 0)) && Z.testbit (ebx (cpuid 7 0)) 16 in
  AVXCapable = Ok (leaf1 && has_bits (xcr 0) [1; 2]) ∧
  AVX512Capable = Ok (leaf1 && leaf7 && has_bits (xcr 0) [1; 2; 5; 6; 7]).
Proof.
  assert (AVXCapable = Ok ((1 <=? eax (cpuid 0 0)) && has_bits (ecx (cpuid 1 0)) [27; 28] && has_bits (xcr 0) [1; 2])) as H.
  { unfold AVXCapable. rewrite xgetbv_enabled, !bit_mask by lia. unfold has_bits at 1. cbn [forallb].
    destruct (1 <=? eax (cpuid 0 0)), (Z.testbit (ecx (cpuid 1 0)) 27), (Z.testbit (ecx (cpuid 1 0)) 28);
      cbn -[Z.land]; rewrite ?xcr_avx, ?andb_false_r; done. }
  intros leaf1 leaf7. split; [done|]. unfold AVX512Capable. rewrite H. cbn [res_bind].
  rewrite xgetbv_enabled, !bit_mask by lia. unfold leaf1, leaf7, has_bits. cbn [forallb].
  destruct (1 <=? eax (cpuid 0 0)), (Z.testbit (ecx (cpuid 1 0)) 27), (Z.testbit (ecx (cpuid 1 0)) 28);
    cbn -[Z.land Z.leb Z.testbit]; rewrite ?xcr_avx512; try done; unfold has_bits; cbn [forallb];
  destruct (Z.testbit (xcr 0) 1), (Z.testbit (xcr 0) 2), (7 <=? eax (cpuid 0 0)), (Z.testbit (ebx (cpuid 7 0)) 16); done.
Qed.
