(* ===== verification/Rvv.v ===== *)
(** * The RISC-V vector kernel of space_l2.h

    [L2SqrSIMDExtRVV] strip-mines the two vectors with [vsetvl], accumulates
    the squares lane-wise in [vec_sum_acc] and reduces all [VLMAX] lanes once,
    after the loop.  The class [RVV] states what the vector extension
    guarantees of the intrinsics: the range of [vl], and that [vfredusum] adds
    every active lane in some order.

    The intrinsics without a policy suffix are tail-agnostic: after
    [vec_sum_acc = __riscv_vfadd_vv_f32m1(vec_sum_acc, sqr, vl)] the lanes from
    [vl] on are unspecified.  They are the argument [tail] of the model: what
    lane [k] holds after the write of iteration [i] when it held [old] before.
    A simulator or core that leaves the tail undisturbed is [tail i k old =
    old]; one that fills it with ones is [tail i k old = aones] (what gem5's
    macro COPY_OLD_VD in isa/templates/vector_arith.isa does when [vta] is
    set). *)

From Stdlib Require Import ZArith Lia SpecFloat.
From stdpp Require Import base numbers list.
From S2P Require Import Prelude Arith Simd SpaceL2.
#[local] Open Scope N_scope.

Class RVV (F : Type) `{Arith F} := {
  vsetvlmax : N;                    (* __riscv_vsetvlmax_e32m1 *)
  vsetvl : N → N;                   (* __riscv_vsetvl_e32m1 *)
  vfredusum : list F → F → F;       (* active lanes, scalar operand *)
  vsetvlmax_pos : 0 < vsetvlmax;
  vsetvl_small avl : avl ≤ vsetvlmax → vsetvl avl = avl;
  vsetvl_mid avl : vsetvlmax < avl → avl < 2 * vsetvlmax →
    (avl + 1) / 2 ≤ vsetvl avl ∧ vsetvl avl ≤ vsetvlmax;
  vsetvl_large avl : 2 * vsetvlmax ≤ avl → vsetvl avl = vsetvlmax;
  vfredusum_exact l s : ExactArith F → vfredusum l s = aadd s (asum l)
}.

Section kernel.
Context {F : Type} `{HA : Arith F} `{HR : !RVV F} (tail : N → nat → F → F).

(** [vec_sum_acc = __riscv_vfadd_vv_f32m1(vec_sum_acc, sqr, vl)] *)
Definition vfadd_vv (i : N) (vd sqr : list F) (vl : N) : list F :=
  zip_with aadd (take (N.to_nat vl) vd) sqr ++
  imap (λ k old, tail i (N.to_nat vl + k) old) (drop (N.to_nat vl) vd).

Fixpoint rvv_loop (fuel : nat) (a b : list F) (dim i : N) (vec_sum_acc : list F) : option (list F) :=
  if i <? dim then
    match fuel with
    | O => None
    | S fuel' =>
        let vl := vsetvl (dim - i) in
        v1 ← loadu (N.to_nat vl) a i;
        v2 ← loadu (N.to_nat vl) b i;
        let diff := vsub v1 v2 in
        let sqr := vmul diff diff in
        rvv_loop fuel' a b dim (i + vl) (vfadd_vv i vec_sum_acc sqr vl)
    end
  else Some vec_sum_acc.

Definition L2SqrSIMDExtRVV (a b : list F) (dim : N) : option F :=
  let max_vl := vsetvlmax in
  let vec_sum_acc := replicate (N.to_nat max_vl) azero in
  acc ← rvv_loop (N.to_nat dim) a b dim 0 vec_sum_acc;
  Some (vfredusum (take (N.to_nat max_vl) acc) azero).
End kernel.

Definition tail_undisturbed {F} : N → nat → F → F := λ _ _ old, old.
Definition tail_ones {F} `{Arith F} : N → nat → F → F := λ _ _ _, aones.

(** ** Facts about vsetvl *)
Section vsetvl.
Context {F : Type} `{HA : Arith F} `{HR : !RVV F}.

Lemma vsetvl_bounds avl :
  vsetvl avl ≤ avl ∧ vsetvl avl ≤ vsetvlmax ∧ (0 < avl → 0 < vsetvl avl).
Proof.
  pose proof vsetvlmax_pos.
  destruct (decide (avl ≤ vsetvlmax)); [rewrite vsetvl_small by done; lia|].
  destruct (decide (avl < 2 * vsetvlmax)).
  - destruct (vsetvl_mid avl) as [Hm1 Hm2]; [lia|done|]. split_and!; [lia|done|].
    intros _. assert (1 ≤ (avl + 1) / 2); [|lia].
    apply N.div_le_lower_bound; lia.
  - rewrite vsetvl_large by lia. lia.
Qed.
Lemma vsetvl_multiple k : 0 < k → vsetvl (k * vsetvlmax) = vsetvlmax.
Proof.
  intros Hk. destruct (decide (k = 1)) as [->|Hk1].
  - rewrite N.mul_1_l. by apply vsetvl_small.
  - apply vsetvl_large. nia.
Qed.
End vsetvl.

(** ** The kernel in exact arithmetic *)
Section exact.
Context {F : Type} `{HA : Arith F} `{HR : !RVV F} `{HE : !ExactArith F} (tail : N → nat → F → F).

(** One iteration adds [vl] terms when the tail lanes survive it. *)
Lemma vfadd_vv_sum (a b acc v1 v2 : list F) i vl :
  readable a b (i + vl) → vl ≤ vsetvlmax → length acc = N.to_nat vsetvlmax →
  (vl = vsetvlmax ∨ ∀ j k old, tail j k old = old) →
  v1 = take (N.to_nat vl) (drop (N.to_nat i) a) →
  v2 = take (N.to_nat vl) (drop (N.to_nat i) b) →
  let acc' := vfadd_vv tail i acc (vmul (vsub v1 v2) (vsub v1 v2)) vl in
  length acc' = N.to_nat vsetvlmax ∧
  asum acc' = aadd (asum acc) (tsum sqr_diff a b i vl).
Proof.
  intros Hr Hv Hl Ht -> -> acc'.
  assert (vmul (vsub (take (N.to_nat vl) (drop (N.to_nat i) a))
                     (take (N.to_nat vl) (drop (N.to_nat i) b)))
               (vsub (take (N.to_nat vl) (drop (N.to_nat i) a))
                     (take (N.to_nat vl) (drop (N.to_nat i) b))) =
          terms sqr_diff a b i vl) as E.
  { unfold terms. generalize (take (N.to_nat vl) (drop (N.to_nat i) a)) as x,
      (take (N.to_nat vl) (drop (N.to_nat i) b)) as y.
    induction x as [|? x IH]; intros [|? y]; simpl; try done. by rewrite <- IH. }
  assert (imap (λ k old, tail i (N.to_nat vl + k)%nat old) (drop (N.to_nat vl) acc) =
          drop (N.to_nat vl) acc) as Et.
  { destruct Ht as [->|Ht]; [by rewrite <- Hl, drop_all|].
    apply list_eq. intros k. rewrite list_lookup_imap.
    destruct (drop (N.to_nat vl) acc !! k); simpl; [by rewrite Ht|done]. }
  unfold acc', vfadd_vv. rewrite E, Et.
  pose proof (length_terms sqr_diff _ _ _ _ Hr) as Hlt.
  rewrite length_app, length_zip_with, length_take, length_drop. split; [lia|].
  rewrite asum_app, asum_zip_add by (rewrite length_take; lia).
  rewrite <- (take_drop (N.to_nat vl) acc) at 3. rewrite asum_app.
  unfold tsum. rewrite <- !aadd_assoc. f_equal. apply aadd_comm.
Qed.

Lemma rvv_loop_sum (a b : list F) dim fuel i acc :
  readable a b dim → i ≤ dim → (N.to_nat (dim - i) ≤ fuel)%nat →
  length acc = N.to_nat vsetvlmax →
  ((∃ k, dim - i = k * vsetvlmax) ∨ ∀ j k old, tail j k old = old) →
  ∃ acc', rvv_loop tail fuel a b dim i acc = Some acc' ∧
          length acc' = N.to_nat vsetvlmax ∧
          asum acc' = aadd (asum acc) (tsum sqr_diff a b i (dim - i)).
Proof.
  intros Hr. revert i acc. induction fuel as [|fuel IH]; intros i acc Hi Hf Hl Ht.
  { exists acc. simpl. decide_cmp.
    replace (dim - i) with 0 by lia. by rewrite tsum_0, aadd_0_r. }
  simpl. destruct (N.ltb_spec i dim) as [Hlt|Hge].
  2:{ exists acc. replace (dim - i) with 0 by lia. by rewrite tsum_0, aadd_0_r. }
  destruct (vsetvl_bounds (dim - i)) as (Hv1 & Hv2 & Hv3).
  assert (readable a b (i + vsetvl (dim - i))) as Hr'.
  { eapply readable_le; [done|lia]. }
  destruct Hr' as [Hra Hrb]. rewrite !loadu_ok by lia. simpl.
  edestruct (vfadd_vv_sum a b acc) as [Hl' Hs']; [by split|done|done| |done|done|].
  { destruct Ht as [[k Hk]|Ht]; [left|by right]. rewrite Hk. apply vsetvl_multiple. nia. }
  edestruct (IH (i + vsetvl (dim - i))) as (acc' & -> & Hla & Hsa);
    [| |exact Hl'| |].
  - lia.
  - specialize (Hv3 ltac:(lia)). lia.
  - destruct Ht as [[k Hk]|Ht]; [left|by right]. exists (k - 1).
    rewrite Hk, vsetvl_multiple in * by nia. nia.
  - exists acc'. split_and!; [done|done|]. rewrite Hsa, Hs', <- aadd_assoc. f_equal.
    rewrite <- tsum_split by (eapply readable_le; [done|lia]). f_equal. lia.
Qed.
End exact.

Lemma L2SqrSIMDExtRVV_exact {F} `{HA : Arith F} `{HR : !RVV F} `{HE : !ExactArith F}
    (tail : N → nat → F → F) (a b : list F) (dim : N) :
  dim ≤ N.of_nat (length a) → dim ≤ N.of_nat (length b) →
  ((∃ k, dim = k * vsetvlmax) ∨ ∀ i k old, tail i k old = old) →
  L2SqrSIMDExtRVV tail a b dim = Some (l2_sum a b dim).
Proof.
  intros Ha Hb Ht. unfold L2SqrSIMDExtRVV.
  destruct (rvv_loop_sum tail a b dim (N.to_nat dim) 0 (replicate (N.to_nat vsetvlmax) azero))
    as (acc & -> & Hl & Hs); [split; lia|lia|lia|by rewrite length_replicate| |].
  { by rewrite N.sub_0_r. }
  simpl. rewrite take_ge by lia. rewrite (vfredusum_exact acc azero _), aadd_0_l, Hs.
  by rewrite asum_replicate_0, aadd_0_l, N.sub_0_r.
Qed.

(** C26. With a tail that is left undisturbed, or when [VLMAX] divides the
    dimension (so that every [vsetvl] returns [VLMAX] and no lane is ever in
    the tail), the RVV kernel returns, in exact arithmetic, the sum of squared
    differences of the first [dim] coordinates, for every [vsetvl] the vector
    extension allows; the loop terminates. *)
Theorem L2SqrSIMDExtRVV_correct {F} `{HA : Arith F} `{HR : !RVV F} `{HE : !ExactArith F}
    (tail : N → nat → F → F) (a b : list F) (dim : N) :
  dim ≤ N.of_nat (length a) → dim ≤ N.of_nat (length b) →
  ((∃ k, dim = k * vsetvlmax) ∨ ∀ i k old, tail i k old = old) →
  L2SqrSIMDExtRVV tail a b dim = Some (l2_sum a b dim).
Proof. apply L2SqrSIMDExtRVV_exact. Qed.

(** A core with 128-bit registers (four lanes) that grants [min(avl, VLMAX)]. *)
#[program] Definition rvv128 {F} `{Arith F} : RVV F := {|
  vsetvlmax := 4;
  vsetvl avl := N.min avl 4;
  vfredusum l s := foldl aadd s l
|}.
Next Obligation. done. Qed.
Next Obligation. simpl. lia. Qed.
Next Obligation.
  simpl. intros F HF avl H1 H2. split; [|lia].
  assert ((avl + 1) / 2 < 5); [|lia]. apply N.Div0.div_lt_upper_bound; lia.
Qed.
Next Obligation. simpl. lia. Qed.
Next Obligation. simpl. intros. apply foldl_aadd. Qed.

Lemma L2SqrSIMDExtRVV_correct_witness :
  @L2SqrSIMDExtRVV Z _ rvv128 tail_ones [1; 2; 3; 4; 5; 6; 7; 8]%Z
     [0; 0; 0; 0; 1; 1; 1; 1]%Z 8 = Some 156%Z.
Proof.
  rewrite (@L2SqrSIMDExtRVV_correct Z _ rvv128 _ tail_ones [1; 2; 3; 4; 5; 6; 7; 8]%Z
     [0; 0; 0; 0; 1; 1; 1; 1]%Z 8); [by vm_compute..|]. left. by exists 2.
Defined.

(** Finding: when [VLMAX] does not divide the dimension and the hardware
    uses its freedom to fill agnostic tail lanes with ones, the kernel returns
    NaN even for two equal vectors, where the scalar [L2Sqr] returns zero. *)
Theorem L2SqrSIMDExtRVV_tail_agnostic :
  @L2SqrSIMDExtRVV float32 _ rvv128 tail_ones
     (replicate 5 (f32_of_Z 1)) (replicate 5 (f32_of_Z 1)) 5 = Some S754_nan ∧
  L2Sqr (replicate 5 (f32_of_Z 1)) (replicate 5 (f32_of_Z 1)) 5 = Some (S754_zero false).
Proof. by vm_compute. Qed.
