(* ===== verification/Gem5Utility.v ===== *)
(** * The arithmetic helpers of gem5's RISC-V model (gem5/src/arch/riscv)

    The helper templates of utility.hh that the scalar M extension and the
    vector unit share: widening multiplication, division with the results the
    ISA fixes for the two exceptional cases, saturating arithmetic and the
    fixed-point rounding modes; the fields of [vtype]; and the NaN boxing of
    regs/float.hh.

    A C++ integer type is an [ity], its signedness and its width; [conv] is the
    conversion to it.  A template argument [T] is such a type, and every
    conversion the C++ performs (the assignment to a narrower variable, the
    cast to the double-width type) is written out, so that what the theorems
    say about overflow is about the code. *)

From Stdlib Require Import ZArith Lia.
From stdpp Require Import base numbers strings.
From S2P Require Import Prelude.
#[local] Open Scope Z_scope.

Record ity := ITy { is_signed : bool; width : Z }.
Definition uty (w : Z) : ity := ITy false w.
Definition sty (w : Z) : ity := ITy true w.

(** Conversion of a mathematical integer to the type (modulo 2^width). *)
Definition conv (t : ity) (z : Z) : Z :=
  let u := z mod 2 ^ width t in
  if is_signed t && (2 ^ (width t - 1) <=? u) then u - 2 ^ width t else u.
Definition ty_min (t : ity) : Z := if is_signed t then - 2 ^ (width t - 1) else 0.
Definition ty_max (t : ity) : Z := if is_signed t then 2 ^ (width t - 1) - 1 else 2 ^ width t - 1.
Definition in_ty (t : ity) (z : Z) : Prop := ty_min t ≤ z ≤ ty_max t.
(** [std::make_unsigned_t], [std::make_signed_t], [double_width] *)
Definition make_unsigned (t : ity) : ity := uty (width t).
Definition make_signed (t : ity) : ity := sty (width t).
Definition double_width (t : ity) : ity := ITy (is_signed t) (2 * width t).

(** ** base/bitfield.hh *)
Definition mask (nbits : Z) : Z := if 64 <=? nbits then 2 ^ 64 - 1 else 2 ^ nbits - 1.
Definition bits (val first last : Z) : Z :=
  Z.land (Z.shiftr val last) (mask (first - last + 1)).
Definition mbits (val first last : Z) : Z :=
  Z.land val (Z.land (mask (first + 1)) (2 ^ 64 - 1 - mask last)).
Definition mask_range (first last : Z) : Z := mbits (2 ^ 64 - 1) first last.
Definition sext (N val : Z) : Z :=
  if bits val (N - 1) (N - 1) =? 1 then Z.lor val (2 ^ 64 - 1 - mask N) else val.

(** ** Multiplication and division *)
Definition mulhu (t : ity) (rs1 rs2 : Z) : Z :=
  let WideT := double_width (make_unsigned t) in
  conv (make_unsigned t) (Z.shiftr (conv WideT (rs1 * rs2)) (width t)).
Definition mulh (t : ity) (rs1 rs2 : Z) : Z :=
  let WideT := double_width (make_signed t) in
  conv (make_signed t) (Z.shiftr (conv WideT (rs1 * rs2)) (width t)).
Definition mulhsu (t : ity) (rs1 rs2 : Z) : Z :=
  let WideT := double_width (make_signed t) in
  conv (make_signed t) (Z.shiftr (conv WideT (rs1 * rs2)) (width t)).

Definition div (t : ity) (rs1 rs2 : Z) : Z :=
  let kRsMin := ty_min t in
  if rs2 =? 0 then -1
  else if (rs1 =? kRsMin) && (rs2 =? -1) then kRsMin
  else Z.quot rs1 rs2.
Definition divu (t : ity) (rs1 rs2 : Z) : Z :=
  if rs2 =? 0 then ty_max t else Z.quot rs1 rs2.
Definition rem (t : ity) (rs1 rs2 : Z) : Z :=
  let kRsMin := ty_min t in
  if rs2 =? 0 then rs1
  else if (rs1 =? kRsMin) && (rs2 =? -1) then 0
  else Z.rem rs1 rs2.
Definition remu (t : ity) (rs1 rs2 : Z) : Z :=
  if rs2 =? 0 then rs1 else Z.rem rs1 rs2.

(** ** Saturating arithmetic.  The result comes with the new value of [*sat]. *)
Definition sat_add (t : ity) (x y : Z) (sat : bool) : Z * bool :=
  let UT := make_unsigned t in
  let ux := conv UT x in
  let uy := conv UT y in
  let res := conv UT (ux + uy) in
  let sh := width t - 1 in
  let ux := conv UT (Z.shiftr ux sh + (Z.shiftl 1 sh - 1)) in
  if 0 <=? conv t (Z.lor (Z.lxor ux uy) (Z.lnot (Z.lxor uy res)))
  then (conv t ux, true) else (conv t res, sat).
Definition sat_sub (t : ity) (x y : Z) (sat : bool) : Z * bool :=
  let UT := make_unsigned t in
  let ux := conv UT x in
  let uy := conv UT y in
  let res := conv UT (ux - uy) in
  let sh := width t - 1 in
  let ux := conv UT (Z.shiftr ux sh + (Z.shiftl 1 sh - 1)) in
  if conv t (Z.land (Z.lxor ux uy) (Z.lxor ux res)) <? 0
  then (conv t ux, true) else (conv t res, sat).
Definition sat_addu (t : ity) (x y : Z) (sat : bool) : Z * bool :=
  let res := conv t (x + y) in
  let c := res <? x in
  let sat := if negb sat then c else sat in
  (conv t (Z.lor res (- Z.b2z (res <? x))), sat).
Definition sat_subu (t : ity) (x y : Z) (sat : bool) : Z * bool :=
  let res := conv t (x - y) in
  let c := negb (res <=? x) in
  let sat := if negb sat then c else sat in
  (conv t (Z.land res (- Z.b2z (res <=? x))), sat).

(** ** Fixed-point rounding; another [xrm] panics. *)
Definition int_rounding (t : ity) (result xrm gb : Z) : res Z :=
  let lsb := conv (uty 64) (Z.shiftl 1 gb) in
  let lsb_half := Z.shiftr lsb 1 in
  match xrm with
  | 0 => Ok (conv t (result + lsb_half))
  | 1 => Ok (if negb (Z.land result lsb_half =? 0) &&
               (negb (Z.land result (conv (uty 64) (lsb_half - 1)) =? 0) ||
                negb (Z.land result lsb =? 0))
             then conv t (result + lsb) else result)
  | 2 => Ok result
  | 3 => Ok (if negb (Z.land result (lsb - 1) =? 0)
             then conv t (Z.lor result lsb) else result)
  | _ => Throw "Invalid xrm value"
  end.

(** ** The carry and borrow of isa/templates/vector_arith.isa *)
Definition carry_out (t : ity) (a b : Z) (carry_in : bool) : bool :=
  let TypeU := make_unsigned t in
  let a := conv TypeU a in
  let s := conv TypeU (a + conv TypeU b + Z.b2z carry_in) in
  if carry_in then s <=? a else s <? a.
Definition borrow_out (t : ity) (a b : Z) (borrow_in : bool) : bool :=
  let TypeU := make_unsigned t in
  if borrow_in then conv TypeU a <=? conv TypeU b else conv TypeU a <? conv TypeU b.

(** ** The fields of vtype *)
Definition vtype_SEW (vtype : Z) : Z := Z.shiftl 8 (bits vtype 5 3).
Definition vtype_vlmul (vtype : Z) : Z := conv (sty 64) (sext 3 (bits vtype 2 0)).
Definition vtype_VLMAX (vtype vlen : Z) (per_reg : bool) : Z :=
  let lmul := conv (sty 64) (sext 3 (bits vtype 2 0)) in
  let lmul := if per_reg then Z.min 0 lmul else lmul in
  let vsew := bits vtype 5 3 in
  Z.shiftr vlen (vsew + 3 - lmul).
Definition vtype_regs_per_group (vtype : Z) : Z :=
  let lmul := conv (sty 64) (sext 3 (bits vtype 2 0)) in
  Z.shiftl 1 (Z.max 0 lmul).
Definition vtype_set_vill : Z := Z.lxor 0 (Z.shiftl 1 63).
Definition width_EEW (width : Z) : res Z :=
  match width with
  | 0 => Ok 8 | 5 => Ok 16 | 6 => Ok 32 | 7 => Ok 64
  | _ => Undef "unreachable"
  end.

(** ** NaN boxing *)
Definition defaultNaNF32UI : Z := 2143289344.
Definition unboxF32 (v : Z) : Z :=
  if bits v 63 32 =? mask 32 then bits v 31 0 else defaultNaNF32UI.
Definition boxF32 (v : Z) : Z := Z.lor (mask_range 63 32) v.
Definition defaultNaNF16UI : Z := 32256.
Definition unboxF16 (v : Z) : Z :=
  if bits v 63 16 =? mask 48 then bits v 15 0 else defaultNaNF16UI.
Definition boxF16 (v : Z) : Z := Z.lor (mask_range 63 16) v.

(** ** Conversions *)
Lemma two_pow_half w : 0 < w → 2 ^ w = 2 * 2 ^ (w - 1) ∧ 0 < 2 ^ (w - 1).
Proof.
  intros Hw. replace w with (Z.succ (w - 1)) at 1 by lia.
  rewrite Z.pow_succ_r by lia. split; [done|]. apply Z.pow_pos_nonneg; lia.
Qed.

Lemma mod_shift z m k : m ≠ 0 → (z + k * m) mod m = z mod m.
Proof. intros. by apply Z_mod_plus_full. Qed.

Lemma conv_id t z : 0 < width t → in_ty t z → conv t z = z.
Proof.
  destruct t as [[] w]; unfold conv, in_ty, ty_min, ty_max; simpl; intros Hw Hz;
    destruct (two_pow_half w Hw) as [E ?]; rewrite E in *; set (P := 2 ^ (w - 1)) in *.
  - destruct (decide (0 ≤ z)).
    + rewrite Z.mod_small by lia. decide_cmp. destruct (Z.leb_spec P z); lia.
    + rewrite <- (mod_shift z (2 * P) 1), Z.mod_small by lia.
      destruct (Z.leb_spec P (z + 1 * (2 * P))); lia.
  - rewrite Z.mod_small; lia.
Qed.

Lemma conv_range t z : 0 < width t → in_ty t (conv t z).
Proof.
  destruct t as [[] w]; unfold conv, in_ty, ty_min, ty_max; simpl; intros Hw;
    destruct (two_pow_half w Hw) as [E ?]; rewrite E in *; set (P := 2 ^ (w - 1)) in *;
    pose proof (Z.mod_pos_bound z (2 * P) ltac:(lia)); [|lia].
  destruct (Z.leb_spec P (z mod (2 * P))); lia.
Qed.

(** Conversion only depends on the residue. *)
Lemma conv_eqm t z k : 0 < width t → conv t (z + k * 2 ^ width t) = conv t z.
Proof. intros Hw. unfold conv. rewrite mod_shift; [done|]. by apply Z.pow_nonzero; lia. Qed.

Lemma conv_signed_sign w z : 0 < w → (conv (sty w) z <? 0) = Z.testbit z (w - 1).
Proof.
  intros Hw. unfold conv; simpl. destruct (two_pow_half w Hw) as [E ?].
  pose proof (Z.mod_pos_bound z (2 ^ w) ltac:(lia)) as Hb.
  rewrite <- (Z.mod_pow2_bits_low z w) by lia. rewrite Z.testbit_odd, Z.shiftr_div_pow2 by lia.
  set (u := z mod 2 ^ w) in *. rewrite E in *. set (P := 2 ^ (w - 1)) in *.
  destruct (Z.leb_spec P u).
  - replace (u / P) with 1; [change (Z.odd 1) with true; apply Z.ltb_lt; lia|].
    apply (Z.div_unique_pos _ _ _ (u - P)); lia.
  - rewrite Z.div_small by lia. change (Z.odd 0) with false. apply Z.ltb_ge. lia.
Qed.

(** ** Multiplication, division and remainder *)
Lemma shiftr_product w p : 0 < w → Z.shiftr p w = p / 2 ^ w.
Proof. intros. apply Z.shiftr_div_pow2. lia. Qed.

Lemma high_half t p : 0 < width t → in_ty (double_width t) p →
  conv t (Z.shiftr (conv (double_width t) p) (width t)) = p / 2 ^ width t.
Proof.
  intros Hw Hp. rewrite (conv_id (double_width t)) by (done || (simpl; lia)). rewrite shiftr_product by done.
  apply conv_id; [done|]. destruct (two_pow_half _ Hw) as [E ?].
  destruct t as [[] w]; unfold in_ty, ty_min, ty_max in *; simpl in *.
  - replace (2 * w - 1) with ((w - 1) + w) in Hp by lia. rewrite Z.pow_add_r in Hp by lia.
    rewrite E in *. set (P := 2 ^ (w - 1)) in *. split.
    + apply Z.div_le_lower_bound; nia.
    + apply Z.lt_le_pred. apply Z.div_lt_upper_bound; nia.
  - replace (2 * w) with (w + w) in Hp by lia. rewrite Z.pow_add_r in Hp by lia.
    rewrite E in *. set (P := 2 ^ (w - 1)) in *. split.
    + apply Z.div_le_lower_bound; nia.
    + apply Z.lt_le_pred. apply Z.div_lt_upper_bound; nia.
Qed.

Lemma wide_pow w : 0 < w → 2 ^ (2 * w) = 2 * 2 ^ (2 * w - 1) ∧
  2 ^ (2 * w) = 2 ^ w * 2 ^ w.
Proof.
  intros Hw. split; [by apply two_pow_half; lia|].
  rewrite <- Z.pow_add_r by lia. f_equal. lia.
Qed.

Lemma product_in_ty w x y : 0 < w →
  (in_ty (uty w) x → in_ty (uty w) y → in_ty (double_width (uty w)) (x * y)) ∧
  (in_ty (sty w) x → in_ty (sty w) y → in_ty (double_width (sty w)) (x * y)) ∧
  (in_ty (sty w) x → in_ty (uty w) y → in_ty (double_width (sty w)) (x * y)).
Proof.
  intros Hw. destruct (two_pow_half w Hw) as [E ?], (wide_pow w Hw) as [E2 E3].
  unfold in_ty, ty_min, ty_max; simpl.
  assert (2 ^ (2 * w - 1) = 2 * 2 ^ (w - 1) * 2 ^ (w - 1)) as E4 by nia.
  rewrite ?E3, E4, E. set (P := 2 ^ (w - 1)) in *. clearbody P. clear E E2 E3 E4.
  split_and!; intros Hx Hy; nia.
Qed.

(** The three high-half multiplications return the upper word of the exact
    product: with the low word the mathematical product is recovered. *)
Lemma mulh_exact w x y : 0 < w →
  (in_ty (uty w) x → in_ty (uty w) y → mulhu (uty w) x y = x * y / 2 ^ w) ∧
  (in_ty (sty w) x → in_ty (sty w) y → mulh (sty w) x y = x * y / 2 ^ w) ∧
  (in_ty (sty w) x → in_ty (uty w) y → mulhsu (sty w) x y = x * y / 2 ^ w).
Proof.
  intros Hw. destruct (product_in_ty w x y Hw) as (H1 & H2 & H3). split_and!; intros Hx Hy.
  - by apply (high_half (uty w)), H1.
  - by apply (high_half (sty w)), H2.
  - by apply (high_half (sty w)), H3.
Qed.

(** The truncated quotient leaves the range only for the minimum over -1. *)
Lemma quot_range P x y : - P ≤ x ≤ P - 1 → y ≠ 0 → ¬ (x = - P ∧ y = -1) →
  - P ≤ Z.quot x y ≤ P - 1 ∧ - P ≤ Z.rem x y ≤ P - 1 ∧
  Z.abs (Z.rem x y) < Z.abs y ∧ 0 ≤ x * Z.rem x y.
Proof.
  intros Hx Hy Hn. pose proof (Z.quot_rem' x y) as E.
  pose proof (Z.rem_bound_abs x y Hy) as Hb. pose proof (Z.rem_sign_mul x y Hy) as Hs.
  assert (Z.abs x = Z.abs y * Z.abs (Z.quot x y) + Z.abs (Z.rem x y)) as Ea.
  { rewrite <- Z.quot_abs, <- Z.rem_abs by done. apply Z.quot_rem'. }
  set (q := Z.quot x y) in *. set (r := Z.rem x y) in *. clearbody q r.
  assert (1 ≤ Z.abs y) as Hy1 by lia.
  assert (Z.abs q ≤ Z.abs x ∧ Z.abs r ≤ Z.abs x) as [Hq Hr] by nia.
  assert (q ≠ P) as HqP.
  { intros ->. assert (Z.abs y = 1) by nia. destruct (decide (y = 1)); [subst; lia|].
    assert (y = -1) by lia. subst. lia. }
  assert (r ≠ P) as HrP by nia. split_and!; by (lia || rewrite Z.mul_comm).
Qed.

(** The quotient and remainder stay in the type and recombine to the dividend
    modulo the width in every case, the two exceptional ones included. *)
Lemma div_rem_exact w x y : 0 < w → in_ty (sty w) x → in_ty (sty w) y →
  in_ty (sty w) (div (sty w) x y) ∧ in_ty (sty w) (rem (sty w) x y) ∧
  conv (sty w) (div (sty w) x y * y + rem (sty w) x y) = x ∧
  (y ≠ 0 → Z.abs (rem (sty w) x y) < Z.abs y ∧ 0 ≤ x * rem (sty w) x y).
Proof.
  intros Hw Hx Hy. pose proof Hx as Hx'. pose proof Hy as Hy'. destruct (two_pow_half w Hw) as [E HP].
  unfold in_ty, div, rem, ty_min, ty_max in *; simpl in *. rewrite ?E in *.
  set (P := 2 ^ (w - 1)) in *.
  destruct (Z.eqb_spec y 0) as [->|Hy0].
  { rewrite Z.mul_0_r, Z.add_0_l, conv_id by done. split_and!; by (lia || done). }
  assert (¬ (x = - P ∧ y = -1) ∨ x = - P ∧ y = -1) as [Hn|[-> ->]] by lia.
  2:{ decide_cmp. rewrite Z.eqb_refl. simpl. split_and!; try lia.
      replace (- P * -1 + 0) with (- P + 1 * 2 ^ width (sty w)) by (simpl; lia).
      rewrite conv_eqm by done. by apply conv_id. }
  destruct (quot_range P x y) as (? & ? & ?); [done..|].
  replace ((x =? - P) && (y =? -1)) with false by lia.
  split_and!; try tauto. rewrite Z.mul_comm, <- Z.quot_rem'. by apply conv_id.
Qed.

(** ** Saturating arithmetic *)
Definition clamp (t : ity) (z : Z) : Z := Z.max (ty_min t) (Z.min (ty_max t) z).

Lemma top_bit w u : 0 < w → 0 ≤ u < 2 ^ w → Z.testbit u (w - 1) = (2 ^ (w - 1) <=? u).
Proof.
  intros Hw Hu. rewrite <- conv_signed_sign by done. destruct (two_pow_half w Hw) as [E ?].
  unfold conv; simpl. rewrite Z.mod_small by done. rewrite E in *.
  destruct (Z.leb_spec (2 ^ (w - 1)) u); [apply Z.ltb_lt|apply Z.ltb_ge]; lia.
Qed.

Lemma conv_unsigned w z : 0 < w → in_ty (sty w) z →
  conv (uty w) z = if z <? 0 then z + 2 ^ w else z.
Proof.
  unfold in_ty, ty_min, ty_max, conv; simpl. intros Hw Hz. destruct (two_pow_half w Hw) as [E ?].
  destruct (Z.ltb_spec z 0); [rewrite <- (mod_shift z (2 ^ w) 1) by lia|]; rewrite Z.mod_small; lia.
Qed.

(** [(ux >> sh) + ((1 << sh) - 1)] is the bound of the sign of [x]. *)
Lemma sat_bound w x : 0 < w → in_ty (sty w) x →
  conv (uty w) (Z.shiftr (conv (uty w) x) (w - 1) + (Z.shiftl 1 (w - 1) - 1)) =
  if x <? 0 then 2 ^ (w - 1) else 2 ^ (w - 1) - 1.
Proof.
  intros Hw Hx. rewrite (conv_unsigned w x) by done. destruct (two_pow_half w Hw) as [E ?].
  rewrite Z.shiftl_1_l, Z.shiftr_div_pow2 by lia.
  unfold in_ty, ty_min, ty_max in Hx; simpl in Hx. rewrite E. set (P := 2 ^ (w - 1)) in *.
  assert ((if x <? 0 then x + 2 * P else x) / P = if x <? 0 then 1 else 0) as ->.
  { destruct (Z.ltb_spec x 0); [|by apply Z.div_small; lia].
    symmetry. apply (Z.div_unique_pos _ _ _ (x + P)); lia. }
  rewrite conv_id; [destruct (x <? 0); lia|done|].
  unfold in_ty, ty_min, ty_max; simpl. rewrite E. destruct (x <? 0); lia.
Qed.

Lemma conv_signed w u : 0 < w → 0 ≤ u < 2 ^ w →
  conv (sty w) u = if 2 ^ (w - 1) <=? u then u - 2 ^ w else u.
Proof. intros Hw Hu. unfold conv; simpl. by rewrite Z.mod_small. Qed.

Lemma unsigned_sign w z : 0 < w → in_ty (sty w) z →
  (2 ^ (w - 1) <=? conv (uty w) z) = (z <? 0).
Proof.
  intros Hw Hz. rewrite conv_unsigned by done. destruct (two_pow_half w Hw).
  unfold in_ty, ty_min, ty_max in Hz; simpl in Hz.
  destruct (Z.ltb_spec z 0); [apply Z.leb_le|apply Z.leb_gt]; lia.
Qed.

Lemma conv_wrap w z : 0 < w → - 2 ^ w ≤ z < 2 ^ w →
  conv (uty w) z = if z <? 0 then z + 2 ^ w else z.
Proof.
  intros Hw Hz. unfold conv; simpl.
  destruct (Z.ltb_spec z 0); [rewrite <- (mod_shift z (2 ^ w) 1) by lia|]; rewrite Z.mod_small; lia.
Qed.

(** What a saturating operation returns: the bound [ux] when the overflow
    test fires, the wrapped result otherwise. *)
Lemma sat_select w z x (ovf sat : bool) : 0 < w → - 2 ^ w ≤ z < 2 ^ w →
  (ovf = true ↔ ¬ in_ty (sty w) z) → (ovf = true → (z <? 0) = (x <? 0)) →
  (if ovf then (conv (sty w) (if x <? 0 then 2 ^ (w - 1) else 2 ^ (w - 1) - 1), true)
   else (conv (sty w) (conv (uty w) z), sat)) =
  (clamp (sty w) z, sat || negb (clamp (sty w) z =? z)).
Proof.
  intros Hw Hz Ho Hs. destruct (two_pow_half w Hw) as [E HP].
  unfold clamp, in_ty, ty_min, ty_max in *; simpl in *. rewrite E in *.
  destruct ovf.
  - rewrite <- Hs by done. rewrite conv_signed by (destruct (z <? 0); lia).
    assert (¬ (- 2 ^ (w - 1) ≤ z ≤ 2 ^ (w - 1) - 1)) as Hn by by apply Ho.
    rewrite (Z_eqb_false (Z.max _ _)), orb_true_r by lia. f_equal.
    rewrite E. destruct (Z.ltb_spec z 0);
      [rewrite Z_leb_true by lia|rewrite Z_leb_false by lia]; lia.
  - assert (- 2 ^ (w - 1) ≤ z ≤ 2 ^ (w - 1) - 1) as Hn.
    { apply dec_stable. intros Hn. apply Ho in Hn. discriminate. }
    rewrite Z.min_r, Z.max_r by lia. rewrite Z.eqb_refl, orb_false_r. f_equal.
    rewrite conv_wrap, conv_signed by (rewrite ?E; destruct (z <? 0) eqn:?; lia).
    rewrite E. destruct (Z.ltb_spec z 0); [rewrite Z_leb_true by lia|rewrite Z_leb_false by lia]; lia.
Qed.

(** Decide the remaining comparisons of an overflow test. *)
Ltac sign_cases :=
  repeat match goal with
  | |- context [?a <? ?b] => destruct (Z.ltb_spec a b); simpl; try lia
  | |- context [?a <=? ?b] => destruct (Z.leb_spec a b); simpl; try lia
  end; intuition (discriminate || lia).

Lemma sat_add_clamps w x y sat : 0 < w → in_ty (sty w) x → in_ty (sty w) y →
  sat_add (sty w) x y sat =
  (clamp (sty w) (x + y), sat || negb (clamp (sty w) (x + y) =? x + y)).
Proof.
  intros Hw Hx Hy. unfold sat_add; simpl. change (make_unsigned (sty w)) with (uty w).
  rewrite sat_bound by done. destruct (two_pow_half w Hw) as [E HP].
  replace (conv (uty w) (conv (uty w) x + conv (uty w) y)) with (conv (uty w) (x + y))
    by (unfold conv; simpl; apply Zplus_mod).
  unfold in_ty, ty_min, ty_max in Hx, Hy; simpl in Hx, Hy.
  apply sat_select; [done|lia| |];
    rewrite Z.leb_antisym, conv_signed_sign, Z.lor_spec, Z.lnot_spec, !Z.lxor_spec by lia;
    rewrite !top_bit by (try destruct (x <? 0); try (apply Z.mod_pos_bound); lia);
    rewrite unsigned_sign by done; rewrite conv_wrap, E by lia;
    unfold in_ty, ty_min, ty_max; simpl.
  all: sign_cases.
Qed.

Lemma sat_sub_clamps w x y sat : 0 < w → in_ty (sty w) x → in_ty (sty w) y →
  sat_sub (sty w) x y sat =
  (clamp (sty w) (x - y), sat || negb (clamp (sty w) (x - y) =? x - y)).
Proof.
  intros Hw Hx Hy. unfold sat_sub; simpl. change (make_unsigned (sty w)) with (uty w).
  rewrite sat_bound by done. destruct (two_pow_half w Hw) as [E HP].
  replace (conv (uty w) (conv (uty w) x - conv (uty w) y)) with (conv (uty w) (x - y))
    by (unfold conv; simpl; apply Zminus_mod).
  unfold in_ty, ty_min, ty_max in Hx, Hy; simpl in Hx, Hy.
  apply sat_select; [done|lia| |];
    rewrite conv_signed_sign, Z.land_spec, !Z.lxor_spec by lia;
    rewrite !top_bit by (try destruct (x <? 0); try (apply Z.mod_pos_bound); lia);
    rewrite unsigned_sign by done; rewrite conv_wrap, E by lia;
    unfold in_ty, ty_min, ty_max; simpl.
  all: sign_cases.
Qed.

Lemma conv_all_ones w : 0 < w → conv (uty w) (-1) = 2 ^ w - 1.
Proof. intros Hw. destruct (two_pow_half w Hw). rewrite conv_wrap by lia. simpl. lia. Qed.

Lemma sat_unsigned_clamps w x y sat : 0 < w → in_ty (uty w) x → in_ty (uty w) y →
  sat_addu (uty w) x y sat =
    (clamp (uty w) (x + y), sat || negb (clamp (uty w) (x + y) =? x + y)) ∧
  sat_subu (uty w) x y sat =
    (clamp (uty w) (x - y), sat || negb (clamp (uty w) (x - y) =? x - y)).
Proof.
  intros Hw Hx Hy. destruct (two_pow_half w Hw) as [E HP].
  assert (∀ z, 0 ≤ z < 2 ^ w → conv (uty w) z = z) as Hid.
  { intros z Hz. apply conv_id; [done|]. unfold in_ty, ty_min, ty_max; simpl. lia. }
  unfold sat_addu, sat_subu, clamp, in_ty, ty_min, ty_max in *; simpl in *. split.
  - destruct (decide (x + y < 2 ^ w)).
    + rewrite (Hid (x + y)), Z_ltb_false, Z.lor_0_r, Hid by lia.
      rewrite Z.min_r, Z.max_r, Z.eqb_refl by lia. by destruct sat.
    + replace (conv (uty w) (x + y)) with (x + y - 2 ^ w).
      2:{ replace (x + y) with (x + y - 2 ^ w + 1 * 2 ^ width (uty w)) at 2 by (simpl; lia).
          rewrite conv_eqm by done. rewrite Hid; lia. }
      rewrite Z_ltb_true by lia. simpl. rewrite Z.lor_m1_r, conv_all_ones by done.
      rewrite Z.min_l, Z.max_r, Z_eqb_false by lia. by destruct sat.
  - destruct (decide (0 ≤ x - y)).
    + rewrite (Hid (x - y)), Z_leb_true by lia. simpl. rewrite Z.land_m1_r, Hid by lia.
      rewrite Z.min_r, Z.max_r, Z.eqb_refl by lia. by destruct sat.
    + rewrite (conv_wrap w (x - y)), (Z_ltb_true (x - y)), Z_leb_false by lia. simpl.
      rewrite Z.land_0_r, Hid by lia.
      rewrite Z.min_r, Z.max_l, Z_eqb_false by lia. by destruct sat.
Qed.

(** ** Fixed-point rounding *)

(** What the four modes of [vxrm] promise of the quotient [q] of [v] by
    [d = 2^gb]: nearest with ties up, nearest with ties to even, truncation
    towards minus infinity, and "jam" to odd. *)
Definition rounded (xrm v d q : Z) : Prop :=
  match xrm with
  | 0 => d * (2 * q - 1) ≤ 2 * v < d * (2 * q + 1)
  | 1 => Z.abs (2 * v - 2 * (d * q)) ≤ d ∧
         (Z.abs (2 * v - 2 * (d * q)) = d → Z.even q = true)
  | 2 => d * q ≤ v < d * (q + 1)
  | _ => d * q = v ∨ (v mod d ≠ 0 ∧ Z.odd q = true ∧ Z.abs (v - d * q) < d)
  end.

Lemma land_pow2 v k : 0 ≤ k → Z.land v (2 ^ k) = Z.b2z (Z.odd (v / 2 ^ k)) * 2 ^ k.
Proof.
  intros Hk. rewrite <- Z.shiftr_div_pow2, <- Z.testbit_odd by done.
  apply Z.bits_inj'. intros n Hn. rewrite Z.land_spec, Z.pow2_bits_eqb by done.
  destruct (Z.testbit v k) eqn:E; simpl.
  - rewrite Z.mul_1_l, Z.pow2_bits_eqb by done.
    destruct (Z.eqb_spec k n) as [<-|]; [by rewrite E|apply andb_false_r].
  - rewrite Z.bits_0. destruct (Z.eqb_spec k n) as [<-|]; [by rewrite E|apply andb_false_r].
Qed.

Lemma land_low v k : 0 ≤ k → Z.land v (2 ^ k - 1) = v mod 2 ^ k.
Proof. intros Hk. rewrite <- Z.land_ones by done. f_equal. rewrite Z.ones_equiv. lia. Qed.

Lemma shiftr_add_mult v k c : 0 ≤ k → Z.shiftr (v + c * 2 ^ k) k = v / 2 ^ k + c.
Proof. intros Hk. rewrite Z.shiftr_div_pow2 by done. apply Z.div_add. by apply Z.pow_nonzero. Qed.

Section rounding.
Context (t : ity) (v gb : Z).
Hypothesis Hw : 0 < width t.
Hypothesis Hgb : 0 ≤ gb < 64.
Hypothesis Hv : in_ty t v.
Hypothesis Hv' : in_ty t (v + 2 ^ gb).

Lemma lsb_eq : conv (uty 64) (Z.shiftl 1 gb) = 2 ^ gb.
Proof.
  rewrite Z.shiftl_1_l. apply conv_id; [done|]. unfold in_ty, ty_min, ty_max; simpl.
  pose proof (Z.pow_le_mono_r 2 gb 63). pose proof (Z.pow_pos_nonneg 2 gb). lia.
Qed.

(** The halves of the step, and the dividend in terms of its quotient. *)
Lemma half_step : 0 < gb →
  Z.shiftr (2 ^ gb) 1 = 2 ^ (gb - 1) ∧ 2 ^ gb = 2 * 2 ^ (gb - 1) ∧ 0 < 2 ^ (gb - 1) ∧
  conv (uty 64) (2 ^ (gb - 1) - 1) = 2 ^ (gb - 1) - 1 ∧
  Z.odd (v / 2 ^ (gb - 1)) = (2 ^ (gb - 1) <=? v mod 2 ^ gb) ∧
  v mod 2 ^ (gb - 1) = v mod 2 ^ gb - (if 2 ^ (gb - 1) <=? v mod 2 ^ gb then 2 ^ (gb - 1) else 0).
Proof.
  intros Hg. destruct (two_pow_half gb Hg) as [E HP].
  assert (2 ^ gb ≤ 2 ^ 63) by (apply Z.pow_le_mono_r; lia).
  pose proof (Z.div_mod v (2 ^ gb) ltac:(lia)) as Ev. pose proof (Z.mod_pos_bound v (2 ^ gb) ltac:(lia)) as Hm.
  set (q := v / 2 ^ gb) in *. set (l := v mod 2 ^ gb) in *. rewrite E in *.
  set (P := 2 ^ (gb - 1)) in *.
  set (c := if P <=? l then P else 0).
  assert (v / P = 2 * q + Z.b2z (P <=? l) ∧ v mod P = l - c) as [Hq Hr].
  { unfold c. destruct (Z.leb_spec P l); simpl.
    - split; [symmetry; apply (Z.div_unique_pos _ _ _ (l - P)); lia
             |symmetry; apply (Z.mod_unique_pos _ _ (2 * q + 1)); lia].
    - split; [symmetry; apply (Z.div_unique_pos _ _ _ l); lia
             |symmetry; apply (Z.mod_unique_pos _ _ (2 * q)); lia]. }
  split_and!; [|done|done| | |done].
  - rewrite Z.shiftr_div_pow2 by done. rewrite Z.mul_comm. by apply Z.div_mul.
  - apply conv_id; [done|]. unfold in_ty, ty_min, ty_max; simpl. lia.
  - rewrite Hq, Z.odd_add, Z.odd_mul. by destruct (P <=? l).
Qed.

Lemma between_ty z : v ≤ z ≤ v + 2 ^ gb → conv t z = z ∧ in_ty t z.
Proof.
  intros Hz. assert (in_ty t z) as H; [|by split; [apply conv_id|]].
  unfold in_ty in *. lia.
Qed.

(** The quotient and remainder of [v] by the step, for the case analyses. *)
Lemma step_facts : 0 < 2 ^ gb ∧ v = 2 ^ gb * (v / 2 ^ gb) + v mod 2 ^ gb ∧ 0 ≤ v mod 2 ^ gb < 2 ^ gb.
Proof.
  pose proof (Z.pow_pos_nonneg 2 gb ltac:(lia) ltac:(lia)).
  split_and!; [done|by apply Z.div_mod; lia|apply Z.mod_pos_bound; lia..].
Qed.

Lemma round_up_half : ∃ r, int_rounding t v 0 gb = Ok r ∧ in_ty t r ∧ rounded 0 v (2 ^ gb) (Z.shiftr r gb).
Proof.
  unfold int_rounding. rewrite lsb_eq. destruct step_facts as (HP & Ev & Hm). eexists; split; [done|].
  destruct (decide (gb = 0)) as [Hg|Hg].
  { assert (Z.shiftr (2 ^ gb) 1 = 0) as -> by (by rewrite Hg).
    destruct (between_ty (v + 0)) as [-> ?]; [lia|]. split; [done|].
    unfold rounded. rewrite Hg, Z.shiftr_0_r. simpl. lia. }
  destruct half_step as (-> & E & HP' & _); [lia|].
  destruct (between_ty (v + 2 ^ (gb - 1))) as [-> ?]; [lia|]. split; [done|]. unfold rounded.
  rewrite Z.shiftr_div_pow2 by lia. set (z := v + 2 ^ (gb - 1)).
  pose proof (Z.div_mod z (2 ^ gb) ltac:(lia)). pose proof (Z.mod_pos_bound z (2 ^ gb) ltac:(lia)). nia.
Qed.

Lemma round_even : ∃ r, int_rounding t v 1 gb = Ok r ∧ in_ty t r ∧ rounded 1 v (2 ^ gb) (Z.shiftr r gb).
Proof.
  unfold int_rounding. rewrite lsb_eq. destruct step_facts as (HP & Ev & Hm). eexists; split; [done|].
  destruct (decide (gb = 0)) as [Hg|Hg].
  { assert (Z.shiftr (2 ^ gb) 1 = 0) as -> by (by rewrite Hg).
    rewrite Z.land_0_r. simpl. split; [done|]. rewrite Hg, Z.shiftr_0_r. lia. }
  destruct half_step as (-> & E & HP' & -> & Ho & El); [lia|].
  rewrite land_low, !land_pow2, Ho, El by lia.
  destruct (between_ty (v + 2 ^ gb)) as [-> ?]; [lia|]. unfold rounded.
  set (q := v / 2 ^ gb) in *. set (l := v mod 2 ^ gb) in *.
  assert (Z.shiftr v gb = q) as Eq0 by (rewrite Z.shiftr_div_pow2; [done|lia]).
  assert (Z.shiftr (v + 2 ^ gb) gb = q + 1) as Eq1.
  { rewrite <- (Z.mul_1_l (2 ^ gb)) at 1. apply shiftr_add_mult. lia. }
  destruct (Z.leb_spec (2 ^ (gb - 1)) l); simpl;
    [rewrite Z.mul_1_l, (Z_eqb_false (2 ^ (gb - 1))) by lia; simpl|by rewrite Eq0; split; [|lia]].
  destruct (Z.eqb_spec (l - 2 ^ (gb - 1)) 0) as [Hl|Hl]; simpl; [|by rewrite Eq1; split; [|lia]].
  destruct (Z.odd q) eqn:Hq; simpl.
  - rewrite Z.mul_1_l, (Z_eqb_false (2 ^ gb)) by lia. simpl. rewrite Eq1. split; [done|].
    split; [lia|]. intros _. by rewrite Z.even_add, <- Z.negb_odd, Hq.
  - rewrite Eq0. split; [done|]. split; [lia|]. intros _. by rewrite <- Z.negb_odd, Hq.
Qed.

Lemma round_odd : ∃ r, int_rounding t v 3 gb = Ok r ∧ in_ty t r ∧ rounded 3 v (2 ^ gb) (Z.shiftr r gb).
Proof.
  unfold int_rounding. rewrite lsb_eq, land_low by lia. destruct step_facts as (HP & Ev & Hm).
  eexists; split; [done|]. pose proof (Z.add_lor_land v (2 ^ gb)) as El. rewrite land_pow2 in El by lia.
  unfold rounded. destruct (Z.eqb_spec (v mod 2 ^ gb) 0) as [Hl|Hl]; simpl.
  { split; [done|]. left. rewrite Z.shiftr_div_pow2 by lia. lia. }
  destruct (Z.odd (v / 2 ^ gb)) eqn:Hq; simpl in El.
  - assert (Z.lor v (2 ^ gb) = v) as -> by lia. destruct (between_ty v) as [-> ?]; [lia|].
    split; [done|]. right. rewrite Z.shiftr_div_pow2, Hq by lia. split_and!; [done|done|lia].
  - assert (Z.lor v (2 ^ gb) = v + 1 * 2 ^ gb) as -> by lia.
    destruct (between_ty (v + 1 * 2 ^ gb)) as [-> ?]; [lia|].
    split; [done|]. right. rewrite shiftr_add_mult, Z.odd_add, Hq by lia. split_and!; [done|done|nia].
Qed.

Lemma int_rounding_correct xrm : 0 ≤ xrm ≤ 3 →
  ∃ r, int_rounding t v xrm gb = Ok r ∧ in_ty t r ∧ rounded xrm v (2 ^ gb) (Z.shiftr r gb).
Proof.
  intros Hx. assert (xrm = 0 ∨ xrm = 1 ∨ xrm = 2 ∨ xrm = 3) as [->|[->|[->| ->]]] by lia.
  - apply round_up_half.
  - apply round_even.
  - exists v. split_and!; [done|done|]. unfold rounded. rewrite Z.shiftr_div_pow2 by lia.
    destruct step_facts as (? & ? & ?). nia.
  - apply round_odd.
Qed.
End rounding.

(** ** Carry and borrow *)
Lemma carry_borrow w a b c : 0 < w → in_ty (uty w) a → in_ty (uty w) b →
  carry_out (uty w) a b c = (2 ^ w <=? a + b + Z.b2z c) ∧
  borrow_out (uty w) a b c = (a - b - Z.b2z c <? 0).
Proof.
  intros Hw Ha Hb. unfold carry_out, borrow_out. change (make_unsigned (uty w)) with (uty w).
  rewrite !(conv_id (uty w) a), !(conv_id (uty w) b) by done.
  unfold in_ty, ty_min, ty_max in Ha, Hb; simpl in Ha, Hb.
  assert (conv (uty w) (a + b + Z.b2z c) =
          a + b + Z.b2z c - (if 2 ^ w <=? a + b + Z.b2z c then 2 ^ w else 0)) as ->.
  { unfold conv; simpl. destruct (Z.leb_spec (2 ^ w) (a + b + Z.b2z c)), c; simpl in *.
    1,2: rewrite <- (mod_shift _ (2 ^ w) (-1)) by lia; rewrite Z.mod_small; lia.
    all: rewrite Z.mod_small; lia. }
  destruct c; simpl; split.
  all: repeat match goal with
    | |- context [?a <? ?b] => destruct (Z.ltb_spec a b)
    | |- context [?a <=? ?b] => destruct (Z.leb_spec a b)
    end; lia.
Qed.

(** ** Bit fields *)
Lemma mask_ones n : 0 ≤ n < 64 → mask n = Z.ones n.
Proof. intros Hn. unfold mask. rewrite Z_leb_false by lia. rewrite Z.ones_equiv. lia. Qed.

Lemma bits_div v first last : 0 ≤ last ≤ first → first - last < 63 →
  bits v first last = v / 2 ^ last mod 2 ^ (first - last + 1).
Proof.
  intros H1 H2. unfold bits. rewrite mask_ones by lia.
  by rewrite Z.land_ones, Z.shiftr_div_pow2 by lia.
Qed.

Lemma bits_range v first last : 0 ≤ last ≤ first → first - last < 63 →
  0 ≤ bits v first last < 2 ^ (first - last + 1).
Proof. intros. rewrite bits_div by done. apply Z.mod_pos_bound. apply Z.pow_pos_nonneg; lia. Qed.

(** The encoding of LMUL: 0..3 and, for the fractions, -4..-1. *)
Lemma vtype_vlmul_value vtype :
  vtype_vlmul vtype = (if bits vtype 2 0 <? 4 then bits vtype 2 0 else bits vtype 2 0 - 8) ∧
  -4 ≤ vtype_vlmul vtype ≤ 3.
Proof.
  unfold vtype_vlmul. pose proof (bits_range vtype 2 0 ltac:(lia) ltac:(lia)) as H. simpl in H.
  generalize dependent (bits vtype 2 0). intros b H.
  assert (b = 0 ∨ b = 1 ∨ b = 2 ∨ b = 3 ∨ b = 4 ∨ b = 5 ∨ b = 6 ∨ b = 7) as Hb by lia.
  destruct_or! Hb; subst; vm_compute; split; (done || split; discriminate).
Qed.

Lemma vtype_VLMAX_unfold vtype vlen per_reg :
  let lmul := vtype_vlmul vtype in
  vtype_VLMAX vtype vlen per_reg =
  vlen / 2 ^ (bits vtype 5 3 + 3 - (if per_reg then Z.min 0 lmul else lmul)).
Proof.
  intros lmul. unfold vtype_VLMAX. fold (vtype_vlmul vtype). fold lmul.
  destruct (vtype_vlmul_value vtype) as [_ Hl]. fold lmul in Hl.
  pose proof (bits_range vtype 5 3 ltac:(lia) ltac:(lia)).
  apply Z.shiftr_div_pow2. destruct per_reg; lia.
Qed.

(** A register group holds [regs_per_group] times the elements of one register:
    the micro-ops of a macro-op cover VLMAX exactly. *)
Lemma group_VLMAX vtype vlen : 0 ≤ vlen → vlen mod vtype_SEW vtype = 0 →
  vtype_VLMAX vtype vlen false = vtype_regs_per_group vtype * vtype_VLMAX vtype vlen true.
Proof.
  intros Hv Hd. rewrite !vtype_VLMAX_unfold. unfold vtype_regs_per_group. fold (vtype_vlmul vtype).
  destruct (vtype_vlmul_value vtype) as [_ Hl]. set (l := vtype_vlmul vtype) in *.
  pose proof (bits_range vtype 5 3 ltac:(lia) ltac:(lia)) as Hs.
  unfold vtype_SEW in Hd. set (s := bits vtype 5 3) in *.
  rewrite Z.shiftl_mul_pow2 in Hd by lia. rewrite Z.shiftl_1_l.
  destruct (decide (l ≤ 0)).
  - rewrite Z.max_l, Z.min_r by lia. lia.
  - rewrite Z.max_r, Z.min_l, Z.sub_0_r by lia.
    replace (8 * 2 ^ s) with (2 ^ (s + 3)) in Hd by (rewrite Z.pow_add_r; lia).
    assert (vlen = 2 ^ (s + 3) * (vlen / 2 ^ (s + 3))) as Ev.
    { pose proof (Z.div_mod vlen (2 ^ (s + 3))) as E. rewrite Hd in E.
      rewrite Z.add_0_r in E. apply E. by apply Z.pow_nonzero; lia. }
    rewrite Ev at 1. replace (s + 3) with ((s + 3 - l) + l) at 1 by lia.
    rewrite Z.pow_add_r by lia. rewrite <- Z.mul_assoc, (Z.mul_comm (2 ^ (s + 3 - l))).
    apply Z.div_mul. apply Z.pow_nonzero; lia.
Qed.

(** ** NaN boxing *)
Lemma unbox_box v : 0 ≤ v < 2 ^ 32 → unboxF32 (boxF32 v) = v.
Proof.
  intros Hv. unfold unboxF32, boxF32. change (mask_range 63 32) with (Z.shiftl (2 ^ 32 - 1) 32).
  assert (Z.lor (Z.shiftl (2 ^ 32 - 1) 32) v = v + (2 ^ 32 - 1) * 2 ^ 32) as ->.
  { rewrite <- Z.shiftl_mul_pow2, (Z.add_comm v), <- Z.add_lor_land by done.
    enough (Z.land (Z.shiftl (2 ^ 32 - 1) 32) v = 0) by lia.
    apply Z.bits_inj'. intros n Hn. rewrite Z.land_spec, Z.bits_0.
    destruct (decide (n < 32)); [by rewrite Z.shiftl_spec_low by lia|].
    rewrite <- (Z.mod_small v (2 ^ 32)) by done.
    rewrite Z.mod_pow2_bits_high by lia. apply andb_false_r. }
  rewrite !bits_div by lia. simpl (_ - _ + 1).
  rewrite Z.div_add, (Z.div_small v), Z.div_1_r, mod_shift by (done || lia).
  simpl. by apply Z.mod_small.
Qed.

#[global] Arguments bits : simpl never.
#[global] Arguments conv : simpl never.
#[global] Arguments vtype_VLMAX : simpl never.
#[global] Arguments vtype_vlmul : simpl never.
#[global] Arguments vtype_regs_per_group : simpl never.
