(* ===== verification/Gem5Vset.v ===== *)
(** * vsetvli, vsetvl and vsetivli on gem5's RISC-V model

    The configuration instructions of isa/formats/vector_conf.isa and
    isa/decoder.isa with the helpers of insts/vector.{hh,cc}: what [vtype] and
    [vl] become, with the float arithmetic the code computes LMUL in (binary32
    of [Arith]) and the truncation of the requested length to 32 bits.  The
    vector configuration state [vconf] is an [eff] state; a fault is a throw,
    a failed [assert] is a throw of its own. *)

From Stdlib Require Import ZArith Lia SpecFloat.
From stdpp Require Import base numbers strings list.
From S2P Require Import Prelude Arith Gem5Utility.
#[local] Open Scope Z_scope.

(** The parameters of RiscvISA.py: powers of two with their bounds, and the
    [fatal_if] of ISA::ISA. *)
Definition RiscvVectorLength_check (value : Z) : bool :=
  (8 <=? value) && (value <=? 65536) && (Z.land value (value - 1) =? 0).
Definition RiscvVectorElementLength_check (value : Z) : bool :=
  (8 <=? value) && (value <=? 64) && (Z.land value (value - 1) =? 0).
Definition ISA_params (vlen elen : Z) : bool :=
  RiscvVectorLength_check vlen && RiscvVectorElementLength_check elen && negb (vlen <? elen).

Inductive VPUStatus := OFF | INITIAL | CLEAN | DIRTY.

Record vconf := VConf {
  misa_rvv : bool;
  status_vs : VPUStatus;
  vstart : Z;
  Vtype : Z;                  (* 64 bits *)
  VL : Z                      (* 32 bits *)
}.

(** The fields of the BitUnion VTYPE. *)
Definition vill (vtype : Z) : bool := bits vtype 63 63 =? 1.
Definition vma (vtype : Z) : bool := bits vtype 7 7 =? 1.
Definition vta (vtype : Z) : bool := bits vtype 6 6 =? 1.
Definition vsew (vtype : Z) : Z := bits vtype 5 3.
Definition vlmul (vtype : Z) : Z := bits vtype 2 0.

(** The value of a non-negative float, truncated as the conversion to
    [uint32_t] does. *)
Definition f32_to_Z (x : float32) : Z :=
  match x with
  | S754_finite false m e => Z.shiftl (Z.pos m) e
  | _ => 0
  end.

Definition getVflmul (vlmul_encoding : Z) : float32 :=
  let vlmul := conv (sty 32) (sext 3 (Z.land vlmul_encoding 7)) in
  if 0 <=? vlmul then f32_of_Z (Z.shiftl 1 vlmul)
  else f32_div (f32_of_Z 1) (f32_of_Z (Z.shiftl 1 (- vlmul))).

Definition getSew (vsew : Z) : res Z :=
  if vsew <=? 3 then Ok (Z.shiftl 8 vsew) else Throw "assert(vsew <= 3)".

Definition getVlmax (vtype vlen : Z) : res Z :=
  sew <- getSew (vsew vtype) ;;
  Ok (f32_to_Z (f32_mul (f32_of_Z (vlen / sew)) (getVflmul (vlmul vtype)))).

(** [std::min] on floats. *)
Definition f32_min (a b : float32) : float32 := if SFltb b a then b else a.

Definition getNewVtype (elen oldVtype reqVtype : Z) : res Z :=
  if oldVtype =? reqVtype then Ok oldVtype
  else
    let newVtype := reqVtype in
    let vflmul := getVflmul (vlmul newVtype) in
    sew <- getSew (vsew newVtype) ;;
    let newVill :=
      negb (SFleb (f32_div (f32_of_Z 1) (f32_of_Z 8)) vflmul && SFleb vflmul (f32_of_Z 8)) ||
      SFltb (f32_mul (f32_min vflmul (f32_of_Z 1)) (f32_of_Z elen)) (f32_of_Z sew) ||
      negb (bits reqVtype 62 8 =? 0) in
    Ok (if newVill : bool then Z.shiftl 1 63 else newVtype).

(** The three first arguments are [uint32_t]. *)
Definition getNewVL (currentVl reqVl vlmax rdBits rs1Bits : Z) : Z :=
  let currentVl := conv (uty 32) currentVl in
  let reqVl := conv (uty 32) reqVl in
  let vlmax := conv (uty 32) vlmax in
  if vlmax =? 0 then 0
  else if (rdBits =? 0) && (rs1Bits =? 0) then
    if vlmax <? currentVl then vlmax else currentVl
  else if negb (rdBits =? 0) && (rs1Bits =? 0) then vlmax
  else if negb (rs1Bits =? 0) then
    if vlmax <? reqVl then vlmax else reqVl
  else 0.

Definition set_conf (vtype vl : Z) (s : vconf) : vconf :=
  VConf (misa_rvv s) (status_vs s) (vstart s) vtype vl.
Definition set_vstart (v : Z) (s : vconf) : vconf :=
  VConf (misa_rvv s) (status_vs s) v (Vtype s) (VL s).
Definition is_off (v : VPUStatus) : bool := match v with OFF => true | _ => false end.

(** VConfExecute; the value returned is what is written to [Rd]. *)
Definition VConf_execute (elen vlen rd_bits rs1_bits requested_vl requested_vtype : Z) : eff vconf Z :=
  let* s := eff_get id in
  if negb (misa_rvv s) || is_off (status_vs s)
  then eff_throw "RVV is disabled or VPU is off"
  else
    let* _ := eff_lift (λ s, getVlmax (Vtype s) vlen) in
    let current_vl := VL s in
    let* _ := eff_mod (set_vstart 0) in
    let* new_vtype := eff_lift (λ s, getNewVtype elen (Vtype s) requested_vtype) in
    let* vlmax := eff_lift (λ _, if vill new_vtype then Ok 0 else getVlmax new_vtype vlen) in
    let new_vl := getNewVL current_vl requested_vl vlmax rd_bits rs1_bits in
    let* _ := eff_mod (set_conf new_vtype new_vl) in
    eff_ret new_vl.

(** The three instructions: [rs1] is the register's number and [xrs1], [xrs2]
    are the 64-bit contents of the sources. *)
Definition vsetvli (elen vlen rd rs1 xrs1 zimm11 : Z) : eff vconf Z :=
  VConf_execute elen vlen rd rs1 xrs1 zimm11.
Definition vsetvl_x (elen vlen rd rs1 xrs1 xrs2 : Z) : eff vconf Z :=
  VConf_execute elen vlen rd rs1 xrs1 xrs2.
Definition vsetivli (elen vlen rd uimm zimm10 : Z) : eff vconf Z :=
  VConf_execute elen vlen rd (2 ^ 64 - 1) uimm zimm10.

#[global] Arguments vill : simpl never.
#[global] Arguments vsew : simpl never.
#[global] Arguments getVlmax : simpl never.
#[global] Arguments getNewVtype : simpl never.

(** ** Exhaustive checks over small ranges *)
Lemma forall_range lo n (P : Z → bool) :
  forallb P (seqZ lo n) = true → ∀ z, lo ≤ z < lo + n → P z = true.
Proof.
  intros H z Hz. rewrite forallb_forall in H. apply H, list_elem_of_In, elem_of_seqZ. lia.
Qed.

(** The admissible register and element lengths are powers of two. *)
Lemma land_pred_power v : 0 < v → Z.land v (v - 1) = 0 → v = 2 ^ Z.log2 v.
Proof.
  intros Hv Hl. destruct (Z.log2_spec v Hv) as [H1 H2].
  destruct (decide (v = 2 ^ Z.log2 v)) as [|Hne]; [done|exfalso].
  assert (Z.log2 (v - 1) = Z.log2 v) as E.
  { apply Z.log2_unique; [apply Z.log2_nonneg|]. lia. }
  assert (Z.testbit (Z.land v (v - 1)) (Z.log2 v) = true) as Hb.
  { pose proof (Z.pow_pos_nonneg 2 (Z.log2 v) ltac:(lia) (Z.log2_nonneg v)).
    rewrite Z.land_spec, Z.bit_log2 by done. rewrite <- E, Z.bit_log2 by lia. done. }
  by rewrite Hl, Z.bits_0 in Hb.
Qed.

Lemma vlen_cases vlen : RiscvVectorLength_check vlen = true → ∃ k, 3 ≤ k < 17 ∧ vlen = 2 ^ k.
Proof.
  intros H. unfold RiscvVectorLength_check in H.
  assert (8 ≤ vlen ≤ 65536 ∧ Z.land vlen (vlen - 1) = 0) as [Hr Hl] by lia.
  exists (Z.log2 vlen). split; [|apply land_pred_power; lia]. split.
  - apply Z.log2_le_pow2; lia.
  - apply Z.log2_lt_pow2; lia.
Qed.
Lemma elen_cases elen : RiscvVectorElementLength_check elen = true → ∃ k, 3 ≤ k < 7 ∧ elen = 2 ^ k.
Proof.
  intros H. destruct (vlen_cases elen) as (k & Hk & E).
  { unfold RiscvVectorElementLength_check, RiscvVectorLength_check in *. lia. }
  exists k. split; [|done]. split; [lia|].
  destruct (decide (k < 7)); [done|]. unfold RiscvVectorElementLength_check in H.
  pose proof (Z.pow_le_mono_r 2 7 k ltac:(lia) ltac:(lia)). simpl in *. lia.
Qed.

(** ** What the code means by a supported vtype *)

(** LMUL at least 1/8 and SEW at most [min(LMUL, 1) * ELEN], in integers. *)
Definition supported (elen vtype : Z) : bool :=
  let l := vtype_vlmul vtype in
  (-3 <=? l) && (8 * 2 ^ vsew vtype * 2 ^ Z.max 0 (- l) <=? elen).

Definition float_vill (elen vsew vlmul : Z) : bool :=
  negb (SFleb (f32_div (f32_of_Z 1) (f32_of_Z 8)) (getVflmul vlmul) &&
        SFleb (getVflmul vlmul) (f32_of_Z 8)) ||
  SFltb (f32_mul (f32_min (getVflmul vlmul) (f32_of_Z 1)) (f32_of_Z elen))
        (f32_of_Z (Z.shiftl 8 vsew)).

Lemma field_ranges vtype : 0 ≤ vsew vtype < 8 ∧ 0 ≤ vlmul vtype < 8.
Proof.
  unfold vsew, vlmul. pose proof (bits_range vtype 5 3 ltac:(lia) ltac:(lia)).
  pose proof (bits_range vtype 2 0 ltac:(lia) ltac:(lia)). simpl in *. lia.
Qed.

Definition float_vill_check : bool :=
  forallb (λ k, forallb (λ s, forallb (λ l,
    Bool.eqb (float_vill (2 ^ k) s l)
      (negb (let l' := if l <? 4 then l else l - 8 in
        (-3 <=? l') && (8 * 2 ^ s * 2 ^ Z.max 0 (- l') <=? 2 ^ k)))) (seqZ 0 8)) (seqZ 0 4)) (seqZ 3 4).
Lemma float_vill_check_holds : float_vill_check = true.
Proof. vm_compute. reflexivity. Qed.

(** The float computation of [newVill] is exact. *)
Lemma float_vill_exact elen vtype : RiscvVectorElementLength_check elen = true →
  vsew vtype ≤ 3 → float_vill elen (vsew vtype) (vlmul vtype) = negb (supported elen vtype).
Proof.
  intros He Hs. destruct (elen_cases elen He) as (k & Hk & ->).
  destruct (field_ranges vtype) as [Hs' Hl]. unfold supported.
  rewrite (proj1 (vtype_vlmul_value vtype)). fold (vlmul vtype).
  pose proof (forall_range _ _ _ float_vill_check_holds k ltac:(lia)) as H1.
  pose proof (forall_range _ _ _ H1 (vsew vtype) ltac:(lia)) as H2.
  pose proof (forall_range _ _ _ H2 (vlmul vtype) ltac:(lia)) as H3.
  by apply eqb_prop in H3.
Qed.

Definition vlmax_check : bool :=
  forallb (λ k, forallb (λ s, forallb (λ l,
    (2 ^ k <? Z.shiftl 8 s) ||
    (f32_to_Z (f32_mul (f32_of_Z (2 ^ k / Z.shiftl 8 s)) (getVflmul l)) =?
     2 ^ k / 2 ^ (s + 3 - (if l <? 4 then l else l - 8)))) (seqZ 0 8)) (seqZ 0 4)) (seqZ 3 14).
Lemma vlmax_check_holds : vlmax_check = true.
Proof. vm_compute. reflexivity. Qed.

(** VLMAX computed through floats is the shift of utility.hh. *)
Lemma getVlmax_exact vlen vtype : RiscvVectorLength_check vlen = true →
  vsew vtype ≤ 3 → vtype_SEW vtype ≤ vlen → getVlmax vtype vlen = Ok (vtype_VLMAX vtype vlen false).
Proof.
  intros Hv Hs Hle. destruct (vlen_cases vlen Hv) as (k & Hk & ->).
  destruct (field_ranges vtype) as [Hs' Hl]. unfold getVlmax, getSew.
  rewrite Z_leb_true by done. cbn [res_bind]. f_equal. rewrite vtype_VLMAX_unfold.
  rewrite (proj1 (vtype_vlmul_value vtype)). unfold vtype_SEW in Hle. fold (vlmul vtype) (vsew vtype) in *.
  pose proof (forall_range _ _ _ vlmax_check_holds k ltac:(lia)) as H1.
  pose proof (forall_range _ _ _ H1 (vsew vtype) ltac:(lia)) as H2.
  pose proof (forall_range _ _ _ H2 (vlmul vtype) ltac:(lia)) as H3. cbv beta in H3.
  rewrite Z_ltb_false in H3 by done. by apply Z.eqb_eq in H3.
Qed.

(** ** The configuration state *)

(** Either [vill] is set and the length is zero, or the type is one the unit
    supports, with no stray bit, and the length is at most its VLMAX. *)
Definition vconf_ok (elen vlen : Z) (s : vconf) : Prop :=
  vsew (Vtype s) ≤ 3 ∧ 0 ≤ Vtype s < 2 ^ 64 ∧
  if vill (Vtype s) then VL s = 0
  else supported elen (Vtype s) = true ∧ bits (Vtype s) 62 8 = 0 ∧
       0 ≤ VL s ≤ vtype_VLMAX (Vtype s) vlen false.

#[global] Arguments supported : simpl never.

(** The state of a PCState that was just constructed. *)
Definition vconf_init : vconf := VConf true INITIAL 0 (Z.shiftl 1 63) 0.

Section vset.
Context (elen vlen : Z) (Hp : ISA_params vlen elen = true).

Lemma params : RiscvVectorLength_check vlen = true ∧ RiscvVectorElementLength_check elen = true ∧ elen ≤ vlen.
Proof.
  unfold ISA_params in Hp. apply andb_prop in Hp as [H1 H2]. apply andb_prop in H1 as [H1 H3].
  split_and!; [done|done|]. lia.
Qed.

Lemma supported_SEW vtype : supported elen vtype = true → vtype_SEW vtype ≤ elen.
Proof.
  unfold supported, vtype_SEW. fold (vsew vtype). intros H.
  destruct (field_ranges vtype) as [Hs _]. rewrite Z.shiftl_mul_pow2 by lia.
  pose proof (Z.pow_pos_nonneg 2 (Z.max 0 (- vtype_vlmul vtype)) ltac:(lia) ltac:(lia)).
  pose proof (Z.pow_pos_nonneg 2 (vsew vtype) ltac:(lia) ltac:(lia)). nia.
Qed.

(** A supported type has at least one element, and never more than [vlen]. *)
Lemma VLMAX_range vtype : supported elen vtype = true → 1 ≤ vtype_VLMAX vtype vlen false ≤ 65536.
Proof.
  intros H. destruct params as (Hv & He & Hle). destruct (vlen_cases vlen Hv) as (k & Hk & Ek).
  assert (2 ^ k ≤ 2 ^ 16) as Hk16 by (apply Z.pow_le_mono_r; lia).
  rewrite vtype_VLMAX_unfold. fold (vsew vtype). destruct (field_ranges vtype) as [Hs _].
  destruct (vtype_vlmul_value vtype) as [_ Hl]. unfold supported in H. set (l := vtype_vlmul vtype) in *.
  assert (2 ^ (vsew vtype + 3 - l) ≤ vlen).
  { 
    assert (8 * 2 ^ vsew vtype * 2 ^ Z.max 0 (- l) ≤ elen) as H' by lia.
    change 8 with (2 ^ 3) in H'. rewrite <- !Z.pow_add_r in H' by lia.
    assert (2 ^ (vsew vtype + 3 - l) ≤ 2 ^ (3 + vsew vtype + Z.max 0 (- l))); [|lia].
    apply Z.pow_le_mono_r; lia. }
  pose proof (Z.pow_pos_nonneg 2 (vsew vtype + 3 - l) ltac:(lia) ltac:(lia)). split.
  - apply Z.div_le_lower_bound; lia.
  - apply Z.div_le_upper_bound; [lia|]. subst vlen. simpl in Hk16. nia.
Qed.

Lemma vlmax_supported vtype : vsew vtype ≤ 3 → supported elen vtype = true →
  getVlmax vtype vlen = Ok (vtype_VLMAX vtype vlen false).
Proof.
  intros Hs H. destruct params as (Hv & _ & Hle). apply getVlmax_exact; [done|done|].
  pose proof (supported_SEW _ H). lia.
Qed.

Lemma vlmax_some vtype : vsew vtype ≤ 3 → ∃ m, getVlmax vtype vlen = Ok m.
Proof. intros H. unfold getVlmax, getSew. rewrite Z_leb_true by done. by eexists. Qed.

(** The type a request leaves. *)
Definition granted (old req : Z) : Z :=
  if (old =? req) || supported elen req && (bits req 62 8 =? 0) then req else Z.shiftl 1 63.

Lemma getNewVtype_granted old req : vsew req ≤ 3 → getNewVtype elen old req = Ok (granted old req).
Proof.
  intros Hs. destruct params as (_ & He & _). unfold getNewVtype, granted.
  destruct (Z.eqb_spec old req) as [->|]; [done|]. unfold getSew. rewrite Z_leb_true by done.
  cbn [res_bind]. fold (float_vill elen (vsew req) (vlmul req)). rewrite float_vill_exact by done.
  by destruct (supported elen req), (bits req 62 8 =? 0).
Qed.

(** The length a request leaves: RVV 1.0, section 6.2, with the requested
    length taken modulo 2^32. *)
Definition granted_vl (vtype vl rd rs1 avl : Z) : Z :=
  if vill vtype then 0
  else
    let m := vtype_VLMAX vtype vlen false in
    if rs1 =? 0 then if rd =? 0 then Z.min vl m else m
    else Z.min (avl mod 2 ^ 32) m.
Lemma VL_range s : vconf_ok elen vlen s → 0 ≤ VL s ≤ 65536.
Proof.
  intros (_ & _ & H). destruct (vill (Vtype s)); [lia|]. destruct H as (H & _ & ?).
  pose proof (VLMAX_range _ H). lia.
Qed.

Lemma conv32_small z : 0 ≤ z ≤ 65536 → conv (uty 32) z = z.
Proof. intros Hz. apply conv_id; [done|]. unfold in_ty, ty_min, ty_max; simpl. lia. Qed.

Lemma granted_ok old vl req : vsew req ≤ 3 → 0 ≤ req < 2 ^ 64 →
  (∀ a b c, vconf_ok elen vlen (VConf a b c old vl)) →
  vsew (granted old req) ≤ 3 ∧ 0 ≤ granted old req < 2 ^ 64 ∧
  (vill (granted old req) = false → supported elen (granted old req) = true ∧ bits (granted old req) 62 8 = 0).
Proof.
  intros Hs Hr Ho. unfold granted. destruct (Z.eqb_spec old req) as [->|]; simpl.
  - destruct (Ho true OFF 0) as (H1 & H2 & H3). unfold Vtype in H3. split; [done|]. split; [done|].
    intros E. rewrite E in H3. destruct H3 as (? & ? & _). done.
  - destruct (supported elen req) eqn:E1, (Z.eqb_spec (bits req 62 8) 0); simpl;
      split_and!; (done || lia).
Qed.

(** One configuration instruction. *)
Lemma VConf_execute_ok rd rs1 avl req s :
  misa_rvv s = true → status_vs s ≠ OFF → vconf_ok elen vlen s → vsew req ≤ 3 → 0 ≤ req < 2 ^ 64 →
  let t := granted (Vtype s) req in
  let vl := granted_vl t (VL s) rd rs1 avl in
  let s' := VConf true (status_vs s) 0 t vl in
  VConf_execute elen vlen rd rs1 avl req s = (s', Ok vl) ∧ vconf_ok elen vlen s'.
Proof.
  intros Hm Hst Hok Hs Hr t vl s'. pose proof (VL_range s Hok) as Hvl.
  destruct s as [m st vs vt v]; simpl in *. subst m.
  destruct (granted_ok vt v req Hs Hr) as (Ht1 & Ht2 & Ht3); [by intros|]. fold t in Ht1, Ht2, Ht3.
  assert ((if vill t then Ok 0 else getVlmax t vlen) = Ok (if vill t then 0 else vtype_VLMAX t vlen false) ∧
          (vill t = false → 1 ≤ vtype_VLMAX t vlen false ≤ 65536)) as [Hmax Hrange].
  { destruct (vill t); [done|]. destruct Ht3 as [Hsup _]; [done|].
    split; [by apply vlmax_supported|intros _; by apply VLMAX_range]. }
  split.
  - destruct (vlmax_some vt) as [m0 Hm0]; [exact (proj1 Hok)|].
    unfold VConf_execute. rewrite (eff_bind_ok _ _ _ (VConf true st vs vt v) (VConf true st vs vt v)) by done.
    cbn [misa_rvv status_vs negb]. replace (is_off st) with false by (by destruct st). cbn [orb].
    rewrite (eff_bind_lift _ _ _ m0) by done.
    rewrite (eff_bind_ok _ _ _ (VConf true st 0 vt v) tt) by done.
    rewrite (eff_bind_lift _ _ _ t) by (by apply getNewVtype_granted).
    rewrite (eff_bind_lift _ _ _ _ Hmax). cbn [VL].
    assert (getNewVL v avl (if vill t then 0 else vtype_VLMAX t vlen false) rd rs1 = vl) as ->; [|done].
    unfold getNewVL, vl, granted_vl. destruct (vill t); [done|]. specialize (Hrange eq_refl).
    rewrite !(conv32_small (vtype_VLMAX t vlen false)), (conv32_small v) by lia.
    rewrite Z_eqb_false by lia. change (conv (uty 32) avl) with (avl mod 2 ^ 32).
    destruct (Z.eqb_spec rs1 0), (Z.eqb_spec rd 0); simpl;
      repeat match goal with |- context [?a <? ?b] => destruct (Z.ltb_spec a b) end; lia.
  - split; [done|]. split; [done|]. unfold s', Vtype, VL. unfold vl, granted_vl. destruct (vill t); [done|].
    destruct Ht3 as [? ?]; [done|]. specialize (Hrange eq_refl). split; [done|]. split; [done|].
    pose proof (Z.mod_pos_bound avl (2 ^ 32) ltac:(lia)). destruct (rs1 =? 0), (rd =? 0); lia.
Qed.
End vset.

(** ** Programs of configuration instructions *)
Inductive vset_inst :=
| VSETVLI (rd rs1 xrs1 zimm11 : Z)
| VSETVL (rd rs1 xrs1 xrs2 : Z)
| VSETIVLI (rd uimm zimm10 : Z).

(** The operands are 64-bit registers, or immediates of the encoding. *)
Definition encodable (i : vset_inst) : Prop :=
  match i with
  | VSETVLI _ _ _ zimm11 => 0 ≤ zimm11 < 2 ^ 11
  | VSETVL _ _ _ xrs2 => 0 ≤ xrs2 < 2 ^ 64
  | VSETIVLI _ _ zimm10 => 0 ≤ zimm10 < 2 ^ 10
  end.

Definition vset_execute (elen vlen : Z) (i : vset_inst) : eff vconf Z :=
  match i with
  | VSETVLI rd rs1 xrs1 zimm11 => vsetvli elen vlen rd rs1 xrs1 zimm11
  | VSETVL rd rs1 xrs1 xrs2 => vsetvl_x elen vlen rd rs1 xrs1 xrs2
  | VSETIVLI rd uimm zimm10 => vsetivli elen vlen rd uimm zimm10
  end.

(** The state after a program; a faulting instruction leaves what it wrote. *)
Definition vset_run (elen vlen : Z) (s : vconf) (prog : list vset_inst) : vconf :=
  foldl (λ s i, (vset_execute elen vlen i s).1) s prog.

Lemma vconf_ok_vstart elen vlen s v : vconf_ok elen vlen s → vconf_ok elen vlen (set_vstart v s).
Proof. destruct s. exact id. Qed.

(** A reserved [vsew] trips the assertion of [getSew]. *)
Lemma VConf_execute_assert elen vlen rd rs1 avl req s :
  misa_rvv s = true → status_vs s ≠ OFF → vsew (Vtype s) ≤ 3 → 3 < vsew req →
  VConf_execute elen vlen rd rs1 avl req s = (set_vstart 0 s, Throw "assert(vsew <= 3)").
Proof.
  intros Hm Hst Hs Hr. destruct s as [m st vs vt v]; cbn [misa_rvv status_vs Vtype] in *. subst m.
  destruct (vlmax_some vlen vt Hs) as [m0 Hm0].
  unfold VConf_execute. rewrite (eff_bind_ok _ _ _ (VConf true st vs vt v) (VConf true st vs vt v)) by done.
  cbn [misa_rvv status_vs negb]. replace (is_off st) with false by (by destruct st). cbn [orb].
  rewrite (eff_bind_lift _ _ _ m0) by done.
  rewrite (eff_bind_ok _ _ _ (VConf true st 0 vt v) tt) by done.
  unfold eff_bind at 1, eff_lift at 1. cbn [Vtype].
  assert (getNewVtype elen vt req = Throw "assert(vsew <= 3)") as ->; [|done].
  unfold getNewVtype, getSew. rewrite (Z_eqb_false vt) by (intros ->; lia).
  by rewrite Z_leb_false by lia.
Qed.

Lemma VConf_execute_keeps elen vlen rd rs1 avl req s : ISA_params vlen elen = true →
  0 ≤ req < 2 ^ 64 → vconf_ok elen vlen s →
  vconf_ok elen vlen (VConf_execute elen vlen rd rs1 avl req s).1.
Proof.
  intros Hp Hr Hok. destruct (misa_rvv s) eqn:Em; [|by unfold VConf_execute, eff_bind, eff_get, id; rewrite Em].
  assert (status_vs s = OFF ∨ status_vs s ≠ OFF) as [Hoff|Hoff] by (destruct (status_vs s); auto).
  { by unfold VConf_execute, eff_bind, eff_get, id; rewrite Em, Hoff. }
  destruct (decide (vsew req ≤ 3)) as [Hs|Hs].
  - destruct (VConf_execute_ok elen vlen Hp rd rs1 avl req s) as [-> ?]; done.
  - rewrite VConf_execute_assert; [by apply vconf_ok_vstart|done|done|exact (proj1 Hok)|lia].
Qed.

(** C30. Whatever the program of configuration instructions, with any 64-bit
    register contents, and whether or not some of them fault: a vector unit
    that starts in its reset state is always in a well-typed configuration.
    Either [vill] is set and [vl] is zero, or [vtype] has a supported SEW and
    LMUL, no bit outside the defined fields, and [vl] is at most VLMAX. *)
Theorem vset_typed (elen vlen : Z) (prog : list vset_inst) :
  ISA_params vlen elen = true → Forall encodable prog →
  vconf_ok elen vlen (vset_run elen vlen vconf_init prog).
Proof.
  intros Hp. assert (vconf_ok elen vlen vconf_init) as H0 by done. revert H0.
  generalize vconf_init as s. unfold vset_run.
  induction prog as [|i prog IH]; intros s Hs Hf; [done|].
  apply Forall_cons in Hf as [Hi Hf]. cbn [foldl]. apply IH; [|done].
  destruct i; apply VConf_execute_keeps; try done; simpl in Hi; lia.
Qed.

Lemma vset_typed_witness :
  vconf_ok 64 256 (vset_run 64 256 vconf_init
    [VSETVLI 10 11 100 208; VSETVL 0 0 0 (2 ^ 63); VSETIVLI 5 31 200; VSETVLI 1 2 3 56]).
Proof.
  apply (vset_typed 64 256); [by vm_compute|].
  repeat apply Forall_cons_2; try apply Forall_nil_2; split; by vm_compute.
Defined.
