(* ===== verification/Gem5Vector.v ===== *)
(** * Vector instructions on gem5's RISC-V model

    The execution of the vector instructions the L2 kernel is compiled to, as
    gem5 does it: a macro-op is split into one micro-op per register of the
    group (isa/templates/vector_arith.isa and vector_mem.isa), each micro-op
    checks the unit's state, copies the old destination or fills it with ones
    according to the tail and mask policy, and loops over its elements.

    Registers are byte strings of VLEN/8 bytes and elements are little-endian
    words of them, as in the C++ where [Vd_vu] is a cast of the container.  The
    softfloat routines (gem5/ext/softfloat) are an argument: a [fop] takes the
    rounding mode and two bit patterns and returns the bits of the result with
    the exception flags it raises. *)

From Stdlib Require Import ZArith Lia.
From stdpp Require Import base numbers strings list.
From S2P Require Import Prelude Binary Gem5Utility Gem5Vset.
#[local] Open Scope Z_scope.

Abbreviation vreg := (list N).
Definition fop : Type := Z → N → N → N * Z.

Record vunit := VUnit {
  conf : vconf;
  vregs : list vreg;
  frm : Z;                          (* MISCREG_FRM *)
  fflags : Z;                       (* MISCREG_FFLAGS *)
  softfloat_roundingMode : Z;
  mem : list N                      (* memory, by address *)
}.
Definition with_conf (c : vconf) (s : vunit) : vunit :=
  VUnit c (vregs s) (frm s) (fflags s) (softfloat_roundingMode s) (mem s).
Definition with_vregs (r : list vreg) (s : vunit) : vunit :=
  VUnit (conf s) r (frm s) (fflags s) (softfloat_roundingMode s) (mem s).
Definition with_rounding (m : Z) (s : vunit) : vunit :=
  VUnit (conf s) (vregs s) (frm s) (fflags s) m (mem s).
Definition with_fflags (f : Z) (s : vunit) : vunit :=
  VUnit (conf s) (vregs s) (frm s) f (softfloat_roundingMode s) (mem s).

(** The operands a vector instruction carries: the bit [vm] and the register
    numbers; [vl] and [vtype] are those of the state it was decoded in. *)
Record minst := MInst { vm : bool; vd : nat; vs1 : nat; vs2 : nat }.

(** ** Elements of a register *)
Definition lane (w : nat) (r : vreg) (i : nat) : N := of_le (take w (drop (i * w) r)).
Definition set_lane (w : nat) (r : vreg) (i : nat) (v : N) : vreg :=
  take (i * w) r ++ le w v ++ drop (S i * w) r.
(** [elem_mask<uint8_t>] *)
Definition elem_mask (vs : vreg) (index : nat) : bool :=
  N.testbit (default 0%N (vs !! (index / 8)%nat)) (N.of_nat (index mod 8)).

(** COPY_OLD_VD: what the destination holds before the loop. *)
Definition copy_old_vd (vtype : Z) (vm : bool) (old_vd : vreg) : vreg :=
  if negb (vta vtype) || (negb vm && negb (vma vtype)) then old_vd
  else replicate (length old_vd) 255%N.

(** ** Access to the unit *)
Definition getRegOperand (k : nat) : eff vunit vreg :=
  eff_lift (λ s, of_opt "no such vector register" (vregs s !! k)).
Definition setRegOperand (k : nat) (r : vreg) : eff vunit unit :=
  eff_mod (λ s, with_vregs (<[k := r]> (vregs s)) s).

(** The guards every [execute] starts with, and the write of [status.vs]. *)
Definition vector_guard : eff vunit unit :=
  let* c := eff_get conf in
  if negb (misa_rvv c) || is_off (status_vs c) then eff_throw "RVV is disabled or VPU is off"
  else if vill (Vtype c) then eff_throw "VILL is set"
  else eff_ret tt.
Definition mark_dirty : eff vunit unit :=
  eff_mod (λ s, let c := conf s in
    with_conf (VConf (misa_rvv c) DIRTY (vstart c) (Vtype c) (VL c)) s).

(** VRM_REQUIRED *)
Definition VRM_REQUIRED : eff vunit unit :=
  let* m := eff_get frm in
  if 4 <? m then eff_throw "RM fault" else eff_mod (with_rounding m).

(** [xc->setMiscReg(MISCREG_FFLAGS_EXE, softfloat_exceptionFlags)] *)
Definition set_fflags_exe (val : Z) : eff vunit unit :=
  eff_mod (λ s, with_fflags (Z.lor (fflags s) (Z.land val 31)) s).

(** ** The loop of an element-wise micro-op.  [ei] is the index of the first
    element in the group, by which the mask is read. *)
Definition vv_loop (w : nat) (op : N → N → N * Z) (vm : bool) (v0 : vreg) (ei : nat)
    (Vs2 Vs1 : vreg) (microVl : nat) (Vd : vreg) : vreg * Z :=
  foldl (λ '(d, fl) i,
    if vm || elem_mask v0 (ei + i)
    then let '(r, f) := op (lane w Vs2 i) (lane w Vs1 i) in (set_lane w d i r, Z.lor fl f)
    else (d, fl)) (Vd, 0) (seq 0 microVl).

(** VectorFloatDecodeBlock: the size of the [ElemType] selected by [vsew]. *)
Definition VectorFloatDecode (vtype : Z) : res nat :=
  match vsew vtype with
  | 1 => Ok 2%nat | 2 => Ok 4%nat | 3 => Ok 8%nat
  | _ => Undef "unreachable"
  end.

(** VectorFloatMicroExecute with the registers VectorFloatFormat assigns:
    category OPFVV. *)
Definition VectorFloatMicro_execute (vlen : Z) (w : nat) (op : fop) (mi : minst) (microVl microIdx : nat) :
    eff vunit unit :=
  let* _ := vector_guard in
  let* _ := mark_dirty in
  let* _ := VRM_REQUIRED in
  let* vtype := eff_get (λ s, Vtype (conf s)) in
  let* mode := eff_get softfloat_roundingMode in
  let* Vs1 := getRegOperand (vs1 mi + microIdx) in
  let* Vs2 := getRegOperand (vs2 mi + microIdx) in
  let* v0 := getRegOperand 0 in
  let* old_vd := getRegOperand (vd mi + microIdx) in
  let ei := (Z.to_nat (vtype_VLMAX vtype vlen true) * microIdx)%nat in
  let '(Vd, flags) := vv_loop w (op mode) (vm mi) v0 ei Vs2 Vs1 microVl
                        (copy_old_vd vtype (vm mi) old_vd) in
  let* _ := set_fflags_exe flags in
  setRegOperand (vd mi + microIdx) Vd.

(** ** The reduction: [tmp_val] starts from element 0 of [vs1]. *)
Definition reduce_loop (w : nat) (f : N → N → N * Z) (vm : bool) (v0 : vreg) (ei : nat)
    (Vs1 Vs2 : vreg) (microVl : nat) : N * Z :=
  foldl (λ '(tmp_val, fl) i,
    if vm || elem_mask v0 (ei + i)
    then let '(r, g) := f tmp_val (lane w Vs2 i) in (r, Z.lor fl g)
    else (tmp_val, fl)) (lane w Vs1 0, 0) (seq 0 microVl).

(** VectorReduceFloatMicroExecute with the registers of
    VectorReduceFloatFormat; there is no VRM_REQUIRED here. *)
Definition VectorReduceFloatMicro_execute (vlen : Z) (w : nat) (op : fop) (mi : minst) (microVl microIdx : nat) :
    eff vunit unit :=
  let* _ := vector_guard in
  let* _ := mark_dirty in
  let* vtype := eff_get (λ s, Vtype (conf s)) in
  let* mode := eff_get softfloat_roundingMode in
  let* Vs1 := getRegOperand (vs1 mi) in
  let* Vs2 := getRegOperand (vs2 mi + microIdx) in
  let* v0 := getRegOperand 0 in
  let* old_vd := getRegOperand (vd mi) in
  let ei := (Z.to_nat (vtype_VLMAX vtype vlen true) * microIdx)%nat in
  let '(r, flags) := reduce_loop w (op mode) (vm mi) v0 ei Vs1 Vs2 microVl in
  let* _ := set_fflags_exe flags in
  setRegOperand (vd mi) (set_lane w (copy_old_vd vtype (vm mi) old_vd) 0 r).

(** ** Macro-ops *)

(** The loop of the macro-op constructors: the number of elements and the index
    of each micro-op. *)
Fixpoint micro_loop (num_microops : nat) (i : nat) (tmp_vl micro_vlmax micro_vl : Z) : list (nat * nat) :=
  match num_microops with
  | O => []
  | S n =>
      if 0 <? micro_vl then
        let tmp_vl := conv (sty 32) (tmp_vl - micro_vlmax) in
        (Z.to_nat micro_vl, i) :: micro_loop n (S i) tmp_vl micro_vlmax (Z.min tmp_vl micro_vlmax)
      else []
  end.

(** VectorFloatMacroConstructor, VectorReduceMacroConstructor: an empty list
    stands for the single VectorNopMicroInst of [micro_vl == 0]. *)
Definition macro_microops (vlen vtype vl : Z) : list (nat * nat) :=
  let num_microops := vtype_regs_per_group vtype in
  let tmp_vl := conv (sty 32) vl in
  let micro_vlmax := conv (sty 32) (vtype_VLMAX vtype vlen true) in
  micro_loop (Z.to_nat num_microops) 0 tmp_vl micro_vlmax (Z.min tmp_vl micro_vlmax).

(** The micro-ops of a macro-op execute in order. *)
Fixpoint run_microops (exec : nat → nat → eff vunit unit) (ops : list (nat * nat)) : eff vunit unit :=
  match ops with
  | [] => eff_ret tt
  | (microVl, microIdx) :: ops =>
      let* _ := exec microVl microIdx in
      run_microops exec ops
  end.

(** A float instruction: decoded for the current [vtype] and [vl], then run. *)
Definition run_macro (vlen : Z) (exec : nat → nat → nat → eff vunit unit) : eff vunit unit :=
  let* c := eff_get conf in
  let* w := eff_lift (λ _, VectorFloatDecode (Vtype c)) in
  run_microops (exec w) (macro_microops vlen (bits (Vtype c) 7 0) (VL c)).

Definition vfop_vv (vlen : Z) (op : fop) (mi : minst) : eff vunit unit :=
  run_macro vlen (λ w, VectorFloatMicro_execute vlen w op mi).
Definition vfredusum_vs (vlen : Z) (op : fop) (mi : minst) : eff vunit unit :=
  run_macro vlen (λ w, VectorReduceFloatMicro_execute vlen w op mi).

(** ** Moves between the scalar and the vector registers *)

(** [ftype_freg] and [freg], by the size of the element type. *)
Definition ftype_freg (w : nat) (a : Z) : N :=
  Z.to_N (match w with 2%nat => unboxF16 a | 4%nat => unboxF32 a | _ => a end).
Definition freg (w : nat) (f : N) : Z :=
  match w with 2%nat => boxF16 (Z.of_N f) | 4%nat => boxF32 (Z.of_N f) | _ => Z.of_N f end.

(** vfmv.v.f: VectorFloatMicroExecute without a mask, category OPFVF; [fs1] is
    the content of the 64-bit float register. *)
Definition splat_loop (w : nat) (v : N) (microVl : nat) (Vd : vreg) : vreg :=
  foldl (λ d i, set_lane w d i v) Vd (seq 0 microVl).
Definition vfmv_v_f_micro (w : nat) (fs1 : Z) (mi : minst) (microVl microIdx : nat) : eff vunit unit :=
  let* _ := vector_guard in
  let* _ := mark_dirty in
  let* _ := VRM_REQUIRED in
  let* vtype := eff_get (λ s, Vtype (conf s)) in
  let* old_vd := getRegOperand (vd mi + microIdx) in
  let* _ := set_fflags_exe 0 in
  setRegOperand (vd mi + microIdx)
    (splat_loop w (ftype_freg w fs1) microVl (copy_old_vd vtype (vm mi) old_vd)).
Definition vfmv_v_f (vlen : Z) (fs1 : Z) (mi : minst) : eff vunit unit :=
  run_macro vlen (λ w, vfmv_v_f_micro w fs1 mi).

(** vfmv.s.f and vfmv.f.s (VectorFloatNonSplitExecute). *)
Definition vfmv_s_f (fs1 : Z) (mi : minst) : eff vunit unit :=
  let* c := eff_get conf in
  let* w := eff_lift (λ _, VectorFloatDecode (Vtype c)) in
  let* _ := vector_guard in
  let* _ := mark_dirty in
  let* Vd := getRegOperand (vd mi) in
  let* _ := set_fflags_exe 0 in
  if VL c =? 0 then eff_ret tt
  else setRegOperand (vd mi) (set_lane w Vd 0 (ftype_freg w fs1)).
Definition vfmv_f_s (mi : minst) : eff vunit Z :=
  let* c := eff_get conf in
  let* w := eff_lift (λ _, VectorFloatDecode (Vtype c)) in
  let* _ := vector_guard in
  let* _ := mark_dirty in
  let* Vs2 := getRegOperand (vs2 mi) in
  let* _ := set_fflags_exe 0 in
  eff_ret (freg w (lane w Vs2 0)).

(** ** Unit-stride loads (VleOp of isa/templates/vector_mem.isa) *)
Definition readMem (EA : Z) (size : nat) : eff vunit (list N) :=
  eff_lift (λ s, if Z.to_nat EA + size <=? length (mem s)
                 then Ok (take size (drop (Z.to_nat EA) (mem s)))
                 else Throw "page fault")%nat.

(** [memacc_code] of vle8/16/32/64: [w] is EEW/8. *)
Definition vle_loop (w : nat) (vm : bool) (v0 : vreg) (ei : nat) (Mem : list N)
    (micro_vlmax microVl : nat) (Vd : vreg) : vreg :=
  foldl (λ d i, if (vm || elem_mask v0 (ei + i)) && (i <? microVl)%nat
                then set_lane w d i (lane w Mem i) else d) Vd (seq 0 micro_vlmax).

(** VleMicroExecute (atomic accesses): the destination keeps its tail. *)
Definition VleMicro_execute (vlen : Z) (w : nat) (rs1 : Z) (mi : minst) (microVl microIdx : nat) :
    eff vunit unit :=
  let vlenb := Z.shiftr vlen 3 in
  let EA := conv (uty 64) (rs1 + vlenb * Z.of_nat microIdx) in
  let* _ := vector_guard in
  let* _ := mark_dirty in
  let* v0 := getRegOperand 0 in
  let* Mem := readMem EA (w * microVl) in
  let micro_vlmax := Z.to_nat (vlen / (8 * Z.of_nat w)) in
  let* Vd := getRegOperand (vd mi + microIdx) in
  setRegOperand (vd mi + microIdx)
    (vle_loop w (vm mi) v0 (micro_vlmax * microIdx) Mem micro_vlmax microVl Vd).

(** VleMicroInitiateAcc and VleMicroCompleteAcc (timing accesses): here the
    tail follows the policy. *)
Definition VleMicro_initiateAcc (vlen : Z) (w : nat) (rs1 : Z) (microVl microIdx : nat) :
    eff vunit (list N) :=
  let vlenb := Z.shiftr vlen 3 in
  let EA := conv (uty 64) (rs1 + vlenb * Z.of_nat microIdx) in
  let* _ := vector_guard in
  readMem EA (w * microVl).
Definition VleMicro_completeAcc (vlen : Z) (w : nat) (mi : minst) (microVl microIdx : nat) (Mem : list N) :
    eff vunit unit :=
  let* _ := mark_dirty in
  let* vtype := eff_get (λ s, Vtype (conf s)) in
  let* old_vd := getRegOperand (vd mi + microIdx) in
  let* v0 := getRegOperand 0 in
  let micro_vlmax := Z.to_nat (vlen / (8 * Z.of_nat w)) in
  setRegOperand (vd mi + microIdx)
    (vle_loop w (vm mi) v0 (micro_vlmax * microIdx) Mem micro_vlmax microVl
       (copy_old_vd vtype (vm mi) old_vd)).

(** VleConstructor: [ceil((float) vl / micro_vlmax)] micro-ops, exact because
    [micro_vlmax] is a power of two. *)
Definition vle_microops (vlen : Z) (w : nat) (vl : Z) : res (list (nat * nat)) :=
  let micro_vlmax := conv (sty 32) (vlen / (8 * Z.of_nat w)) in
  if micro_vlmax =? 0 then Undef "division by zero"
  else
    let num_microops := (vl + micro_vlmax - 1) / micro_vlmax in
    let remaining_vl := conv (sty 32) vl in
    Ok (micro_loop (Z.to_nat num_microops) 0 remaining_vl micro_vlmax (Z.min remaining_vl micro_vlmax)).

Definition vle (vlen : Z) (w : nat) (timing : bool) (rs1 : Z) (mi : minst) : eff vunit unit :=
  let* ops := eff_lift (λ s, vle_microops vlen w (VL (conf s))) in
  run_microops (λ microVl microIdx,
    if timing then
      let* Mem := VleMicro_initiateAcc vlen w rs1 microVl microIdx in
      VleMicro_completeAcc vlen w mi microVl microIdx Mem
    else VleMicro_execute vlen w rs1 mi microVl microIdx) ops.
