(* ===== verification/Gem5VectorLaws.v ===== *)
(** * Laws of gem5's vector instructions

    Element-wise micro-ops write the elements below [microVl] that the mask
    selects and leave the others to the policy; the micro-ops of a macro-op
    together implement the element-wise operation over the register group, for
    the operands the ISA allows; and what a reduction leaves when the group has
    more than one register. *)

From Stdlib Require Import ZArith Lia.
From stdpp Require Import base numbers strings list.
From S2P Require Import Prelude Binary Gem5Utility Gem5Vset Gem5Vector.

(** ** Elements *)
Section lanes.
Context (w : nat).
Implicit Types (r : vreg) (i j : nat) (v : N).

Lemma length_set_lane r i v : S i * w ≤ length r → length (set_lane w r i v) = length r.
Proof. intros H. unfold set_lane. rewrite !length_app, length_take, le_length, length_drop. nia. Qed.

Lemma lane_set_same r i v : S i * w ≤ length r → (v < 256 ^ N.of_nat w)%N →
  lane w (set_lane w r i v) i = v.
Proof.
  intros H Hv. unfold lane, set_lane.
  rewrite drop_app_length' by (rewrite length_take; nia).
  rewrite take_app_length' by (by rewrite le_length). by apply of_le_le.
Qed.

Lemma lane_set_other r i j v : i ≠ j → S i * w ≤ length r →
  lane w (set_lane w r i v) j = lane w r j.
Proof.
  intros Hij H. unfold lane, set_lane. f_equal.
  apply list_eq. intros k. destruct (decide (k < w)) as [Hk|Hk].
  2:{ rewrite !lookup_ge_None_2; [done|..]; rewrite length_take; lia. }
  rewrite !lookup_take_lt, !lookup_drop by done.
  destruct (decide (j < i)).
  - rewrite lookup_app_l by (rewrite length_take; nia). by rewrite lookup_take_lt by nia.
  - rewrite lookup_app_r by (rewrite length_take; nia). rewrite length_take.
    rewrite lookup_app_r by (rewrite le_length; nia). rewrite le_length, lookup_drop. f_equal. nia.
Qed.

Lemma lane_ones n i : S i * w ≤ n → lane w (replicate n 255%N) i = (256 ^ N.of_nat w - 1)%N.
Proof.
  intros H. unfold lane. rewrite drop_replicate, take_replicate, Nat.min_l by nia.
  clear. induction w as [|k IH]; [done|]. cbn [replicate of_le]. rewrite IH.
  rewrite Nat2N.inj_succ, N.pow_succ_r'. pose proof (N.pow_nonzero 256 (N.of_nat k)). lia.
Qed.

(** Registers hold bytes. *)
Definition byte_reg r : Prop := Forall (λ x, (x < 256)%N) r.

Lemma of_le_range r : byte_reg r → (of_le r < 256 ^ N.of_nat (length r))%N.
Proof.
  induction 1 as [|x r Hx _ IH]; [done|]. cbn [of_le length]. rewrite Nat2N.inj_succ, N.pow_succ_r'. lia.
Qed.
Lemma lane_range r i : byte_reg r → (lane w r i < 256 ^ N.of_nat w)%N.
Proof.
  intros Hr. unfold lane. eapply N.lt_le_trans; [apply of_le_range, Forall_take, Forall_drop, Hr|].
  apply N.pow_le_mono_r; [done|]. rewrite length_take. lia.
Qed.
Lemma byte_set_lane r i v : byte_reg r → byte_reg (set_lane w r i v).
Proof. intros Hr. apply Forall_app_2; [by apply Forall_take|]. apply Forall_app_2; [apply le_bytes|by apply Forall_drop]. Qed.
End lanes.

(** ** A loop over the elements that writes each at most once *)
Section loop.
Context (w : nat) (act : nat → bool) (f : nat → N).

Definition write_loop (n : nat) (Vd : vreg) : vreg :=
  foldl (λ d i, if act i then set_lane w d i (f i) else d) Vd (seq 0 n).

Lemma write_loop_S n Vd : write_loop (S n) Vd =
  (if act n then set_lane w (write_loop n Vd) n (f n) else write_loop n Vd).
Proof. unfold write_loop. by rewrite seq_S, foldl_app. Qed.

Lemma length_write_loop n Vd : n * w ≤ length Vd → length (write_loop n Vd) = length Vd.
Proof.
  induction n as [|n IH]; intros H; [done|]. rewrite write_loop_S.
  destruct (act n); [rewrite length_set_lane|]; rewrite IH; nia.
Qed.

Lemma lane_write_loop n Vd j : n * w ≤ length Vd →
  (∀ i, i < n → act i = true → (f i < 256 ^ N.of_nat w)%N) →
  lane w (write_loop n Vd) j = if (j <? n) && act j then f j else lane w Vd j.
Proof.
  intros H Hf. induction n as [|n IH]; [done|]. rewrite write_loop_S.
  assert (n * w ≤ length Vd) as Hn by nia. specialize (IH Hn ltac:(auto)).
  pose proof (length_write_loop n Vd Hn) as Hl.
  destruct (decide (j = n)) as [->|Hj].
  - rewrite (Nat_ltb_true n (S n)) by lia. rewrite (Nat_ltb_false n n) in IH by lia. simpl in *.
    destruct (act n) eqn:Ea; [|done]. apply lane_set_same; [nia|auto].
  - assert ((j <? S n) = (j <? n)) as -> by (destruct (Nat.ltb_spec j n), (Nat.ltb_spec j (S n)); lia).
    rewrite <- IH. destruct (act n); [|done]. apply lane_set_other; [lia|nia].
Qed.

Lemma byte_write_loop n Vd : byte_reg Vd → byte_reg (write_loop n Vd).
Proof.
  intros H. induction n as [|n IH]; [done|]. rewrite write_loop_S. destruct (act n); [by apply byte_set_lane|done].
Qed.
End loop.

(** The loops of the micro-ops are such loops. *)
Lemma vv_loop_write w op vm v0 ei Vs2 Vs1 n Vd :
  (vv_loop w op vm v0 ei Vs2 Vs1 n Vd).1 =
  write_loop w (λ i, vm || elem_mask v0 (ei + i)) (λ i, (op (lane w Vs2 i) (lane w Vs1 i)).1) n Vd.
Proof.
  unfold vv_loop, write_loop. induction n as [|n IH]; [done|].
  rewrite !seq_S, !foldl_app. cbn [foldl]. rewrite <- IH.
  destruct (foldl _ _ _) as [d fl]. simpl.
  destruct (vm || elem_mask v0 (ei + n)); [|done]. by destruct (op _ _).
Qed.

Lemma splat_loop_write w v n Vd : splat_loop w v n Vd = write_loop w (λ _, true) (λ _, v) n Vd.
Proof. done. Qed.

Lemma vle_loop_write w vm v0 ei Mem n microVl Vd :
  vle_loop w vm v0 ei Mem n microVl Vd =
  write_loop w (λ i, (vm || elem_mask v0 (ei + i)) && (i <? microVl)) (lane w Mem) n Vd.
Proof. done. Qed.

Lemma length_copy_old_vd vtype vm old : length (copy_old_vd vtype vm old) = length old.
Proof. unfold copy_old_vd. destruct (_ || _); [done|apply length_replicate]. Qed.

Lemma byte_copy_old_vd vtype vm old : byte_reg old → byte_reg (copy_old_vd vtype vm old).
Proof. intros H. unfold copy_old_vd. destruct (_ || _); [done|]. by apply Forall_replicate. Qed.

(** ** The fields of the eight low bits *)
Lemma bits_testbit v f l n : (0 ≤ l ≤ f)%Z → (f - l < 63)%Z → (0 ≤ n)%Z →
  Z.testbit (bits v f l) n = Z.testbit v (n + l) && (n <? f - l + 1)%Z.
Proof.
  intros H1 H2 Hn. unfold bits. rewrite mask_ones, Z.land_spec, Z.shiftr_spec by lia. f_equal.
  destruct (Z.ltb_spec n (f - l + 1)); [apply Z.ones_spec_low|apply Z.ones_spec_high]; lia.
Qed.
Lemma bits_low8 v f l : (0 ≤ l ≤ f)%Z → (f < 8)%Z → bits (bits v 7 0) f l = bits v f l.
Proof.
  intros H1 H2. apply Z.bits_inj'. intros n Hn. rewrite !bits_testbit by lia.
  destruct (Z.ltb_spec n (f - l + 1)); [|by rewrite !andb_false_r].
  rewrite (Z_ltb_true (n + l)) by lia. by rewrite Z.add_0_r, andb_true_r.
Qed.
Lemma low8_fields v vlen b :
  vtype_VLMAX (bits v 7 0) vlen b = vtype_VLMAX v vlen b ∧
  vtype_regs_per_group (bits v 7 0) = vtype_regs_per_group v.
Proof.
  unfold vtype_VLMAX, vtype_regs_per_group. by rewrite !bits_low8 by lia.
Qed.

(** ** The unit *)
Record unit_ok (elen vlen : Z) (s : vunit) : Prop := {
  u_conf : vconf_ok elen vlen (conf s);
  u_rvv : misa_rvv (conf s) = true;
  u_vs : status_vs (conf s) ≠ OFF;
  u_regs : length (vregs s) = 40;
  u_bytes : ∀ k r, vregs s !! k = Some r → length r = Z.to_nat (vlen / 8);
  u_frm : (frm s ≤ 4)%Z
}.

Definition byte_regs (s : vunit) : Prop := ∀ k r, vregs s !! k = Some r → byte_reg r.
Lemma byte_regs_at s k : byte_regs s → byte_reg (default [] (vregs s !! k)).
Proof. intros Hb. destruct (vregs s !! k) eqn:E; [exact (Hb _ _ E)|constructor]. Qed.

(** Whether the policy fills the destination with ones. *)
Definition agnostic (vtype : Z) (vm : bool) : bool :=
  negb (negb (vta vtype) || (negb vm && negb (vma vtype))).

Lemma lane_copy_old_vd w vtype vm old i : S i * w ≤ length old →
  lane w (copy_old_vd vtype vm old) i =
  if agnostic vtype vm then (256 ^ N.of_nat w - 1)%N else lane w old i.
Proof.
  intros H. unfold copy_old_vd, agnostic. destruct (_ || _); [done|]. simpl. by apply lane_ones.
Qed.

(** What stays when registers are written. *)
Definition dirty (c : vconf) : vconf := VConf (misa_rvv c) DIRTY (vstart c) (Vtype c) (VL c).

Section micro.
Context (elen vlen : Z) (Hp : ISA_params vlen elen = true).

Lemma reg_some s k : unit_ok elen vlen s → k < 40 → ∃ r, vregs s !! k = Some r.
Proof. intros Hu Hk. apply lookup_lt_is_Some. rewrite (u_regs _ _ _ Hu). lia. Qed.

Lemma guard_passes s : unit_ok elen vlen s → vill (Vtype (conf s)) = false → vector_guard s = (s, Ok tt).
Proof.
  intros Hu Hv. unfold vector_guard, eff_bind, eff_get. rewrite (u_rvv _ _ _ Hu), Hv.
  pose proof (u_vs _ _ _ Hu). by destruct (status_vs (conf s)).
Qed.

(** The state a micro-op leaves: [k] rewritten, the unit dirty. *)
Definition after (s : vunit) (mode fl : Z) (k : nat) (r : vreg) : vunit :=
  VUnit (dirty (conf s)) (<[k := r]> (vregs s)) (frm s) fl mode (mem s).

Lemma after_ok s mode fl k r : unit_ok elen vlen s → length r = Z.to_nat (vlen / 8) →
  unit_ok elen vlen (after s mode fl k r).
Proof.
  intros Hu Hr. destruct Hu as [H1 H2 H3 H4 H5 H6]. split; simpl; try done.
  - by rewrite length_insert.
  - intros j r' Hj. destruct (decide (j = k)) as [->|].
    + destruct (decide (k < length (vregs s))).
      * rewrite list_lookup_insert_eq in Hj by done. congruence.
      * rewrite list_insert_ge in Hj by lia. by apply (H5 k).
    + rewrite list_lookup_insert_ne in Hj by done. by apply (H5 j).
Qed.

Lemma vv_micro w op mi mv idx s Vs1 Vs2 v0 old :
  unit_ok elen vlen s → vill (Vtype (conf s)) = false →
  vregs s !! (vs1 mi + idx) = Some Vs1 → vregs s !! (vs2 mi + idx) = Some Vs2 →
  vregs s !! 0 = Some v0 → vregs s !! (vd mi + idx) = Some old →
  ∃ fl, VectorFloatMicro_execute vlen w op mi mv idx s =
    (after s (frm s) fl (vd mi + idx)
       (write_loop w (λ i, vm mi || elem_mask v0 (Z.to_nat (vtype_VLMAX (Vtype (conf s)) vlen true) * idx + i))
          (λ i, (op (frm s) (lane w Vs2 i) (lane w Vs1 i)).1) mv
          (copy_old_vd (Vtype (conf s)) (vm mi) old)), Ok tt).
Proof.
  intros Hu Hv E1 E2 E0 Ed. unfold VectorFloatMicro_execute.
  rewrite (eff_bind_ok _ _ _ _ _ (guard_passes s Hu Hv)).
  rewrite (eff_bind_ok _ _ s (with_conf (dirty (conf s)) s) tt) by done.
  unfold VRM_REQUIRED, eff_bind, eff_get, eff_mod, eff_throw, getRegOperand, eff_lift, set_fflags_exe,
    setRegOperand. cbn [frm with_conf with_rounding].
  rewrite Z_ltb_false by exact (u_frm _ _ _ Hu).
  cbn [conf vregs with_rounding with_conf softfloat_roundingMode]. unfold eff_mod. rewrite E1, E2, E0, Ed. simpl of_opt.
  cbn match. rewrite <- vv_loop_write.
  destruct (vv_loop _ _ _ _ _ _ _ _ _) as [d fl]. by eexists.
Qed.
End micro.

(** ** A group of registers written one after the other *)
Section group.
Context (elen vlen : Z) (Hp : ISA_params vlen elen = true).
Context (exec : nat → nat → eff vunit unit) (d g : nat) (s0 : vunit).

(** Register [k] of the group after its micro-op, which processes [mv]
    elements, as a function of the registers before the macro-op, and the
    rounding mode a micro-op leaves. *)
Context (new : nat → nat → vreg) (mode : Z).

(** The registers before micro-op [k] of a macro-op of [vl] elements, [m] to a
    register: the first [k] registers of the group are done. *)
Definition part (m vl k : nat) (s : vunit) : Prop :=
  unit_ok elen vlen s ∧ frm s = frm s0 ∧ mem s = mem s0 ∧ dirty (conf s) = dirty (conf s0) ∧
  (k ≠ 0 → conf s = dirty (conf s0)) ∧
  softfloat_roundingMode s = (if decide (k = 0) then softfloat_roundingMode s0 else mode) ∧
  ∀ j, vregs s !! j =
    if decide (d ≤ j < d + k) then Some (new (j - d) (min (vl - (j - d) * m) m)) else vregs s0 !! j.

Context (m vl : nat) (Hm : 0 < m) (Hm' : (Z.of_nat m ≤ 65536)%Z) (Hvl : (Z.of_nat vl ≤ 65536)%Z).
Context (Hstep : ∀ k s, k < g → k * m < vl → part m vl k s →
  ∃ s', exec (min (vl - k * m) m) k s = (s', Ok tt) ∧ part m vl (S k) s').

Lemma run_group n k s : part m vl k s → k + n = g → (k = 0 ∨ (k - 1) * m < vl) →
  ∃ s' K, run_microops exec (micro_loop n k (Z.of_nat vl - Z.of_nat k * Z.of_nat m) (Z.of_nat m)
      (Z.min (Z.of_nat vl - Z.of_nat k * Z.of_nat m) (Z.of_nat m))) s = (s', Ok tt) ∧
    part m vl K s' ∧ K ≤ g ∧ (vl ≤ K * m ∨ K = g) ∧ (K = 0 ∨ (K - 1) * m < vl).
Proof.
  revert k s. induction n as [|n IH]; intros k s Hpart Hk Hlast.
  { exists s, k. split; [done|]. split; [done|]. lia. }
  cbn [micro_loop]. destruct (Z.ltb_spec 0 (Z.min (Z.of_nat vl - Z.of_nat k * Z.of_nat m) (Z.of_nat m))) as [Hpos|Hpos].
  2:{ exists s, k. split; [done|]. split; [done|]. split; [lia|]. split; [left; nia|done]. }
  assert (k * m < vl) as Hkm by nia.
  destruct (Hstep k s) as (s1 & E1 & Hp1); [lia|done|done|].
  assert ((0 ≤ Z.of_nat k * Z.of_nat m < 65536)%Z) by nia.
  rewrite conv_id; [|done|unfold in_ty, ty_min, ty_max; simpl; lia].
  cbn [run_microops].
  replace (Z.to_nat (Z.min (Z.of_nat vl - Z.of_nat k * Z.of_nat m) (Z.of_nat m)))
    with (min (vl - k * m) m) by nia.
  rewrite (eff_bind_ok _ _ _ _ _ E1).
  replace (Z.of_nat vl - Z.of_nat k * Z.of_nat m - Z.of_nat m)%Z
    with (Z.of_nat vl - Z.of_nat (S k) * Z.of_nat m)%Z by nia.
  apply IH; [done|lia|right]. simpl. by rewrite Nat.sub_0_r.
Qed.
End group.

(** ** Sizes *)
Section sizes.
Context (elen vlen : Z) (Hp : ISA_params vlen elen = true).
Context (vtype : Z) (Hs : (vsew vtype ≤ 3)%Z) (Hsup : supported elen vtype = true).
#[local] Open Scope Z_scope.

Lemma SEW_pow : vtype_SEW vtype = 2 ^ (vsew vtype + 3).
Proof.
  unfold vtype_SEW. fold (vsew vtype). destruct (field_ranges vtype).
  rewrite Z.shiftl_mul_pow2, Z.pow_add_r by lia. lia.
Qed.

Lemma SEW_divides : vlen mod vtype_SEW vtype = 0.
Proof.
  destruct (params elen vlen Hp) as (Hv & _ & Hle). destruct (vlen_cases vlen Hv) as (k & Hk & ->).
  pose proof (supported_SEW elen vtype Hsup) as Hsew. rewrite SEW_pow in *.
  destruct (field_ranges vtype).
  assert (vsew vtype + 3 ≤ k) as Hle'.
  { apply (Z.pow_le_mono_r_iff 2); lia. }
  replace k with ((k - (vsew vtype + 3)) + (vsew vtype + 3)) by lia.
  rewrite Z.pow_add_r by lia. apply Z.mod_mul. apply Z.pow_nonzero; lia.
Qed.

Lemma regs_per_group_pos : 1 ≤ vtype_regs_per_group vtype ≤ 8.
Proof.
  unfold vtype_regs_per_group. fold (vtype_vlmul vtype). destruct (vtype_vlmul_value vtype) as [_ Hl].
  rewrite Z.shiftl_1_l. split.
  - assert (0 < 2 ^ Z.max 0 (vtype_vlmul vtype)) by (apply Z.pow_pos_nonneg; lia). lia.
  - change 8 with (2 ^ 3). apply Z.pow_le_mono_r; lia.
Qed.

(** One register holds at least one element and never more than fit. *)
Lemma per_reg_range : 1 ≤ vtype_VLMAX vtype vlen true ≤ 65536 ∧
  vtype_VLMAX vtype vlen true * 2 ^ vsew vtype ≤ vlen / 8.
Proof.
  destruct (params elen vlen Hp) as (Hv & _ & _). destruct (vlen_cases vlen Hv) as (k & Hk & Ek).
  assert (0 < vlen) by (subst; apply Z.pow_pos_nonneg; lia).
  pose proof (VLMAX_range elen vlen Hp vtype Hsup) as Hr.
  rewrite group_VLMAX in Hr by (lia || apply SEW_divides).
  pose proof regs_per_group_pos. split; [nia|].
  rewrite vtype_VLMAX_unfold. fold (vsew vtype). destruct (field_ranges vtype) as [? _].
  destruct (vtype_vlmul_value vtype) as [_ Hl]. set (x := - Z.min 0 (vtype_vlmul vtype)).
  replace (vsew vtype + 3 - Z.min 0 (vtype_vlmul vtype)) with (vsew vtype + 3 + x) by (unfold x; lia).
  rewrite !Z.pow_add_r by (unfold x; lia). change (2 ^ 3) with 8.
  assert (0 < 2 ^ x) by (apply Z.pow_pos_nonneg; unfold x; lia).
  assert (0 < 2 ^ vsew vtype) by (apply Z.pow_pos_nonneg; lia).
  apply Z.div_le_lower_bound; [lia|].
  pose proof (Z.mul_div_le vlen (2 ^ vsew vtype * 8 * 2 ^ x) ltac:(nia)). nia.
Qed.
End sizes.

(** Two aligned groups coincide or are disjoint. *)
Lemma aligned_groups a b g : 0 < g → a mod g = 0 → b mod g = 0 → a = b ∨ a + g ≤ b ∨ b + g ≤ a.
Proof.
  intros Hg Ha Hb. pose proof (Nat.div_mod a g ltac:(lia)). pose proof (Nat.div_mod b g ltac:(lia)).
  set (p := a / g) in *. set (q := b / g) in *.
  destruct (lt_eq_lt_dec p q) as [[?| ->]|?]; [right; left; nia|left; lia|right; right; nia].
Qed.

Lemma write_loop_ext w act act' f f' n Vd :
  (∀ i, act i = act' i) → (∀ i, f i = f' i) → write_loop w act f n Vd = write_loop w act' f' n Vd.
Proof.
  intros Ha Hf. induction n as [|n IH]; [done|]. by rewrite !write_loop_S, Ha, Hf, IH.
Qed.

Lemma float_width vtype w : VectorFloatDecode vtype = Ok w →
  (vsew vtype ≤ 3)%Z ∧ Z.of_nat w = (2 ^ vsew vtype)%Z.
Proof.
  unfold VectorFloatDecode. intros H. destruct (field_ranges vtype) as [Hs _].
  assert (vsew vtype = 0 ∨ vsew vtype = 1 ∨ vsew vtype = 2 ∨ vsew vtype = 3 ∨ 4 ≤ vsew vtype)%Z as Hc by lia.
  destruct Hc as [E|[E|[E|[E|E]]]]; [rewrite E in H; discriminate|..|].
  1-3: rewrite E in *; injection H as <-; done.
  exfalso. assert (vsew vtype = 4 ∨ vsew vtype = 5 ∨ vsew vtype = 6 ∨ vsew vtype = 7)%Z as Hc by lia.
  destruct Hc as [E'|[E'|[E'|E']]]; rewrite E' in H; discriminate.
Qed.

(** ** Element-wise instructions

    An instruction whose micro-ops write element [e] of the group, when [act]
    selects it, with [val] of the elements [e] of the old destination, [vs2]
    and [vs1]; both may also read the mask register. *)
Section elementwise.
Context (elen vlen : Z) (Hp : ISA_params vlen elen = true).
Context (mi : minst) (s0 : vunit) (w : nat).
Hypothesis Hu : unit_ok elen vlen s0.
Hypothesis Hvill : vill (Vtype (conf s0)) = false.
Hypothesis Hw : (vsew (Vtype (conf s0)) ≤ 3)%Z ∧ Z.of_nat w = (2 ^ vsew (Vtype (conf s0)))%Z.

Definition group_regs : nat := Z.to_nat (vtype_regs_per_group (Vtype (conf s0))).
Definition reg_elems : nat := Z.to_nat (vtype_VLMAX (Vtype (conf s0)) vlen true).

(** The operands the ISA allows: groups aligned to their size, and a masked
    instruction does not overwrite the mask. *)
Definition legal_operands : Prop :=
  vd mi mod group_regs = 0 ∧ vs1 mi mod group_regs = 0 ∧ vs2 mi mod group_regs = 0 ∧
  vd mi < 32 ∧ vs1 mi < 32 ∧ vs2 mi < 32 ∧ (vm mi = true ∨ vd mi ≠ 0).
Hypothesis Hl : legal_operands.

#[local] Abbreviation reg k := (default [] (vregs s0 !! k)).

Lemma u_supported : supported elen (Vtype (conf s0)) = true ∧
  (0 ≤ VL (conf s0) ≤ vtype_VLMAX (Vtype (conf s0)) vlen false)%Z.
Proof.
  pose proof (proj2 (proj2 (u_conf _ _ _ Hu))) as H. rewrite Hvill in H.
  destruct H as (H1 & _ & H3). done.
Qed.

Lemma elems_facts : 0 < reg_elems ∧ (Z.of_nat reg_elems ≤ 65536)%Z ∧
  reg_elems * w ≤ Z.to_nat (vlen / 8) ∧ 0 < group_regs ≤ 8 ∧
  (VL (conf s0) ≤ Z.of_nat group_regs * Z.of_nat reg_elems)%Z ∧
  vtype_VLMAX (Vtype (conf s0)) vlen false = (Z.of_nat group_regs * Z.of_nat reg_elems)%Z.
Proof.
  destruct Hw as [Hs Ew]. destruct u_supported as [Hsup Hvl].
  destruct (per_reg_range elen vlen Hp _ Hsup) as [H1 H2]. pose proof (regs_per_group_pos (Vtype (conf s0))) as H3.
  assert (0 ≤ vlen)%Z.
  { destruct (params elen vlen Hp) as (Hv & _ & _). destruct (vlen_cases vlen Hv) as (? & ? & ->).
    apply Z.pow_nonneg. lia. }
  rewrite group_VLMAX in Hvl |- * by (done || by eapply SEW_divides). unfold reg_elems, group_regs.
  rewrite <- Ew in H2. split_and!; lia || nia.
Qed.

(** Element [e] of the group at register [b], with [reg_elems] to a register. *)
Definition group_elem (s : vunit) (b e : nat) : N :=
  lane w (default [] (vregs s !! (b + e / reg_elems))) (e mod reg_elems).

(** What the policy leaves in the elements that are not written: with
    agnostic policies the registers the macro-op touches are filled. *)
Definition unwritten (e : nat) : N :=
  if agnostic (Vtype (conf s0)) (vm mi) &&
     (e / reg_elems * reg_elems <? Z.to_nat (VL (conf s0)))
  then (256 ^ N.of_nat w - 1)%N else group_elem s0 (vd mi) e.

(** The micro-op, what it does with one register, and on which elements that is
    defined. *)
Context (exec : nat → nat → eff vunit unit) (mode : Z).
Context (act : vreg → nat → bool) (val : vreg → nat → N → N → N → N) (ok : vreg → nat → N → N → N → Prop).

Definition ew_reg (v0 : vreg) (k mv : nat) (old Vs2 Vs1 : vreg) : vreg :=
  write_loop w (λ i, act v0 (reg_elems * k + i))
    (λ i, val v0 (reg_elems * k + i) (lane w old i) (lane w Vs2 i) (lane w Vs1 i)) mv
    (copy_old_vd (Vtype (conf s0)) (vm mi) old).

Hypothesis Hval : ∀ v0 e c a b, ok v0 e c a b → (val v0 e c a b < 256 ^ N.of_nat w)%N.
Hypothesis Hmask : (∀ v v' e, act v e = act v' e ∧ ∀ c a b, val v e c a b = val v' e c a b ∧ (ok v e c a b ↔ ok v' e c a b)) ∨
  vd mi ≠ 0.
Hypothesis Hok : ∀ e, e < Z.to_nat (VL (conf s0)) → act (reg 0) e = true →
  ok (reg 0) e (group_elem s0 (vd mi) e) (group_elem s0 (vs2 mi) e) (group_elem s0 (vs1 mi) e).
Hypothesis Hexec : ∀ mv k s Vs1 Vs2 v0 old,
  unit_ok elen vlen s → Vtype (conf s) = Vtype (conf s0) → frm s = frm s0 →
  (softfloat_roundingMode s = softfloat_roundingMode s0 ∨ softfloat_roundingMode s = mode) →
  vregs s !! (vs1 mi + k) = Some Vs1 → vregs s !! (vs2 mi + k) = Some Vs2 →
  vregs s !! 0 = Some v0 → vregs s !! (vd mi + k) = Some old →
  (∀ i, i < mv → act v0 (reg_elems * k + i) = true →
     ok v0 (reg_elems * k + i) (lane w old i) (lane w Vs2 i) (lane w Vs1 i)) →
  ∃ fl, exec mv k s = (after s mode fl (vd mi + k) (ew_reg v0 k mv old Vs2 Vs1), Ok tt).

Definition ew_new (k mv : nat) : vreg :=
  ew_reg (reg 0) k mv (reg (vd mi + k)) (reg (vs2 mi + k)) (reg (vs1 mi + k)).
#[local] Abbreviation done_until := (part elen vlen (vd mi) s0 ew_new mode reg_elems (Z.to_nat (VL (conf s0)))).

Lemma length_ew_new k mv r : mv ≤ reg_elems → vregs s0 !! (vd mi + k) = Some r →
  length (ew_new k mv) = Z.to_nat (vlen / 8).
Proof.
  intros Hmv Er. destruct elems_facts as (_ & _ & Hb & _). unfold ew_new, ew_reg. rewrite Er. simpl.
  rewrite length_write_loop; rewrite length_copy_old_vd, (u_bytes _ _ _ Hu _ _ Er); [done|nia].
Qed.

(** Operand [b] of micro-op [k] still has its value from before the macro-op. *)
Lemma operand_kept k s b : done_until k s → k < group_regs →
  b mod group_regs = 0 → vregs s !! (b + k) = vregs s0 !! (b + k).
Proof.
  intros (_ & _ & _ & _ & _ & _ & Hr) Hk Hb. rewrite Hr. rewrite decide_False; [done|].
  destruct (aligned_groups (vd mi) b group_regs) as [->|Hd]; [lia|apply Hl|done|lia|]. lia.
Qed.

(** The mask register may have been overwritten, but only when it is not read. *)
Lemma mask_kept k s v0 : done_until k s → vregs s !! 0 = Some v0 →
  ∀ e, act v0 e = act (reg 0) e ∧ ∀ c a b, val v0 e c a b = val (reg 0) e c a b ∧ (ok v0 e c a b ↔ ok (reg 0) e c a b).
Proof.
  intros (_ & _ & _ & _ & _ & _ & Hr) E0 e. destruct Hmask as [H|Hd]; [apply H|].
  rewrite Hr, decide_False in E0 by lia. by rewrite E0.
Qed.

(** Element [i] of register [k] is element [reg_elems * k + i] of the group. *)
Lemma group_elem_at b k i r : vregs s0 !! (b + k) = Some r → i < reg_elems →
  group_elem s0 b (reg_elems * k + i) = lane w r i.
Proof.
  intros Er Hi. unfold group_elem. rewrite (Nat.mul_comm reg_elems k), Nat.div_add_l by lia.
  rewrite Nat.div_small, Nat.add_0_r, Er by done.
  by rewrite Nat.add_comm, Nat.Div0.mod_add, Nat.mod_small by done.
Qed.

Lemma ew_step k s : k < group_regs → k * reg_elems < Z.to_nat (VL (conf s0)) → done_until k s →
  ∃ s', exec (min (Z.to_nat (VL (conf s0)) - k * reg_elems) reg_elems) k s = (s', Ok tt) ∧ done_until (S k) s'.
Proof.
  intros Hk Hkm Hpart. pose proof Hpart as (Hus & Ef & Em & Ec & _ & Erm & Hr).
  destruct Hl as (A1 & A2 & A3 & B1 & B2 & B3 & _). destruct elems_facts as (_ & _ & _ & Hg & _).
  destruct (reg_some elen vlen s (vs1 mi + k) Hus) as [V1 E1]; [lia|].
  destruct (reg_some elen vlen s (vs2 mi + k) Hus) as [V2 E2]; [lia|].
  destruct (reg_some elen vlen s 0 Hus) as [v0 E0]; [lia|].
  destruct (reg_some elen vlen s (vd mi + k) Hus) as [old Eo]; [lia|].
  pose proof (mask_kept k s v0 Hpart E0) as Hv0.
  set (mv := min (Z.to_nat (VL (conf s0)) - k * reg_elems) reg_elems).
  destruct (Hexec mv k s V1 V2 v0 old) as [fl E]; try done.
  { unfold dirty in Ec. congruence. }
  { rewrite Erm. destruct (decide _); auto. }
  all: rewrite (operand_kept k s) in E1, E2, Eo by done.
  { intros i Hi Ha. unfold mv in Hi. destruct (Hv0 (reg_elems * k + i)) as [Ha' Hv']. rewrite Ha' in Ha. apply Hv'.
    specialize (Hok (reg_elems * k + i) ltac:(lia) Ha).
    by rewrite (group_elem_at _ k i _ Eo), (group_elem_at _ k i _ E2), (group_elem_at _ k i _ E1) in Hok by lia. }
  eexists. split; [exact E|].
  assert (ew_reg v0 k mv old V2 V1 = ew_new k mv) as ->.
  { unfold ew_new, ew_reg. rewrite E1, E2, Eo. simpl.
    apply write_loop_ext; intros i; destruct (Hv0 (reg_elems * k + i)) as [? Hv']; [done|apply Hv']. }
  split; [|split_and!; simpl; try done].
  - apply after_ok; [done|]. eapply length_ew_new; [unfold mv; lia|done].
  - intros j. destruct (decide (j = vd mi + k)) as [->|Hj].
    + rewrite list_lookup_insert_eq by (rewrite (u_regs _ _ _ Hus); lia).
      rewrite decide_True by lia. by replace (vd mi + k - vd mi) with k by lia.
    + rewrite list_lookup_insert_ne, Hr by done.
      destruct (decide (vd mi ≤ j < vd mi + k)), (decide (vd mi ≤ j < vd mi + S k)); (done || lia).
Qed.

(** The number of micro-ops and what the whole macro-op leaves. *)
Lemma ew_macro : ∃ s' K,
  run_microops exec (macro_microops vlen (bits (Vtype (conf s0)) 7 0) (VL (conf s0))) s0 = (s', Ok tt) ∧
  done_until K s' ∧ K ≤ group_regs ∧
  Z.to_nat (VL (conf s0)) ≤ K * reg_elems ∧ (K = 0 ∨ (K - 1) * reg_elems < Z.to_nat (VL (conf s0))).
Proof.
  destruct elems_facts as (Hm & Hm' & _ & Hg & Hvl & Emax). destruct u_supported as [Hsup Hv].
  pose proof (VLMAX_range elen vlen Hp _ Hsup).
  destruct (run_group elen vlen exec (vd mi) group_regs s0 ew_new mode
    reg_elems (Z.to_nat (VL (conf s0))) Hm Hm' ltac:(lia) ew_step group_regs 0 s0)
    as (s' & K & E & Hpart & HK & Hfin & Hlast); [|lia|by left|].
  { split; [exact Hu|]. split_and!; try done. intros j. by rewrite decide_False by lia. }
  exists s', K. split; [|split; [done|split; [done|split; [|done]]]].
  2:{ destruct Hfin as [?| ->]; [done|]. lia. }
  rewrite <- E. f_equal. unfold macro_microops.
  destruct (low8_fields (Vtype (conf s0)) vlen true) as [-> ->].
  unfold reg_elems, group_regs in *.
  rewrite !(conv_id (sty 32)) by (unfold in_ty, ty_min, ty_max; simpl; lia).
  f_equal; lia.
Qed.

(** An element of a register the macro-op wrote. *)
Lemma ew_lane q i : q < group_regs → i < reg_elems → q * reg_elems < Z.to_nat (VL (conf s0)) →
  lane w (ew_new q (min (Z.to_nat (VL (conf s0)) - q * reg_elems) reg_elems)) i =
  (let e := reg_elems * q + i in
   if (e <? Z.to_nat (VL (conf s0))) && act (reg 0) e
   then val (reg 0) e (group_elem s0 (vd mi) e) (group_elem s0 (vs2 mi) e) (group_elem s0 (vs1 mi) e)
   else if agnostic (Vtype (conf s0)) (vm mi) then (256 ^ N.of_nat w - 1)%N else group_elem s0 (vd mi) e).
Proof.
  intros Hq Hi Hvl. destruct elems_facts as (_ & _ & Hb & Hg & _). destruct Hl as (_ & _ & _ & B1 & B2 & B3 & _).
  destruct (reg_some elen vlen s0 (vs1 mi + q) Hu) as [V1 E1]; [lia|].
  destruct (reg_some elen vlen s0 (vs2 mi + q) Hu) as [V2 E2]; [lia|].
  destruct (reg_some elen vlen s0 (vd mi + q) Hu) as [old Eo]; [lia|].
  pose proof (u_bytes _ _ _ Hu _ _ Eo) as Hlen. set (vl := Z.to_nat (VL (conf s0))) in *.
  cbv zeta. rewrite (group_elem_at _ q i _ Eo), (group_elem_at _ q i _ E2), (group_elem_at _ q i _ E1) by done.
  unfold ew_new, ew_reg. rewrite Eo, E2, E1. cbn [default from_option id].
  rewrite lane_write_loop, lane_copy_old_vd.
  - replace (i <? min (vl - q * reg_elems) reg_elems) with (reg_elems * q + i <? vl); [done|].
    destruct (Nat.ltb_spec (reg_elems * q + i) vl), (Nat.ltb_spec i (min (vl - q * reg_elems) reg_elems)); lia.
  - nia.
  - rewrite length_copy_old_vd. nia.
  - intros j Hj Ha. apply Hval. specialize (Hok (reg_elems * q + j) ltac:(lia) Ha).
    by rewrite (group_elem_at _ q j _ Eo), (group_elem_at _ q j _ E2), (group_elem_at _ q j _ E1) in Hok by lia.
Qed.

Lemma ew_elements : ∃ s',
  run_microops exec (macro_microops vlen (bits (Vtype (conf s0)) 7 0) (VL (conf s0))) s0 = (s', Ok tt) ∧
  (∀ e, e < group_regs * reg_elems → group_elem s' (vd mi) e =
     if (e <? Z.to_nat (VL (conf s0))) && act (reg 0) e
     then val (reg 0) e (group_elem s0 (vd mi) e) (group_elem s0 (vs2 mi) e) (group_elem s0 (vs1 mi) e)
     else unwritten e) ∧
  (∀ j, ¬ (vd mi ≤ j < vd mi + group_regs) → vregs s' !! j = vregs s0 !! j) ∧
  mem s' = mem s0 ∧ frm s' = frm s0 ∧ unit_ok elen vlen s' ∧ dirty (conf s') = dirty (conf s0) ∧
  ((0 < VL (conf s0))%Z → softfloat_roundingMode s' = mode) ∧ (byte_regs s0 → byte_regs s').
Proof.
  destruct ew_macro as (s' & K & E & (Hus & Ef & Em & Ec & _ & Erm & Hr) & HK & Hvl & Hlast).
  destruct elems_facts as (Hm & _). exists s'. split; [done|].
  split; [|split; [intros j Hj; by rewrite Hr, decide_False by lia|]].
  2:{ split_and!; [done|done|done|done| |].
      - intros Hpos. rewrite Erm, decide_False; [done|lia].
      - intros Hb j r Hj. rewrite Hr in Hj. destruct (decide (vd mi ≤ j < vd mi + K)); [|by eapply Hb]. injection Hj as <-.
        by apply byte_write_loop, byte_copy_old_vd, byte_regs_at. }
  intros e He. pose proof (Nat.div_mod e reg_elems ltac:(lia)) as Ede.
  pose proof (Nat.mod_upper_bound e reg_elems ltac:(lia)) as Hi.
  assert (e / reg_elems < group_regs) as Hq by (apply Nat.Div0.div_lt_upper_bound; lia).
  unfold group_elem at 1, unwritten. rewrite Hr.
  set (q := e / reg_elems) in *. set (i := e mod reg_elems) in *. set (vl := Z.to_nat (VL (conf s0))) in *.
  destruct (decide (vd mi ≤ vd mi + q < vd mi + K)) as [HqK|HqK].
  - replace (vd mi + q - vd mi) with q by lia. cbn [default from_option id].
    assert (q * reg_elems < vl) as Htouch by nia.
    rewrite ew_lane by done. cbv zeta. rewrite <- Ede. fold vl.
    by rewrite (Nat_ltb_true (q * reg_elems)), andb_true_r by done.
  - rewrite (Nat_ltb_false e vl), (Nat_ltb_false (q * reg_elems) vl) by nia. by rewrite andb_false_r.
Qed.

(** An element of a group is a word. *)
Lemma group_elem_range s k e : byte_regs s → (group_elem s k e < 256 ^ N.of_nat w)%N.
Proof. intros Hb. by apply lane_range, byte_regs_at. Qed.
End elementwise.

(** ** The element-wise float instructions *)
Section vv.
Context (elen vlen : Z) (Hp : ISA_params vlen elen = true).
Context (op : fop) (mi : minst) (s0 : vunit) (w : nat).
Hypothesis Hu : unit_ok elen vlen s0.
Hypothesis Hvill : vill (Vtype (conf s0)) = false.
Hypothesis Hw : VectorFloatDecode (Vtype (conf s0)) = Ok w.
Hypothesis Hop : ∀ mode a b, ((op mode a b).1 < 256 ^ N.of_nat w)%N.
Hypothesis Hl : legal_operands mi s0.

Lemma vv_elements : ∃ s', vfop_vv vlen op mi s0 = (s', Ok tt) ∧
  (∀ e, e < group_regs s0 * reg_elems vlen s0 → group_elem vlen s0 w s' (vd mi) e =
     if (e <? Z.to_nat (VL (conf s0))) && (vm mi || elem_mask (default [] (vregs s0 !! 0)) e)
     then (op (frm s0) (group_elem vlen s0 w s0 (vs2 mi) e) (group_elem vlen s0 w s0 (vs1 mi) e)).1
     else unwritten vlen mi s0 w e) ∧
  (∀ j, ¬ (vd mi ≤ j < vd mi + group_regs s0) → vregs s' !! j = vregs s0 !! j) ∧
  mem s' = mem s0 ∧ frm s' = frm s0 ∧ unit_ok elen vlen s' ∧ dirty (conf s') = dirty (conf s0) ∧
  ((0 < VL (conf s0))%Z → softfloat_roundingMode s' = frm s0) ∧ (byte_regs s0 → byte_regs s').
Proof.
  unfold vfop_vv, run_macro. rewrite (eff_bind_ok _ _ s0 s0 (conf s0)), (eff_bind_lift _ _ _ w) by done.
  apply (ew_elements elen vlen Hp mi s0 w Hu Hvill (float_width _ _ Hw) Hl (VectorFloatMicro_execute vlen w op mi)
    (frm s0) (λ v0 e, vm mi || elem_mask v0 e) (λ _ _ _ a b, (op (frm s0) a b).1) (λ _ _ _ _ _, True)); try done.
  - destruct Hl as (_ & _ & _ & _ & _ & _ & [Hm|Hd]); [|by right]. left. intros v v' e. by rewrite Hm.
  - intros mv k s Vs1 Vs2 v0 old Hus Et Ef _ E1 E2 E0 Eo _.
    destruct (vv_micro elen vlen w op mi mv k s Vs1 Vs2 v0 old) as [fl E]; [done|by rewrite Et|done..|].
    exists fl. rewrite E. unfold ew_reg, reg_elems. by rewrite Et, Ef.
Qed.
End vv.
