(* ===== verification/Gem5Kernel.v ===== *)
(** * The L2 kernel on gem5's vector unit

    [L2SqrSIMDExtRVV] of space_l2.h as the vector instructions its intrinsics
    stand for, executed by the unit of [Gem5Vector] on bytes of memory, and the
    proof that it computes what the model of [Rvv] says, with the tail that
    gem5 writes: the old lanes for the tail-undisturbed policy, ones for the
    agnostic policy, which is the one the intrinsics ask for.

    The floats are the bit patterns of softfloat.  The class [SoftFloat] states
    what is assumed of its three routines: in the rounding mode of the unit
    they are the operations of [Arith] under an interpretation [val] of the
    patterns. *)

From Stdlib Require Import ZArith Lia.
From stdpp Require Import base numbers strings list.
From S2P Require Import Prelude Binary Arith Simd SpaceL2 Rvv Gem5Utility Gem5Vset Gem5Vector Gem5VectorLaws.

Class SoftFloat (F : Type) `{Arith F} (rm : Z) := {
  sf_add : fop; sf_sub : fop; sf_mul : fop;
  val : N → F;
  sf_add_range m a b : ((sf_add m a b).1 < 256 ^ 4)%N;
  sf_sub_range m a b : ((sf_sub m a b).1 < 256 ^ 4)%N;
  sf_mul_range m a b : ((sf_mul m a b).1 < 256 ^ 4)%N;
  sf_add_val a b : val (sf_add rm a b).1 = aadd (val a) (val b);
  sf_sub_val a b : val (sf_sub rm a b).1 = asub (val a) (val b);
  sf_mul_val a b : val (sf_mul rm a b).1 = amul (val a) (val b);
  val_zero : val 0 = azero;
  val_ones : val (256 ^ 4 - 1) = aones
}.

(** [vtype] for e32, m1 with the given tail and mask policy. *)
Definition e32m1 (ta : bool) : Z := if ta then 208 else 16.

Definition on_conf {A} (m : eff vconf A) : eff vunit A := λ s,
  let '(c, r) := m (conf s) in (with_conf c s, r).

Section kernel.
Context {F : Type} `{HA : Arith F} (rm : Z) `{SF : !SoftFloat F rm}.
Context (elen vlen : Z) (ta timing : bool).

(** The registers v8 to v13 hold v1, v2, diff, sqr, vec_sum_acc and
    scalar_sum_vec; x10 and x11 are scratch. *)
Definition kernel_iteration (a b i vl : Z) : eff vunit unit :=
  let* _ := vle vlen 4 timing (a + 4 * i) (MInst true 8 0 0) in
  let* _ := vle vlen 4 timing (b + 4 * i) (MInst true 9 0 0) in
  let* _ := vfop_vv vlen sf_sub (MInst true 10 9 8) in
  let* _ := vfop_vv vlen sf_mul (MInst true 11 10 10) in
  vfop_vv vlen sf_add (MInst true 12 11 12).

Fixpoint kernel_loop (fuel : nat) (a b dim i : Z) : eff vunit unit :=
  if (i <? dim)%Z then
    match fuel with
    | O => λ s, (s, Fuel)
    | S fuel' =>
        let* vl := on_conf (vsetvli elen vlen 10 11 (dim - i) (e32m1 ta)) in
        let* _ := kernel_iteration a b i vl in
        kernel_loop fuel' a b dim (i + vl)
    end
  else eff_ret tt.

Definition kernel (a b dim : Z) : eff vunit N :=
  let* max_vl := on_conf (vsetvli elen vlen 10 0 0 (e32m1 ta)) in
  let* _ := vfmv_v_f vlen (boxF32 0) (MInst true 12 0 0) in
  let* _ := kernel_loop (Z.to_nat dim) a b dim 0 in
  let* _ := on_conf (vsetvli elen vlen 10 0 0 (e32m1 ta)) in
  let* _ := vfmv_s_f (boxF32 0) (MInst true 13 0 0) in
  let* _ := vfredusum_vs vlen sf_add (MInst true 13 13 12) in
  let* sum := vfmv_f_s (MInst true 0 0 13) in
  eff_ret (ftype_freg 4 sum).
End kernel.

(** The words of memory from address [a] on. *)
Definition mem_words (m : list N) (a : Z) (ws : list N) : Prop :=
  (0 ≤ a)%Z ∧ (a + 4 * Z.of_nat (length ws) ≤ Z.of_nat (length m))%Z ∧
  ∀ j v, ws !! j = Some v → (v < 256 ^ 4)%N ∧ lane 4 (drop (Z.to_nat a) m) j = v.

Section e32m1.
Context (elen vlen : Z) (Hp : ISA_params vlen elen = true) (He : (32 ≤ elen)%Z) (ta : bool).
Definition lanes32 : nat := Z.to_nat (vlen / 32).

Lemma e32m1_fields : vill (e32m1 ta) = false ∧ VectorFloatDecode (e32m1 ta) = Ok 4 ∧
  vtype_regs_per_group (e32m1 ta) = 1%Z ∧ (vsew (e32m1 ta) ≤ 3)%Z ∧ bits (e32m1 ta) 62 8 = 0%Z ∧
  agnostic (e32m1 ta) true = ta ∧ (0 ≤ e32m1 ta < 2 ^ 64)%Z.
Proof. destruct ta; vm_compute; split_and!; (done || discriminate). Qed.

Lemma e32m1_VLMAX b : vtype_VLMAX (e32m1 ta) vlen b = (vlen / 32)%Z.
Proof.
  rewrite vtype_VLMAX_unfold.
  assert (bits (e32m1 ta) 5 3 = 2 ∧ vtype_vlmul (e32m1 ta) = 0)%Z as [-> ->] by (by destruct ta).
  by destruct b.
Qed.

Lemma e32m1_supported : supported elen (e32m1 ta) = true.
Proof.
  unfold supported. assert (vsew (e32m1 ta) = 2 ∧ vtype_vlmul (e32m1 ta) = 0)%Z as [-> ->] by (by destruct ta).
  simpl. by apply Z.leb_le.
Qed.

Lemma lanes32_facts : 0 < lanes32 ∧ (Z.of_nat lanes32 ≤ 65536)%Z ∧ lanes32 * 4 = Z.to_nat (vlen / 8) ∧
  Z.of_nat lanes32 = (vlen / 32)%Z ∧ (vlen = 32 * (vlen / 32))%Z.
Proof.
  pose proof (VLMAX_range elen vlen Hp _ e32m1_supported) as H. rewrite e32m1_VLMAX in H.
  pose proof (SEW_divides elen vlen Hp _ e32m1_supported) as Hd.
  assert (vtype_SEW (e32m1 ta) = 32)%Z as E by (by destruct ta). rewrite E in Hd.
  assert (vlen = 32 * (vlen / 32))%Z as Ev by (apply Z.div_exact; lia).
  assert (vlen / 8 = vlen / 32 * 4)%Z.
  { rewrite Ev at 1. replace (32 * (vlen / 32))%Z with (vlen / 32 * 4 * 8)%Z by lia. by apply Z.div_mul. }
  unfold lanes32. split_and!; lia.
Qed.
End e32m1.

(** ** One instruction at e32, m1 *)
Definition elem (s : vunit) (k i : nat) : N := lane 4 (default [] (vregs s !! k)) i.
Definition ones32 : N := (256 ^ 4 - 1)%N.

Section instr.
Context (elen vlen : Z) (Hp : ISA_params vlen elen = true) (He : (32 ≤ elen)%Z) (ta timing : bool).
Context (rm : Z) (M : list N).
#[local] Abbreviation m := (lanes32 vlen).

Record ready (vl : nat) (s : vunit) : Prop := {
  r_ok : unit_ok elen vlen s;
  r_vtype : Vtype (conf s) = e32m1 ta;
  r_vl : VL (conf s) = Z.of_nat vl;
  r_frm : frm s = rm;
  r_mem : mem s = M
}.

(** The instruction wrote register [k] only. *)
Definition keeps (k : nat) (s s' : vunit) : Prop := ∀ j, j ≠ k → vregs s' !! j = vregs s !! j.
Lemma keeps_elem k s s' j i : keeps k s s' → j ≠ k → elem s' j i = elem s j i.
Proof. intros H Hj. unfold elem. by rewrite H. Qed.

Lemma ready_vill vl s : ready vl s → vill (Vtype (conf s)) = false.
Proof. intros H. rewrite (r_vtype _ _ H). by destruct (e32m1_fields ta). Qed.

Lemma ready_le vl s : ready vl s → vl ≤ m.
Proof.
  intros H. pose proof (proj2 (u_supported elen vlen s (r_ok _ _ H) (ready_vill _ _ H))) as Hv.
  rewrite (r_vtype _ _ H), e32m1_VLMAX, (r_vl _ _ H) in Hv. unfold lanes32. lia.
Qed.

Lemma dirty_ready vl s s' : ready vl s → unit_ok elen vlen s' → dirty (conf s') = dirty (conf s) →
  frm s' = frm s → mem s' = mem s → ready vl s'.
Proof.
  intros [H1 H2 H3 H4 H5] Hu Hd Hf Hm. unfold dirty in Hd. injection Hd as Ea Eb Ec Ed.
  split; [done|by rewrite Ec|by rewrite Ed|by rewrite Hf|by rewrite Hm].
Qed.

Lemma vv_e32 op mi vl s : ready vl s → 0 < vl → (∀ md a b, ((op md a b).1 < 256 ^ 4)%N) →
  vm mi = true → vd mi < 32 → vs1 mi < 32 → vs2 mi < 32 →
  ∃ s', vfop_vv vlen op mi s = (s', Ok tt) ∧ ready vl s' ∧ softfloat_roundingMode s' = rm ∧
    keeps (vd mi) s s' ∧
    ∀ i, i < m → elem s' (vd mi) i =
      if i <? vl then (op rm (elem s (vs2 mi) i) (elem s (vs1 mi) i)).1
      else if ta then ones32 else elem s (vd mi) i.
Proof.
  intros Hr Hvl Hop Hvm H1 H2 H3. destruct (e32m1_fields ta) as (F1 & F2 & F3 & F4 & F5 & F6 & _).
  destruct (lanes32_facts elen vlen Hp He ta) as (Hm & _).
  pose proof (r_vtype _ _ Hr) as Et.
  assert (group_regs s = 1) as Eg by (unfold group_regs; by rewrite Et, F3).
  assert (reg_elems vlen s = m) as Ee by (unfold reg_elems, lanes32; by rewrite Et, e32m1_VLMAX).
  destruct (vv_elements elen vlen Hp op mi s 4) as (s' & E & Hel & Hk & Em & Ef & Hu & Hd & Hrm & _).
  { exact (r_ok _ _ Hr). }
  { by rewrite Et. }
  { by rewrite Et. }
  { exact Hop. }
  { unfold legal_operands. rewrite Eg, !Nat.mod_1_r. split_and!; (done || by left). }
  exists s'. split; [done|]. split; [by eapply dirty_ready|].
  split; [rewrite Hrm, (r_frm _ _ Hr); [done|rewrite (r_vl _ _ Hr); lia]|].
  split; [intros j Hj; apply Hk; lia|]. intros i Hi. rewrite Eg, Ee in Hel.
  specialize (Hel i ltac:(lia)). unfold unwritten, group_elem in Hel.
  rewrite Ee, Nat.div_small, Nat.mod_small in Hel by done. rewrite !Nat.add_0_r in Hel.
  unfold elem. rewrite Hel, Hvm, Et, F6, (r_vl _ _ Hr), Nat2Z.id, (r_frm _ _ Hr). simpl.
  rewrite (Nat_ltb_true 0 vl) by lia. by rewrite !andb_true_r.
Qed.
Lemma single_microop vl : 0 < vl ≤ m →
  micro_loop 1 0 (Z.of_nat vl) (Z.of_nat m) (Z.min (Z.of_nat vl) (Z.of_nat m)) = [(vl, 0)].
Proof. intros H. cbn [micro_loop]. rewrite Z_ltb_true by lia. repeat f_equal. lia. Qed.

Lemma macro_single vl s : ready vl s → 0 < vl →
  macro_microops vlen (bits (Vtype (conf s)) 7 0) (VL (conf s)) = [(vl, 0)].
Proof.
  intros Hr Hvl. pose proof (ready_le _ _ Hr). destruct (lanes32_facts elen vlen Hp He ta) as (_ & Hm & _ & Em & _).
  destruct (e32m1_fields ta) as (_ & _ & F3 & _).
  unfold macro_microops. destruct (low8_fields (Vtype (conf s)) vlen true) as [-> ->].
  rewrite (r_vtype _ _ Hr), F3, e32m1_VLMAX, (r_vl _ _ Hr), <- Em.
  rewrite !(conv_id (sty 32)) by (unfold in_ty, ty_min, ty_max; simpl; lia).
  by apply single_microop.
Qed.

Lemma vle_single vl : 0 < vl ≤ m → vle_microops vlen 4 (Z.of_nat vl) = Ok [(vl, 0)].
Proof.
  intros H. destruct (lanes32_facts elen vlen Hp He ta) as (Hm0 & Hm & _ & Em & _).
  unfold vle_microops. change (8 * Z.of_nat 4)%Z with 32%Z. rewrite <- Em.
  rewrite !(conv_id (sty 32)) by (unfold in_ty, ty_min, ty_max; simpl; lia).
  rewrite Z_eqb_false by lia.
  replace ((Z.of_nat vl + Z.of_nat m - 1) / Z.of_nat m)%Z with 1%Z.
  - by rewrite single_microop.
  - apply (Z.div_unique_pos _ _ _ (Z.of_nat vl - 1)); lia.
Qed.

(** The state after the only micro-op of an instruction. *)
Lemma after_ready vl s mode fl k r : ready vl s → length r = Z.to_nat (vlen / 8) →
  ready vl (after s mode fl k r).
Proof.
  intros Hr Hl. eapply dirty_ready; [exact Hr|by apply after_ok; [exact (r_ok _ _ Hr)|]|done..].
Qed.
Lemma after_elem s mode fl k r i : k < length (vregs s) → elem (after s mode fl k r) k i = lane 4 r i.
Proof. intros Hk. unfold elem, after. simpl. by rewrite list_lookup_insert_eq by done. Qed.
Lemma after_keeps s mode fl k r : keeps k s (after s mode fl k r).
Proof. intros j Hj. unfold after. simpl. by rewrite list_lookup_insert_ne. Qed.

(** The bytes a load reads, as words. *)
Lemma lane_prefix n x j : S j ≤ n → lane 4 (take (4 * n) x) j = lane 4 x j.
Proof.
  intros Hj. unfold lane. f_equal. rewrite skipn_firstn_comm, take_take. f_equal. lia.
Qed.
Lemma lane_offset x i j : lane 4 (drop (4 * i) x) j = lane 4 x (i + j).
Proof. unfold lane. rewrite drop_drop. do 3 f_equal. lia. Qed.

Lemma read_words vl s a ws i : ready vl s → mem_words M a ws → i + vl ≤ length ws →
  readMem (a + 4 * Z.of_nat i) (4 * vl) s =
    (s, Ok (take (4 * vl) (drop (Z.to_nat (a + 4 * Z.of_nat i)) M))) ∧
  ∀ j, j < vl → lane 4 (take (4 * vl) (drop (Z.to_nat (a + 4 * Z.of_nat i)) M)) j = nth (i + j) ws 0%N ∧
                (nth (i + j) ws 0%N < 256 ^ 4)%N.
Proof.
  intros Hr (Ha & Hlen & Hw) Hi. split.
  - unfold readMem, eff_lift. rewrite (r_mem _ _ Hr), Nat_leb_true by lia. done.
  - intros j Hj. destruct (lookup_lt_is_Some_2 ws (i + j)) as [v Ev]; [lia|].
    destruct (Hw _ _ Ev) as [Hv El]. rewrite (nth_lookup_Some _ _ 0%N _ Ev). split; [|done].
    rewrite lane_prefix by lia. rewrite <- El.
    replace (Z.to_nat (a + 4 * Z.of_nat i)) with (Z.to_nat a + 4 * i) by lia.
    by rewrite <- drop_drop, lane_offset.
Qed.
Lemma vle_loop_elems v0 ei Mem vl Vd : vl ≤ m → length Vd = Z.to_nat (vlen / 8) →
  (∀ j, j < vl → (lane 4 Mem j < 256 ^ 4)%N) →
  length (vle_loop 4 true v0 ei Mem m vl Vd) = Z.to_nat (vlen / 8) ∧
  ∀ j, j < vl → lane 4 (vle_loop 4 true v0 ei Mem m vl Vd) j = lane 4 Mem j.
Proof.
  intros Hvl Hlen Hw. destruct (lanes32_facts elen vlen Hp He ta) as (_ & _ & Hb & _).
  assert (vle_loop 4 true v0 ei Mem m vl Vd = write_loop 4 (λ i, i <? vl) (lane 4 Mem) vl Vd) as ->.
  { rewrite vle_loop_write. replace m with (vl + (m - vl)) by lia. unfold write_loop.
    rewrite seq_app, foldl_app. simpl. generalize (foldl (λ d i, if i <? vl then set_lane 4 d i (lane 4 Mem i) else d) Vd (seq 0 vl)) as d.
    assert (∀ i, i ∈ seq vl (m - vl) → vl ≤ i) as Hge by (intros i Hi; apply elem_of_seq in Hi; lia).
    revert Hge. generalize (seq vl (m - vl)) as l. induction l as [|i l IH]; intros Hge d; [done|].
    simpl. rewrite Nat_ltb_false by (apply Hge; left). apply IH. intros j Hj. apply Hge. by right. }
  split; [rewrite length_write_loop; [done|lia]|]. intros j Hj.
  rewrite lane_write_loop by (lia || auto). by rewrite Nat_ltb_true by lia.
Qed.

Lemma vle_e32 vl s a ws i k : ready vl s → 0 < vl → k < 32 → mem_words M a ws →
  i + vl ≤ length ws → (Z.of_nat (length M) ≤ 2 ^ 64)%Z →
  ∃ s', vle vlen 4 timing (a + 4 * Z.of_nat i) (MInst true k 0 0) s = (s', Ok tt) ∧ ready vl s' ∧
    keeps k s s' ∧ ∀ j, j < vl → elem s' k j = nth (i + j) ws 0%N.
Proof.
  intros Hr Hvl Hk Hw Hi HM. pose proof (ready_le _ _ Hr) as Hle. pose proof (r_ok _ _ Hr) as Hu.
  destruct (read_words vl s a ws i Hr Hw Hi) as [Erd Hwd]. pose proof Hw as (Ha & Hlen & _).
  destruct (reg_some elen vlen s 0 Hu) as [v0 E0]; [lia|].
  destruct (reg_some elen vlen s k Hu) as [old Eo]; [lia|].
  pose proof (u_bytes _ _ _ Hu _ _ Eo) as Hold.
  pose proof (guard_passes elen vlen s Hu (ready_vill _ _ Hr)) as Hg.
  set (Mem := take (4 * vl) (drop (Z.to_nat (a + 4 * Z.of_nat i)) M)) in *.
  set (d := if timing then copy_old_vd (Vtype (conf s)) true old else old).
  assert (length d = Z.to_nat (vlen / 8)) as Hd by (unfold d; destruct timing; [by rewrite length_copy_old_vd|done]).
  destruct (vle_loop_elems v0 0 Mem vl d Hle Hd) as [Hll Hel].
  { intros j Hj. destruct (Hwd j Hj) as [-> ?]. done. }
  exists (after s (softfloat_roundingMode s) (fflags s) k (vle_loop 4 true v0 0 Mem m vl d)).
  split; [|split; [by apply after_ready|split; [apply after_keeps|]]].
  2:{ intros j Hj. rewrite after_elem by (rewrite (u_regs _ _ _ Hu); lia).
      rewrite Hel by done. by apply Hwd. }
  unfold vle. rewrite (eff_bind_lift _ _ _ [(vl, 0)]) by (rewrite (r_vl _ _ Hr); by apply vle_single).
  cbn [run_microops].
  assert (conv (uty 64) (a + 4 * Z.of_nat i + Z.shiftr vlen 3 * Z.of_nat 0) = a + 4 * Z.of_nat i)%Z as Eea.
  { rewrite Z.mul_0_r, Z.add_0_r. apply conv_id; [done|]. unfold in_ty, ty_min, ty_max; simpl. lia. }
  assert (∀ s1, s1 = s ∨ s1 = with_conf (dirty (conf s)) s →
    readMem (a + 4 * Z.of_nat i) (4 * vl) s1 = (s1, Ok Mem)) as Erd1.
  { intros s1 [->| ->]; [exact Erd|]. unfold readMem, eff_lift in *. simpl. by injection Erd as ->. }
  assert (Z.to_nat (vlen / (8 * Z.of_nat 4)) = m) as Em by done.
  unfold VleMicro_execute, VleMicro_initiateAcc, VleMicro_completeAcc. cbn [vm vd]. rewrite Eea, Em, Nat.mul_0_r, Nat.add_0_r.
  destruct timing; unfold eff_bind, mark_dirty, eff_mod, eff_get, getRegOperand, setRegOperand, eff_lift; rewrite Hg; cbn match.
  - rewrite Erd1 by (by left). cbn [conf vregs with_conf]. rewrite Eo, E0. done.
  - cbn [conf vregs with_conf]. rewrite E0. cbn [of_opt]. rewrite Erd1 by (by right).
    cbn [conf vregs with_conf]. rewrite Eo. done.
Qed.
(** vsetvli: the granted length is at most the lanes, and the registers stay. *)
Lemma vset_e32 rs1 avl s : unit_ok elen vlen s → frm s = rm → mem s = M →
  let vl := if (rs1 =? 0)%Z then m else Z.to_nat (Z.min (avl mod 2 ^ 32) (Z.of_nat m)) in
  ∃ s', on_conf (vsetvli elen vlen 10 rs1 avl (e32m1 ta)) s = (s', Ok (Z.of_nat vl)) ∧ ready vl s' ∧
    vregs s' = vregs s ∧ softfloat_roundingMode s' = softfloat_roundingMode s.
Proof.
  intros Hu Hf Hm vl. destruct (lanes32_facts elen vlen Hp He ta) as (_ & _ & _ & Em & _).
  destruct (e32m1_fields ta) as (F1 & F2 & F3 & F4 & F5 & F6 & F7).
  destruct (VConf_execute_ok elen vlen Hp 10 rs1 avl (e32m1 ta) (conf s)) as [E Hok];
    [exact (u_rvv _ _ _ Hu)|exact (u_vs _ _ _ Hu)|exact (u_conf _ _ _ Hu)|done|done|].
  assert (granted elen (Vtype (conf s)) (e32m1 ta) = e32m1 ta) as Eg.
  { unfold granted. rewrite (e32m1_supported elen He ta), F5. by rewrite orb_true_r. }
  assert (granted_vl vlen (e32m1 ta) (VL (conf s)) 10 rs1 avl = Z.of_nat vl) as Evl.
  { unfold granted_vl, vl. rewrite F1, e32m1_VLMAX, <- Em. pose proof (Z.mod_pos_bound avl (2 ^ 32) ltac:(lia)).
    destruct (rs1 =? 0)%Z; [done|]. lia. }
  rewrite Eg, Evl in E, Hok.
  exists (with_conf (VConf true (status_vs (conf s)) 0 (e32m1 ta) (Z.of_nat vl)) s).
  split; [unfold on_conf, vsetvli; by rewrite E|]. split; [|done].
  split; simpl; try done. destruct Hu as [U1 U2 U3 U4 U5 U6]. split; try done.
Qed.

Lemma vfmv_v_f_e32 k s vl : ready vl s → 0 < vl → k < 32 →
  ∃ s', vfmv_v_f vlen (boxF32 0) (MInst true k 0 0) s = (s', Ok tt) ∧ ready vl s' ∧
    softfloat_roundingMode s' = rm ∧ ∀ i, i < vl → elem s' k i = 0%N.
Proof.
  intros Hr Hvl Hk. pose proof (ready_le _ _ Hr) as Hle. pose proof (r_ok _ _ Hr) as Hu.
  destruct (lanes32_facts elen vlen Hp He ta) as (_ & _ & Hb & _).
  destruct (reg_some elen vlen s k Hu) as [old Eo]; [lia|].
  pose proof (guard_passes elen vlen s Hu (ready_vill _ _ Hr)) as Hg.
  destruct (e32m1_fields ta) as (_ & F2 & _).
  set (d := splat_loop 4 0 vl (copy_old_vd (Vtype (conf s)) true old)).
  assert (length (copy_old_vd (Vtype (conf s)) true old) = Z.to_nat (vlen / 8)) as Hold
    by (rewrite length_copy_old_vd; exact (u_bytes _ _ _ Hu _ _ Eo)).
  assert (length d = Z.to_nat (vlen / 8)) as Hd
    by (unfold d; rewrite splat_loop_write, length_write_loop; [done|lia]).
  exists (after s (frm s) (Z.lor (fflags s) 0) k d).
  split; [|split; [by apply after_ready|split; [exact (r_frm _ _ Hr)|]]].
  2:{ intros i Hi. rewrite after_elem by (rewrite (u_regs _ _ _ Hu); lia). unfold d.
      rewrite splat_loop_write, lane_write_loop by (lia || done). by rewrite Nat_ltb_true by lia. }
  unfold vfmv_v_f, run_macro. rewrite (eff_bind_ok _ _ s s (conf s)) by done.
  rewrite (eff_bind_lift _ _ _ 4) by (by rewrite (r_vtype _ _ Hr)). rewrite (macro_single vl s) by done.
  cbn [run_microops]. unfold vfmv_v_f_micro. cbn [vm vd]. rewrite Nat.add_0_r.
  unfold VRM_REQUIRED, eff_bind, mark_dirty, eff_mod, eff_get, getRegOperand, setRegOperand, set_fflags_exe, eff_lift.
  rewrite Hg. cbn match. cbn [frm with_conf]. rewrite Z_ltb_false by exact (u_frm _ _ _ Hu).
  unfold eff_mod. cbn [conf vregs with_conf with_rounding]. rewrite Eo. done.
Qed.

Lemma vfmv_s_f_e32 k s vl : ready vl s → 0 < vl → k < 32 →
  ∃ s', vfmv_s_f (boxF32 0) (MInst true k 0 0) s = (s', Ok tt) ∧ ready vl s' ∧
    softfloat_roundingMode s' = softfloat_roundingMode s ∧ keeps k s s' ∧ elem s' k 0 = 0%N.
Proof.
  intros Hr Hvl Hk. pose proof (r_ok _ _ Hr) as Hu. pose proof (ready_le _ _ Hr) as Hle.
  destruct (lanes32_facts elen vlen Hp He ta) as (_ & _ & Hb & _).
  destruct (reg_some elen vlen s k Hu) as [old Eo]; [lia|]. pose proof (u_bytes _ _ _ Hu _ _ Eo) as Hold.
  pose proof (guard_passes elen vlen s Hu (ready_vill _ _ Hr)) as Hg.
  destruct (e32m1_fields ta) as (_ & F2 & _).
  exists (after s (softfloat_roundingMode s) (Z.lor (fflags s) 0) k (set_lane 4 old 0 0)).
  split; [|split; [apply after_ready; [done|rewrite length_set_lane; [done|lia]]|
           split; [done|split; [apply after_keeps|]]]].
  2:{ rewrite after_elem by (rewrite (u_regs _ _ _ Hu); lia). apply lane_set_same; [lia|done]. }
  unfold vfmv_s_f. rewrite (eff_bind_ok _ _ s s (conf s)) by done.
  rewrite (eff_bind_lift _ _ _ 4) by (by rewrite (r_vtype _ _ Hr)).
  unfold eff_bind, mark_dirty, eff_mod, eff_get, getRegOperand, setRegOperand, set_fflags_exe, eff_lift.
  rewrite Hg. cbn [vregs with_conf vd]. rewrite Eo. cbn [of_opt].
  rewrite Z_eqb_false by (rewrite (r_vl _ _ Hr); lia). done.
Qed.
Lemma reduce_loop_foldl f v0 ei Vs1 Vs2 n :
  (reduce_loop 4 f true v0 ei Vs1 Vs2 n).1 =
  foldl (λ acc i, (f acc (lane 4 Vs2 i)).1) (lane 4 Vs1 0) (seq 0 n).
Proof.
  unfold reduce_loop. induction n as [|n IH]; [done|]. rewrite seq_S, !foldl_app. cbn [foldl].
  rewrite <- IH. destruct (foldl _ _ _) as [x fl]. simpl. by destruct (f _ _).
Qed.

Lemma vfredusum_e32 op d x1 x2 s vl : ready vl s → 0 < vl → softfloat_roundingMode s = rm →
  (∀ md a b, ((op md a b).1 < 256 ^ 4)%N) → d < 32 → x1 < 32 → x2 < 32 →
  ∃ s', vfredusum_vs vlen op (MInst true d x1 x2) s = (s', Ok tt) ∧ ready vl s' ∧
    elem s' d 0 = foldl (λ acc i, (op rm acc (elem s x2 i)).1) (elem s x1 0) (seq 0 vl) ∧
    (elem s' d 0 < 256 ^ 4)%N.
Proof.
  intros Hr Hvl Hrm Hop Hd H1 H2. pose proof (r_ok _ _ Hr) as Hu. pose proof (ready_le _ _ Hr) as Hle.
  destruct (lanes32_facts elen vlen Hp He ta) as (_ & _ & Hb & _).
  destruct (reg_some elen vlen s d Hu) as [old Eo]; [lia|]. pose proof (u_bytes _ _ _ Hu _ _ Eo) as Hold.
  destruct (reg_some elen vlen s x1 Hu) as [V1 E1]; [lia|].
  destruct (reg_some elen vlen s x2 Hu) as [V2 E2]; [lia|].
  destruct (reg_some elen vlen s 0 Hu) as [v0 E0]; [lia|].
  pose proof (guard_passes elen vlen s Hu (ready_vill _ _ Hr)) as Hg.
  destruct (e32m1_fields ta) as (_ & F2 & _).
  pose proof (reduce_loop_foldl (op rm) v0 0 V1 V2 vl) as Hred.
  destruct (reduce_loop 4 (op rm) true v0 0 V1 V2 vl) as [r fl] eqn:El. simpl in Hred.
  assert (r < 256 ^ 4)%N as Hrr.
  { rewrite Hred. destruct vl as [|n]; [lia|]. rewrite seq_S, foldl_app. simpl. apply Hop. }
  set (c := copy_old_vd (Vtype (conf s)) true old).
  assert (length c = Z.to_nat (vlen / 8)) as Hc by (unfold c; by rewrite length_copy_old_vd).
  exists (after s (softfloat_roundingMode s) (Z.lor (fflags s) (Z.land fl 31)) d (set_lane 4 c 0 r)).
  assert (lane 4 (set_lane 4 c 0 r) 0 = r) as Elr by (apply lane_set_same; [lia|done]).
  rewrite after_elem by (rewrite (u_regs _ _ _ Hu); lia). rewrite Elr.
  split; [|split; [apply after_ready; [done|rewrite length_set_lane; [done|lia]]|]].
  2:{ split; [|done]. rewrite Hred. unfold elem. by rewrite E1, E2. }
  unfold vfredusum_vs, run_macro. rewrite (eff_bind_ok _ _ s s (conf s)) by done.
  rewrite (eff_bind_lift _ _ _ 4) by (by rewrite (r_vtype _ _ Hr)). rewrite (macro_single vl s) by done.
  cbn [run_microops]. unfold VectorReduceFloatMicro_execute. cbn [vm vd vs1 vs2]. rewrite Nat.add_0_r.
  unfold eff_bind, mark_dirty, eff_mod, eff_get, getRegOperand, setRegOperand, set_fflags_exe, eff_lift.
  rewrite Hg. cbn [vregs conf with_conf softfloat_roundingMode]. rewrite E1, E2, E0, Eo. cbn [of_opt].
  rewrite Hrm, Nat.mul_0_r, El, <- Hrm. done.
Qed.

Lemma vfmv_f_s_e32 k s vl : ready vl s → k < 32 → (elem s k 0 < 256 ^ 4)%N →
  ∃ s', vfmv_f_s (MInst true 0 0 k) s = (s', Ok (boxF32 (Z.of_N (elem s k 0)))) ∧
        ftype_freg 4 (boxF32 (Z.of_N (elem s k 0))) = elem s k 0.
Proof.
  intros Hr Hk Hv. pose proof (r_ok _ _ Hr) as Hu.
  destruct (reg_some elen vlen s k Hu) as [r Er]; [lia|].
  pose proof (guard_passes elen vlen s Hu (ready_vill _ _ Hr)) as Hg. destruct (e32m1_fields ta) as (_ & F2 & _).
  eexists. split.
  - unfold vfmv_f_s. rewrite (eff_bind_ok _ _ s s (conf s)) by done.
    rewrite (eff_bind_lift _ _ _ 4) by (by rewrite (r_vtype _ _ Hr)).
    unfold eff_bind, mark_dirty, eff_mod, eff_get, getRegOperand, setRegOperand, set_fflags_exe, eff_lift.
    rewrite Hg. cbn [vregs with_conf vs2]. unfold elem. rewrite Er. done.
  - unfold ftype_freg. rewrite unbox_box by (change (256 ^ 4)%N with (Z.to_N (2 ^ 32)) in Hv; lia). lia.
Qed.
End instr.

(** ** The kernel *)

(** What gem5 grants, for lengths below 2^32. *)
#[program] Definition gem5_rvv {F} `{Arith F} (elen vlen : Z)
    (Hp : ISA_params vlen elen = true) (He : (32 ≤ elen)%Z) : RVV F := {|
  vsetvlmax := N.of_nat (lanes32 vlen);
  vsetvl avl := N.min avl (N.of_nat (lanes32 vlen));
  vfredusum l s := foldl aadd s l
|}.
Next Obligation. intros. destruct (lanes32_facts elen vlen Hp He true). lia. Qed.
Next Obligation. simpl. lia. Qed.
Next Obligation.
  simpl. intros F HF elen vlen Hp He avl H1 H2. split; [|lia].
  assert ((avl + 1) / 2 < N.of_nat (lanes32 vlen) + 1)%N; [|lia]. apply N.Div0.div_lt_upper_bound; lia.
Qed.
Next Obligation. simpl. lia. Qed.
Next Obligation. simpl. intros. apply foldl_aadd. Qed.

(** What gem5 leaves in the tail of the accumulator. *)
Definition gem5_tail {F} `{Arith F} (ta : bool) : N → nat → F → F :=
  if ta then tail_ones else tail_undisturbed.

Section composition.
Context {F : Type} `{HA : Arith F} (rm : Z) `{SF : !SoftFloat F rm}.
Context (elen vlen : Z) (Hp : ISA_params vlen elen = true) (He : (32 ≤ elen)%Z) (ta timing : bool).
Context (M A B : list N) (a b : Z).
Hypothesis HM : (Z.of_nat (length M) ≤ 2 ^ 64)%Z.
Hypothesis HwA : mem_words M a A.
Hypothesis HwB : mem_words M b B.
#[local] Abbreviation m := (lanes32 vlen).
#[local] Abbreviation ready := (ready elen vlen ta rm M).

Definition accF (s : vunit) : list F := (λ i, val (elem s 12 i)) <$> seq 0 m.

(** The new value of lane [j] of the accumulator. *)
Definition next_acc (s : vunit) (i vl j : nat) : N :=
  if j <? vl then
    let diff := (sf_sub rm (nth (i + j) A 0%N) (nth (i + j) B 0%N)).1 in
    (sf_add rm (elem s 12 j) (sf_mul rm diff diff).1).1
  else if ta then ones32 else elem s 12 j.

Lemma iteration_elems vl s i : ready vl s → 0 < vl → i + vl ≤ length A → i + vl ≤ length B →
  ∃ s', kernel_iteration rm vlen timing a b (Z.of_nat i) (Z.of_nat vl) s = (s', Ok tt) ∧ ready vl s' ∧
    softfloat_roundingMode s' = rm ∧ ∀ j, j < m → elem s' 12 j = next_acc s i vl j.
Proof.
  intros Hr Hvl HA' HB'. unfold kernel_iteration.
  destruct (vle_e32 elen vlen Hp He ta timing rm M vl s a A i 8) as (s1 & E1 & R1 & K1 & L1); [done|done|lia|done..|].
  destruct (vle_e32 elen vlen Hp He ta timing rm M vl s1 b B i 9) as (s2 & E2 & R2 & K2 & L2); [done|done|lia|done..|].
  destruct (vv_e32 elen vlen Hp He ta rm M sf_sub (MInst true 10 9 8) vl s2)
    as (s3 & E3 & R3 & _ & K3 & L3); [done|done|apply sf_sub_range|done|simpl; lia..|].
  destruct (vv_e32 elen vlen Hp He ta rm M sf_mul (MInst true 11 10 10) vl s3)
    as (s4 & E4 & R4 & _ & K4 & L4); [done|done|apply sf_mul_range|done|simpl; lia..|].
  destruct (vv_e32 elen vlen Hp He ta rm M sf_add (MInst true 12 11 12) vl s4)
    as (s5 & E5 & R5 & M5 & K5 & L5); [done|done|apply sf_add_range|done|simpl; lia..|].
  cbn [vd vs1 vs2] in *.
  rewrite (eff_bind_ok _ _ _ _ _ E1), (eff_bind_ok _ _ _ _ _ E2), (eff_bind_ok _ _ _ _ _ E3),
    (eff_bind_ok _ _ _ _ _ E4).
  exists s5. split; [done|]. split; [done|]. split; [done|]. intros j Hj. rewrite L5 by done.
  assert (elem s4 12 j = elem s 12 j) as ->.
  { by rewrite (keeps_elem 11 s3 s4), (keeps_elem 10 s2 s3), (keeps_elem 9 s1 s2), (keeps_elem 8 s s1). }
  unfold next_acc. destruct (Nat.ltb_spec j vl) as [Hjv|Hjv]; [|done].
  rewrite L4, (Nat_ltb_true j vl), L3, (Nat_ltb_true j vl) by done.
  by rewrite (L2 j), (keeps_elem 9 s1 s2), L1 by done.
Qed.
#[local] Abbreviation valA := (val <$> A : list F).
#[local] Abbreviation valB := (val <$> B : list F).
#[local] Abbreviation tail := (gem5_tail ta).

Lemma accF_lookup s j : j < m → accF s !! j = Some (val (elem s 12 j)).
Proof. intros Hj. unfold accF. rewrite list_lookup_fmap, lookup_seq_lt by done. done. Qed.

Lemma nth_val X i : i < length X → (val <$> X : list F) !! i = Some (val (nth i X 0%N)).
Proof.
  intros Hi. rewrite list_lookup_fmap. destruct (lookup_lt_is_Some_2 X i Hi) as [v E].
  rewrite E. by rewrite (nth_lookup_Some _ _ 0%N _ E).
Qed.

(** The lanes after an iteration are the ones of the model's [vfadd_vv]. *)
Lemma accF_step s s' i vl : vl ≤ m → i + vl ≤ length A → i + vl ≤ length B →
  (∀ j, j < m → elem s' 12 j = next_acc s i vl j) →
  let diff := vsub (take vl (drop i valA)) (take vl (drop i valB)) in
  accF s' = vfadd_vv tail (N.of_nat i) (accF s) (vmul diff diff) (N.of_nat vl).
Proof.
  intros Hvl HA' HB' Hel diff. unfold vfadd_vv. rewrite Nat2N.id.
  assert (length diff = vl) as Hd.
  { unfold diff, vsub. rewrite length_zip_with, !length_take, !length_drop, !length_fmap. lia. }
  assert (length (accF s) = m) as Ha by (unfold accF; by rewrite length_fmap, length_seq).
  assert (length (zip_with aadd (take vl (accF s)) (vmul diff diff)) = vl) as Hz.
  { unfold vmul. rewrite !length_zip_with, length_take. lia. }
  apply list_eq_same_length with (n := m);
    [rewrite length_app, Hz, length_imap, length_drop; lia|by unfold accF; rewrite length_fmap, length_seq|].
  intros j x y Hj. rewrite accF_lookup, Hel by done. unfold next_acc. intros [= <-].
  destruct (Nat.ltb_spec j vl) as [Hjv|Hjv].
  - rewrite lookup_app_l by lia. unfold vmul, diff, vsub.
    rewrite !lookup_zip_with, !lookup_take_lt, !lookup_drop, !nth_val, accF_lookup by lia. simpl.
    intros [= <-]. by rewrite sf_add_val, sf_mul_val, sf_sub_val.
  - rewrite lookup_app_r, Hz, list_lookup_imap, lookup_drop by lia.
    replace (vl + (j - vl)) with j by lia. rewrite accF_lookup by done. simpl. intros [= <-].
    unfold gem5_tail. destruct ta; [|done]. unfold tail_ones. by rewrite <- val_ones.
Qed.

#[local] Instance gem5_rvv_inst : RVV F := gem5_rvv elen vlen Hp He.

Lemma loop_refines (dim : nat) fuel i s : dim ≤ length A → dim ≤ length B → (Z.of_nat dim < 2 ^ 32)%Z →
  i ≤ dim → dim - i ≤ fuel →
  unit_ok elen vlen s → frm s = rm → mem s = M → softfloat_roundingMode s = rm →
  ∃ s', kernel_loop rm elen vlen ta timing fuel a b (Z.of_nat dim) (Z.of_nat i) s = (s', Ok tt) ∧
    unit_ok elen vlen s' ∧ frm s' = rm ∧ mem s' = M ∧ softfloat_roundingMode s' = rm ∧
    rvv_loop tail fuel valA valB (N.of_nat dim) (N.of_nat i) (accF s) = Some (accF s').
Proof.
  intros HdA HdB Hd32. revert i s. induction fuel as [|fuel IH]; intros i s Hi Hf Hu Ef Em Er.
  { exists s. replace dim with i by lia. simpl. rewrite Z.ltb_irrefl, N.ltb_irrefl. done. }
  simpl. destruct (Z.ltb_spec (Z.of_nat i) (Z.of_nat dim)) as [Hlt|Hge].
  2:{ exists s. rewrite N_ltb_false by lia. done. }
  rewrite N_ltb_true by lia.
  destruct (vset_e32 elen vlen Hp He ta rm M 11 (Z.of_nat dim - Z.of_nat i) s) as (s1 & E1 & R1 & V1 & M1);
    [done..|]. cbn [Z.eqb] in *. change (11 =? 0)%Z with false in *. cbn match in *.
  rewrite Z.mod_small in * by lia.
  set (vl := Z.to_nat (Z.min (Z.of_nat dim - Z.of_nat i) (Z.of_nat m))) in *.
  destruct (lanes32_facts elen vlen Hp He ta) as (Hm & _).
  destruct (iteration_elems vl s1 i) as (s2 & E2 & R2 & M2 & L2); [done|lia..|].
  rewrite (eff_bind_ok _ _ _ _ _ E1), (eff_bind_ok _ _ _ _ _ E2).
  assert (N.min (N.of_nat dim - N.of_nat i) (N.of_nat m) = N.of_nat vl) as -> by (unfold vl; lia).
  rewrite !loadu_ok by (rewrite length_fmap; lia). cbn [mbind option_bind]. rewrite !Nat2N.id.
  assert (accF s1 = accF s) as EaccF by (unfold accF, elem; by rewrite V1).
  rewrite <- EaccF, <- (accF_step s1 s2 i vl) by (done || lia).
  replace (Z.of_nat i + Z.of_nat vl)%Z with (Z.of_nat (i + vl)) by lia.
  replace (N.of_nat i + N.of_nat vl)%N with (N.of_nat (i + vl)) by lia.
  apply IH; [lia|lia|exact (r_ok _ _ _ _ _ _ _ R2)|exact (r_frm _ _ _ _ _ _ _ R2)|exact (r_mem _ _ _ _ _ _ _ R2)|done].
Qed.
Lemma val_foldl (g : nat → N) l x :
  val (foldl (λ acc i, (sf_add rm acc (g i)).1) x l) = foldl aadd (val x) ((λ i, val (g i)) <$> l).
Proof. revert x. induction l as [|i l IH]; intros x; [done|]. simpl. by rewrite IH, sf_add_val. Qed.

Lemma kernel_refines (dim : nat) s : dim ≤ length A → dim ≤ length B → (Z.of_nat dim < 2 ^ 32)%Z →
  unit_ok elen vlen s → frm s = rm → mem s = M →
  ∃ s' r, kernel rm elen vlen ta timing a b (Z.of_nat dim) s = (s', Ok r) ∧
    L2SqrSIMDExtRVV tail valA valB (N.of_nat dim) = Some (val r).
Proof.
  intros HdA HdB Hd Hu Ef Em. destruct (lanes32_facts elen vlen Hp He ta) as (Hm & _).
  destruct (vset_e32 elen vlen Hp He ta rm M 0 0 s) as (s1 & E1 & R1 & _); [done..|]. cbn match in *.
  destruct (vfmv_v_f_e32 elen vlen Hp He ta rm M 12 s1 m) as (s2 & E2 & R2 & M2 & L2); [done|lia..|].
  destruct (loop_refines dim dim 0 s2) as (s3 & E3 & U3 & F3 & Em3 & M3 & L3);
    [done..|lia|lia|exact (r_ok _ _ _ _ _ _ _ R2)|exact (r_frm _ _ _ _ _ _ _ R2)|exact (r_mem _ _ _ _ _ _ _ R2)|done|].
  destruct (vset_e32 elen vlen Hp He ta rm M 0 0 s3) as (s4 & E4 & R4 & V4 & M4); [done..|]. cbn match in *.
  destruct (vfmv_s_f_e32 elen vlen Hp He ta rm M 13 s4 m) as (s5 & E5 & R5 & M5 & K5 & L5); [done|lia..|].
  destruct (vfredusum_e32 elen vlen Hp He ta rm M sf_add 13 13 12 s5 m) as (s6 & E6 & R6 & L6 & B6);
    [done|lia|congruence|apply sf_add_range|lia..|].
  destruct (vfmv_f_s_e32 elen vlen ta rm M 13 s6 m) as (s7 & E7 & L7); [done|lia|done|].
  exists s7, (elem s6 13 0). unfold kernel. rewrite Nat2Z.id.
  rewrite (eff_bind_ok _ _ _ _ _ E1), (eff_bind_ok _ _ _ _ _ E2), (eff_bind_ok _ _ _ _ _ E3),
    (eff_bind_ok _ _ _ _ _ E4), (eff_bind_ok _ _ _ _ _ E5), (eff_bind_ok _ _ _ _ _ E6),
    (eff_bind_ok _ _ _ _ _ E7). split; [unfold eff_ret; by rewrite L7|].
  assert (accF s2 = replicate m azero) as Eacc.
  { unfold accF. apply list_eq_same_length with (n := m);
      [by rewrite length_replicate|by rewrite length_fmap, length_seq|].
    intros j x y Hj. rewrite list_lookup_fmap, lookup_seq_lt, lookup_replicate_2 by done.
    intros [= <-] [= <-]. by rewrite L2, val_zero. }
  rewrite Eacc in L3. unfold L2SqrSIMDExtRVV. rewrite Nat2N.id. cbn [vsetvlmax gem5_rvv_inst gem5_rvv].
  rewrite Nat2N.id. change (N.of_nat 0) with 0%N in L3. rewrite L3. cbn [mbind option_bind]. f_equal.
  rewrite take_ge by (unfold accF; rewrite length_fmap, length_seq; done).
  rewrite L6, L5, val_foldl, val_zero. cbn [vfredusum gem5_rvv_inst gem5_rvv]. f_equal.
  unfold accF. apply list_fmap_ext. intros j x _. f_equal.
  rewrite (keeps_elem 13 s4 s5) by done. unfold elem. by rewrite V4.
Qed.
End composition.
