(* ===== verification/Gem5Theorems.v ===== *)
(** * What the model of gem5's vector unit shows

    The properties of the helpers, of the element-wise instructions and of the
    L2 kernel on the simulated unit, and the two places where the unit departs
    from the vector extension. *)

From Stdlib Require Import ZArith Lia.
From stdpp Require Import base numbers strings list.
From S2P Require Import Prelude Binary Arith Simd SpaceL2 Rvv Gem5Utility Gem5Vset Gem5Vector Gem5VectorLaws Gem5Kernel.

(** ** A unit in its initial state with the given registers and memory *)
Definition unit_at (vlen : Z) (c : vconf) (regs : list (nat * vreg)) (m : list N) : vunit :=
  VUnit c (foldr (λ '(k, r) l, <[k := r]> l) (replicate 40 (replicate (Z.to_nat (vlen / 8)) 0%N)) regs)
    0 0 0 m.
Definition words (ws : list N) : list N := concat (le 4 <$> ws).

(** Words with arithmetic modulo 2^32, as a stand-in for softfloat. *)
Record w32 := W32 { w_n : N; w_ok : (w_n <? 2 ^ 32)%N = true }.
Lemma w32_eq x y : w_n x = w_n y → x = y.
Proof. destruct x as [x Hx], y as [y Hy]; simpl; intros ->. f_equal. apply eq_pi. intros b. destruct b, (y <? 2 ^ 32)%N; by (left; done) || (right; done). Qed.
Definition to_w32 (n : N) : w32.
Proof. refine (W32 (n mod 2 ^ 32) _). apply N.ltb_lt. by apply N.mod_lt. Defined.
Definition w32_op (f : N → N → N) (x y : w32) : w32 := to_w32 (f (w_n x) (w_n y)).
Definition n_sub (a b : N) : N := a + (2 ^ 32 - b mod 2 ^ 32).
#[local] Instance w32_arith : Arith w32 := {
  azero := to_w32 0; aone := to_w32 1; aadd := w32_op N.add; asub := w32_op n_sub; amul := w32_op N.mul;
  afma a b c := w32_op N.add (w32_op N.mul a b) c; aones := to_w32 (2 ^ 32 - 1)
}.
#[local] Instance w32_exact : ExactArith w32.
Proof.
  split; intros; apply w32_eq; simpl; try done.
  - by rewrite N.add_comm.
  - by rewrite N.Div0.add_mod_idemp_l, N.Div0.add_mod_idemp_r, N.add_assoc.
  - apply N.mod_small. apply N.ltb_lt. apply w_ok.
Qed.

Definition word_op (f : N → N → N) : fop := λ _ a b, (f a b mod 2 ^ 32, 0%Z)%N.
Lemma word_op_range f m a b : ((word_op f m a b).1 < 256 ^ 4)%N.
Proof. by apply N.mod_lt. Qed.
#[local] Program Instance word_float : SoftFloat w32 0 := {|
  sf_add := word_op N.add; sf_sub := word_op n_sub; sf_mul := word_op N.mul; val := to_w32
|}.
Next Obligation. intros. apply word_op_range. Qed.
Next Obligation. intros. apply word_op_range. Qed.
Next Obligation. intros. apply word_op_range. Qed.
Next Obligation. intros. apply w32_eq. simpl. by rewrite N.Div0.mod_mod, <- N.Div0.add_mod. Qed.
Next Obligation.
  intros. apply w32_eq. unfold w32_op, to_w32, word_op; simpl. unfold n_sub. rewrite !N.Div0.mod_mod.
  by rewrite (N.Div0.add_mod_idemp_l a).
Qed.
Next Obligation. intros. apply w32_eq. simpl. by rewrite N.Div0.mod_mod, <- N.Div0.mul_mod. Qed.
Next Obligation. done. Qed.
Next Obligation. done. Qed.

(** C25. The L2 kernel of space_l2.h on the simulated vector unit.  For every
    VLEN and ELEN gem5 accepts (ELEN at least 32), for timing and for atomic
    memory accesses and for both tail policies, the instructions of the kernel
    run to their end without fault on two arrays in memory, and the float they
    return is the result of [L2SqrSIMDExtRVV] with the tail gem5 writes.  In
    exact arithmetic this is the sum of squared differences whenever the tail
    is undisturbed or VLEN/32 divides the dimension. *)
Theorem kernel_on_gem5 {F} `{HA : Arith F} (rm : Z) `{SF : !SoftFloat F rm} (elen vlen : Z)
    (Hp : ISA_params vlen elen = true) (He : (32 ≤ elen)%Z) (ta timing : bool)
    (A B : list N) (a b : Z) (dim : nat) (s : vunit) :
  unit_ok elen vlen s → frm s = rm → (Z.of_nat (length (mem s)) ≤ 2 ^ 64)%Z →
  mem_words (mem s) a A → mem_words (mem s) b B →
  dim ≤ length A → dim ≤ length B → (Z.of_nat dim < 2 ^ 32)%Z →
  ∃ s' r, kernel rm elen vlen ta timing a b (Z.of_nat dim) s = (s', Ok r) ∧
    @L2SqrSIMDExtRVV F HA (gem5_rvv elen vlen Hp He) (gem5_tail ta) (val <$> A) (val <$> B) (N.of_nat dim)
      = Some (val r) ∧
    (ExactArith F → (ta = false ∨ ∃ k, dim = k * lanes32 vlen) →
     val r = l2_sum (val <$> A) (val <$> B) (N.of_nat dim)).
Proof.
  intros Hu Hf HM HwA HwB HdA HdB Hd.
  destruct (kernel_refines rm elen vlen Hp He ta timing (mem s) A B a b HM HwA HwB dim s) as (s' & r & E & Er);
    [done..|]. exists s', r. split; [done|]. split; [exact Er|]. intros HE Ht.
  pose proof (@L2SqrSIMDExtRVV_exact F HA (gem5_rvv elen vlen Hp He) HE (gem5_tail ta)
    (val <$> A) (val <$> B) (N.of_nat dim)) as Hx. unfold gem5_rvv_inst in Er. rewrite Er in Hx.
  rewrite !length_fmap in Hx. apply Some_inj. apply Hx; [lia|lia|].
  destruct Ht as [->|[k Hk]]; [by right|left]. exists (N.of_nat k). simpl. lia.
Qed.

Definition demo_unit (m : list N) : vunit := unit_at 64 vconf_init [] m.

Lemma unit_at_ok elen vlen c m : vconf_ok elen vlen c → misa_rvv c = true → status_vs c ≠ OFF →
  unit_ok elen vlen (unit_at vlen c [] m).
Proof.
  intros H1 H2 H3. split; [done|done|done|done| |done]. intros k r Hk. unfold unit_at in Hk. cbn [vregs foldr] in Hk.
  apply lookup_replicate in Hk as [-> _]. apply length_replicate.
Qed.

Lemma kernel_on_gem5_witness : ∃ s' r,
  kernel 0 32 64 true true 0 16 4 (demo_unit (words [5; 6; 7; 8]%N ++ words [1; 2; 4; 4]%N)) = (s', Ok r) ∧
  w_n (@val w32 _ 0 _ r) = 57%N.
Proof.
  destruct (kernel_on_gem5 (F := w32) 0 32 64 eq_refl ltac:(done) true true [5; 6; 7; 8]%N [1; 2; 4; 4]%N 0 16 4
    (demo_unit (words [5; 6; 7; 8]%N ++ words [1; 2; 4; 4]%N))) as (s' & r & E & _ & Hx).
  - by apply unit_at_ok.
  - done.
  - done.
  - split; [done|]. split; [done|]. intros j v Hj.
    destruct j as [|[|[|[|j]]]]; simpl in Hj; simplify_eq; by vm_compute.
  - split; [done|]. split; [done|]. intros j v Hj.
    destruct j as [|[|[|[|j]]]]; simpl in Hj; simplify_eq; by vm_compute.
  - simpl; lia.
  - simpl; lia.
  - done.
  - exists s', r. split; [exact E|]. rewrite Hx; [by vm_compute|exact w32_exact|]. right. by exists 2.
Defined.

(** C28. An element-wise float instruction over a register group.  gem5 splits
    it into one micro-op per register; for operands the ISA allows (groups
    aligned to LMUL, a masked instruction not overwriting v0) the micro-ops
    together write exactly the active elements below [vl], each with the
    operation on the operands from before the instruction, leave every other
    element to the tail and mask policy, and touch no other register. *)
Theorem vfop_vv_elementwise (elen vlen : Z) (op : fop) (mi : minst) (s : vunit) (w : nat) :
  ISA_params vlen elen = true → unit_ok elen vlen s → vill (Vtype (conf s)) = false →
  VectorFloatDecode (Vtype (conf s)) = Ok w → (∀ mode a b, ((op mode a b).1 < 256 ^ N.of_nat w)%N) →
  legal_operands mi s →
  ∃ s', vfop_vv vlen op mi s = (s', Ok tt) ∧
    (∀ e, (Z.of_nat e < vtype_VLMAX (Vtype (conf s)) vlen false)%Z →
       lane w (default [] (vregs s' !! (vd mi + e / reg_elems vlen s))) (e mod reg_elems vlen s) =
       if (e <? Z.to_nat (VL (conf s))) && (vm mi || elem_mask (default [] (vregs s !! 0)) e)
       then (op (frm s) (group_elem vlen s w s (vs2 mi) e) (group_elem vlen s w s (vs1 mi) e)).1
       else unwritten vlen mi s w e) ∧
    (∀ j, ¬ (vd mi ≤ j < vd mi + group_regs s) → vregs s' !! j = vregs s !! j) ∧
    mem s' = mem s ∧ unit_ok elen vlen s'.
Proof.
  intros Hp Hu Hv Hw Hop Hl.
  destruct (vv_elements elen vlen Hp op mi s w Hu Hv Hw Hop Hl) as (s' & E & Hel & Hk & Em & _ & Hu' & _).
  destruct (elems_facts elen vlen Hp s w Hu Hv (float_width _ _ Hw)) as (_ & _ & _ & _ & _ & Emax).
  exists s'. split; [done|]. split; [|done]. intros e He. apply Hel. lia.
Qed.

(** A unit with e32, m2 (LMUL = 2), VLEN = 64 and the given length. *)
Definition m2_unit (ta : bool) (vl : Z) (regs : list (nat * vreg)) : vunit :=
  unit_at 64 (VConf true INITIAL 0 (if ta then 209 else 17) vl) regs [].

Lemma vfop_vv_elementwise_witness : ∃ s',
  vfop_vv 64 (word_op N.add) (MInst true 2 4 6)
    (m2_unit true 3 [(4, words [10; 20]%N); (5, words [30; 40]%N); (6, words [1; 2]%N); (7, words [3; 4]%N)]) = (s', Ok tt) ∧
  lane 4 (default [] (vregs s' !! 3)) 0 = 33%N.
Proof.
  destruct (vfop_vv_elementwise 32 64 (word_op N.add) (MInst true 2 4 6)
    (m2_unit true 3 [(4, words [10; 20]%N); (5, words [30; 40]%N); (6, words [1; 2]%N); (7, words [3; 4]%N)]) 4)
    as (s' & E & Hel & _).
  - by vm_compute.
  - split; [by vm_compute|done|done|by vm_compute| |done].
    intros k r Hk. do 40 (destruct k as [|k]; [injection Hk as <-; by vm_compute|]). discriminate.
  - by vm_compute.
  - by vm_compute.
  - apply word_op_range.
  - unfold legal_operands. split_and!; first [simpl; lia|by left|by vm_compute].
  - exists s'. split; [exact E|]. specialize (Hel 2 ltac:(by vm_compute)). vm_compute in Hel |- *. exact Hel.
Defined.


(** Finding: two departures of vsetvli from the vector extension.  The
    requested length is truncated to 32 bits, so that a request of 2^32
    elements is granted none; and a reserved SEW, which has to set [vill],
    ends the simulation with a failed assertion.  Other requests below 2^32
    are granted the smaller of the request and VLMAX. *)
Theorem vsetvli_departures (elen vlen avl : Z) (rs1 req : Z) (s : vconf) :
  ISA_params vlen elen = true → vconf_ok elen vlen s → misa_rvv s = true → status_vs s ≠ OFF →
  rs1 ≠ 0%Z → (0 ≤ req < 2 ^ 11)%Z →
  ((3 < vsew req)%Z → (vsetvli elen vlen 10 rs1 avl req s).2 = Throw "assert(vsew <= 3)") ∧
  ((vsew req ≤ 3)%Z → supported elen req = true → bits req 62 8 = 0%Z → vill req = false →
   (0 ≤ avl < 2 ^ 32)%Z →
   (vsetvli elen vlen 10 rs1 avl req s).2 = Ok (Z.min avl (vtype_VLMAX req vlen false)) ∧
   (vsetvli elen vlen 10 rs1 (avl + 2 ^ 32) req s).2 = Ok (Z.min avl (vtype_VLMAX req vlen false))).
Proof.
  intros Hp Hok Hm Hst Hrs Hr. split.
  - intros Hs. unfold vsetvli. by rewrite VConf_execute_assert; [|done|done|exact (proj1 Hok)|].
  - intros Hs Hsup Hb Hv Ha. unfold vsetvli.
    assert (granted elen (Vtype s) req = req) as Eg.
    { unfold granted. rewrite Hsup, Hb. by rewrite orb_true_r. }
    destruct (VConf_execute_ok elen vlen Hp 10 rs1 avl req s) as [E1 _]; [done..|lia|].
    destruct (VConf_execute_ok elen vlen Hp 10 rs1 (avl + 2 ^ 32) req s) as [E2 _]; [done..|lia|].
    rewrite E1, E2, Eg. unfold granted_vl. rewrite Hv. rewrite (Z_eqb_false rs1) by done. cbn [snd].
    replace (avl + 2 ^ 32)%Z with (avl + 1 * 2 ^ 32)%Z by lia. rewrite mod_shift by done.
    by rewrite Z.mod_small by lia.
Qed.

Lemma vsetvli_departures_witness :
  (vsetvli 64 256 10 11 (0 + 2 ^ 32) 208 vconf_init).2 = Ok 0%Z.
Proof.
  destruct (vsetvli_departures 64 256 0 11 208 vconf_init) as [_ H]; [by vm_compute..|done|done|by vm_compute|].
  destruct H as [_ H]; [by vm_compute..|]. exact H.
Defined.

(** C31. The integer helpers of utility.hh are exact at every width.  The
    high-half multiplications return the upper word of the mathematical
    product, signed, unsigned and mixed; quotient and remainder stay in the
    type and recombine to the dividend in every case, division by zero and the
    overflow of the minimum by -1 included; the branch-free saturating
    additions and subtractions return the sum clamped to the type and raise
    [sat] exactly when they clamp; and the rounding of a fixed-point result is
    what its mode promises. *)
Theorem integer_helpers_exact (w x y u v gb xrm : Z) (t : ity) (sat : bool) :
  (0 < w)%Z → in_ty (sty w) x → in_ty (sty w) y → in_ty (uty w) u → in_ty (uty w) v →
  (0 < width t)%Z → in_ty t x → in_ty t (x + 2 ^ gb) → (0 ≤ gb < 64)%Z → (0 ≤ xrm ≤ 3)%Z →
  (mulhu (uty w) u v = u * v / 2 ^ w ∧ mulh (sty w) x y = x * y / 2 ^ w ∧ mulhsu (sty w) x v = x * v / 2 ^ w)%Z ∧
  (in_ty (sty w) (div (sty w) x y) ∧ in_ty (sty w) (rem (sty w) x y) ∧
   conv (sty w) (div (sty w) x y * y + rem (sty w) x y) = x ∧
   (y ≠ 0 → Z.abs (rem (sty w) x y) < Z.abs y ∧ 0 ≤ x * rem (sty w) x y))%Z ∧
  (sat_add (sty w) x y sat = (clamp (sty w) (x + y), sat || negb (clamp (sty w) (x + y) =? x + y)) ∧
   sat_sub (sty w) x y sat = (clamp (sty w) (x - y), sat || negb (clamp (sty w) (x - y) =? x - y)) ∧
   sat_addu (uty w) u v sat = (clamp (uty w) (u + v), sat || negb (clamp (uty w) (u + v) =? u + v)) ∧
   sat_subu (uty w) u v sat = (clamp (uty w) (u - v), sat || negb (clamp (uty w) (u - v) =? u - v)))%Z ∧
  ∃ r, int_rounding t x xrm gb = Ok r ∧ in_ty t r ∧ rounded xrm x (2 ^ gb) (Z.shiftr r gb).
Proof.
  intros Hw Hx Hy Hu Hv Ht Hxt Hxt' Hgb Hxrm.
  destruct (mulh_exact w u v Hw) as (M1 & _), (mulh_exact w x y Hw) as (_ & M2 & _), (mulh_exact w x v Hw) as (_ & _ & M3).
  split; [by split_and!; auto|]. split; [exact (div_rem_exact w x y Hw Hx Hy)|].
  split; [|by apply int_rounding_correct].
  destruct (sat_unsigned_clamps w u v sat Hw Hu Hv) as [? ?].
  split_and!; [by apply sat_add_clamps|by apply sat_sub_clamps|done|done].
Qed.

Lemma integer_helpers_exact_witness : ∃ r, int_rounding (sty 128) (-7) 1 1 = Ok r ∧ Z.shiftr r 1 = (-4)%Z.
Proof.
  destruct (integer_helpers_exact 8 (-7) 2 200 100 1 1 (sty 128) false) as (_ & _ & _ & r & E & _ & Hr);
    [by vm_compute..|]. exists r. split; [exact E|].
  vm_compute in E. injection E as <-. by vm_compute.
Defined.
