(* ===== verification/Gem5Int.v ===== *)
(** * Integer vector instructions on gem5's RISC-V model

    The single-width integer instructions between vector registers (formats
    OPIVV and OPMVV of isa/decoder.isa that use VectorIntFormat): the statement
    each executes per element, with the C++ types of its operands, the micro-op
    template around it and the macro-op that splits the group.

    Products and sums of the signed types are computed in [int] or [int64_t]
    (an 8- or 16-bit operand is promoted), so a result that does not fit is a
    signed overflow, which C++ leaves undefined.

    The laws say what each statement computes in terms of the ISA's definition
    on mathematical integers, and that an instruction applies it to exactly the
    active elements of the group. *)

From Stdlib Require Import ZArith Lia.
From stdpp Require Import base numbers strings list.
From S2P Require Import Prelude Binary Gem5Utility Gem5Vset Gem5Vector Gem5VectorLaws Gem5Theorems.
#[local] Open Scope Z_scope.

(** The instructions, by the blocks of the decoder. *)
Inductive alu := VADD | VSUB | VMINU | VMIN | VMAXU | VMAX | VAND | VOR | VXOR.
Inductive vvm := VADC | VSBC | VMERGE | VMV.
Inductive shift := VSLL | VSRL | VSRA.
Inductive averaging := VAADDU | VAADD | VASUBU | VASUB.
Inductive muldiv := VDIVU | VDIV | VREMU | VREM | VMULHU | VMUL | VMULHSU | VMULH
  | VMADD | VNMSUB | VMACC | VNMSAC.
Inductive iop := Alu (o : alu) | Vvm (o : vvm) | Shift (o : shift) | Average (o : averaging) | MulDiv (o : muldiv).

(** A signed operation on operands of [sew] bits, after the promotions. *)
Definition promoted (sew : Z) : ity := sty (Z.max 32 sew).
Definition checked (t : ity) (z : Z) : res Z :=
  if (ty_min t <=? z) && (z <=? ty_max t) then Ok z else Undef "signed overflow".

(** The statement of each instruction.  [Vs1], [Vs2] and [Vs3] are the elements
    of [vs1], [vs2] and the old destination, with the suffix of the type the
    statement reads them at; [m] is [elem_mask(v0, ei)]. *)
Definition alu_code (op : alu) (Vs2_vu Vs1_vu Vs2_vi Vs1_vi : Z) : Z :=
  match op with
  | VADD => Vs2_vu + Vs1_vu
  | VSUB => Vs2_vu - Vs1_vu
  | VMINU => if Vs2_vu <? Vs1_vu then Vs2_vu else Vs1_vu
  | VMIN => if Vs2_vi <? Vs1_vi then Vs2_vi else Vs1_vi
  | VMAXU => if Vs1_vu <? Vs2_vu then Vs2_vu else Vs1_vu
  | VMAX => if Vs1_vi <? Vs2_vi then Vs2_vi else Vs1_vi
  | VAND => Z.land Vs2_vu Vs1_vu
  | VOR => Z.lor Vs2_vu Vs1_vu
  | VXOR => Z.lxor Vs2_vu Vs1_vu
  end.
Definition vvm_code (op : vvm) (sew : Z) (m : bool) (Vs2_vu Vs1_vu Vs2_vi Vs1_vi : Z) : res Z :=
  let P := promoted sew in
  match op with
  | VADC => s <- checked P (Vs2_vi + Vs1_vi) ;; checked P (s + Z.b2z m)
  | VSBC => s <- checked P (Vs2_vi - Vs1_vi) ;; checked P (s - Z.b2z m)
  | VMERGE => Ok (if m then Vs1_vu else Vs2_vu)
  | VMV => Ok Vs1_vu
  end.
Definition shift_code (op : shift) (sew Vs2_vu Vs1_vu Vs2_vi : Z) : Z :=
  match op with
  | VSLL => Z.shiftl Vs2_vu (Z.land Vs1_vu (sew - 1))
  | VSRL => Z.shiftr Vs2_vu (Z.land Vs1_vu (sew - 1))
  | VSRA => Z.shiftr Vs2_vi (Z.land Vs1_vu (sew - 1))
  end.
Definition average_code (op : averaging) (Vs2_vu Vs1_vu Vs2_vi Vs1_vi : Z) : res Z :=
  let res := conv (uty 128)
    match op with
    | VAADDU => Vs2_vu + Vs1_vu | VAADD => Vs2_vi + Vs1_vi
    | VASUBU => Vs2_vu - Vs1_vu | VASUB => Vs2_vi - Vs1_vi
    end in
  res <- int_rounding (uty 128) res 0 1 ;;
  Ok (Z.shiftr res 1).
Definition muldiv_code (op : muldiv) (sew Vs3_vi Vs2_vu Vs1_vu Vs2_vi Vs1_vi : Z) : res Z :=
  let P := promoted sew in
  match op with
  | VDIVU => Ok (divu (uty sew) Vs2_vu Vs1_vu)
  | VDIV => Ok (div (sty sew) Vs2_vi Vs1_vi)
  | VREMU => Ok (remu (uty sew) Vs2_vu Vs1_vu)
  | VREM => Ok (rem (sty sew) Vs2_vi Vs1_vi)
  | VMULHU => Ok (mulhu (uty sew) Vs2_vu Vs1_vu)
  | VMUL => checked P (Vs2_vi * Vs1_vi)
  | VMULHSU => Ok (mulhsu (sty sew) Vs2_vi Vs1_vu)
  | VMULH => Ok (mulh (sty sew) Vs2_vi Vs1_vi)
  | VMADD => p <- checked P (Vs3_vi * Vs1_vi) ;; checked P (p + Vs2_vi)
  | VNMSUB => p <- checked P (Vs3_vi * Vs1_vi) ;; n <- checked P (- p) ;; checked P (n + Vs2_vi)
  | VMACC => p <- checked P (Vs2_vi * Vs1_vi) ;; checked P (p + Vs3_vi)
  | VNMSAC => p <- checked P (Vs2_vi * Vs1_vi) ;; n <- checked P (- p) ;; checked P (n + Vs3_vi)
  end.

(** The elements [c], [a] and [b] at the unsigned and the signed type. *)
Definition iop_code (op : iop) (sew : Z) (m : bool) (c a b : N) : res Z :=
  let vu x := Z.of_N x in
  let vi x := conv (sty sew) (Z.of_N x) in
  match op with
  | Alu o => Ok (alu_code o (vu a) (vu b) (vi a) (vi b))
  | Vvm o => vvm_code o sew m (vu a) (vu b) (vi a) (vi b)
  | Shift o => Ok (shift_code o sew (vu a) (vu b) (vi a))
  | Average o => average_code o (vu a) (vu b) (vi a) (vi b)
  | MulDiv o => muldiv_code o sew (vi c) (vu a) (vu b) (vi a) (vi b)
  end.
(** The element assigned: [Vd_vu[i]] and [Vd_vi[i]] are the same bytes. *)
Definition iop_val (op : iop) (w : nat) (m : bool) (c a b : N) : res N :=
  let sew := 8 * Z.of_nat w in
  z <- iop_code op sew m c a b ;; Ok (Z.to_N (conv (uty sew) z)).

(** [mask_cond] of VectorIntFormat: the suffix vvm and vmv are not masked. *)
Definition mask_cond (op : iop) : bool :=
  match op with Vvm _ => false | _ => true end.

(** The encodings [decode VM] and [decode VS2] leave to the instruction. *)
Definition accepted (op : iop) (mi : minst) : bool :=
  match op with
  | Vvm VMV => vm mi && (vs2 mi =? 0)%nat
  | Vvm _ => negb (vm mi)
  | _ => true
  end.

(** VectorIntDecodeBlock: the size of the [ElemType] selected by [vsew]. *)
Definition VectorIntDecode (vtype : Z) : res nat :=
  match vsew vtype with
  | 0 => Ok 1%nat | 1 => Ok 2%nat | 2 => Ok 4%nat | 3 => Ok 8%nat
  | _ => Undef "unreachable"
  end.

(** The loop of [loopWrapper], [eiDeclarePrefix] and [maskCondWrapper]. *)
Definition elem_active (op : iop) (mi : minst) (v0 : vreg) (ei : nat) : bool :=
  negb (mask_cond op) || vm mi || elem_mask v0 ei.
Definition int_loop (op : iop) (w : nat) (mi : minst) (v0 : vreg) (ei : nat)
    (Vs3 Vs2 Vs1 : vreg) (microVl : nat) (Vd : vreg) : res vreg :=
  foldl (λ acc i, d <- acc ;;
    if elem_active op mi v0 (ei + i)
    then r <- iop_val op w (elem_mask v0 (ei + i)) (lane w Vs3 i) (lane w Vs2 i) (lane w Vs1 i) ;;
         Ok (set_lane w d i r)
    else Ok d) (Ok Vd) (seq 0 microVl).

(** VectorIntMicroExecute with the registers VectorIntFormat assigns. *)
Definition VectorIntMicro_execute (vlen : Z) (w : nat) (op : iop) (mi : minst) (microVl microIdx : nat) :
    eff vunit unit :=
  let* _ := vector_guard in
  let* _ := mark_dirty in
  let* vtype := eff_get (λ s, Vtype (conf s)) in
  let* Vs1 := getRegOperand (vs1 mi + microIdx) in
  let* Vs2 := getRegOperand (vs2 mi + microIdx) in
  let* v0 := getRegOperand 0 in
  let* old_vd := getRegOperand (vd mi + microIdx) in
  let ei := (Z.to_nat (vtype_VLMAX vtype vlen true) * microIdx)%nat in
  let* Vd := eff_lift (λ _, int_loop op w mi v0 ei old_vd Vs2 Vs1 microVl (copy_old_vd vtype (vm mi) old_vd)) in
  setRegOperand (vd mi + microIdx) Vd.

(** VectorIntMacroConstructor has the loop of the float one. *)
Definition viop_vv (vlen : Z) (op : iop) (mi : minst) : eff vunit unit :=
  if accepted op mi then
    let* c := eff_get conf in
    let* w := eff_lift (λ _, VectorIntDecode (Vtype c)) in
    run_microops (VectorIntMicro_execute vlen w op mi) (macro_microops vlen (bits (Vtype c) 7 0) (VL c))
  else eff_throw "unknown instruction".

(** ** What the ISA defines, on mathematical integers *)
Definition isa (op : iop) (sew : Z) (m : bool) (c a b : N) : Z :=
  let uc := Z.of_N c in let ua := Z.of_N a in let ub := Z.of_N b in
  let sa := conv (sty sew) ua in let sb := conv (sty sew) ub in
  match op with
  | Alu VADD => ua + ub | Alu VSUB => ua - ub
  | Alu VMINU => Z.min ua ub | Alu VMIN => Z.min sa sb
  | Alu VMAXU => Z.max ua ub | Alu VMAX => Z.max sa sb
  | Alu VAND => Z.land ua ub | Alu VOR => Z.lor ua ub | Alu VXOR => Z.lxor ua ub
  | Vvm VADC => ua + ub + Z.b2z m | Vvm VSBC => ua - ub - Z.b2z m
  | Vvm VMERGE => if m then ub else ua | Vvm VMV => ub
  | Shift VSLL => ua * 2 ^ (ub mod sew)
  | Shift VSRL => ua / 2 ^ (ub mod sew)
  | Shift VSRA => sa / 2 ^ (ub mod sew)
  | Average VAADDU => (ua + ub + 1) / 2 | Average VAADD => (sa + sb + 1) / 2
  | Average VASUBU => (ua - ub + 1) / 2 | Average VASUB => (sa - sb + 1) / 2
  | MulDiv VDIVU => if ub =? 0 then -1 else ua / ub
  | MulDiv VDIV => if sb =? 0 then -1 else Z.quot sa sb
  | MulDiv VREMU => if ub =? 0 then ua else ua mod ub
  | MulDiv VREM => if sb =? 0 then sa else Z.rem sa sb
  | MulDiv VMULHU => ua * ub / 2 ^ sew
  | MulDiv VMUL => ua * ub
  | MulDiv VMULHSU => sa * ub / 2 ^ sew
  | MulDiv VMULH => sa * sb / 2 ^ sew
  | MulDiv VMADD => uc * ub + ua | MulDiv VNMSUB => - (uc * ub) + ua
  | MulDiv VMACC => ua * ub + uc | MulDiv VNMSAC => - (ua * ub) + uc
  end.

(** The statements that compute in a signed type. *)
Definition signed_code (op : iop) : bool :=
  match op with
  | Vvm VADC | Vvm VSBC | MulDiv VMUL | MulDiv VMADD | MulDiv VNMSUB | MulDiv VMACC | MulDiv VNMSAC => true
  | _ => false
  end.

(** ** The statements compute what the ISA defines *)
Lemma conv_shift t z : 0 < width t → ∃ k, conv t z = z + k * 2 ^ width t.
Proof.
  intros Hw. assert (0 < 2 ^ width t) by (apply Z.pow_pos_nonneg; lia). unfold conv.
  pose proof (Z.div_mod z (2 ^ width t) ltac:(lia)) as E.
  destruct (is_signed t && _); [exists (- (z / 2 ^ width t) - 1)|exists (- (z / 2 ^ width t))]; lia.
Qed.
Lemma congruent x y k n : 0 ≤ n → x = y + k * 2 ^ n → x mod 2 ^ n = y mod 2 ^ n.
Proof. intros Hn ->. apply mod_shift. apply Z.pow_nonzero; lia. Qed.

Section statement.
Context (sew : Z) (Hsew : sew = 8 ∨ sew = 16 ∨ sew = 32 ∨ sew = 64).
Context (m : bool) (c a b : N).
Hypothesis Hc : Z.of_N c < 2 ^ sew.
Hypothesis Ha : Z.of_N a < 2 ^ sew.
Hypothesis Hb : Z.of_N b < 2 ^ sew.

#[local] Abbreviation sa := (conv (sty sew) (Z.of_N a)).
#[local] Abbreviation sb := (conv (sty sew) (Z.of_N b)).
#[local] Abbreviation sc := (conv (sty sew) (Z.of_N c)).
#[local] Abbreviation wraps x y := (x mod 2 ^ sew = y mod 2 ^ sew).

Lemma checked_cases t z : checked t z = Ok z ∨ checked t z = Undef "signed overflow" ∧ ¬ in_ty t z.
Proof.
  unfold checked. destruct ((ty_min t <=? z) && (z <=? ty_max t)) eqn:E; [by left|right].
  split; [done|]. unfold in_ty. lia.
Qed.

Lemma averaged_wraps z : ∃ r,
  (x <- int_rounding (uty 128) (conv (uty 128) z) 0 1 ;; Ok (Z.shiftr x 1)) = Ok r ∧ wraps r ((z + 1) / 2).
Proof.
  unfold int_rounding. change (Z.shiftr (conv (uty 64) (Z.shiftl 1 1)) 1) with 1. cbn [res_bind].
  eexists. split; [done|]. rewrite Z.shiftr_div_pow2 by lia. change (2 ^ 1) with 2.
  destruct (conv_shift (uty 128) z ltac:(done)) as [k ->].
  destruct (conv_shift (uty 128) (z + k * 2 ^ width (uty 128) + 1) ltac:(done)) as [k' ->].
  cbn [width uty]. apply (congruent _ _ ((k + k') * 2 ^ (127 - sew))); [lia|].
  rewrite <- Z.mul_assoc, <- Z.pow_add_r by lia. replace (127 - sew + sew) with 127 by lia.
  change (2 ^ 128) with (2 ^ 127 * 2). rewrite <- Z.div_add by lia. f_equal. ring.
Qed.

Lemma shift_amount : Z.land (Z.of_N b) (sew - 1) = Z.of_N b mod sew ∧ 0 ≤ Z.of_N b mod sew.
Proof.
  split; [|apply Z.mod_pos_bound; lia].
  destruct Hsew as [->|[->|[->| ->]]];
    [exact (land_low _ 3 ltac:(lia))|exact (land_low _ 4 ltac:(lia))|
     exact (land_low _ 5 ltac:(lia))|exact (land_low _ 6 ltac:(lia))].
Qed.

Lemma operand_types : in_ty (uty sew) (Z.of_N a) ∧ in_ty (uty sew) (Z.of_N b) ∧ in_ty (sty sew) sa ∧ in_ty (sty sew) sb.
Proof.
  split_and!; try (apply conv_range; simpl; lia); unfold in_ty, ty_min, ty_max; simpl; lia.
Qed.

Lemma div_wraps : wraps (div (sty sew) sa sb) (if sb =? 0 then -1 else Z.quot sa sb) ∧
  wraps (rem (sty sew) sa sb) (if sb =? 0 then sa else Z.rem sa sb).
Proof.
  destruct (two_pow_half sew ltac:(lia)) as [E _]. unfold div, rem. destruct (Z.eqb_spec sb 0); [done|].
  destruct ((sa =? ty_min (sty sew)) && (sb =? -1)) eqn:E1; [|done].
  apply andb_true_iff in E1 as [->%Z.eqb_eq ->%Z.eqb_eq]. unfold ty_min; cbn [is_signed sty width].
  set (P := 2 ^ (sew - 1)) in *. split.
  - apply (congruent _ _ (-1)); [lia|]. rewrite E. change (-1) with (- (1)). rewrite Z.quot_opp_opp, Z.quot_1_r by lia. lia.
  - change (-1) with (- (1)). rewrite Z.rem_opp_opp, Z.rem_1_r by lia. done.
Qed.

(** The statements without signed arithmetic. *)
Lemma plain_exact op : signed_code op = false →
  ∃ z, iop_code op sew m c a b = Ok z ∧ wraps z (isa op sew m c a b).
Proof.
  intros Ho. destruct operand_types as (Ta & Tb & Tsa & Tsb). destruct shift_amount as [Esh Hsh].
  destruct (mulh_exact sew (Z.of_N a) (Z.of_N b) ltac:(lia)) as (Eu & _).
  destruct (mulh_exact sew sa (Z.of_N b) ltac:(lia)) as (_ & _ & Esu).
  destruct (mulh_exact sew sa sb ltac:(lia)) as (_ & Es & _). destruct div_wraps as [Ed Er].
  destruct op as [[]|[]|[]|[]|[]]; try discriminate Ho; try apply averaged_wraps.
  all: eexists; split; [done|]; unfold alu_code, shift_code, isa; cbv zeta.
  all: try (done || by rewrite Esh, ?Z.shiftl_mul_pow2, ?Z.shiftr_div_pow2 by done).
  - f_equal. destruct (Z.ltb_spec (Z.of_N a) (Z.of_N b)); lia.
  - f_equal. destruct (Z.ltb_spec sa sb); lia.
  - f_equal. destruct (Z.ltb_spec (Z.of_N b) (Z.of_N a)); lia.
  - f_equal. destruct (Z.ltb_spec sb sa); lia.
  - unfold divu. destruct (Z.eqb_spec (Z.of_N b) 0).
    + apply (congruent _ _ 1); [lia|]. unfold ty_max; simpl. lia.
    + by rewrite Z.quot_div_nonneg by lia.
  - unfold remu. destruct (Z.eqb_spec (Z.of_N b) 0); [done|]. by rewrite Z.rem_mod_nonneg by lia.
  - by rewrite Eu.
  - by rewrite Esu.
  - by rewrite Es.
Qed.

(** Promoted to [int], the narrow types do not overflow. *)
Lemma narrow_fits z : sew < 32 → - 2 ^ 31 < z < 2 ^ 31 → in_ty (promoted sew) z.
Proof. intros Hn Hz. unfold promoted. rewrite Z.max_l by lia. unfold in_ty, ty_min, ty_max; simpl. lia. Qed.
Lemma narrow_operands x : sew < 32 → - 2 ^ 15 ≤ conv (sty sew) x ≤ 2 ^ 15 - 1.
Proof.
  intros Hn. pose proof (conv_range (sty sew) x ltac:(simpl; lia)) as H. unfold in_ty, ty_min, ty_max in H.
  destruct Hsew as [->|[->|]]; [..|lia]; simpl in *; lia.
Qed.
Lemma narrow_product x y : sew < 32 → - 2 ^ 30 ≤ conv (sty sew) x * conv (sty sew) y ≤ 2 ^ 30.
Proof.
  intros Hn. pose proof (narrow_operands x Hn). pose proof (narrow_operands y Hn). nia.
Qed.

(** A chain of signed operations: each is defined, or the type has at least 32
    bits and the chain is undefined. *)
Lemma checked_then z (f : Z → res Z) (Q : Z → Prop) : (sew < 32 → - 2 ^ 31 < z < 2 ^ 31) →
  ((∃ r, f z = Ok r ∧ Q r) ∨ 32 ≤ sew ∧ f z = Undef "signed overflow") →
  (∃ r, (x <- checked (promoted sew) z ;; f x) = Ok r ∧ Q r) ∨
  32 ≤ sew ∧ (x <- checked (promoted sew) z ;; f x) = Undef "signed overflow".
Proof.
  intros Hz H. destruct (checked_cases (promoted sew) z) as [->|[-> Hn]]; [done|right].
  split; [|done]. destruct (decide (sew < 32)) as [Hs|]; [|lia]. destruct Hn. by apply narrow_fits, Hz.
Qed.
Lemma checked_last z (Q : Z → Prop) : (sew < 32 → - 2 ^ 31 < z < 2 ^ 31) → Q z →
  (∃ r, checked (promoted sew) z = Ok r ∧ Q r) ∨ 32 ≤ sew ∧ checked (promoted sew) z = Undef "signed overflow".
Proof.
  intros Hz H. destruct (checked_cases (promoted sew) z) as [->|[-> Hn]]; [left; by exists z|right].
  split; [|done]. destruct (decide (sew < 32)) as [Hs|]; [|lia]. destruct Hn. by apply narrow_fits, Hz.
Qed.

Lemma signed_exact op : signed_code op = true →
  (∃ z, iop_code op sew m c a b = Ok z ∧ wraps z (isa op sew m c a b)) ∨
  32 ≤ sew ∧ iop_code op sew m c a b = Undef "signed overflow".
Proof.
  intros Ho. destruct (conv_shift (sty sew) (Z.of_N a)) as [ka Ea]; [simpl; lia|].
  destruct (conv_shift (sty sew) (Z.of_N b)) as [kb Eb]; [simpl; lia|].
  destruct (conv_shift (sty sew) (Z.of_N c)) as [kc Ec]; [simpl; lia|]. cbn [sty width] in Ea, Eb, Ec.
  pose proof (narrow_operands (Z.of_N a)) as Na. pose proof (narrow_operands (Z.of_N b)) as Nb.
  pose proof (narrow_operands (Z.of_N c)) as Nc. pose proof (narrow_product (Z.of_N a) (Z.of_N b)) as Nab.
  pose proof (narrow_product (Z.of_N c) (Z.of_N b)) as Ncb.
  assert (0 ≤ Z.b2z m ≤ 1) by (destruct m; simpl; lia).
  set (X := λ x y kx ky, x * ky + kx * y + kx * ky * 2 ^ sew).
  destruct op as [[]|[]|[]|[]|[]]; try discriminate Ho; unfold iop_code, vvm_code, muldiv_code, isa; cbv zeta.
  all: repeat (apply checked_then; [lia|]); apply checked_last; [lia|].
  all: cbv beta; rewrite Ea, Eb, ?Ec.
  - apply (congruent _ _ (ka + kb)); [lia|ring].
  - apply (congruent _ _ (ka - kb)); [lia|ring].
  - apply (congruent _ _ (X (Z.of_N a) (Z.of_N b) ka kb)); [lia|unfold X; ring].
  - apply (congruent _ _ (X (Z.of_N c) (Z.of_N b) kc kb + ka)); [lia|unfold X; ring].
  - apply (congruent _ _ (- X (Z.of_N c) (Z.of_N b) kc kb + ka)); [lia|unfold X; ring].
  - apply (congruent _ _ (X (Z.of_N a) (Z.of_N b) ka kb + kc)); [lia|unfold X; ring].
  - apply (congruent _ _ (- X (Z.of_N a) (Z.of_N b) ka kb + kc)); [lia|unfold X; ring].
Qed.
End statement.

(** An element: the bits the ISA defines, or a signed overflow of a statement in
    a signed type of 32 bits or more. *)
Lemma iop_val_exact op w m c a b : w = 1%nat ∨ w = 2%nat ∨ w = 4%nat ∨ w = 8%nat →
  (c < 256 ^ N.of_nat w)%N → (a < 256 ^ N.of_nat w)%N → (b < 256 ^ N.of_nat w)%N →
  (∃ r, iop_val op w m c a b = Ok r ∧ Z.of_N r = isa op (8 * Z.of_nat w) m c a b mod 2 ^ (8 * Z.of_nat w)) ∨
  signed_code op = true ∧ (4 ≤ w)%nat ∧ iop_val op w m c a b = Undef "signed overflow".
Proof.
  intros Hw Hc Ha Hb. set (sew := 8 * Z.of_nat w).
  assert (∀ x, (x < 256 ^ N.of_nat w)%N → Z.of_N x < 2 ^ sew) as Hx.
  { intros x Hx. assert (Z.of_N (256 ^ N.of_nat w) = 2 ^ sew) as <-; [|lia].
    destruct Hw as [->|[->|[->| ->]]]; reflexivity. }
  assert (sew = 8 ∨ sew = 16 ∨ sew = 32 ∨ sew = 64) as Hs by (unfold sew; lia).
  assert ((∃ z, iop_code op sew m c a b = Ok z ∧ z mod 2 ^ sew = isa op sew m c a b mod 2 ^ sew) ∨
          signed_code op = true ∧ 32 ≤ sew ∧ iop_code op sew m c a b = Undef "signed overflow") as [(z & E & Ez)|(? & ? & E)].
  { destruct (signed_code op) eqn:Eo.
    - destruct (signed_exact sew Hs m c a b (Hx _ Hc) (Hx _ Ha) (Hx _ Hb) op Eo) as [H|H]; [by left|by right].
    - left. apply plain_exact; auto. }
  - left. unfold iop_val. fold sew. rewrite E. cbn [res_bind]. eexists. split; [done|]. rewrite <- Ez.
    unfold conv; cbn [uty is_signed width andb]. apply Z2N.id. apply Z.mod_pos_bound, Z.pow_pos_nonneg; lia.
  - right. unfold iop_val. fold sew. rewrite E. split_and!; [done|lia|done].
Qed.

(** ** The loop and the micro-op *)
#[local] Open Scope nat_scope.

Lemma int_width vtype w : VectorIntDecode vtype = Ok w →
  (vsew vtype ≤ 3)%Z ∧ Z.of_nat w = (2 ^ vsew vtype)%Z ∧ (w = 1 ∨ w = 2 ∨ w = 4 ∨ w = 8).
Proof.
  unfold VectorIntDecode. intros H. destruct (field_ranges vtype) as [Hs _].
  assert (vsew vtype = 0 ∨ vsew vtype = 1 ∨ vsew vtype = 2 ∨ vsew vtype = 3 ∨ vsew vtype = 4 ∨ vsew vtype = 5 ∨
    vsew vtype = 6 ∨ vsew vtype = 7)%Z as Hc by lia.
  destruct Hc as [E|[E|[E|[E|[E|[E|[E|E]]]]]]]; rewrite E in *; try discriminate; injection H as <-; split_and!; auto; lia.
Qed.

Section execution.
Context (elen vlen : Z) (Hp : ISA_params vlen elen = true).
Context (op : iop) (mi : minst) (w : nat).

Definition elem_val (v0 : vreg) (e : nat) (c a b : N) : N :=
  match iop_val op w (elem_mask v0 e) c a b with Ok r => r | _ => 0%N end.
Definition elem_ok (v0 : vreg) (e : nat) (c a b : N) : Prop :=
  iop_val op w (elem_mask v0 e) c a b = Ok (elem_val v0 e c a b).

Lemma elem_val_range v0 e c a b : elem_ok v0 e c a b → (elem_val v0 e c a b < 256 ^ N.of_nat w)%N.
Proof.
  unfold elem_ok, iop_val. intros E. destruct (iop_code _ _ _ _ _ _) as [z| | |]; try discriminate.
  cbn [res_bind] in E. injection E as <-. unfold conv; cbn [uty is_signed width andb].
  pose proof (Z.mod_pos_bound z (2 ^ (8 * Z.of_nat w)) ltac:(apply Z.pow_pos_nonneg; lia)) as Hz.
  assert (Z.of_N (256 ^ N.of_nat w) = 2 ^ (8 * Z.of_nat w))%Z as E.
  { rewrite N2Z.inj_pow, nat_N_Z, Z.pow_mul_r by lia. done. }
  lia.
Qed.

Lemma int_loop_write v0 ei Vs3 Vs2 Vs1 n Vd :
  (∀ i, i < n → elem_active op mi v0 (ei + i) = true → elem_ok v0 (ei + i) (lane w Vs3 i) (lane w Vs2 i) (lane w Vs1 i)) →
  int_loop op w mi v0 ei Vs3 Vs2 Vs1 n Vd =
  Ok (write_loop w (λ i, elem_active op mi v0 (ei + i))
        (λ i, elem_val v0 (ei + i) (lane w Vs3 i) (lane w Vs2 i) (lane w Vs1 i)) n Vd).
Proof.
  intros H. unfold int_loop, write_loop. induction n as [|n IH]; [done|].
  rewrite !seq_S, !foldl_app, IH by auto. cbn [foldl res_bind]. specialize (H n ltac:(lia)).
  change (0 + n) with n. destruct (elem_active op mi v0 (ei + n)); [|done]. by rewrite H.
Qed.

Lemma int_micro mv idx s Vs1 Vs2 v0 old :
  unit_ok elen vlen s → vill (Vtype (conf s)) = false →
  vregs s !! (vs1 mi + idx) = Some Vs1 → vregs s !! (vs2 mi + idx) = Some Vs2 →
  vregs s !! 0 = Some v0 → vregs s !! (vd mi + idx) = Some old →
  let ei := Z.to_nat (vtype_VLMAX (Vtype (conf s)) vlen true) * idx in
  (∀ i, i < mv → elem_active op mi v0 (ei + i) = true → elem_ok v0 (ei + i) (lane w old i) (lane w Vs2 i) (lane w Vs1 i)) →
  VectorIntMicro_execute vlen w op mi mv idx s =
    (after s (softfloat_roundingMode s) (fflags s) (vd mi + idx)
       (write_loop w (λ i, elem_active op mi v0 (ei + i))
          (λ i, elem_val v0 (ei + i) (lane w old i) (lane w Vs2 i) (lane w Vs1 i)) mv
          (copy_old_vd (Vtype (conf s)) (vm mi) old)), Ok tt).
Proof.
  intros Hu Hv E1 E2 E0 Ed ei Hok. unfold VectorIntMicro_execute.
  rewrite (eff_bind_ok _ _ _ _ _ (guard_passes elen vlen s Hu Hv)).
  rewrite (eff_bind_ok _ _ s (with_conf (dirty (conf s)) s) tt) by done.
  unfold eff_bind, eff_get, eff_mod, getRegOperand, eff_lift, setRegOperand.
  cbn [conf vregs with_conf]. unfold eff_mod. rewrite E1, E2, E0, Ed. simpl of_opt. cbn match.
  cbn [dirty Vtype]. fold ei. by rewrite int_loop_write.
Qed.

(** An unmasked instruction does not read the mask register. *)
Lemma mask_unread : accepted op mi = true → vm mi = true → ∀ v v' e,
  elem_active op mi v e = elem_active op mi v' e ∧
  ∀ c a b, elem_val v e c a b = elem_val v' e c a b ∧ (elem_ok v e c a b ↔ elem_ok v' e c a b).
Proof.
  intros He Hm v v' e. unfold elem_active. rewrite Hm, !orb_true_r. split; [done|]. intros c a b.
  assert (iop_val op w (elem_mask v e) c a b = iop_val op w (elem_mask v' e) c a b) as E.
  { unfold accepted in He. rewrite Hm in He. by destruct op as [?|[]|?|?|?]. }
  unfold elem_ok, elem_val. by rewrite E.
Qed.

(** No active element overflows a signed type. *)
Definition no_overflow (s : vunit) : Prop :=
  signed_code op = true → 4 ≤ w → ∀ e, e < Z.to_nat (VL (conf s)) →
  elem_active op mi (default [] (vregs s !! 0)) e = true →
  iop_val op w (elem_mask (default [] (vregs s !! 0)) e) (group_elem vlen s w s (vd mi) e)
    (group_elem vlen s w s (vs2 mi) e) (group_elem vlen s w s (vs1 mi) e) ≠ Undef "signed overflow".

Lemma elements_exact s e : VectorIntDecode (Vtype (conf s)) = Ok w → byte_regs s → no_overflow s →
  e < Z.to_nat (VL (conf s)) → elem_active op mi (default [] (vregs s !! 0)) e = true →
  let v0 := default [] (vregs s !! 0) in
  let c := group_elem vlen s w s (vd mi) e in
  let a := group_elem vlen s w s (vs2 mi) e in
  let b := group_elem vlen s w s (vs1 mi) e in
  elem_ok v0 e c a b ∧
  Z.of_N (elem_val v0 e c a b) = (isa op (8 * Z.of_nat w) (elem_mask v0 e) c a b mod 2 ^ (8 * Z.of_nat w))%Z.
Proof.
  intros Hw Hb Hno He Ha. cbv zeta. destruct (int_width _ _ Hw) as (_ & _ & Hws).
  destruct (iop_val_exact op w (elem_mask (default [] (vregs s !! 0)) e) (group_elem vlen s w s (vd mi) e)
    (group_elem vlen s w s (vs2 mi) e) (group_elem vlen s w s (vs1 mi) e) Hws) as [(r & E & Er)|(Hs & H4 & E)].
  1-3: by apply group_elem_range.
  - unfold elem_ok, elem_val. by rewrite E.
  - by destruct (Hno Hs H4 e He Ha).
Qed.
End execution.


(** A unit with e16, m1 and VLEN = 64; v0 selects the elements 0 and 2. *)
Definition int_demo : vunit :=
  unit_at 64 (VConf true INITIAL 0 8 3)
    [(0%nat, [5; 0; 0; 0; 0; 0; 0; 0]%N); (2, concat (le 2 <$> [7; 7; 7; 7]%N));
     (4, concat (le 2 <$> [32768; 9; 65535; 1]%N)); (6, concat (le 2 <$> [65535; 2; 3; 1]%N))] [].


(** Finding: the ISA takes the low half of the product, but at 32 bits the
    statement multiplies two [int]s. *)
Theorem vmul_overflow_undefined (m : bool) :
  iop_val (MulDiv VMUL) 4 m 0 65536 65536 = Undef "signed overflow" ∧
  (isa (MulDiv VMUL) 32 m 0 65536 65536 mod 2 ^ 32 = 0)%Z.
Proof. done. Qed.
