(* ===== verification/SpaceIP.v ===== *)
(** * space_ip.h: inner-product distance

    The scalar loop, the SSE, AVX and AVX-512 kernels (the last with fused
    multiply-add), the residual variants and the choice [InnerProductSpace]
    makes among them. *)

From Stdlib Require Import ZArith Lia.
From stdpp Require Import base numbers list.
From S2P Require Import Prelude Arith Simd SpaceL2.
#[local] Open Scope N_scope.

Section kernels.
Context {F : Type} `{Arith F}.

Fixpoint InnerProduct_loop (n : nat) (i : N) (pVect1 pVect2 : list F) (acc : F) : option F :=
  match n with
  | O => Some acc
  | S n' =>
      x ← pVect1 !! N.to_nat i; y ← pVect2 !! N.to_nat i;
      InnerProduct_loop n' (i + 1) pVect1 pVect2 (aadd acc (amul x y))
  end.
Definition InnerProduct (pVect1 pVect2 : list F) (qty : N) : option F :=
  InnerProduct_loop (N.to_nat qty) 0 pVect1 pVect2 azero.

(** [1.0f - x], the last line of every distance. *)
Definition one_minus (o : option F) : option F := x ← o; Some (asub aone x).

Definition InnerProductDistance (pVect1 pVect2 : list F) (qty : N) : option F :=
  one_minus (InnerProduct pVect1 pVect2 qty).

(** [v1 = load(p1); v2 = load(p2); sum = sum + v1 * v2] *)
Definition ip_step (w : nat) (pVect1 pVect2 : list F) (i : N) (sum : list F) : option (list F) :=
  v1 ← loadu w pVect1 i; v2 ← loadu w pVect2 i;
  Some (vadd sum (vmul v1 v2)).

Definition InnerProductSIMD4ExtAVX (pVect1 pVect2 : list F) (qty : N) : option F :=
  let qty16 := qty / 16 in
  let qty4 := qty / 4 in
  let pEnd1 := 16 * qty16 in
  let pEnd2 := 4 * qty4 in
  r ← simd_while (N.to_nat qty) pEnd1
        (λ i sum, sum1 ← ip_step 8 pVect1 pVect2 i sum;
                  sum2 ← ip_step 8 pVect1 pVect2 (i + 8) sum1;
                  Some (i + 8 + 8, sum2))
        0 (set1 8 azero);
  let sum_prod := vadd (take 4 r.2) (drop 4 r.2) in
  r' ← simd_while (N.to_nat qty) pEnd2
        (λ i sum, sum1 ← ip_step 4 pVect1 pVect2 i sum; Some (i + 4, sum1))
        r.1 sum_prod;
  Some (hsum r'.2).
Definition InnerProductDistanceSIMD4ExtAVX (pVect1v pVect2v : list F) (qty : N) : option F :=
  one_minus (InnerProductSIMD4ExtAVX pVect1v pVect2v qty).

Definition sse_body16 (pVect1 pVect2 : list F) (i : N) (sum : list F) : option (N * list F) :=
  sum1 ← ip_step 4 pVect1 pVect2 i sum;
  sum2 ← ip_step 4 pVect1 pVect2 (i + 4) sum1;
  sum3 ← ip_step 4 pVect1 pVect2 (i + 4 + 4) sum2;
  sum4 ← ip_step 4 pVect1 pVect2 (i + 4 + 4 + 4) sum3;
  Some (i + 4 + 4 + 4 + 4, sum4).

Definition InnerProductSIMD4ExtSSE (pVect1 pVect2 : list F) (qty : N) : option F :=
  let qty16 := qty / 16 in
  let qty4 := qty / 4 in
  let pEnd1 := 16 * qty16 in
  let pEnd2 := 4 * qty4 in
  r ← simd_while (N.to_nat qty) pEnd1 (sse_body16 pVect1 pVect2) 0 (set1 4 azero);
  r' ← simd_while (N.to_nat qty) pEnd2
        (λ i sum, sum1 ← ip_step 4 pVect1 pVect2 i sum; Some (i + 4, sum1)) r.1 r.2;
  Some (hsum r'.2).
Definition InnerProductDistanceSIMD4ExtSSE (pVect1v pVect2v : list F) (qty : N) : option F :=
  one_minus (InnerProductSIMD4ExtSSE pVect1v pVect2v qty).

(** The four-fold unrolled loop of the AVX-512 kernel loads eight registers
    before its four fused multiply-adds. *)
Definition avx512_body4 (pVect1 pVect2 : list F) (i : N) (sum512 : list F) : option (N * list F) :=
  v1 ← loadu 16 pVect1 i; v2 ← loadu 16 pVect2 i;
  v3 ← loadu 16 pVect1 (i + 16); v4 ← loadu 16 pVect2 (i + 16);
  v5 ← loadu 16 pVect1 (i + 16 + 16); v6 ← loadu 16 pVect2 (i + 16 + 16);
  v7 ← loadu 16 pVect1 (i + 16 + 16 + 16); v8 ← loadu 16 pVect2 (i + 16 + 16 + 16);
  let s1 := vfmadd v1 v2 sum512 in
  let s2 := vfmadd v3 v4 s1 in
  let s3 := vfmadd v5 v6 s2 in
  let s4 := vfmadd v7 v8 s3 in
  Some (i + 16 + 16 + 16 + 16, s4).
Fixpoint avx512_loop4 (loop : nat) (pVect1 pVect2 : list F) (i : N) (sum512 : list F)
    : option (N * list F) :=
  match loop with
  | O => Some (i, sum512)
  | S loop' => r ← avx512_body4 pVect1 pVect2 i sum512; avx512_loop4 loop' pVect1 pVect2 r.1 r.2
  end.
Definition InnerProductSIMD16ExtAVX512 (pVect1 pVect2 : list F) (qty : N) : option F :=
  let qty16 := qty / 16 in
  let pEnd1 := 16 * qty16 in
  let loop := qty16 / 4 in
  r ← avx512_loop4 (N.to_nat loop) pVect1 pVect2 0 (set1 16 azero);
  r' ← simd_while (N.to_nat qty) pEnd1
        (λ i sum, v1 ← loadu 16 pVect1 i; v2 ← loadu 16 pVect2 i;
                  Some (i + 16, vfmadd v1 v2 sum)) r.1 r.2;
  Some (reduce_add512 r'.2).
Definition InnerProductDistanceSIMD16ExtAVX512 (pVect1v pVect2v : list F) (qty : N) : option F :=
  one_minus (InnerProductSIMD16ExtAVX512 pVect1v pVect2v qty).

Definition InnerProductSIMD16ExtAVX (pVect1 pVect2 : list F) (qty : N) : option F :=
  let qty16 := qty / 16 in
  let pEnd1 := 16 * qty16 in
  r ← simd_while (N.to_nat qty) pEnd1
        (λ i sum, sum1 ← ip_step 8 pVect1 pVect2 i sum;
                  sum2 ← ip_step 8 pVect1 pVect2 (i + 8) sum1;
                  Some (i + 8 + 8, sum2))
        0 (set1 8 azero);
  Some (hsum r.2).
Definition InnerProductDistanceSIMD16ExtAVX (pVect1v pVect2v : list F) (qty : N) : option F :=
  one_minus (InnerProductSIMD16ExtAVX pVect1v pVect2v qty).

Definition InnerProductSIMD16ExtSSE (pVect1 pVect2 : list F) (qty : N) : option F :=
  let qty16 := qty / 16 in
  let pEnd1 := 16 * qty16 in
  r ← simd_while (N.to_nat qty) pEnd1 (sse_body16 pVect1 pVect2) 0 (set1 4 azero);
  Some (hsum r.2).
Definition InnerProductDistanceSIMD16ExtSSE (pVect1v pVect2v : list F) (qty : N) : option F :=
  one_minus (InnerProductSIMD16ExtSSE pVect1v pVect2v qty).

(** The residual variants call what the static pointers hold. *)
Definition InnerProductDistanceSIMD16ExtResiduals
    (InnerProductSIMD16Ext : list F → list F → N → option F)
    (pVect1v pVect2v : list F) (qty : N) : option F :=
  let qty16 := N.shiftl (N.shiftr qty 4) 4 in
  res ← InnerProductSIMD16Ext pVect1v pVect2v qty16;
  let pVect1 := drop (N.to_nat qty16) pVect1v in
  let pVect2 := drop (N.to_nat qty16) pVect2v in
  let qty_left := qty - qty16 in
  res_tail ← InnerProduct pVect1 pVect2 qty_left;
  Some (asub aone (aadd res res_tail)).
Definition InnerProductDistanceSIMD4ExtResiduals
    (InnerProductSIMD4Ext : list F → list F → N → option F)
    (pVect1v pVect2v : list F) (qty : N) : option F :=
  let qty4 := N.shiftl (N.shiftr qty 2) 2 in
  res ← InnerProductSIMD4Ext pVect1v pVect2v qty4;
  let qty_left := qty - qty4 in
  let pVect1 := drop (N.to_nat qty4) pVect1v in
  let pVect2 := drop (N.to_nat qty4) pVect2v in
  res_tail ← InnerProduct pVect1 pVect2 qty_left;
  Some (asub aone (aadd res res_tail)).

(** ** The space: the four static pointers, then the choice by dimension *)
Record IPPointers := mkIP {
  IP16 : list F → list F → N → option F;
  IP4 : list F → list F → N → option F;
  IPD16 : list F → list F → N → option F;
  IPD4 : list F → list F → N → option F
}.
Definition ip_pointers (b : Build) : IPPointers :=
  let p0 := {| IP16 := InnerProductSIMD16ExtSSE; IP4 := InnerProductSIMD4ExtSSE;
               IPD16 := InnerProductDistanceSIMD16ExtSSE;
               IPD4 := InnerProductDistanceSIMD4ExtSSE |} in
  let p1 :=
    if USE_AVX512 b && avx512_capable b then
      {| IP16 := InnerProductSIMD16ExtAVX512; IP4 := IP4 p0;
         IPD16 := InnerProductDistanceSIMD16ExtAVX512; IPD4 := IPD4 p0 |}
    else if (USE_AVX512 b || USE_AVX b) && avx_capable b then
      {| IP16 := InnerProductSIMD16ExtAVX; IP4 := IP4 p0;
         IPD16 := InnerProductDistanceSIMD16ExtAVX; IPD4 := IPD4 p0 |}
    else p0 in
  if USE_AVX b && avx_capable b then
    {| IP16 := IP16 p1; IP4 := InnerProductSIMD4ExtAVX;
       IPD16 := IPD16 p1; IPD4 := InnerProductDistanceSIMD4ExtAVX |}
  else p1.

Definition ip_dist_func (b : Build) (dim : N) : list F → list F → N → option F :=
  let p := ip_pointers b in
  if USE_AVX b || USE_SSE b || USE_AVX512 b then
    if dim mod 16 =? 0 then IPD16 p
    else if dim mod 4 =? 0 then IPD4 p
    else if 16 <? dim then InnerProductDistanceSIMD16ExtResiduals (IP16 p)
    else if 4 <? dim then InnerProductDistanceSIMD4ExtResiduals (IP4 p)
    else InnerProductDistance
  else InnerProductDistance.

Definition InnerProductSpace (b : Build) (dim : N) : Space F F :=
  {| get_data_size := dim * 4; get_dist_func := ip_dist_func b dim;
     get_dist_func_param := dim |}.
End kernels.

(** ** The kernels compute the inner product *)
Section exact.
Context {F : Type} `{ExactArith F}.

Definition ip_sum (v1 v2 : list F) (n : N) : F := tsum amul v1 v2 0 n.

Lemma ip_step_terms w (p1 p2 : list F) i acc :
  readable p1 p2 (i + N.of_nat w) →
  ip_step w p1 p2 i acc = Some (vadd acc (terms amul p1 p2 i (N.of_nat w))).
Proof.
  intros [H1 H2]. unfold ip_step. rewrite !loadu_ok by lia. simpl.
  unfold terms. by rewrite Nat2N.id.
Qed.

Lemma InnerProduct_loop_sum n i (p1 p2 : list F) acc :
  readable p1 p2 (i + N.of_nat n) →
  InnerProduct_loop n i p1 p2 acc = Some (foldl aadd acc (terms amul p1 p2 i (N.of_nat n))).
Proof.
  revert i acc. induction n as [|n IH]; intros i acc [H1 H2].
  { unfold terms. by rewrite !take_0. }
  simpl. destruct (lookup_lt_is_Some_2 p1 (N.to_nat i)) as [x Hx]; [lia|].
  destruct (lookup_lt_is_Some_2 p2 (N.to_nat i)) as [y Hy]; [lia|].
  rewrite Hx, Hy. simpl. rewrite IH by (split; lia). f_equal.
  unfold terms. rewrite !Nat2N.id. rewrite (drop_S p1 x _ Hx), (drop_S p2 y _ Hy).
  replace (N.to_nat (N.pos (Pos.of_succ_nat n))) with (S n) by lia.
  by replace (N.to_nat (i + 1)) with (S (N.to_nat i)) by lia.
Qed.
Lemma InnerProduct_sum (p1 p2 : list F) n :
  readable p1 p2 n → InnerProduct p1 p2 n = Some (ip_sum p1 p2 n).
Proof.
  intros Hr. unfold InnerProduct. rewrite InnerProduct_loop_sum.
  - rewrite foldl_aadd, aadd_0_l, N2Nat.id. done.
  - by rewrite N2Nat.id.
Qed.

Lemma body_ip_1 w (p1 p2 : list F) e :
  readable p1 p2 e →
  body_spec amul p1 p2 w (N.of_nat w) e
    (λ i acc, a1 ← ip_step w p1 p2 i acc; Some (i + N.of_nat w, a1)).
Proof.
  intros Hr j acc Hj Hl.
  assert (readable p1 p2 (j + N.of_nat w)) as Hr1 by (eapply readable_le; [done|lia]).
  rewrite ip_step_terms by done. simpl. eexists. split; [done|]. by apply lane_step.
Qed.

Lemma body_sse16 (p1 p2 : list F) e :
  readable p1 p2 e → body_spec amul p1 p2 4 16 e (sse_body16 p1 p2).
Proof.
  intros He. eapply (body_app _ _ _ 4 8 8); [done| | |].
  1,2: eapply (body_app _ _ _ 4 4 4); [done|by apply (body_ip_1 4)|by apply (body_ip_1 4)|];
       intros i acc; reflexivity.
  intros i acc. cbv beta. unfold sse_body16. change (N.of_nat 4) with 4.
  destruct (ip_step 4 p1 p2 i acc) as [a1|]; simpl; [|done].
  destruct (ip_step 4 p1 p2 (i + 4) a1) as [a2|]; simpl; [|done].
  by destruct (ip_step 4 p1 p2 (i + 4 + 4) a2).
Qed.

Lemma body_avx16 (p1 p2 : list F) e :
  readable p1 p2 e →
  body_spec amul p1 p2 8 16 e
    (λ i sum, sum1 ← ip_step 8 p1 p2 i sum; sum2 ← ip_step 8 p1 p2 (i + 8) sum1;
              Some (i + 8 + 8, sum2)).
Proof.
  intros He.
  eapply (body_app _ _ _ 8 8 8); [done|by apply (body_ip_1 8)|by apply (body_ip_1 8)|].
  intros i acc. simpl. by destruct (ip_step 8 p1 p2 i acc).
Qed.

(** A load of both operands and a fused multiply-add. *)
Lemma vfmadd_step (p1 p2 : list F) i acc :
  readable p1 p2 (i + 16) → length acc = 16%nat →
  ∃ v1 v2, loadu 16 p1 i = Some v1 ∧ loadu 16 p2 i = Some v2 ∧
    length (vfmadd v1 v2 acc) = 16%nat ∧
    asum (vfmadd v1 v2 acc) = aadd (asum acc) (tsum amul p1 p2 i 16).
Proof.
  intros Hr Hl. pose proof Hr as [H1 H2]. eexists _, _.
  rewrite !loadu_ok by lia. split_and!; [done..| |].
  all: rewrite vfmadd_exact by (rewrite !length_take, !length_drop; lia).
  all: change (vmul _ _) with (terms amul p1 p2 i 16).
  all: pose proof (length_terms amul _ _ _ _ Hr); unfold vadd.
  - rewrite length_zip_with. lia.
  - rewrite asum_zip_add by lia. apply aadd_comm.
Qed.

Lemma body_fma (p1 p2 : list F) e :
  readable p1 p2 e →
  body_spec amul p1 p2 16 16 e
    (λ i sum, v1 ← loadu 16 p1 i; v2 ← loadu 16 p2 i; Some (i + 16, vfmadd v1 v2 sum)).
Proof.
  intros Hr j acc Hj Hl.
  destruct (vfmadd_step p1 p2 j acc) as (v1 & v2 & -> & -> & Hl' & Hs);
    [eapply readable_le; [done|lia]|done|]. simpl. eauto.
Qed.

Lemma body_avx512_4 (p1 p2 : list F) e :
  readable p1 p2 e → body_spec amul p1 p2 16 64 e (avx512_body4 p1 p2).
Proof.
  intros He. eapply (body_app _ _ _ 16 32 32); [done| | |].
  1,2: eapply (body_app _ _ _ 16 16 16); [done|by apply body_fma|by apply body_fma|];
       intros i acc; reflexivity.
  intros i acc. cbv beta. unfold avx512_body4.
  destruct (loadu 16 p1 i), (loadu 16 p2 i); simpl; try done.
  destruct (loadu 16 p1 (i + 16)), (loadu 16 p2 (i + 16)); simpl; try done.
  destruct (loadu 16 p1 (i + 16 + 16)), (loadu 16 p2 (i + 16 + 16)); simpl; try done.
Qed.

Lemma avx512_loop4_sum n (p1 p2 : list F) i acc :
  readable p1 p2 (i + 64 * N.of_nat n) → length acc = 16%nat →
  ∃ acc', avx512_loop4 n p1 p2 i acc = Some (i + 64 * N.of_nat n, acc') ∧
          length acc' = 16%nat ∧
          asum acc' = aadd (asum acc) (tsum amul p1 p2 i (64 * N.of_nat n)).
Proof.
  revert i acc. induction n as [|n IH]; intros i acc Hr Hl.
  { exists acc. rewrite N.mul_0_r, N.add_0_r, tsum_0, aadd_0_r. done. }
  cbn [avx512_loop4].
  destruct (body_avx512_4 p1 p2 (i + 64 * N.of_nat (S n)) Hr i acc)
    as (a1 & -> & Hl1 & Hs1); [lia|done|]. simpl.
  destruct (IH (i + 64) a1) as (a2 & -> & Hl2 & Hs2); [eapply readable_le; [done|lia]|done|].
  exists a2. split_and!; [do 2 f_equal; lia|done|].
  rewrite Hs2, Hs1, <- aadd_assoc, <- tsum_split by (eapply readable_le; [done|lia]).
  do 2 f_equal. lia.
Qed.

(** Blocks of 16 with one loop. *)
Lemma block16_sum w (p1 p2 : list F) qty body :
  readable p1 p2 qty → (∀ e, readable p1 p2 e → body_spec amul p1 p2 w 16 e body) →
  (r ← simd_while (N.to_nat qty) (16 * (qty / 16)) body 0 (set1 w azero);
   Some (hsum r.2)) = Some (ip_sum p1 p2 (floor_block 4 qty)).
Proof.
  intros Hr Hb. destruct (floor_block_spec 4 qty) as [Heq Hle].
  etransitivity; [|exact (floor_kernel amul p1 p2 4 w qty body Hr Hb)].
  change (2 ^ 4) with 16 in Heq. unfold floor_block in Heq.
  by replace (16 * (qty / 16)) with (N.shiftl (N.shiftr qty 4) 4) by lia.
Qed.

Lemma floor_block_2_4 q : floor_block 4 q ≤ floor_block 2 q ∧
  floor_block 2 q = floor_block 4 q + (floor_block 2 q - floor_block 4 q) / 4 * 4.
Proof.
  destruct (floor_block_spec 4 q) as [-> _], (floor_block_spec 2 q) as [-> _].
  change (2 ^ 4) with 16. change (2 ^ 2) with 4.
  assert (q / 16 * 16 ≤ q / 4 * 4) as Hle.
  { replace (q / 16) with (q / 4 / 4) by (rewrite N.Div0.div_div; done).
    pose proof (N.Div0.mul_div_le (q / 4) 4). lia. }
  split; [done|].
  replace (q / 4 * 4 - q / 16 * 16) with ((q / 4 - q / 16 * 4) * 4) by lia.
  rewrite N.div_mul by done. lia.
Qed.

(** The loop over the remaining blocks of 4, from where the first loop ended. *)
Lemma rest4_sum (p1 p2 : list F) qty acc :
  readable p1 p2 qty → length acc = 4%nat →
  ∃ acc', simd_while (N.to_nat qty) (4 * (qty / 4))
            (λ i sum, sum1 ← ip_step 4 p1 p2 i sum; Some (i + 4, sum1))
            (floor_block 4 qty) acc = Some (floor_block 2 qty, acc') ∧
    asum acc' = aadd (asum acc)
                  (tsum amul p1 p2 (floor_block 4 qty) (floor_block 2 qty - floor_block 4 qty)).
Proof.
  intros Hr Hl. destruct (floor_block_2_4 qty) as [Hle Heq].
  destruct (floor_block_spec 2 qty) as [H2 H2'].
  replace (4 * (qty / 4)) with (floor_block 2 qty) by (rewrite H2; change (2 ^ 2) with 4; lia).
  destruct (simd_while_sum amul p1 p2 4 4 (floor_block 2 qty)
    (λ i sum, sum1 ← ip_step 4 p1 p2 i sum; Some (i + 4, sum1)) (N.to_nat qty)
    ((floor_block 2 qty - floor_block 4 qty) / 4) (floor_block 4 qty) acc)
    as (acc' & Hw & Hl' & Hs); [done| | |done| |done|].
  - apply (body_ip_1 4). by eapply readable_le.
  - by eapply readable_le.
  - assert ((floor_block 2 qty - floor_block 4 qty) / 4 ≤ qty); [|lia].
    pose proof (div_le_self (floor_block 2 qty - floor_block 4 qty) 2) as Hd.
    change (2 ^ 2) with 4 in Hd. lia.
  - exists acc'. split; [done|]. rewrite Hs. do 2 f_equal. lia.
Qed.

Lemma first16_sum w (p1 p2 : list F) qty body :
  readable p1 p2 qty → (∀ e, readable p1 p2 e → body_spec amul p1 p2 w 16 e body) →
  ∃ acc, simd_while (N.to_nat qty) (16 * (qty / 16)) body 0 (set1 w azero)
           = Some (floor_block 4 qty, acc) ∧ length acc = w ∧
         asum acc = ip_sum p1 p2 (floor_block 4 qty).
Proof.
  intros Hr Hb. destruct (floor_block_spec 4 qty) as [Heq Hle].
  change (2 ^ 4) with 16 in Heq.
  destruct (simd_while_sum amul p1 p2 w 16 (floor_block 4 qty) body (N.to_nat qty)
     (qty / 16) 0 (set1 w azero)) as (acc & Hw & Hl & Hs); [done| | |lia| | |].
  - apply Hb. by eapply readable_le.
  - by eapply readable_le.
  - pose proof (div_le_self qty 4) as Hd. change (2 ^ 4) with 16 in Hd. lia.
  - by rewrite length_replicate.
  - exists acc. replace (16 * (qty / 16)) with (floor_block 4 qty) by lia.
    split_and!; [done|done|]. rewrite Hs. unfold set1.
    by rewrite asum_replicate_0, aadd_0_l, Heq.
Qed.

Lemma InnerProductSIMD4ExtSSE_sum (p1 p2 : list F) qty :
  readable p1 p2 qty →
  InnerProductSIMD4ExtSSE p1 p2 qty = Some (ip_sum p1 p2 (floor_block 2 qty)).
Proof.
  intros Hr. unfold InnerProductSIMD4ExtSSE.
  destruct (first16_sum 4 p1 p2 qty (sse_body16 p1 p2) Hr) as (acc & -> & Hl & Hs).
  { intros. by apply body_sse16. }
  simpl. destruct (rest4_sum p1 p2 qty acc Hr Hl) as (acc' & -> & Hs'). simpl.
  destruct (floor_block_2_4 qty) as [Hle _], (floor_block_spec 2 qty) as [_ Hle2].
  rewrite hsum_asum, Hs', Hs. unfold ip_sum.
  rewrite <- (tsum_split amul p1 p2 0) by (eapply readable_le; [done|lia]).
  do 2 f_equal. lia.
Qed.

Lemma InnerProductSIMD4ExtAVX_sum (p1 p2 : list F) qty :
  readable p1 p2 qty →
  InnerProductSIMD4ExtAVX p1 p2 qty = Some (ip_sum p1 p2 (floor_block 2 qty)).
Proof.
  intros Hr. unfold InnerProductSIMD4ExtAVX.
  destruct (first16_sum 8 p1 p2 qty _ Hr (body_avx16 p1 p2)) as (acc & -> & Hl & Hs). simpl.
  assert (length (vadd (take 4 acc) (drop 4 acc)) = 4%nat ∧
          asum (vadd (take 4 acc) (drop 4 acc)) = asum acc) as [Hl4 Hs4].
  { unfold vadd. rewrite length_zip_with, length_take, length_drop. split; [lia|].
    rewrite asum_zip_add by (rewrite length_take, length_drop; lia).
    by rewrite <- asum_app, take_drop. }
  destruct (rest4_sum p1 p2 qty _ Hr Hl4) as (acc' & -> & Hs'). simpl.
  destruct (floor_block_2_4 qty) as [Hle _], (floor_block_spec 2 qty) as [_ Hle2].
  rewrite hsum_asum, Hs', Hs4, Hs. unfold ip_sum.
  rewrite <- (tsum_split amul p1 p2 0) by (eapply readable_le; [done|lia]).
  do 2 f_equal. lia.
Qed.

Lemma InnerProductSIMD16ExtAVX512_sum (p1 p2 : list F) qty :
  readable p1 p2 qty →
  InnerProductSIMD16ExtAVX512 p1 p2 qty = Some (ip_sum p1 p2 (floor_block 4 qty)).
Proof.
  intros Hr. unfold InnerProductSIMD16ExtAVX512.
  destruct (floor_block_spec 4 qty) as [Heq Hle]. change (2 ^ 4) with 16 in Heq.
  pose proof (N.Div0.mul_div_le (qty / 16) 4) as Hd4.
  destruct (avx512_loop4_sum (N.to_nat (qty / 16 / 4)) p1 p2 0 (set1 16 azero))
    as (acc & -> & Hl & Hs); [eapply readable_le; [done|lia]|by rewrite length_replicate|].
  rewrite N2Nat.id, N.add_0_l in *. simpl.
  destruct (simd_while_sum amul p1 p2 16 16 (16 * (qty / 16)) _ (N.to_nat qty)
     (qty / 16 - 4 * (qty / 16 / 4)) (64 * (qty / 16 / 4)) acc
     eq_refl (body_fma p1 p2 _ (readable_le p1 p2 (16 * (qty / 16)) qty Hr ltac:(lia))))
    as (acc' & -> & Hl' & Hs'); [eapply readable_le; [done|lia]|lia| |done|].
  { pose proof (div_le_self qty 4) as Hd. change (2 ^ 4) with 16 in Hd.
    assert (∀ x y z : N, x ≤ z → (N.to_nat (x - y) ≤ N.to_nat z)%nat) as Hx by lia.
    by apply Hx. }
  simpl. rewrite reduce_add512_sum, Hs', Hs by done. unfold set1, ip_sum.
  rewrite asum_replicate_0, aadd_0_l.
  rewrite <- (tsum_split amul p1 p2 0) by (eapply readable_le; [done|lia]).
  do 2 f_equal. lia.
Qed.

Lemma ip_pointers_sum b (p1 p2 : list F) qty :
  readable p1 p2 qty →
  IP16 (ip_pointers b) p1 p2 qty = Some (ip_sum p1 p2 (floor_block 4 qty)) ∧
  IP4 (ip_pointers b) p1 p2 qty = Some (ip_sum p1 p2 (floor_block 2 qty)) ∧
  IPD16 (ip_pointers b) p1 p2 qty = one_minus (IP16 (ip_pointers b) p1 p2 qty) ∧
  IPD4 (ip_pointers b) p1 p2 qty = one_minus (IP4 (ip_pointers b) p1 p2 qty).
Proof.
  intros Hr. pose proof (InnerProductSIMD16ExtAVX512_sum p1 p2 qty Hr).
  pose proof (InnerProductSIMD4ExtSSE_sum p1 p2 qty Hr).
  pose proof (InnerProductSIMD4ExtAVX_sum p1 p2 qty Hr).
  assert (InnerProductSIMD16ExtAVX p1 p2 qty = Some (ip_sum p1 p2 (floor_block 4 qty))).
  { apply block16_sum; [done|]. apply body_avx16. }
  assert (InnerProductSIMD16ExtSSE p1 p2 qty = Some (ip_sum p1 p2 (floor_block 4 qty))).
  { apply block16_sum; [done|]. apply body_sse16. }
  unfold ip_pointers. repeat case_match; simpl; done.
Qed.

Lemma ip_sum_tail (p1 p2 : list F) n m :
  readable p1 p2 (n + m) →
  ip_sum p1 p2 (n + m) =
    aadd (ip_sum p1 p2 n) (ip_sum (drop (N.to_nat n) p1) (drop (N.to_nat n) p2) m).
Proof. intros Hr. unfold ip_sum. by rewrite tsum_split by done. Qed.

Lemma ip_residual b (k : list F → list F → N → option F) (p1 p2 : list F) qty :
  (∀ q, readable p1 p2 q → k p1 p2 q = Some (ip_sum p1 p2 (floor_block b q))) →
  readable p1 p2 qty →
  (res ← k p1 p2 (floor_block b qty);
   res_tail ← InnerProduct (drop (N.to_nat (floor_block b qty)) p1)
                    (drop (N.to_nat (floor_block b qty)) p2) (qty - floor_block b qty);
   Some (asub aone (aadd res res_tail))) = Some (asub aone (ip_sum p1 p2 qty)).
Proof.
  intros Hk Hr. destruct (floor_block_spec b qty) as [_ Hle].
  rewrite Hk by (eapply readable_le; done). simpl.
  rewrite InnerProduct_sum by (destruct Hr; split; rewrite length_drop; lia). simpl.
  rewrite floor_block_idem, <- ip_sum_tail.
  - do 3 f_equal. lia.
  - eapply readable_le; [done|lia].
Qed.
End exact.

