(* ===== verification/Bruteforce.v ===== *)
(** * bruteforce.h: exhaustive search

    [BruteforceSearch] keeps [cur_element_count] slots (vector, label) in one
    array and a dictionary from labels to slots.  The state is the record
    [bf]; an absent slot is memory that was allocated and never written.
    Locks are taken around whole critical sections, so each operation is one
    state transformer. *)

From Stdlib Require Import Lia.
From stdpp Require Import base numbers list gmap strings sorting.
From S2P Require Import Prelude Heap Arith.
#[local] Open Scope N_scope.

Record bf := mkBF {
  data_ : gmap N (point * labeltype);
  maxelements_ : N;
  cur_element_count : N;
  size_per_element_ : N;
  data_size_ : N;
  dict_external_to_internal : gmap labeltype N
}.

Definition BruteforceSearch_new (space_data_size maxElements : N) : bf :=
  {| data_ := ∅; maxelements_ := maxElements; cur_element_count := 0;
     size_per_element_ := space_data_size + 8; data_size_ := space_data_size;
     dict_external_to_internal := ∅ |}.

(** Write both parts of a slot of the array. *)
Definition set_slot (idx : N) (x : point * labeltype) (s : bf) : bf :=
  {| data_ := <[idx := x]> (data_ s); maxelements_ := maxelements_ s;
     cur_element_count := cur_element_count s; size_per_element_ := size_per_element_ s;
     data_size_ := data_size_ s; dict_external_to_internal := dict_external_to_internal s |}.
Definition set_dict (d : gmap labeltype N) (n : N) (s : bf) : bf :=
  {| data_ := data_ s; maxelements_ := maxelements_ s; cur_element_count := n;
     size_per_element_ := size_per_element_ s; data_size_ := data_size_ s;
     dict_external_to_internal := d |}.

Definition read_slot (s : bf) (i : N) : res (point * labeltype) :=
  if i <? maxelements_ s then of_opt "slot never written" (data_ s !! i)
  else Undef "slot outside the array".

Definition bf_addPoint (datapoint : point) (label : labeltype) : eff bf unit := λ s,
  let write (idx : N) (s : bf) : bf * res unit :=
    if idx <? maxelements_ s then
      match copy_point (data_size_ s) datapoint with
      | Ok p => (set_slot idx (p, label) s, Ok tt)
      | Throw e => (s, Throw e) | Undef u => (s, Undef u) | Fuel => (s, Fuel)
      end
    else (s, Undef "slot outside the array") in
  match dict_external_to_internal s !! label with
  | Some idx => write idx s
  | None =>
      if maxelements_ s <=? cur_element_count s
      then (s, Throw "The number of elements exceeds the specified limit
")
      else
        let idx := cur_element_count s in
        write idx (set_dict (<[label := idx]> (dict_external_to_internal s)) (idx + 1) s)
  end.

(** [removePoint] reads [found->second] after [erase(found)]: the node is
    already freed.  [freed v] is what that read gives when the node held [v]. *)
Definition bf_removePoint (freed : N → N) (cur_external : labeltype) : eff bf unit := λ s,
  match dict_external_to_internal s !! cur_external with
  | None => (s, Ok tt)
  | Some second =>
      let d := delete cur_external (dict_external_to_internal s) in
      let cur_c := freed second in
      let last := cur_element_count s - 1 in
      match read_slot s last with
      | Ok (p, label) =>
          if cur_c <? maxelements_ s then
            (set_slot cur_c (p, label) (set_dict (<[label := cur_c]> d) last s), Ok tt)
          else (s, Undef "slot outside the array")
      | Throw e => (s, Throw e) | Undef u => (s, Undef u) | Fuel => (s, Fuel)
      end
  end.

Section search.
Context `{HI : HeapImpl} {D : Type} `{HD : DistT D}.
Variable fstdistfunc_ : point → point → D.

(** [std::priority_queue<std::pair<dist_t, labeltype>>] *)
Definition res_lt : D * labeltype → D * labeltype → bool := lt_pair dlt N.ltb.

Definition allowed (isIdAllowed : option (labeltype → bool)) (label : labeltype) : bool :=
  match isIdAllowed with None => true | Some f => f label end.

(** The first loop of [searchKnn], over the slots [i, i+1, ..., i+n-1]. *)
Fixpoint knn_first (s : bf) (query : point) (flt : option (labeltype → bool))
    (n : nat) (i : N) (topResults : list (D * labeltype)) : res (list (D * labeltype)) :=
  match n with
  | O => Ok topResults
  | S n' =>
      x <- read_slot s i ;;
      let dist := fstdistfunc_ query x.1 in
      let label := x.2 in
      knn_first s query flt n' (i + 1)
        (if allowed flt label then pq_push res_lt topResults (dist, label) else topResults)
  end.

(** The second loop; [lastdist] is the largest distance kept. *)
Fixpoint knn_rest (s : bf) (query : point) (k : N) (flt : option (labeltype → bool))
    (n : nat) (i : N) (topResults : list (D * labeltype)) (lastdist : D)
    : res (list (D * labeltype)) :=
  match n with
  | O => Ok topResults
  | S n' =>
      x <- read_slot s i ;;
      let dist := fstdistfunc_ query x.1 in
      if negb (dlt lastdist dist) then   (* dist <= lastdist *)
        let label := x.2 in
        let t1 := if allowed flt label then pq_push res_lt topResults (dist, label)
                  else topResults in
        let t2 := if k <? pq_size t1 then pq_pop res_lt t1 else t1 in
        let lastdist' := match pq_top t2 with Some t => t.1 | None => lastdist end in
        knn_rest s query k flt n' (i + 1) t2 lastdist'
      else knn_rest s query k flt n' (i + 1) topResults lastdist
  end.

Definition bf_searchKnn (s : bf) (query_data : point) (k : N)
    (isIdAllowed : option (labeltype → bool)) : res (list (D * labeltype)) :=
  if cur_element_count s <? k then Undef "assert(k <= cur_element_count)"
  else if cur_element_count s =? 0 then Ok []
  else
    topResults <- knn_first s query_data isIdAllowed (N.to_nat k) 0 [] ;;
    let lastdist := match pq_top topResults with Some t => t.1 | None => dmax end in
    knn_rest s query_data k isIdAllowed (N.to_nat (cur_element_count s - k)) k topResults lastdist.
End search.

(** ** Labels and slots *)
Definition bf_ok (s : bf) : Prop :=
  cur_element_count s ≤ maxelements_ s ∧
  (∀ i, i < cur_element_count s →
     ∃ p l, data_ s !! i = Some (p, l) ∧ dict_external_to_internal s !! l = Some i) ∧
  (∀ l i, dict_external_to_internal s !! l = Some i →
     i < cur_element_count s ∧ ∃ p, data_ s !! i = Some (p, l)).

(** The contents of the index as a map from labels to vectors. *)
Definition bf_lookup (s : bf) (l : labeltype) : option point :=
  i ← dict_external_to_internal s !! l; x ← data_ s !! i; Some x.1.

Lemma bf_new_ok n m : bf_ok (BruteforceSearch_new n m).
Proof. split_and!; simpl; [lia|lia|]. intros l i H. by rewrite lookup_empty in H. Qed.

Lemma bf_add_existing s p label idx :
  bf_ok s → (N.to_nat (data_size_ s) ≤ length p)%nat →
  dict_external_to_internal s !! label = Some idx →
  bf_addPoint p label s = (set_slot idx (take (N.to_nat (data_size_ s)) p, label) s, Ok tt).
Proof.
  intros (H1 & _ & H3) Hp Hd. unfold bf_addPoint. rewrite Hd.
  destruct (H3 _ _ Hd) as [Hi _]. decide_cmp.
  by rewrite copy_point_ok by done.
Qed.
Lemma bf_add_new s p label :
  bf_ok s → (N.to_nat (data_size_ s) ≤ length p)%nat →
  dict_external_to_internal s !! label = None → cur_element_count s < maxelements_ s →
  bf_addPoint p label s =
    (set_slot (cur_element_count s) (take (N.to_nat (data_size_ s)) p, label)
       (set_dict (<[label := cur_element_count s]> (dict_external_to_internal s))
          (cur_element_count s + 1) s), Ok tt).
Proof.
  intros _ Hp Hd Hc. unfold bf_addPoint. rewrite Hd.
  rewrite (proj2 (N.leb_gt _ _)) by done. simpl. rewrite (proj2 (N.ltb_lt _ _)) by done.
  by rewrite copy_point_ok by done.
Qed.

Lemma set_slot_ok s idx p l :
  bf_ok s → dict_external_to_internal s !! l = Some idx → bf_ok (set_slot idx (p, l) s).
Proof.
  intros (H1 & H2 & H3) Hd. split_and!; simpl; [done| |].
  - intros i Hi. destruct (decide (idx = i)) as [->|Hne].
    + rewrite lookup_insert_eq. eauto.
    + rewrite lookup_insert_ne by done. by apply H2.
  - intros l' i Hl. destruct (H3 _ _ Hl) as [Hi [p' Hp]]. split; [done|].
    destruct (decide (idx = i)) as [->|Hne].
    + rewrite lookup_insert_eq.
      destruct (H3 _ _ Hd) as [_ [p'' Hp']]. rewrite Hp in Hp'. simplify_eq. eauto.
    + rewrite lookup_insert_ne by done. eauto.
Qed.

Lemma set_new_ok s p l :
  bf_ok s → dict_external_to_internal s !! l = None → cur_element_count s < maxelements_ s →
  bf_ok (set_slot (cur_element_count s) (p, l)
     (set_dict (<[l := cur_element_count s]> (dict_external_to_internal s))
        (cur_element_count s + 1) s)).
Proof.
  intros (H1 & H2 & H3) Hd Hc. split_and!; simpl; [lia| |].
  - intros i Hi. destruct (decide (cur_element_count s = i)) as [<-|Hne].
    + exists p, l. by rewrite !lookup_insert_eq.
    + destruct (H2 i) as (p' & l' & Hp & Hl); [lia|]. exists p', l'.
      rewrite !lookup_insert_ne by (done || congruence). done.
  - intros l' i. rewrite lookup_insert_Some. intros [[<- <-]|[Hne Hl]].
    + rewrite lookup_insert_eq. split; [lia|eauto].
    + destruct (H3 _ _ Hl) as [Hi [p' Hp]]. rewrite lookup_insert_ne by lia. split; [lia|eauto].
Qed.

Lemma bf_addPoint_spec (s : bf) (p : point) (label : labeltype) :
  bf_ok s → (N.to_nat (data_size_ s) ≤ length p)%nat →
  let '(s', r) := bf_addPoint p label s in
  match r with
  | Ok _ => bf_ok s' ∧
      bf_lookup s' label = Some (take (N.to_nat (data_size_ s)) p) ∧
      (∀ l, l ≠ label → bf_lookup s' l = bf_lookup s l) ∧
      cur_element_count s' =
        match dict_external_to_internal s !! label with
        | Some _ => cur_element_count s
        | None => cur_element_count s + 1
        end
  | Throw _ => s' = s ∧ dict_external_to_internal s !! label = None ∧
      cur_element_count s = maxelements_ s
  | _ => False
  end.
Proof.
  intros Hok Hp. pose proof Hok as (H1 & H2 & H3).
  destruct (dict_external_to_internal s !! label) as [idx|] eqn:Hd.
  - rewrite (bf_add_existing s p label idx) by done.
    split_and!; [by apply set_slot_ok| | |done].
    + unfold bf_lookup. simpl. rewrite Hd. simpl. by rewrite lookup_insert_eq.
    + intros l Hl. unfold bf_lookup. simpl.
      destruct (dict_external_to_internal s !! l) as [i|] eqn:E; [|done]. simpl.
      rewrite lookup_insert_ne; [done|]. intros <-.
      destruct (H3 _ _ E) as [_ [? ?]], (H3 _ _ Hd) as [_ [? ?]]. congruence.
  - destruct (decide (cur_element_count s < maxelements_ s)) as [Hc|Hc].
    + rewrite (bf_add_new s p label) by done.
      split_and!; [by apply set_new_ok| | |done].
      * unfold bf_lookup. simpl. by rewrite lookup_insert_eq; simpl; rewrite lookup_insert_eq.
      * intros l Hl. unfold bf_lookup. simpl. rewrite lookup_insert_ne by done.
        destruct (dict_external_to_internal s !! l) as [i|] eqn:E; [|done]. simpl.
        rewrite lookup_insert_ne; [done|]. destruct (H3 _ _ E) as [? _]. lia.
    + unfold bf_addPoint. rewrite Hd, (proj2 (N.leb_le _ _)) by lia.
      split_and!; [done|done|lia].
Qed.
Lemma bf_addPoint_sizes (s : bf) (p : point) (label : labeltype) :
  maxelements_ (bf_addPoint p label s).1 = maxelements_ s ∧ data_size_ (bf_addPoint p label s).1 = data_size_ s.
Proof. unfold bf_addPoint. repeat (case_match; simpl); done. Qed.
Lemma bf_addPoint_runs (s : bf) (p : point) (label : labeltype) :
  bf_ok s → (N.to_nat (data_size_ s) ≤ length p)%nat → cur_element_count s < maxelements_ s →
  ∃ s', bf_addPoint p label s = (s', Ok tt) ∧ bf_ok s' ∧ maxelements_ s' = maxelements_ s ∧ data_size_ s' = data_size_ s ∧
    cur_element_count s' ≤ cur_element_count s + 1 ∧
    ∀ l, bf_lookup s' l = if decide (l = label) then Some (take (N.to_nat (data_size_ s)) p) else bf_lookup s l.
Proof.
  intros Hok Hp Hc. pose proof (bf_addPoint_spec s p label Hok Hp) as H. pose proof (bf_addPoint_sizes s p label) as [S1 S2].
  destruct (bf_addPoint p label s) as [s' [[]|e|u|]]; simpl in *; [|lia|done|done].
  destruct H as (H1 & H2 & H3 & H4). exists s'. split_and!; [done..| |].
  - rewrite H4. case_match; lia.
  - intros l. destruct (decide (l = label)) as [->|]; auto.
Qed.

(** [addPoint] inserts or overwrites: on an index whose dictionary and
    slots agree it either reports that the index is full, leaving it
    unchanged, or stores the first [data_size_] bytes of the vector under the
    label, changes no other label, and keeps dictionary and slots in
    agreement. *)
Theorem bf_addPoint_correct (s : bf) (p : point) (label : labeltype) :
  bf_ok s → (N.to_nat (data_size_ s) ≤ length p)%nat →
  let '(s', r) := bf_addPoint p label s in
  match r with
  | Ok _ => bf_ok s' ∧
      bf_lookup s' label = Some (take (N.to_nat (data_size_ s)) p) ∧
      (∀ l, l ≠ label → bf_lookup s' l = bf_lookup s l) ∧
      cur_element_count s' =
        match dict_external_to_internal s !! label with
        | Some _ => cur_element_count s
        | None => cur_element_count s + 1
        end
  | Throw _ => s' = s ∧ dict_external_to_internal s !! label = None ∧
      cur_element_count s = maxelements_ s
  | _ => False
  end.
Proof. apply bf_addPoint_spec. Qed.

(** A small index, for the witnesses: vectors of one byte. *)
Definition bf_demo : bf :=
  (bf_addPoint [30] 9 (bf_addPoint [20] 8 (bf_addPoint [10] 7
     (BruteforceSearch_new 1 5)).1).1).1.

Lemma bf_demo_ok : bf_ok bf_demo.
Proof.
  split_and!; [by vm_compute| |].
  - intros i Hi. change (cur_element_count bf_demo) with 3 in Hi.
    assert (i = 0 ∨ i = 1 ∨ i = 2) as [->|[->| ->]] by lia; by eexists _, _.
  - intros l i. change (dict_external_to_internal bf_demo)
      with (<[9 := 2]> (<[8 := 1]> (<[7 := 0]> (∅ : gmap N N)))).
    rewrite !lookup_insert_Some, lookup_empty.
    intros [[<- <-]|[_ [[<- <-]|[_ [[<- <-]|[_ ?]]]]]]; [..|done];
      (split; [by vm_compute|by eexists]).
Defined.

Lemma bf_addPoint_correct_witness :
  bf_lookup (bf_addPoint [25; 1] 8 bf_demo).1 8 = Some [25].
Proof.
  apply (bf_addPoint_correct bf_demo [25; 1] 8); [apply bf_demo_ok|by apply Nat.leb_le].
Defined.

(** Removing a label whose vector is not in the last slot (and as long as
    the freed dictionary node still holds its value) deletes exactly that
    label: the last slot moves into its place and dictionary and slots stay in
    agreement. *)
Theorem bf_removePoint_correct (s : bf) (label : labeltype) (i : N) :
  bf_ok s → dict_external_to_internal s !! label = Some i →
  i ≠ cur_element_count s - 1 →
  let '(s', r) := bf_removePoint id label s in
  r = Ok tt ∧ bf_ok s' ∧ cur_element_count s' = cur_element_count s - 1 ∧
  bf_lookup s' label = None ∧ (∀ l, l ≠ label → bf_lookup s' l = bf_lookup s l).
Proof.
  intros (H1 & H2 & H3) Hd Hi. destruct (H3 _ _ Hd) as [Hic [pi Hpi]].
  destruct (H2 (cur_element_count s - 1)) as (p & l & Hp & Hl); [lia|].
  assert (l ≠ label) as Hne by congruence.
  assert (bf_removePoint id label s =
    (set_slot i (p, l) (set_dict (<[l := i]> (delete label (dict_external_to_internal s)))
       (cur_element_count s - 1) s), Ok tt)) as ->.
  { unfold bf_removePoint, read_slot. rewrite Hd, (proj2 (N.ltb_lt _ _)), Hp by lia.
    simpl. by decide_cmp. }
  assert (∀ l', l' ≠ label → l' ≠ l →
     dict_external_to_internal s !! l' ≠ Some i ∧
     dict_external_to_internal s !! l' ≠ Some (cur_element_count s - 1)) as Huniq.
  { intros l' Hl1 Hl2. split; intros E; destruct (H3 _ _ E) as [_ [? ?]]; congruence. }
  split; [done|]. split; [split; [simpl; lia|split]|split_and!; [done| |]].
  - simpl. intros j Hj. destruct (decide (i = j)) as [<-|Hij].
    + exists p, l. by rewrite !lookup_insert_eq.
    + destruct (H2 j) as (p' & l' & Hp' & Hl'); [lia|]. exists p', l'.
      rewrite lookup_insert_ne by done. split; [done|].
      assert (l' ≠ label ∧ l' ≠ l) as [??] by (split; intros ->; simplify_eq; lia).
      by rewrite lookup_insert_ne, lookup_delete_ne by done.
  - simpl. intros l' j. rewrite lookup_insert_Some, lookup_delete_Some.
    intros [[<- <-]|[Hll [Hlb Hj]]].
    + rewrite lookup_insert_eq. split; [lia|eauto].
    + destruct (H3 _ _ Hj) as [Hjc [p' Hp']].
      destruct (Huniq l') as [Hu1 Hu2]; [done..|].
      assert (j ≠ i ∧ j ≠ cur_element_count s - 1) as [??] by (split; intros ->; done).
      rewrite lookup_insert_ne by done. split; [lia|eauto].
  - unfold bf_lookup. simpl. by rewrite lookup_insert_ne, lookup_delete_eq by done.
  - intros l' Hl'. unfold bf_lookup. simpl. destruct (decide (l = l')) as [<-|Hll].
    + rewrite lookup_insert_eq. simpl. rewrite lookup_insert_eq, Hl. simpl. by rewrite Hp.
    + rewrite lookup_insert_ne, lookup_delete_ne by done.
      destruct (dict_external_to_internal s !! l') as [j|] eqn:E; [|done]. simpl.
      rewrite lookup_insert_ne; [done|]. intros <-. by destruct (Huniq l') as [? _].
Qed.
Lemma bf_removePoint_correct_witness :
  (bf_removePoint id 7 bf_demo).2 = Ok tt ∧ bf_ok (bf_removePoint id 7 bf_demo).1.
Proof.
  split; apply (bf_removePoint_correct bf_demo 7 0); [apply bf_demo_ok|done|done|apply bf_demo_ok|done|done].
Defined.

(** Finding: removing the label that occupies the last slot leaves it in
    the dictionary, pointing to the slot just past the end; adding a vector
    under that label again reports success, but the index does not grow and
    the vector is in no slot a search reads. *)
Theorem bf_removePoint_last_stale (s : bf) (label : labeltype) (p : point) :
  bf_ok s → (N.to_nat (data_size_ s) ≤ length p)%nat →
  dict_external_to_internal s !! label = Some (cur_element_count s - 1) →
  let s1 := (bf_removePoint id label s).1 in
  let '(s2, r2) := bf_addPoint p label s1 in
  (bf_removePoint id label s).2 = Ok tt ∧
  dict_external_to_internal s1 !! label = Some (cur_element_count s1) ∧
  r2 = Ok tt ∧ cur_element_count s2 = cur_element_count s - 1 ∧
  ∀ i, i < cur_element_count s2 → data_ s2 !! i = data_ s !! i.
Proof.
  intros (H1 & H2 & H3) Hp Hd. destruct (H3 _ _ Hd) as [Hi [p' Hp']].
  assert (bf_removePoint id label s =
    (set_slot (cur_element_count s - 1) (p', label)
      (set_dict (<[label := cur_element_count s - 1]> (delete label (dict_external_to_internal s)))
       (cur_element_count s - 1) s), Ok tt)) as ->.
  { unfold bf_removePoint, read_slot. rewrite Hd, (proj2 (N.ltb_lt _ _)), Hp' by lia.
    simpl. by decide_cmp. }
  simpl. unfold bf_addPoint. simpl. rewrite lookup_insert_eq. simpl.
  decide_cmp. rewrite copy_point_ok by done.
  split_and!; [done..|]. simpl. intros i Hlt. by rewrite !lookup_insert_ne by lia.
Qed.
Lemma bf_removePoint_last_stale_witness :
  let s1 := (bf_removePoint id 9 bf_demo).1 in
  dict_external_to_internal s1 !! 9 = Some 2 ∧
  cur_element_count (bf_addPoint [31] 9 s1).1 = 2.
Proof.
  destruct (bf_removePoint_last_stale bf_demo 9 [31] bf_demo_ok
    ltac:(by apply Nat.leb_le) eq_refl) as (_ & H1 & _ & H2 & _). by split.
Defined.

(** ** Search *)
Section search_laws.
Context `{HI : HeapImpl} {D : Type} `{HD : DistT D} `{HO : !DistOrder D}.
Variable dist : point → point → D.

(** Distance and label of the slots [i, ..., i+n-1]: the reference. *)
Fixpoint scan (s : bf) (query : point) (n : nat) (i : N) : list (D * labeltype) :=
  match n with
  | O => []
  | S n' =>
      match data_ s !! i with
      | Some x => (dist query x.1, x.2) :: scan s query n' (i + 1)
      | None => scan s query n' (i + 1)
      end
  end.

Definition slots_written (s : bf) (n : N) : Prop :=
  n ≤ maxelements_ s ∧ ∀ i, i < n → is_Some (data_ s !! i).

Lemma bf_ok_written s : bf_ok s → slots_written s (cur_element_count s).
Proof. intros (H1 & H2 & _). split; [done|]. intros i Hi. destruct (H2 i Hi) as (?&?&->&_). eauto. Qed.

Lemma read_slot_ok s n i :
  slots_written s n → i < n → ∃ x, data_ s !! i = Some x ∧ read_slot s i = Ok x.
Proof.
  intros [Hn Hw] Hi. destruct (Hw i Hi) as [x Hx]. exists x. split; [done|].
  unfold read_slot. by rewrite (proj2 (N.ltb_lt _ _)), Hx by lia.
Qed.

#[local] Instance res_lt_sw : StrictWeak (res_lt (D:=D)).
Proof. unfold res_lt. apply _. Qed.

Lemma knn_first_ok s q m n i t :
  slots_written s m → i + N.of_nat n ≤ m →
  knn_first dist s q None n i t = Ok (pq_push_all res_lt t (scan s q n i)).
Proof.
  intros Hw. revert i t. induction n as [|n IH]; intros i t Hi; [done|].
  destruct (read_slot_ok s m i Hw) as (x & Hx & Hr); [lia|].
  simpl. rewrite Hr, Hx. simpl. apply IH. lia.
Qed.

Lemma far_res_lt (x y : D * labeltype) d :
  dlt d y.1 = false → dlt d x.1 = true → res_lt x y = false.
Proof.
  intros H1 H2. unfold res_lt, lt_pair.
  assert (dlt y.1 x.1 = true) as E by by apply (sw_le_lt_trans dlt y.1 d x.1).
  rewrite E. simpl. rewrite orb_false_r. by apply (sw_asym dlt).
Qed.

(** The second loop keeps the [k] smallest: what it drops is never smaller
    than what it keeps, and bounds of the queue remain bounds. *)
Lemma knn_rest_ok s q m k n i t last :
  slots_written s m → i + N.of_nat n ≤ m →
  is_heap res_lt t → pq_size t = k → (∀ x, pq_top t = Some x → last = x.1) →
  ∃ t' dropped, knn_rest dist s q k None n i t last = Ok t' ∧
    scan s q n i ++ t ≡ₚ t' ++ dropped ∧ is_heap res_lt t' ∧ pq_size t' = k ∧
    (∀ d x, d ∈ dropped → x ∈ t' → res_lt d x = false) ∧
    (∀ z, (∀ x, x ∈ t → res_lt z x = false) → ∀ x, x ∈ t' → res_lt z x = false).
Proof.
  intros Hw. revert i t last. induction n as [|n IH]; intros i t last Hi Hh Hs Hlast.
  { exists t, []. simpl. rewrite (right_id_L [] (++)). split_and!; auto. set_solver. }
  destruct (read_slot_ok s m i Hw) as (x & Hx & Hr); [lia|].
  simpl. rewrite Hr, Hx. simpl. set (e := (dist q x.1, x.2)).
  destruct (dlt last (dist q x.1)) eqn:Hd; simpl.
  - (* too far: skipped *)
    destruct (IH (i + 1) t last) as (t' & dr & -> & Hp & Hh' & Hs' & Hdr & Hb);
      [lia|done|done|done|].
    exists t', (e :: dr). split_and!; [done| |done|done| |done].
    + rewrite Hp. by rewrite Permutation_middle.
    + intros d y. rewrite elem_of_cons. intros [->|Hy]; [|by apply Hdr].
      intros Hy. destruct (pq_top t) as [top|] eqn:Ht.
      * apply (Hb e); [|done]. intros z Hz. apply (far_res_lt e z last); [|done].
        rewrite (Hlast top) by done. destruct (dlt top.1 z.1) eqn:E; [|done].
        pose proof (is_heap_max res_lt t top z Hh Ht Hz) as Hm.
        unfold res_lt, lt_pair in Hm. by rewrite E in Hm.
      * apply pq_top_None in Ht. subst t. rewrite <- Hs in Hs'.
        unfold pq_size in Hs'. destruct t'; simpl in Hs'; [set_solver|lia].
  - (* pushed; one element too many is dropped *)
    rewrite pq_push_size, Hs, (proj2 (N.ltb_lt _ _)) by lia.
    destruct (pq_push_pop res_lt t e Hh) as (w & Hpw & Hw1 & Hw2).
    set (t2 := pq_pop res_lt (pq_push res_lt t e)) in *.
    assert (is_heap res_lt t2) as Hh2.
    { unfold t2. apply pq_pop_heap; [apply _|]. by apply pq_push_heap; [apply _|]. }
    assert (pq_size t2 = k) as Hs2.
    { unfold t2. rewrite pq_pop_size, pq_push_size. lia. }
    destruct (IH (i + 1) t2 (match pq_top t2 with Some t => t.1 | None => last end))
      as (t' & dr & -> & Hp & Hh' & Hs' & Hdr & Hb); [lia|done|done|by intros ? ->|].
    exists t', (w :: dr). split_and!; [done| |done|done| |].
    + trans (scan s q n (i + 1) ++ e :: t); [by rewrite Permutation_middle|].
      rewrite Hpw, <- Permutation_middle, Hp. by rewrite Permutation_middle.
    + intros d y. rewrite elem_of_cons. intros [->|Hy]; [|by apply Hdr].
      by apply Hb.
    + intros z Hz y Hy. apply Hb; [|done].
      destruct (decide (t = [])) as [->|Hne]; [|by apply Hw2].
      intros u Hu. exfalso. unfold pq_size in *. destruct t2; [set_solver|].
      simpl in *. lia.
Qed.

Lemma scan_app s q n m i :
  scan s q (n + m) i = scan s q n i ++ scan s q m (i + N.of_nat n).
Proof.
  revert i. induction n as [|n IH]; intros i; simpl; [by rewrite N.add_0_r|].
  rewrite IH. replace (i + 1 + N.of_nat n) with (i + N.pos (Pos.of_succ_nat n)) by lia.
  by case_match.
Qed.
Lemma length_scan s q m n i :
  slots_written s m → i + N.of_nat n ≤ m → length (scan s q n i) = n.
Proof.
  intros Hw. revert i. induction n as [|n IH]; intros i Hi; [done|].
  destruct (read_slot_ok s m i Hw) as (x & Hx & _); [lia|].
  simpl. rewrite Hx. simpl. by rewrite IH by lia.
Qed.
End search_laws.

Lemma bf_searchKnn_spec `{HI : HeapImpl} {D} `{HD : DistT D} `{HO : !DistOrder D}
    (dist : point → point → D) (s : bf) (query : point) (k : N) :
  bf_ok s → k ≤ cur_element_count s →
  ∃ result rest, bf_searchKnn dist s query k None = Ok result ∧
    scan dist s query (N.to_nat (cur_element_count s)) 0 ≡ₚ result ++ rest ∧
    pq_size result = k ∧ is_heap res_lt result ∧
    ∀ x y, x ∈ rest → y ∈ result → res_lt x y = false.
Proof.
  intros Hok Hk. pose proof (bf_ok_written s Hok) as Hw. unfold bf_searchKnn.
  rewrite (proj2 (N.ltb_ge _ _)) by done. case_match eqn:E.
  { apply N.eqb_eq in E. exists [], []. rewrite E. simpl.
    split_and!; [done|done|unfold pq_size; simpl; lia|apply is_heap_nil|set_solver]. }
  rewrite (knn_first_ok dist s query (cur_element_count s)) by (done || lia). simpl.
  set (t := pq_push_all res_lt [] (scan dist s query (N.to_nat k) 0)).
  assert (t ≡ₚ scan dist s query (N.to_nat k) 0) as Ht.
  { unfold t. rewrite pq_push_all_perm. by rewrite (right_id_L [] (++)). }
  destruct (knn_rest_ok dist s query (cur_element_count s) k
    (N.to_nat (cur_element_count s - k)) k t
    (match pq_top t with Some t => t.1 | None => dmax end))
    as (t' & dr & -> & Hp & Hh & Hs & Hdr & _); [done|lia| | |by intros ? ->|].
  - apply pq_push_all_heap; [apply _|apply is_heap_nil].
  - unfold pq_size. rewrite Ht, (length_scan dist s query (cur_element_count s)) by (done || lia).
    lia.
  - exists t', dr. split_and!; try done. rewrite <- Hp, Ht.
    replace (N.to_nat (cur_element_count s))
      with (N.to_nat k + N.to_nat (cur_element_count s - k))%nat by lia.
    rewrite scan_app, N.add_0_l, N2Nat.id. by rewrite Permutation_app_comm.
Qed.


(** Finding: with a filter the search can miss.  Three vectors at
    distances 1, 11 and 21, of which the first is filtered out, and [k = 2]:
    the first loop keeps only the second vector, its distance becomes the bound,
    and the third one, allowed and needed, is skipped. *)
Theorem bf_searchKnn_filter_misses :
  let dist (a b : point) : Z := Z.abs (Z.of_N (hd 0 a) - Z.of_N (hd 0 b)) in
  let flt := Some (λ l, negb (l =? 7)) in
  bf_searchKnn dist bf_demo [9] 2 flt = Ok [(11%Z, 8)] ∧
  scan dist bf_demo [9] 3 0 = [(1%Z, 7); (11%Z, 8); (21%Z, 9)] ∧
  allowed flt 9 = true.
Proof. by vm_compute. Qed.
