(* ===== verification/BrutePersist.v ===== *)
(** * bruteforce.h: saveIndex and loadIndex

    The file holds three sizes and the whole array, slots that were never
    written included; [raw_bytes] stands for what such memory holds.  The
    dictionary is not saved, and [loadIndex] does not rebuild it. *)

From Stdlib Require Import ZArith Lia.
From stdpp Require Import base numbers list gmap strings.
From S2P Require Import Prelude Heap Binary Arith Bruteforce.
#[local] Open Scope N_scope.

(** What [malloc(n)] returns: null, or [n] bytes of any value. *)
Class RawMemory := {
  malloc_ok : N → bool;
  raw_bytes : N → list N;
  raw_length n : length (raw_bytes n) = N.to_nat n
}.

Section persist.
Context `{RM : RawMemory}.

Definition enc_slot (x : point * labeltype) : list N := x.1 ++ le 8 x.2.
Definition slot_bytes (s : bf) (i : N) : list N :=
  match data_ s !! i with
  | Some x => enc_slot x
  | None => raw_bytes (size_per_element_ s)
  end.
Fixpoint array_bytes (n : nat) (s : bf) (i : N) : list N :=
  match n with O => [] | S n => slot_bytes s i ++ array_bytes n s (i + 1) end.
Definition bf_saveIndex (s : bf) : list N :=
  le 8 (maxelements_ s) ++ le 8 (size_per_element_ s) ++ le 8 (cur_element_count s) ++
  array_bytes (N.to_nat (maxelements_ s)) s 0.

Definition dec_slot (data_size : N) (bs : list N) : point * labeltype :=
  (take (N.to_nat data_size) bs, of_le (take 8 (drop (N.to_nat data_size) bs))).
(** The [n] slots from [i] on of an array with the bytes [bs]. *)
Fixpoint load_slots (n : nat) (data_size : N) (i : N) (bs : list N) (m : gmap N (point * labeltype)) :
    gmap N (point * labeltype) :=
  match n with
  | O => m
  | S n => load_slots n data_size (i + 1) (drop (N.to_nat (data_size + 8)) bs)
             (<[i := dec_slot data_size (take (N.to_nat (data_size + 8)) bs)]> m)
  end.

(** A file that cannot be opened is a failed stream: nothing is read.  The size
    of the array is computed in [size_t]; only the slots inside it exist. *)
Definition bf_loadIndex (location : option (list N)) (space_data_size : N) : eff bf unit := λ s,
  let st := match location with
            | Some bytes => mkStream bytes 0 false
            | None => mkStream [] 0 true
            end in
  let '(maxelements, st) := read_pod 8 (maxelements_ s) st in
  let '(_, st) := read_pod 8 (size_per_element_ s) st in
  let '(count, st) := read_pod 8 (cur_element_count s) st in
  let size_per_element := space_data_size + 8 in
  let bytes := (maxelements * size_per_element) mod 18446744073709551616 in
  let loaded (d : gmap N (point * labeltype)) : bf :=
    {| data_ := d; maxelements_ := maxelements; cur_element_count := count;
       size_per_element_ := size_per_element; data_size_ := space_data_size;
       dict_external_to_internal := dict_external_to_internal s |} in
  if malloc_ok bytes then
    let '(bs, _) := sread bytes st in
    (loaded (load_slots (N.to_nat (bytes / size_per_element)) space_data_size 0
               (bs ++ drop (length bs) (raw_bytes bytes)) ∅), Ok tt)
  else (loaded ∅, Throw "Not enough memory: loadIndex failed to allocate data").

Definition BruteforceSearch_blank : bf :=
  {| data_ := ∅; maxelements_ := 0; cur_element_count := 0; size_per_element_ := 0; data_size_ := 0;
     dict_external_to_internal := ∅ |}.
Definition BruteforceSearch_load (location : option (list N)) (space_data_size : N) : res bf :=
  match bf_loadIndex location space_data_size BruteforceSearch_blank with
  | (s, Ok _) => Ok s
  | (_, Throw e) => Throw e | (_, Undef u) => Undef u | (_, Fuel) => Fuel
  end.

(** ** Round trip *)
Record bf_storable (s : bf) : Prop := {
  bs_size : size_per_element_ s = data_size_ s + 8;
  bs_header : maxelements_ s < 18446744073709551616 ∧ size_per_element_ s < 18446744073709551616 ∧
    cur_element_count s < 18446744073709551616;
  bs_array : maxelements_ s * size_per_element_ s < 18446744073709551616;
  bs_alloc : malloc_ok (maxelements_ s * size_per_element_ s) = true;
  bs_slot i p l : data_ s !! i = Some (p, l) → length p = N.to_nat (data_size_ s) ∧ l < 18446744073709551616
}.

Lemma slot_bytes_length s i : bf_storable s → length (slot_bytes s i) = N.to_nat (data_size_ s + 8).
Proof.
  intros [H1 _ _ _ H2]. unfold slot_bytes, enc_slot. destruct (data_ s !! i) as [[p l]|] eqn:E.
  - destruct (H2 _ _ _ E) as [Hp _]. rewrite length_app, le_length. simpl. lia.
  - by rewrite raw_length, H1.
Qed.
Lemma array_bytes_length n s : ∀ i, bf_storable s → length (array_bytes n s i) = (n * N.to_nat (data_size_ s + 8))%nat.
Proof.
  induction n as [|n IH]; intros i Hs; cbn [array_bytes]; [done|].
  by rewrite length_app, slot_bytes_length, IH.
Qed.
Lemma dec_enc_slot s i x : bf_storable s → data_ s !! i = Some x → dec_slot (data_size_ s) (slot_bytes s i) = x.
Proof.
  intros [_ _ _ _ H2] E. unfold slot_bytes. rewrite E. destruct x as [p l]. destruct (H2 _ _ _ E) as [Hp Hl].
  unfold dec_slot, enc_slot. cbn [fst snd]. rewrite take_app_length', drop_app_length' by done.
  rewrite take_ge by by rewrite le_length. by rewrite of_le_le.
Qed.

Lemma load_slots_lookup s n : bf_storable s → ∀ i rest m j,
  load_slots n (data_size_ s) i (array_bytes n s i ++ rest) m !! j =
    if decide (i ≤ j < i + N.of_nat n) then Some (dec_slot (data_size_ s) (slot_bytes s j)) else m !! j.
Proof.
  intros Hs. induction n as [|n IH]; intros i rest m j; cbn [load_slots array_bytes].
  { by rewrite decide_False by lia. }
  rewrite <- app_assoc, drop_app_length', take_app_length' by by rewrite slot_bytes_length.
  rewrite IH. destruct (decide (j = i)) as [->|Hne].
  - rewrite decide_False, decide_True by lia. by rewrite lookup_insert_eq.
  - rewrite lookup_insert_ne by done.
    destruct (decide (i + 1 ≤ j < i + 1 + N.of_nat n)), (decide (i ≤ j < i + N.of_nat (S n))); try done; lia.
Qed.

Lemma bf_load_save s : bf_storable s → ∃ s', BruteforceSearch_load (Some (bf_saveIndex s)) (data_size_ s) = Ok s' ∧
  maxelements_ s' = maxelements_ s ∧ cur_element_count s' = cur_element_count s ∧ data_size_ s' = data_size_ s ∧
  dict_external_to_internal s' = ∅ ∧ ∀ i x, i < maxelements_ s → data_ s !! i = Some x → data_ s' !! i = Some x.
Proof.
  intros Hs. pose proof Hs as [H1 (B1 & B2 & B3) B4 B5 _]. rewrite H1 in B4, B5.
  unfold BruteforceSearch_load, bf_loadIndex, bf_saveIndex. set (n := N.to_nat (maxelements_ s)).
  pose proof (stands_start (bf_saveIndex s)) as S0. unfold bf_saveIndex in S0. fold n in S0.
  destruct (read_pod_app _ _ _ 8 (maxelements_ s) (maxelements_ BruteforceSearch_blank) S0 B1) as (st1 & -> & S1).
  destruct (read_pod_app _ _ _ 8 (size_per_element_ s) (size_per_element_ BruteforceSearch_blank) S1 B2) as (st2 & -> & S2).
  destruct (read_pod_app _ _ _ 8 (cur_element_count s) (cur_element_count BruteforceSearch_blank) S2 B3) as (st3 & -> & S3).
  rewrite N.mod_small, B5, N.div_mul by lia. fold n.
  rewrite <- (right_id_L [] (++) (array_bytes n s 0)) in S3.
  destruct (sread_app st3 _ _ _ (maxelements_ s * (data_size_ s + 8)) S3) as (st4 & -> & _).
  { rewrite array_bytes_length by done. unfold n. lia. }
  eexists. split; [reflexivity|].
  cbn [maxelements_ cur_element_count data_size_ dict_external_to_internal data_]. split_and!; try done.
  intros i x Hi Hx. rewrite load_slots_lookup by done. rewrite decide_True by (unfold n; lia).
  by rewrite (dec_enc_slot s i x).
Qed.
End persist.

(** ** Queries read the slots only *)
Section search.
Context `{HI : HeapImpl} {D : Type} `{HD : DistT D}.
Variable fstdistfunc_ : point → point → D.
Context (s s' : bf) (Hcount : cur_element_count s' = cur_element_count s).
Context (Hread : ∀ i, i < cur_element_count s → read_slot s' i = read_slot s i).

Lemma knn_first_same q flt n : ∀ i top, i + N.of_nat n ≤ cur_element_count s →
  knn_first fstdistfunc_ s' q flt n i top = knn_first fstdistfunc_ s q flt n i top.
Proof.
  induction n as [|n IH]; intros i top Hi; simpl; [done|]. rewrite Hread by lia.
  destruct (read_slot s i); simpl; [|done..]. apply IH. lia.
Qed.
Lemma knn_rest_same q k flt n : ∀ i top lb, i + N.of_nat n ≤ cur_element_count s →
  knn_rest fstdistfunc_ s' q k flt n i top lb = knn_rest fstdistfunc_ s q k flt n i top lb.
Proof.
  induction n as [|n IH]; intros i top lb Hi; simpl; [done|]. rewrite Hread by lia.
  destruct (read_slot s i); simpl; [|done..]. case_match; apply IH; lia.
Qed.
Lemma bf_searchKnn_same q k flt : bf_searchKnn fstdistfunc_ s' q k flt = bf_searchKnn fstdistfunc_ s q k flt.
Proof.
  unfold bf_searchKnn. rewrite Hcount. destruct (N.ltb_spec (cur_element_count s) k); [done|].
  case_match; [done|]. rewrite knn_first_same by lia. destruct (knn_first _ _ _ _ _ _ _); simpl; [|done..].
  apply knn_rest_same. lia.
Qed.
End search.

(** A brute-force index that was saved and loaded into a new object answers
    every query as before; its dictionary is empty, so that [removePoint] finds
    no label. *)
Theorem bf_saveIndex_loadIndex `{RM : RawMemory} `{HI : HeapImpl} {D : Type} `{HD : DistT D}
    (fstdistfunc_ : point → point → D) (s : bf) :
  bf_ok s → bf_storable s → ∃ s', BruteforceSearch_load (Some (bf_saveIndex s)) (data_size_ s) = Ok s' ∧
  (∀ q k flt, bf_searchKnn fstdistfunc_ s' q k flt = bf_searchKnn fstdistfunc_ s q k flt) ∧
  ∀ freed label, bf_removePoint freed label s' = (s', Ok tt).
Proof.
  intros (Hmax & Hslots & _) Hs. destruct (bf_load_save s Hs) as (s' & E0 & E1 & E2 & _ & E4 & E5).
  exists s'. split_and!; [done| |].
  - intros q k flt. apply bf_searchKnn_same; [done|]. intros i Hi. unfold read_slot. rewrite E1.
    destruct (Hslots i Hi) as (p & l & Hp & _). by rewrite (E5 i _ ltac:(lia) Hp), Hp.
  - intros freed label. unfold bf_removePoint. by rewrite E4, lookup_empty.
Qed.

#[export, program] Instance zero_memory : RawMemory := { malloc_ok _ := true; raw_bytes n := replicate (N.to_nat n) 0 }.
Next Obligation. intros n. apply length_replicate. Qed.

Lemma bf_demo_storable : bf_storable bf_demo.
Proof.
  split; [vm_compute; done..|]. intros i p l.
  change (data_ bf_demo) with (<[2 := ([30], 9)]> (<[1 := ([20], 8)]> (<[0 := ([10], 7)]> (∅ : gmap N (point * N))))).
  rewrite !lookup_insert_Some, lookup_empty.
  intros [[_ [= <- <-]]|[_ [[_ [= <- <-]]|[_ [[_ [= <- <-]]|[_ ?]]]]]]; done.
Defined.

Lemma bf_saveIndex_loadIndex_witness :
  let dist (a b : point) : Z := Z.abs (Z.of_N (hd 0 a) - Z.of_N (hd 0 b)) in
  ∃ s', BruteforceSearch_load (Some (bf_saveIndex bf_demo)) 1 = Ok s' ∧
  (∀ q k flt, bf_searchKnn dist s' q k flt = bf_searchKnn dist bf_demo q k flt) ∧
  ∀ freed label, bf_removePoint freed label s' = (s', Ok tt).
Proof.
  apply (bf_saveIndex_loadIndex (λ a b, Z.abs (Z.of_N (hd 0 a) - Z.of_N (hd 0 b))) bf_demo);
    [apply bf_demo_ok|apply bf_demo_storable].
Defined.
