(* ===== verification/Dataset.v ===== *)
(** * utils/dataset.cpp: dataset files and [float] arrays

    A [float] array is its bytes, four to an element; [data + i * dim] is the
    array from byte [4 * i * dim] on.  [write_bin] and [read_bin] write and read
    a header of four [int]s and four arrays.  Products of [int]s are checked for
    overflow, a length below zero makes [new] throw, and memory that a short
    read leaves unwritten holds [raw_bytes].  [exit(1)] is a [Throw]. *)

From Stdlib Require Import ZArith Lia.
From stdpp Require Import base numbers list strings.
From S2P Require Import Prelude Binary BrutePersist.
#[local] Open Scope Z_scope.

Definition int_res (z : Z) : res Z :=
  if (-2147483648 <=? z) && (z <=? 2147483647) then Ok z else Undef "int overflow".
Definition int_mul (a b : Z) : res Z := int_res (a * b).
(** Conversion of an [int] to [size_t]. *)
Definition to_size_t (z : Z) : N := Z.to_N (z mod 18446744073709551616).

Lemma int_mul_ok a b : 0 ≤ a * b ≤ 2147483647 → int_mul a b = Ok (a * b).
Proof.
  intros H. unfold int_mul, int_res. by decide_cmp.
Qed.
Lemma to_size_t_nonneg z : 0 ≤ z ≤ 2147483647 → to_size_t z = Z.to_N z.
Proof. intros H. unfold to_size_t. by rewrite Z.mod_small by lia. Qed.

Record dataset := mkDataset {
  dim : Z; train_elements : Z; test_elements : Z; dataset_topk : Z;
  train_data : list N; test_data : list N; neighbors : list N; distances : list N
}.

Section files.
Context `{RM : RawMemory}.

(** [new float[n]] *)
Definition new_floats (n : Z) : res (list N) :=
  if n <? 0 then Throw "std::bad_array_new_length"
  else if malloc_ok (Z.to_N (4 * n)) then Ok (raw_bytes (Z.to_N (4 * n)))
  else Throw "std::bad_alloc".

(** [file.read((char * )a, n * sizeof(float))] into an array of [n] elements. *)
Definition read_floats (a : list N) (n : Z) (st : stream) : list N * stream :=
  let '(bs, st) := sread (Z.to_N (4 * n)) st in (bs ++ drop (length bs) a, st).
Definition read_int (old : Z) (st : stream) : Z * stream :=
  let '(v, st) := read_pod 4 (of_int old) st in (to_int v, st).

(** The arguments are the values the four integers have before the call. *)
Definition read_bin (file_name : option (list N)) (dim train_elements test_elements dataset_topk : Z) :
    res dataset :=
  match file_name with
  | None => Throw "exit(1)"
  | Some bytes =>
      let '(dim, st) := read_int dim (mkStream bytes 0 false) in
      let '(train_elements, st) := read_int train_elements st in
      let '(test_elements, st) := read_int test_elements st in
      let '(dataset_topk, st) := read_int dataset_topk st in
      n1 <- int_mul dim train_elements ;; train <- new_floats n1 ;;
      n2 <- int_mul dim test_elements ;; test <- new_floats n2 ;;
      n3 <- int_mul dataset_topk test_elements ;; neighbors <- new_floats n3 ;; distances <- new_floats n3 ;;
      let '(train, st) := read_floats train n1 st in
      let '(test, st) := read_floats test n2 st in
      let '(neighbors, st) := read_floats neighbors n3 st in
      let '(distances, st) := read_floats distances n3 st in
      Ok (mkDataset dim train_elements test_elements dataset_topk train test neighbors distances)
  end.

(** [file.write((char * )a, n * sizeof(float))] *)
Definition write_floats (a : list N) (n : Z) : res (list N) :=
  if (0 <=? n) && (4 * n <=? Z.of_nat (length a)) then Ok (take (Z.to_nat (4 * n)) a)
  else Undef "write reads past the array".
Definition write_bin (d : dataset) : res (list N) :=
  n1 <- int_mul (dim d) (train_elements d) ;; train <- write_floats (train_data d) n1 ;;
  n2 <- int_mul (dim d) (test_elements d) ;; test <- write_floats (test_data d) n2 ;;
  n3 <- int_mul (dataset_topk d) (test_elements d) ;; nb <- write_floats (neighbors d) n3 ;;
  ds <- write_floats (distances d) n3 ;;
  Ok (le 4 (of_int (dim d)) ++ le 4 (of_int (train_elements d)) ++ le 4 (of_int (test_elements d)) ++
      le 4 (of_int (dataset_topk d)) ++ train ++ test ++ nb ++ ds).

(** ** Round trip *)

(** Sizes that [int] can hold, arrays of these sizes, and room for them. *)
Record dataset_ok (d : dataset) : Prop := {
  do_range : 0 ≤ dim d ≤ 2147483647 ∧ 0 ≤ train_elements d ≤ 2147483647 ∧
    0 ≤ test_elements d ≤ 2147483647 ∧ 0 ≤ dataset_topk d ≤ 2147483647;
  do_products : dim d * train_elements d ≤ 2147483647 ∧ dim d * test_elements d ≤ 2147483647 ∧
    dataset_topk d * test_elements d ≤ 2147483647;
  do_train : Z.of_nat (length (train_data d)) = 4 * (dim d * train_elements d);
  do_test : Z.of_nat (length (test_data d)) = 4 * (dim d * test_elements d);
  do_neighbors : Z.of_nat (length (neighbors d)) = 4 * (dataset_topk d * test_elements d);
  do_distances : Z.of_nat (length (distances d)) = 4 * (dataset_topk d * test_elements d)
}.
Definition memory_for (d : dataset) : Prop :=
  malloc_ok (Z.to_N (4 * (dim d * train_elements d))) = true ∧
  malloc_ok (Z.to_N (4 * (dim d * test_elements d))) = true ∧
  malloc_ok (Z.to_N (4 * (dataset_topk d * test_elements d))) = true.

Lemma new_floats_ok n : 0 ≤ n → malloc_ok (Z.to_N (4 * n)) = true →
  new_floats n = Ok (raw_bytes (Z.to_N (4 * n))).
Proof. intros Hn Hm. unfold new_floats. rewrite (proj2 (Z.ltb_ge _ _)) by done. by rewrite Hm. Qed.
Lemma write_floats_ok a n : 0 ≤ n → Z.of_nat (length a) = 4 * n → write_floats a n = Ok a.
Proof.
  intros Hn Ha. unfold write_floats. decide_cmp.
  simpl. rewrite take_ge by lia. done.
Qed.
Lemma read_int_app st pre rest z old :
  stands st pre (le 4 (of_int z) ++ rest) → -2147483648 ≤ z < 2147483648 →
  ∃ st', read_int old st = (z, st') ∧ stands st' (pre ++ le 4 (of_int z)) rest.
Proof.
  intros Hst Hz. destruct (to_of_int z Hz) as [Hto Hlt]. unfold read_int.
  destruct (read_pod_app st pre rest 4 (of_int z) (of_int old) Hst Hlt) as (st' & -> & Hst').
  rewrite Hto. eauto.
Qed.
Lemma read_floats_app st pre rest a n :
  0 ≤ n → stands st pre (a ++ rest) → Z.of_nat (length a) = 4 * n →
  ∃ st', read_floats (raw_bytes (Z.to_N (4 * n))) n st = (a, st') ∧ stands st' (pre ++ a) rest.
Proof.
  intros Hn Hst Ha. unfold read_floats.
  destruct (sread_app st pre a rest (Z.to_N (4 * n)) Hst ltac:(lia)) as (st' & -> & Hst').
  rewrite drop_ge, (right_id_L [] (++)) by (rewrite raw_length; lia). eauto.
Qed.

Lemma write_bin_bytes d : dataset_ok d → write_bin d = Ok
  (le 4 (of_int (dim d)) ++ le 4 (of_int (train_elements d)) ++ le 4 (of_int (test_elements d)) ++
   le 4 (of_int (dataset_topk d)) ++ train_data d ++ test_data d ++ neighbors d ++ distances d).
Proof.
  intros [(R1 & R2 & R3 & R4) (P1 & P2 & P3) L1 L2 L3 L4]. unfold write_bin.
  rewrite !int_mul_ok by lia. cbn [res_bind].
  rewrite !write_floats_ok by lia. done.
Qed.
Lemma read_write_bin d : dataset_ok d → memory_for d →
  ∃ bytes, write_bin d = Ok bytes ∧ ∀ a b c e, read_bin (Some bytes) a b c e = Ok d.
Proof.
  intros Hd (M1 & M2 & M3). eexists. split; [by apply write_bin_bytes|]. intros a b c e.
  destruct Hd as [(R1 & R2 & R3 & R4) (P1 & P2 & P3) L1 L2 L3 L4]. unfold read_bin.
  match goal with |- context [mkStream ?f 0 false] => pose proof (stands_start f) as S0 end.
  destruct (read_int_app _ _ _ (dim d) a S0 ltac:(lia)) as (st1 & -> & S1).
  destruct (read_int_app _ _ _ (train_elements d) b S1 ltac:(lia)) as (st2 & -> & S2).
  destruct (read_int_app _ _ _ (test_elements d) c S2 ltac:(lia)) as (st3 & -> & S3).
  destruct (read_int_app _ _ _ (dataset_topk d) e S3 ltac:(lia)) as (st4 & -> & S4).
  rewrite !int_mul_ok by lia. cbn [res_bind]. rewrite !new_floats_ok by (done || lia). cbn [res_bind].
  destruct (read_floats_app st4 _ _ _ (dim d * train_elements d) ltac:(lia) S4 L1) as (st5 & -> & S5).
  destruct (read_floats_app st5 _ _ _ (dim d * test_elements d) ltac:(lia) S5 L2) as (st6 & -> & S6).
  destruct (read_floats_app st6 _ _ _ (dataset_topk d * test_elements d) ltac:(lia) S6 L3) as (st7 & -> & S7).
  rewrite <- (right_id_L [] (++) (distances d)) in S7.
  destruct (read_floats_app st7 _ _ _ (dataset_topk d * test_elements d) ltac:(lia) S7 L4) as (st8 & -> & _).
  by destruct d.
Qed.
End files.

(** A dataset that is written with [write_bin] and read with [read_bin]
    comes back unchanged, whatever the integers held before. *)
Theorem write_bin_read_bin `{RM : RawMemory} (d : dataset) :
  dataset_ok d → memory_for d →
  ∃ bytes, write_bin d = Ok bytes ∧ ∀ a b c e, read_bin (Some bytes) a b c e = Ok d.
Proof. apply read_write_bin. Qed.
Lemma write_bin_read_bin_witness :
  let d := mkDataset 1 2 1 1 [0; 0; 128; 63; 0; 0; 0; 64]%N [0; 0; 64; 64]%N [0; 0; 128; 63]%N [0; 0; 128; 63]%N in
  ∃ bytes, write_bin d = Ok bytes ∧ ∀ a b c e, read_bin (Some bytes) a b c e = Ok d.
Proof.
  intros d. apply (write_bin_read_bin d); [split; vm_compute; repeat split; discriminate|vm_compute; done].
Defined.

(** ** Integers as [float]s *)
#[local] Open Scope N_scope.

(** [float] of an unsigned integer, to nearest, ties to even: with [e] the
    exponent and [m] the rounded 24-bit mantissa, a mantissa that rounds up to
    [2^24] carries into the exponent. *)
Definition round_shift (n e : N) : N :=
  let q := N.shiftr n e in let r := n - N.shiftl q e in let half := N.shiftl 1 (e - 1) in
  if (half <? r) || ((half =? r) && N.odd q) then q + 1 else q.
Definition float_of_N (n : N) : N :=
  if n =? 0 then 0
  else
    let e := N.log2 n in
    let m := if e <=? 23 then N.shiftl n (23 - e) else round_shift n (e - 23) in
    N.shiftl (e + 127) 23 + (m - 8388608).

(** [static_cast<int>] of a [float]: truncation, undefined outside [int]. *)
Definition int_of_float (bits : N) : res Z :=
  let exponent := N.shiftr bits 23 mod 256 in
  let fraction := bits mod 8388608 in
  if exponent =? 255 then Undef "conversion to int out of range"
  else
    let m := if exponent =? 0 then fraction else fraction + 8388608 in
    let e := N.max exponent 1 in
    let v := if 150 <=? e then N.shiftl m (e - 150) else N.shiftr m (150 - e) in
    int_res (if 2147483648 <=? bits then (- Z.of_N v)%Z else Z.of_N v).

(** Integers below 2^24 have an exact [float]. *)
Lemma small_float n : 0 < n < 16777216 → let e := N.log2 n in let m := n * 2 ^ (23 - e) in
  float_of_N n = (e + 127) * 8388608 + (m - 8388608) ∧ e ≤ 23 ∧ 8388608 ≤ m < 16777216.
Proof.
  intros Hn e m. pose proof (N.log2_spec n ltac:(lia)) as [Hlo Hhi]. fold e in Hlo, Hhi.
  assert (e ≤ 23) as He.
  { destruct (N.le_gt_cases e 23); [done|]. assert (2 ^ 24 ≤ 2 ^ e) by (apply N.pow_le_mono_r; lia).
    change (2 ^ 24) with 16777216 in *. lia. }
  assert (2 ^ e * 2 ^ (23 - e) = 8388608) as Hp.
  { rewrite <- N.pow_add_r. replace (e + (23 - e)) with 23 by lia. done. }
  split_and!; [|done| |].
  - unfold float_of_N. fold e. decide_cmp.
    by rewrite !N.shiftl_mul_pow2.
  - unfold m. rewrite <- Hp. by apply N.mul_le_mono_r.
  - unfold m. replace 16777216 with (2 ^ N.succ e * 2 ^ (23 - e)) by (rewrite N.pow_succ_r'; lia).
    apply N.mul_lt_mono_pos_r; [|done]. apply N.neq_0_lt_0, N.pow_nonzero. done.
Qed.
Lemma float_of_N_bits n : n < 16777216 → float_of_N n < 4294967296.
Proof.
  intros Hn. destruct (decide (n = 0)) as [->|Hz]; [by vm_compute|].
  destruct (small_float n ltac:(lia)) as (-> & He & Hm). nia.
Qed.
Lemma int_of_float_of_N n : n < 16777216 → int_of_float (float_of_N n) = Ok (Z.of_N n).
Proof.
  intros Hn. destruct (decide (n = 0)) as [->|Hz]; [by vm_compute|].
  destruct (small_float n ltac:(lia)) as (-> & He & Hm).
  set (e := N.log2 n) in *. set (m := n * 2 ^ (23 - e)) in *.
  unfold int_of_float. rewrite N.shiftr_div_pow2. change (2 ^ 23) with 8388608.
  rewrite N.div_add_l, (N.div_small (m - 8388608)), N.add_0_r by lia.
  rewrite (N.mod_small (e + 127)) by lia.
  rewrite (N.add_comm (_ * _)), N.Div0.mod_add, (N.mod_small (m - 8388608)) by lia.
  decide_cmp.
  replace (m - 8388608 + 8388608) with m by lia. rewrite N.max_l by lia.
  assert (m / 2 ^ (23 - e) = n) as Hd by (unfold m; apply N.div_mul, N.pow_nonzero; done).
  assert ((if 150 <=? e + 127 then N.shiftl m (e + 127 - 150) else N.shiftr m (150 - (e + 127))) = n) as ->.
  { destruct (N.leb_spec 150 (e + 127)).
    - assert (e = 23) as E by lia. rewrite N.shiftl_mul_pow2, E. change (23 + 127 - 150) with 0.
      rewrite N.mul_1_r. unfold m. rewrite E. apply N.mul_1_r.
    - rewrite N.shiftr_div_pow2. by replace (150 - (e + 127)) with (23 - e) by lia. }
  unfold int_res.
  by decide_cmp.
Qed.
