(* ===== verification/Args.v ===== *)
(** * Command lines

    The three programs ([hnsw_search], [create_dataset], [check_dataset]) walk
    [argv] with the same loop: a known option with a value after it is stored,
    anything else prints the usage text and gives 1.  [parse_loop] is that
    loop; each program has its own options. *)

From Stdlib Require Import ZArith Lia Ascii.
From stdpp Require Import base numbers list strings pretty.
From S2P Require Import Prelude Dataset.
#[local] Open Scope Z_scope.

(** ** [std::atoi]: white space, a sign, digits up to the first other character;
    a value outside [int] is undefined *)
Definition is_space (c : ascii) : bool := let n := N_of_ascii c in (n =? 32)%N || ((9 <=? n)%N && (n <=? 13)%N).
Definition digit_value (c : ascii) : option Z :=
  let n := N_of_ascii c in if (48 <=? n)%N && (n <=? 57)%N then Some (Z.of_N n - 48) else None.
Fixpoint atoi_digits (acc : Z) (s : string) : Z :=
  match s with
  | EmptyString => acc
  | String c s => match digit_value c with Some d => atoi_digits (10 * acc + d) s | None => acc end
  end.
Fixpoint skip_space (s : string) : string :=
  match s with
  | EmptyString => s
  | String c s' => if is_space c then skip_space s' else s
  end.
Definition atoi (s : string) : res Z :=
  match skip_space s with
  | String "-" s => int_res (- atoi_digits 0 s)
  | String "+" s => int_res (atoi_digits 0 s)
  | s => int_res (atoi_digits 0 s)
  end.

(** ** The loop over [argv[1..]]; the result is the options and the return value *)
Section loop.
Context {O : Type} (set : string → string → O → option (res O)).
Fixpoint parse_loop (args : list string) (o : O) : res (O * Z) :=
  match args with
  | [] => Ok (o, 0)
  | arg :: value :: rest =>
      match set arg value o with
      | Some r => o' <- r ;; parse_loop rest o'
      | None => Ok (o, 1)
      end
  | [_] => Ok (o, 1)
  end.
End loop.

Module SearchArgs.
Record options := mkOptions { topk : Z; M : Z; ef_construction : Z; dataset_name : string }.
Definition set (arg value : string) (o : options) : option (res options) :=
  if String.eqb arg "--topk" then Some (n <- atoi value ;; Ok (mkOptions n (M o) (ef_construction o) (dataset_name o)))
  else if String.eqb arg "--M" then Some (n <- atoi value ;; Ok (mkOptions (topk o) n (ef_construction o) (dataset_name o)))
  else if String.eqb arg "--ef" then Some (n <- atoi value ;; Ok (mkOptions (topk o) (M o) n (dataset_name o)))
  else if String.eqb arg "--dataset" then Some (Ok (mkOptions (topk o) (M o) (ef_construction o) value))
  else None.
Definition parse_arguments : list string → options → res (options * Z) := parse_loop set.
End SearchArgs.

Module CreateArgs.
Record options := mkOptions { topk : Z; train_elements : Z; test_elements : Z; dim : Z; dataset_name : string }.
Definition set (arg value : string) (o : options) : option (res options) :=
  let '(mkOptions k n m d name) := o in
  if String.eqb arg "--topk" then Some (v <- atoi value ;; Ok (mkOptions v n m d name))
  else if String.eqb arg "--train" then Some (v <- atoi value ;; Ok (mkOptions k v m d name))
  else if String.eqb arg "--test" then Some (v <- atoi value ;; Ok (mkOptions k n v d name))
  else if String.eqb arg "--dim" then Some (v <- atoi value ;; Ok (mkOptions k n m v name))
  else if String.eqb arg "--dataset" then Some (Ok (mkOptions k n m d value))
  else None.
Definition parse_arguments : list string → options → res (options * Z) := parse_loop set.
End CreateArgs.

Module CheckArgs.
Record options := mkOptions { dataset_name : string; topk : Z }.
Definition set (arg value : string) (o : options) : option (res options) :=
  if String.eqb arg "--topk" then Some (n <- atoi value ;; Ok (mkOptions (dataset_name o) n))
  else if String.eqb arg "--dataset" then Some (Ok (mkOptions value (topk o)))
  else None.
Definition parse_arguments : list string → options → res (options * Z) := parse_loop set.
End CheckArgs.

(** ** [atoi] reads back what [to_string] prints *)
Lemma digit_value_pretty d : (d < 10)%N → digit_value (pretty_N_char d) = Some (Z.of_N d).
Proof. intros Hd. destruct d as [|p]; [done|]. do 4 (try destruct p as [p|p|]; try done; try lia). Qed.
Lemma atoi_pretty_go x : ∀ s, atoi_digits 0 (pretty_N_go x s) = atoi_digits (Z.of_N x) s.
Proof.
  induction (N.lt_wf_0 x) as [x _ IH]. intros s. destruct (decide (0 < x)%N) as [Hx|Hx].
  - rewrite pretty_N_go_step by done. rewrite IH by by apply N.div_lt.
    cbn [atoi_digits]. rewrite digit_value_pretty by by apply N.mod_lt. f_equal.
    pose proof (N.div_mod x 10). lia.
  - assert (x = 0%N) as -> by lia. by rewrite pretty_N_go_0.
Qed.
Lemma atoi_pretty_N (x : N) : atoi_digits 0 (pretty x) = Z.of_N x.
Proof.
  unfold pretty, pretty_N. case_decide as Hx; [by rewrite Hx|]. by rewrite atoi_pretty_go.
Qed.

Definition starts_digit (s : string) : Prop :=
  match s with EmptyString => False | String c _ => ∃ d, (d < 10)%N ∧ c = pretty_N_char d end.
Lemma pretty_go_digit x : ∀ s, starts_digit s → starts_digit (pretty_N_go x s).
Proof.
  induction (N.lt_wf_0 x) as [x _ IH]. intros s Hs. destruct (decide (0 < x)%N) as [Hx|Hx].
  - rewrite pretty_N_go_step by done. apply IH; [by apply N.div_lt|].
    exists (x mod 10)%N. split; [by apply N.mod_lt|done].
  - assert (x = 0%N) as -> by lia. by rewrite pretty_N_go_0.
Qed.
Lemma pretty_digit (x : N) : starts_digit (pretty x).
Proof.
  unfold pretty, pretty_N. case_decide as Hx; [by exists 0%N|].
  rewrite pretty_N_go_step by lia. apply pretty_go_digit. exists (x mod 10)%N. split; [by apply N.mod_lt|done].
Qed.
Lemma atoi_digit s : starts_digit s → atoi s = int_res (atoi_digits 0 s).
Proof.
  destruct s as [|c s]; [done|]. intros (d & Hd & ->). unfold atoi.
  assert (d = 0 ∨ d = 1 ∨ d = 2 ∨ d = 3 ∨ d = 4 ∨ d = 5 ∨ d = 6 ∨ d = 7 ∨ d = 8 ∨ d = 9)%N as Hc by lia.
  by repeat (destruct Hc as [->|Hc]); [..|subst].
Qed.
Lemma atoi_pretty (z : Z) : -2147483648 ≤ z ≤ 2147483647 → atoi (pretty z) = Ok z.
Proof.
  intros Hz. assert (int_res z = Ok z) as Hr.
  { unfold int_res. by decide_cmp. }
  destruct z as [|p|p].
  - done.
  - change (pretty (Z.pos p)) with (pretty (N.pos p)). rewrite atoi_digit by apply pretty_digit.
    by rewrite atoi_pretty_N.
  - change (pretty (Z.neg p)) with (String "-" (pretty (N.pos p))). unfold atoi.
    change (skip_space (String "-" (pretty (N.pos p)))) with (String "-" (pretty (N.pos p))). cbv iota beta.
    by rewrite atoi_pretty_N.
Qed.

(** ** Settings and how they are written on the command line *)
Inductive setting := SetTopk (k : Z) | SetM (m : Z) | SetEf (ef : Z) | SetDataset (path : string).
Definition show_setting (x : setting) : list string :=
  match x with
  | SetTopk k => ["--topk"; pretty k] | SetM m => ["--M"; pretty m]
  | SetEf ef => ["--ef"; pretty ef] | SetDataset path => ["--dataset"; path]
  end%string.
Definition apply_setting (o : SearchArgs.options) (x : setting) : SearchArgs.options :=
  let '(SearchArgs.mkOptions k m ef path) := o in
  match x with
  | SetTopk k => SearchArgs.mkOptions k m ef path | SetM m => SearchArgs.mkOptions k m ef path
  | SetEf ef => SearchArgs.mkOptions k m ef path | SetDataset path => SearchArgs.mkOptions k m ef path
  end.
Definition setting_int (x : setting) : Prop :=
  match x with SetTopk z | SetM z | SetEf z => -2147483648 ≤ z ≤ 2147483647 | SetDataset _ => True end.
Definition flags : list string := ["--topk"; "--M"; "--ef"; "--dataset"].

Lemma parse_setting x rest o : setting_int x →
  SearchArgs.parse_arguments (show_setting x ++ rest) o = SearchArgs.parse_arguments rest (apply_setting o x).
Proof.
  intros Hx. destruct o as [k m ef path], x as [z|z|z|p]; unfold SearchArgs.parse_arguments; simpl in Hx |- *;
    unfold SearchArgs.set; simpl; rewrite ?atoi_pretty by done; done.
Qed.
Lemma parse_settings xs : ∀ rest o, Forall setting_int xs →
  SearchArgs.parse_arguments (concat (show_setting <$> xs) ++ rest) o =
    SearchArgs.parse_arguments rest (foldl apply_setting o xs).
Proof.
  induction xs as [|x xs IH]; intros rest o; [done|]. intros [Hx Hxs]%Forall_cons. cbn [fmap list_fmap concat foldl].
  rewrite <- app_assoc, parse_setting by done. by apply IH.
Qed.

(** The command line of [hnsw_search] is read back: options printed as
    flags with their values, in any order and with repetitions (the last one
    counts), are parsed to exactly these values and 0 is returned; an unknown
    flag after them, or a flag without its value, gives 1. *)
Theorem hnsw_search_arguments (xs : list setting) (o : SearchArgs.options) :
  Forall setting_int xs →
  SearchArgs.parse_arguments (concat (show_setting <$> xs)) o = Ok (foldl apply_setting o xs, 0) ∧
  (∀ flag rest, flag ∉ flags →
    SearchArgs.parse_arguments (concat (show_setting <$> xs) ++ flag :: rest) o = Ok (foldl apply_setting o xs, 1)) ∧
  ∀ flag, SearchArgs.parse_arguments (concat (show_setting <$> xs) ++ [flag]) o = Ok (foldl apply_setting o xs, 1).
Proof.
  intros Hxs. split_and!.
  - rewrite <- (right_id_L [] (++) (concat _)), parse_settings by done. done.
  - intros flag rest Hf. rewrite parse_settings by done. unfold flags in Hf. rewrite !not_elem_of_cons in Hf.
    destruct Hf as (H1 & H2 & H3 & H4 & _). destruct rest as [|v rest]; [done|].
    unfold SearchArgs.parse_arguments. simpl. unfold SearchArgs.set. by rewrite !(proj2 (String.eqb_neq _ _)).
  - intros flag. by rewrite parse_settings.
Qed.
Lemma hnsw_search_arguments_witness :
  SearchArgs.parse_arguments ["--M"; "16"; "--topk"; "10"; "--M"; "32"] (SearchArgs.mkOptions 1 8 200 "d") =
    Ok (SearchArgs.mkOptions 10 32 200 "d", 0).
Proof.
  apply (hnsw_search_arguments [SetM 16; SetTopk 10; SetM 32] (SearchArgs.mkOptions 1 8 200 "d")).
  repeat constructor; simpl; lia.
Defined.
