(* ===== verification/Tools.v ===== *)
(** * tools/create_dataset.cpp and tools/check_dataset.cpp

    [create_dataset] generates train and test vectors, finds the [topk] nearest
    train vectors of each test vector with [BruteforceSearch], and writes both
    with [write_bin]; labels are stored as [float]s.  [check_dataset] reads such
    a file, searches again and counts how many labels it finds in the file.

    The distance of [L2Space(dim)] on [float]s is a variable of the section, as
    are the bits of a distance and the random numbers. *)

From Stdlib Require Import ZArith Lia.
From stdpp Require Import base numbers list gmap strings pretty sorting.
From S2P Require Import Prelude Heap Binary Arith Bruteforce BrutePersist Dataset Args.
#[local] Open Scope Z_scope.

(** [std::mt19937] with [std::uniform_real_distribution<>], narrowed to the bits
    of a [float]. *)
Class DataRng := {
  rng : Type;
  rng_seed : Z → rng;
  rng_next : rng → N * rng
}.

(** ** [float] arrays *)
Definition float_ptr (data : list N) (i : Z) : point := drop (Z.to_nat (4 * i)) data.
Definition float_at (a : list N) (j : Z) : res N :=
  if (0 <=? j) && (4 * j + 4 <=? Z.of_nat (length a)) then Ok (of_le (take 4 (float_ptr a j)))
  else Undef "read outside the array".
Definition float_set (a : list N) (j : Z) (v : N) : res (list N) :=
  if (0 <=? j) && (4 * j + 4 <=? Z.of_nat (length a))
  then Ok (take (Z.to_nat (4 * j)) a ++ le 4 v ++ drop (Z.to_nat (4 * j + 4)) a)
  else Undef "write outside the array".

Section tools.
Context `{RM : RawMemory} `{RG : DataRng} `{HI : HeapImpl} {D : Type} `{HD : DistT D}.
(** [L2Space(dim)]: its distance; the bits of a distance. *)
Variable l2_dist : N → point → point → D.
Variable dist_bits : D → N.

(** ** utils/dataset.cpp: [generate_random_data] *)
Fixpoint random_floats (n : nat) (g : rng) : list N :=
  match n with
  | O => []
  | S n => let '(v, g) := rng_next g in le 4 v ++ random_floats n g
  end.
Definition generate_random_data (dim num_elements seed : Z) : res (list N) :=
  n <- int_mul dim num_elements ;; _ <- new_floats n ;;
  Ok (random_floats (Z.to_nat n) (rng_seed seed)).

(** [new BruteforceSearch<float>(new L2Space(dim), train_elements)] and the loop
    that adds the vectors under their numbers. *)
Fixpoint add_rows (n : nat) (i : Z) (data : list N) (dim : Z) : eff bf unit :=
  match n with
  | O => eff_ret tt
  | S n =>
      let* _ := bf_addPoint (float_ptr data (i * dim)) (to_size_t i) in
      add_rows n (i + 1) data dim
  end.
Definition l2_data_size (dim : Z) : N := (to_size_t dim * 4) mod 18446744073709551616.
Definition build_bruteforce (dim train_elements : Z) (train_data : list N) : res bf :=
  match add_rows (Z.to_nat train_elements) 0 train_data dim
          (BruteforceSearch_new (l2_data_size dim) (to_size_t train_elements)) with
  | (s, Ok _) => Ok s
  | (_, Throw e) => Throw e | (_, Undef u) => Undef u | (_, Fuel) => Fuel
  end.

(** ** create_dataset.cpp *)

(** The loop [for (int j = topk - 1; j >= 0; j--)]. *)
Fixpoint store_row (j : nat) (base : Z) (result : list (D * labeltype)) (neighbors distances : list N) :
    res (list N * list N) :=
  match j with
  | O => Ok (neighbors, distances)
  | S j =>
      top <- of_opt "top() of an empty queue" (pq_top result) ;;
      neighbors <- float_set neighbors (base + Z.of_nat j) (float_of_N top.2) ;;
      distances <- float_set distances (base + Z.of_nat j) (dist_bits top.1) ;;
      store_row j base (pq_pop res_lt result) neighbors distances
  end.
Fixpoint ground_truth (n : nat) (i : Z) (s : bf) (test_data : list N) (dim topk : Z)
    (neighbors distances : list N) : res (list N * list N) :=
  match n with
  | O => Ok (neighbors, distances)
  | S n =>
      result <- bf_searchKnn (l2_dist (to_size_t dim)) s (float_ptr test_data (i * dim)) (to_size_t topk) None ;;
      r <- store_row (Z.to_nat topk) (i * topk) result neighbors distances ;;
      ground_truth n (i + 1) s test_data dim topk r.1 r.2
  end.
(** The body of [main] after the options are read: the bytes of the file. *)
Definition create_dataset (topk train_elements test_elements dim : Z) : res (list N) :=
  train_data <- generate_random_data dim train_elements 1 ;;
  test_data <- generate_random_data dim test_elements 1 ;;
  s <- build_bruteforce dim train_elements train_data ;;
  n <- int_mul test_elements topk ;; neighbors <- new_floats n ;; distances <- new_floats n ;;
  r <- ground_truth (Z.to_nat test_elements) 0 s test_data dim topk neighbors distances ;;
  write_bin (mkDataset dim train_elements test_elements topk train_data test_data r.1 r.2).

(** [main]: the return value and the file that is written, if any. *)
Definition create_dataset_main (args : list string) : res (Z * option (string * list N)) :=
  p <- CreateArgs.parse_arguments args (CreateArgs.mkOptions 100 1000 100 32 "") ;;
  let '(CreateArgs.mkOptions topk train_elements test_elements dim dataset_name, code) := p in
  if code =? 0 then
    let name := if String.eqb dataset_name ""
                then ("random-euclidean-" +:+ pretty dim +:+ "-" +:+ pretty train_elements +:+ "-" +:+
                      pretty test_elements)%string
                else dataset_name in
    bytes <- create_dataset topk train_elements test_elements dim ;;
    Ok (0, Some (("./data/" +:+ name +:+ ".bin")%string, bytes))
  else Ok (1, None).

(** ** check_dataset.cpp *)

(** [ground_truth]: the [n] labels from index [j] on, as [int]s. *)
Fixpoint read_labels (n : nat) (j : Z) (neighbors : list N) : res (list Z) :=
  match n with
  | O => Ok []
  | S n =>
      v <- float_at neighbors j ;; z <- int_of_float v ;;
      zs <- read_labels n (j + 1) neighbors ;; Ok (z :: zs)
  end.
(** The labels found with [std::find]; an [int] is compared as a [size_t]. *)
Definition count_found (found_labels : list labeltype) (truth : list Z) : Z :=
  Z.of_nat (length (filter (λ l, l ∈ to_size_t <$> truth) found_labels)).
Fixpoint check_rows (n : nat) (i : Z) (s : bf) (d : dataset) (topk total_correct : Z) : res Z :=
  match n with
  | O => Ok total_correct
  | S n =>
      result <- bf_searchKnn (l2_dist (to_size_t (dim d))) s (float_ptr (test_data d) (i * dim d)) (to_size_t topk) None ;;
      truth <- read_labels (Z.to_nat topk) (i * dataset_topk d) (neighbors d) ;;
      check_rows n (i + 1) s d topk (total_correct + count_found ((pq_drain res_lt result).*2) truth)
  end.
(** [main] after the options are read: the return value and, where it gets that
    far, correct labels and comparisons.  The four [int]s start undefined. *)
Definition check_dataset (file : option (list N)) (topk : Z) (u1 u2 u3 u4 : Z) : res (Z * option (Z * Z)) :=
  d <- read_bin file u1 u2 u3 u4 ;;
  if dataset_topk d <? topk then Ok (1, None)
  else
    s <- build_bruteforce (dim d) (train_elements d) (train_data d) ;;
    total_comparisons <- int_mul (test_elements d) topk ;;
    total_correct <- check_rows (Z.to_nat (test_elements d)) 0 s d topk 0 ;;
    Ok (0, Some (total_correct, total_comparisons)).
Definition check_dataset_main (files : string → option (list N)) (args : list string) (u1 u2 u3 u4 : Z) :
    res (Z * option (Z * Z)) :=
  p <- CheckArgs.parse_arguments args (CheckArgs.mkOptions "./data/random-xs-32-euclidean.bin" 1) ;;
  if p.2 =? 0 then check_dataset (files (CheckArgs.dataset_name p.1)) (CheckArgs.topk p.1) u1 u2 u3 u4
  else Ok (1, None).
(** [static_cast<float>(total_correct) / total_comparisons] *)
Definition recall (r : Z * Z) : float32 := f32_div (f32_of_Z r.1) (f32_of_Z r.2).
End tools.
