(* ===== verification/ToolsLaws.v ===== *)
(** * The dataset tools agree with each other

    What [create_dataset] writes is what [check_dataset] expects: the labels of
    the nearest train vectors of every test vector, in increasing order. *)

From Stdlib Require Import ZArith Lia.
From stdpp Require Import base numbers list gmap strings pretty sorting.
From S2P Require Import Prelude Heap Binary Arith Bruteforce BrutePersist Dataset Args Tools.
#[local] Open Scope Z_scope.

(** ** [float] arrays as words *)
Definition words (ws : list N) : list N := concat (le 4 <$> ws).
Lemma words_app ws1 ws2 : words (ws1 ++ ws2) = words ws1 ++ words ws2.
Proof. unfold words. by rewrite fmap_app, concat_app. Qed.
Lemma words_length ws : length (words ws) = (4 * length ws)%nat.
Proof. unfold words. induction ws as [|w ws IH]; [done|]. cbn [fmap list_fmap concat]. rewrite length_app, IH, le_length. simpl. lia. Qed.

Lemma in_array (a : list N) j : 0 ≤ j → 4 * j + 4 ≤ Z.of_nat (length a) →
  (0 <=? j) && (4 * j + 4 <=? Z.of_nat (length a)) = true.
Proof. intros. by decide_cmp. Qed.
Lemma float_set_app pre g post j v : Z.of_nat (length pre) = 4 * j → length g = 4%nat →
  float_set (pre ++ g ++ post) j v = Ok (pre ++ le 4 v ++ post).
Proof.
  intros Hj Hg. unfold float_set. rewrite in_array by (rewrite ?length_app; lia).
  rewrite take_app_length' by lia. do 2 f_equal.
  rewrite app_assoc, drop_app_length' by (rewrite length_app; lia). done.
Qed.
Lemma float_at_app pre v post j : Z.of_nat (length pre) = 4 * j → (v < 4294967296)%N →
  float_at (pre ++ le 4 v ++ post) j = Ok v.
Proof.
  intros Hj Hv. unfold float_at, float_ptr. rewrite in_array by (rewrite ?length_app, ?le_length; lia).
  rewrite drop_app_length', take_app_length' by (rewrite ?le_length; lia). by rewrite of_le_le.
Qed.
Lemma read_labels_ok labels : ∀ j pre post, Z.of_nat (length pre) = 4 * j →
  Forall (λ l, l < 16777216)%N labels →
  read_labels (length labels) j (pre ++ words (float_of_N <$> labels) ++ post) = Ok (Z.of_N <$> labels).
Proof.
  induction labels as [|l ls IH]; intros j pre post Hj; [done|]. intros [Hl Hls]%Forall_cons.
  cbn [length read_labels fmap list_fmap]. change (words (float_of_N l :: ?y)) with (le 4 (float_of_N l) ++ words y).
  rewrite <- app_assoc, float_at_app by (done || by apply float_of_N_bits). cbn [res_bind].
  rewrite int_of_float_of_N by done. cbn [res_bind].
  rewrite (app_assoc pre), IH; [done| |done]. rewrite length_app, le_length. lia.
Qed.

(** ** The brute-force index of the train vectors *)
Record rows_ok (s : bf) (data : list N) (dim : Z) (n : N) : Prop := {
  ro_ok : bf_ok s;
  ro_size : data_size_ s = Z.to_N (4 * dim);
  ro_count : cur_element_count s = n;
  ro_slot j : (j < n)%N → data_ s !! j = Some (take (Z.to_nat (4 * dim)) (float_ptr data (Z.of_N j * dim)), j)
}.
Lemma rows_dict s data dim n : rows_ok s data dim n → dict_external_to_internal s !! n = None.
Proof.
  intros [(_ & _ & H3) _ Hc Hs]. destruct (dict_external_to_internal s !! n) as [i|] eqn:E; [|done].
  destruct (H3 _ _ E) as [Hi [p Hp]]. rewrite Hc in Hi. rewrite (Hs i Hi) in Hp. injection Hp as _ ->. lia.
Qed.
Lemma add_row s data dim n :
  rows_ok s data dim n → (n < maxelements_ s)%N → 0 ≤ dim →
  4 * ((Z.of_N n + 1) * dim) ≤ Z.of_nat (length data) → Z.of_N n ≤ 2147483647 →
  ∃ s', bf_addPoint (float_ptr data (Z.of_N n * dim)) (to_size_t (Z.of_N n)) s = (s', Ok tt) ∧
    rows_ok s' data dim (n + 1) ∧ maxelements_ s' = maxelements_ s.
Proof.
  intros Hr Hn Hd Hlen Hint. pose proof Hr as [Hok Hsz Hc Hs]. pose proof (rows_dict _ _ _ _ Hr) as Hnew.
  rewrite to_size_t_nonneg, N2Z.id by lia. eexists. split; [|split].
  - apply bf_add_new; [done| |done|by rewrite Hc]. rewrite Hsz. unfold float_ptr. rewrite length_drop. lia.
  - split; simpl; [apply set_new_ok; [done|done|by rewrite Hc]|done|by rewrite Hc|].
    intros j Hj. rewrite Hc. destruct (decide (j = n)) as [->|Hne].
    + rewrite lookup_insert_eq, Hsz. do 3 f_equal. lia.
    + rewrite lookup_insert_ne by done. apply Hs. lia.
  - done.
Qed.
Lemma add_rows_ok data dim n : ∀ i s,
  rows_ok s data dim i → (i + N.of_nat n ≤ maxelements_ s)%N → 0 ≤ dim →
  4 * ((Z.of_N i + Z.of_nat n) * dim) ≤ Z.of_nat (length data) → Z.of_N i + Z.of_nat n ≤ 2147483647 →
  ∃ s', add_rows n (Z.of_N i) data dim s = (s', Ok tt) ∧ rows_ok s' data dim (i + N.of_nat n).
Proof.
  induction n as [|n IH]; intros i s Hr Hmax Hd Hlen Hint.
  { exists s. rewrite N.add_0_r. done. }
  destruct (add_row s data dim i Hr) as (s1 & Hrun & Hr1 & Hm1); [lia|done|nia|lia|].
  cbn [add_rows]. rewrite (eff_bind_ok _ _ _ _ _ Hrun).
  replace (Z.of_N i + 1) with (Z.of_N (i + 1)) by lia.
  destruct (IH (i + 1)%N s1 Hr1) as (s' & Hrun' & Hr'); [lia|done|nia|lia|].
  exists s'. split; [done|]. by replace (i + N.of_nat (S n))%N with (i + 1 + N.of_nat n)%N by lia.
Qed.
Lemma build_ok dim n data : 0 ≤ dim ≤ 2147483647 → 0 ≤ n ≤ 2147483647 →
  Z.of_nat (length data) = 4 * (dim * n) →
  ∃ s, build_bruteforce dim n data = Ok s ∧ rows_ok s data dim (Z.to_N n).
Proof.
  intros Hd Hn Hlen. unfold build_bruteforce, l2_data_size. rewrite !to_size_t_nonneg, N.mod_small by lia.
  destruct (add_rows_ok data dim (Z.to_nat n) 0 (BruteforceSearch_new (Z.to_N dim * 4) (Z.to_N n)))
    as (s & Hrun & Hr); [|simpl; lia..|].
  - split; [apply bf_new_ok|simpl; lia|done|]. intros j Hj. lia.
  - change (Z.of_N 0) with 0 in Hrun. rewrite Hrun. exists s. split; [done|]. by replace (Z.to_N n) with (0 + N.of_nat (Z.to_nat n))%N by lia.
Qed.

(** ** Queries on that index *)
Section queries.
Context `{HI : HeapImpl} {D : Type} `{HD : DistT D} `{HO : !DistOrder D}.
Variable dist : point → point → D.
#[local] Instance pair_sw : StrictWeak (res_lt (D:=D)).
Proof. unfold res_lt. apply _. Qed.

(** The results in increasing order of distance and label. *)
Definition nearest_first (r : list (D * labeltype)) : list (D * labeltype) := rev (pq_drain res_lt r).

Lemma scan_labels s data dim n q : rows_ok s data dim n → ∀ m i, (i + N.of_nat m ≤ n)%N →
  (scan dist s q m i).*2 = N.of_nat <$> seq (N.to_nat i) m.
Proof.
  intros Hr. induction m as [|m IH]; intros i Hi; [done|]. simpl.
  rewrite (ro_slot _ _ _ _ Hr) by lia. cbn [fmap list_fmap snd]. rewrite IH by lia.
  rewrite N2Nat.id. do 3 f_equal. lia.
Qed.
Lemma scan_unique s data dim n q x y : rows_ok s data dim n →
  x ∈ scan dist s q (N.to_nat n) 0 → y ∈ scan dist s q (N.to_nat n) 0 →
  res_lt x y = false → res_lt y x = false → x = y.
Proof.
  intros Hr Hx Hy H1 H2. assert (x.2 = y.2) as E.
  { unfold res_lt, lt_pair in H1, H2. apply orb_false_iff in H1 as [A1 B1]. apply orb_false_iff in H2 as [A2 B2].
    rewrite A2 in B1. rewrite A1 in B2. simpl in B1, B2. apply N.ltb_ge in B1, B2. lia. }
  apply list_elem_of_lookup in Hx as [i Hi], Hy as [j Hj].
  assert (∀ k z, scan dist s q (N.to_nat n) 0 !! k = Some z → z.2 = N.of_nat k) as Hlab.
  { intros k z Hz. assert ((scan dist s q (N.to_nat n) 0).*2 !! k = Some z.2) as Hk.
    { by rewrite list_lookup_fmap, Hz. }
    rewrite (scan_labels s data dim n) in Hk by (done || lia).
    rewrite list_lookup_fmap in Hk. apply fmap_Some in Hk as (k' & [-> _]%lookup_seq & ->). lia. }
  assert (i = j) as -> by (apply Hlab in Hi, Hj; lia). congruence.
Qed.

Lemma query_ok s data dim n q k : rows_ok s data dim n → (k ≤ n)%N →
  ∃ r rest, bf_searchKnn dist s q k None = Ok r ∧ N.of_nat (length r) = k ∧
    scan dist s q (N.to_nat n) 0 ≡ₚ nearest_first r ++ rest ∧
    StronglySorted (λ x y, res_lt y x = false) (nearest_first r) ∧
    ∀ x y, x ∈ rest → y ∈ nearest_first r → res_lt x y = false.
Proof.
  intros [Hok _ Hc _] Hk. rewrite <- Hc in Hk.
  destruct (bf_searchKnn_spec dist s q k Hok Hk) as (r & rest & Hrun & Hp & Hsz & Hh & Hrest).
  assert (nearest_first r ≡ₚ r) as Hr by (unfold nearest_first; by rewrite <- Permutation_rev, pq_drain_perm).
  exists r, rest. rewrite <- Hc. split_and!; [done|done|by rewrite Hr| |].
  - apply (rev_sorted (λ x y, res_lt x y = false)). by apply pq_drain_sorted; [apply _|].
  - intros x y Hx Hy. apply Hrest; [done|]. by rewrite <- Hr.
Qed.
Lemma nearest_first_length r : length (nearest_first r) = length r.
Proof. unfold nearest_first. by rewrite length_rev, pq_drain_perm. Qed.

(** Fewer neighbours are a prefix of more. *)
Lemma query_prefix s data dim n q k k' r r' : rows_ok s data dim n → (k' ≤ k ≤ n)%N →
  bf_searchKnn dist s q k None = Ok r → bf_searchKnn dist s q k' None = Ok r' →
  nearest_first r' = take (N.to_nat k') (nearest_first r).
Proof.
  intros Hr Hk E E'. destruct (query_ok s data dim n q k Hr) as (r1 & rest & Q1 & Q2 & Q3 & Q4 & Q5); [lia|].
  destruct (query_ok s data dim n q k' Hr) as (r2 & rest' & Q1' & Q2' & Q3' & Q4' & Q5'); [lia|].
  rewrite E in Q1. rewrite E' in Q1'. injection Q1 as <-. injection Q1' as <-.
  replace (N.to_nat k') with (length (nearest_first r')) by (rewrite nearest_first_length; lia).
  eapply (smallest_prefix res_lt); eauto using scan_unique.
  rewrite !nearest_first_length. lia.
Qed.
Lemma query_labels s data dim n q k r x : rows_ok s data dim n → (k ≤ n)%N →
  bf_searchKnn dist s q k None = Ok r → x ∈ nearest_first r → (x.2 < n)%N.
Proof.
  intros Hr Hk E Hx. destruct (query_ok s data dim n q k Hr Hk) as (r1 & rest & Q1 & _ & Q3 & _).
  rewrite E in Q1. injection Q1 as <-.
  assert (x.2 ∈ (scan dist s q (N.to_nat n) 0).*2) as Hl.
  { apply list_elem_of_fmap. exists x. split; [done|]. rewrite Q3. apply elem_of_app. by left. }
  rewrite (scan_labels s data dim n) in Hl by (done || lia).
  apply list_elem_of_fmap in Hl as (i & -> & [_ Hi]%elem_of_seq). lia.
Qed.
End queries.

(** ** The arrays [create_dataset] fills *)
Section arrays.
Context `{RM : RawMemory} `{RG : DataRng} `{HI : HeapImpl} {D : Type} `{HD : DistT D} `{HO : !DistOrder D}.
Variable l2_dist : N → point → point → D.
Variable dist_bits : D → N.

Definition label_words (l : list (D * labeltype)) : list N := words ((λ x, float_of_N x.2) <$> l).
Definition dist_words (l : list (D * labeltype)) : list N := words ((λ x, dist_bits x.1) <$> l).
Lemma label_words_app l1 l2 : label_words (l1 ++ l2) = label_words l1 ++ label_words l2.
Proof. unfold label_words. by rewrite fmap_app, words_app. Qed.
Lemma dist_words_app l1 l2 : dist_words (l1 ++ l2) = dist_words l1 ++ dist_words l2.
Proof. unfold dist_words. by rewrite fmap_app, words_app. Qed.
Lemma label_words_length l : length (label_words l) = (4 * length l)%nat.
Proof. unfold label_words. by rewrite words_length, length_fmap. Qed.
Lemma dist_words_length l : length (dist_words l) = (4 * length l)%nat.
Proof. unfold dist_words. by rewrite words_length, length_fmap. Qed.

Lemma nearest_first_cons (x : D * labeltype) r :
  nearest_first (x :: r) = nearest_first (pq_pop res_lt (x :: r)) ++ [x].
Proof.
  unfold nearest_first, pq_drain. rewrite pq_pop_length. cbn [length pq_drain_aux rev].
  by replace (S (length r) - 1)%nat with (length r) by lia.
Qed.
Lemma split_last_word (g : list N) j : length g = (4 * S j)%nat →
  g = take (4 * j) g ++ drop (4 * j) g ∧ length (take (4 * j) g) = (4 * j)%nat ∧ length (drop (4 * j) g) = 4%nat.
Proof. intros Hg. rewrite take_drop, length_take, length_drop. split_and!; [done|lia|lia]. Qed.

Lemma store_row_ok j base : ∀ r pre g post pre' h post',
  length r = j → 0 ≤ base → Z.of_nat (length pre) = 4 * base → Z.of_nat (length pre') = 4 * base →
  length g = (4 * j)%nat → length h = (4 * j)%nat →
  store_row dist_bits j base r (pre ++ g ++ post) (pre' ++ h ++ post') =
    Ok (pre ++ label_words (nearest_first r) ++ post, pre' ++ dist_words (nearest_first r) ++ post').
Proof.
  induction j as [|j IH]; intros r pre g post pre' h post' Hr Hb Hp Hp' Hg Hh.
  { apply nil_length_inv in Hr, Hg, Hh. subst. done. }
  destruct r as [|x r]; [done|]. destruct (split_last_word g j Hg) as (Eg & G1 & G2).
  destruct (split_last_word h j Hh) as (Eh & H1 & H2). rewrite Eg, Eh.
  cbn [store_row pq_top head of_opt res_bind].
  rewrite <- !app_assoc, !(app_assoc pre), !(app_assoc pre').
  rewrite float_set_app by (rewrite ?length_app; lia). cbn [res_bind].
  rewrite float_set_app by (rewrite ?length_app; lia). cbn [res_bind].
  rewrite <- (app_assoc pre), <- (app_assoc pre'), IH by (done || rewrite ?pq_pop_length; simpl in *; lia).
  rewrite nearest_first_cons, label_words_app, dist_words_app, <- !app_assoc. done.
Qed.

(** The rows of the results of the test vectors [i, i+1, ...]. *)
Inductive found (s : bf) (test : list N) (dim : Z) (k : N) : Z → list (list (D * labeltype)) → Prop :=
| found_nil i : found s test dim k i []
| found_cons i r rows :
    bf_searchKnn (l2_dist (to_size_t dim)) s (float_ptr test (i * dim)) k None = Ok r →
    N.of_nat (length r) = k → found s test dim k (i + 1) rows → found s test dim k i (nearest_first r :: rows).

Lemma found_length s test dim k i rows : found s test dim k i rows →
  length (concat rows) = (length rows * N.to_nat k)%nat.
Proof.
  induction 1 as [|i r rows _ Hr _ IH]; [done|]. cbn [concat length]. rewrite length_app, IH, nearest_first_length. lia.
Qed.

Lemma ground_truth_ok s data test dim topk m : rows_ok s data dim m → 0 ≤ topk ≤ 2147483647 → (Z.to_N topk ≤ m)%N →
  ∀ n i pre g pre' h, 0 ≤ i → Z.of_nat (length pre) = 4 * (i * topk) → Z.of_nat (length pre') = 4 * (i * topk) →
  Z.of_nat (length g) = 4 * (Z.of_nat n * topk) → Z.of_nat (length h) = 4 * (Z.of_nat n * topk) →
  ∃ rows, found s test dim (Z.to_N topk) i rows ∧ length rows = n ∧
    ground_truth l2_dist dist_bits n i s test dim topk (pre ++ g) (pre' ++ h) =
      Ok (pre ++ label_words (concat rows), pre' ++ dist_words (concat rows)).
Proof.
  intros Hs Hk Hm. induction n as [|n IH]; intros i pre g pre' h Hi Hp Hp' Hg Hh.
  { exists []. destruct g, h; simpl in Hg, Hh; try lia. split_and!; [constructor|done|done]. }
  destruct (query_ok (l2_dist (to_size_t dim)) s data dim m (float_ptr test (i * dim)) (Z.to_N topk) Hs Hm)
    as (r & rest & Hrun & Hlen & _). cbn [ground_truth]. rewrite (to_size_t_nonneg topk) by lia. rewrite Hrun. cbn [res_bind].
  set (w := Z.to_nat (4 * topk)). rewrite <- (take_drop w g), <- (take_drop w h).
  rewrite store_row_ok by (rewrite ?length_take; unfold w; nia). cbn [res_bind fst snd].
  destruct (IH (i + 1) (pre ++ label_words (nearest_first r)) (drop w g) (pre' ++ dist_words (nearest_first r)) (drop w h))
    as (rows & Hf & Hl & Hrec);
    [lia|rewrite length_app, label_words_length, nearest_first_length; lia
    |rewrite length_app, dist_words_length, nearest_first_length; lia
    |rewrite length_drop; unfold w; nia|rewrite length_drop; unfold w; nia|].
  exists (nearest_first r :: rows). split_and!; [by constructor|simpl; lia|].
  rewrite !app_assoc, Hrec. cbn [concat]. by rewrite label_words_app, dist_words_app, !app_assoc.
Qed.

(** ** What [check_dataset] counts *)
Lemma count_found_all r : Forall (λ l, l < 16777216)%N ((nearest_first r).*2) →
  count_found ((pq_drain res_lt r).*2) (Z.of_N <$> (nearest_first (D:=D) r).*2) = Z.of_nat (length r).
Proof.
  intros Hl. unfold count_found. rewrite <- (list_fmap_compose Z.of_N).
  assert ((to_size_t ∘ Z.of_N <$> (nearest_first r).*2) = (nearest_first r).*2) as ->.
  { rewrite <- (list_fmap_id ((nearest_first r).*2)) at 2. apply list_fmap_ext. intros i x Hx. simpl.
    rewrite Forall_lookup in Hl. specialize (Hl i x Hx). rewrite to_size_t_nonneg by lia. lia. }
  rewrite filter_every; [by rewrite length_fmap, pq_drain_perm|].
  apply Forall_forall. intros x Hx. unfold nearest_first. by rewrite <- Permutation_rev.
Qed.

Lemma check_rows_ok s d m topk : rows_ok s (train_data d) (dim d) m → (m ≤ 16777216)%N →
  0 ≤ topk ≤ dataset_topk d → dataset_topk d ≤ 2147483647 → (Z.to_N (dataset_topk d) ≤ m)%N →
  ∀ i rows, found s (test_data d) (dim d) (Z.to_N (dataset_topk d)) i rows → ∀ pre total, 0 ≤ i →
  neighbors d = pre ++ label_words (concat rows) → Z.of_nat (length pre) = 4 * (i * dataset_topk d) →
  check_rows l2_dist (length rows) i s d topk total = Ok (total + Z.of_nat (length rows) * topk).
Proof.
  intros Hs Hm Hk Hint HK. induction 1 as [i|i r rows Hrun Hlen Hf IH]; intros pre total Hi Hnb Hpre.
  { simpl. f_equal. lia. }
  set (q := float_ptr (test_data d) (i * dim d)) in *.
  destruct (query_ok (l2_dist (to_size_t (dim d))) s _ _ m q (Z.to_N topk) Hs ltac:(lia)) as (r' & _ & Hrun' & Hlen' & _).
  pose proof (query_prefix _ s _ _ m q (Z.to_N (dataset_topk d)) (Z.to_N topk) r r' Hs ltac:(lia) Hrun Hrun') as Hpf.
  assert (Forall (λ l, l < 16777216)%N ((nearest_first r').*2)) as Hl.
  { apply Forall_fmap, Forall_forall. intros x Hx.
    pose proof (query_labels _ s _ _ m q (Z.to_N topk) r' x Hs ltac:(lia) Hrun' Hx). simpl. lia. }
  cbn [length check_rows]. fold q. rewrite (to_size_t_nonneg topk), Hrun' by lia. cbn [res_bind].
  assert (neighbors d = pre ++ words (float_of_N <$> (nearest_first r').*2) ++
    label_words (drop (N.to_nat (Z.to_N topk)) (nearest_first r) ++ concat rows)) as Hnb'.
  { rewrite Hnb. cbn [concat]. rewrite <- (take_drop (N.to_nat (Z.to_N topk)) (nearest_first r)) at 1. rewrite <- Hpf.
    rewrite !label_words_app, <- !app_assoc. do 2 f_equal. unfold label_words. by rewrite <- list_fmap_compose. }
  replace (Z.to_nat topk) with (length ((nearest_first r').*2)) by (rewrite length_fmap, nearest_first_length; lia).
  rewrite Hnb' at 1. rewrite read_labels_ok by done. cbn [res_bind]. rewrite count_found_all by done.
  rewrite (IH (pre ++ label_words (nearest_first r))).
  - f_equal. lia.
  - lia.
  - rewrite Hnb. cbn [concat]. by rewrite label_words_app, app_assoc.
  - rewrite length_app, label_words_length, nearest_first_length. lia.
Qed.
End arrays.

(** ** Both programs together *)
Section programs.
Context `{RM : RawMemory} `{RG : DataRng} `{HI : HeapImpl} {D : Type} `{HD : DistT D} `{HO : !DistOrder D}.
Variable l2_dist : N → point → point → D.
Variable dist_bits : D → N.

(** Sizes for which all the products fit in [int], and labels in a [float]. *)
Record sizes_ok (topk train test dim : Z) : Prop := {
  sz_dim : 0 ≤ dim ≤ 2147483647;
  sz_test : 0 ≤ test ≤ 2147483647;
  sz_topk : 0 ≤ topk ≤ train;
  sz_train : train ≤ 16777216;
  sz_products : dim * train ≤ 2147483647 ∧ dim * test ≤ 2147483647 ∧ topk * test ≤ 2147483647
}.
Definition enough_memory : Prop := ∀ n, malloc_ok n = true.

Lemma random_floats_length n : ∀ g, length (random_floats n g) = (4 * n)%nat.
Proof.
  induction n as [|n IH]; intros g; [done|]. cbn [random_floats]. destruct (rng_next g) as [v g'].
  rewrite length_app, le_length, IH. lia.
Qed.
Lemma generate_ok dim n seed : 0 ≤ dim * n ≤ 2147483647 → enough_memory →
  ∃ data, generate_random_data dim n seed = Ok data ∧ Z.of_nat (length data) = 4 * (dim * n).
Proof.
  intros Hn Hm. unfold generate_random_data. rewrite int_mul_ok by done. cbn [res_bind].
  rewrite new_floats_ok by (apply Hm || lia). cbn [res_bind].
  eexists. split; [done|]. rewrite random_floats_length. lia.
Qed.

Lemma create_dataset_ok topk train test dim : sizes_ok topk train test dim → enough_memory →
  ∃ bytes d s rows, create_dataset l2_dist dist_bits topk train test dim = Ok bytes ∧
    (∀ a b c e, read_bin (Some bytes) a b c e = Ok d) ∧ dataset_ok d ∧
    Dataset.dim d = dim ∧ train_elements d = train ∧ test_elements d = test ∧ dataset_topk d = topk ∧
    build_bruteforce dim train (train_data d) = Ok s ∧ rows_ok s (train_data d) dim (Z.to_N train) ∧
    found l2_dist s (test_data d) dim (Z.to_N topk) 0 rows ∧ length rows = Z.to_nat test ∧
    neighbors d = label_words (concat rows).
Proof.
  intros [Hd He Hk Hn (P1 & P2 & P3)] Hmem. unfold create_dataset.
  destruct (generate_ok dim train 1 ltac:(nia) Hmem) as (tr & -> & Ltr).
  destruct (generate_ok dim test 1 ltac:(nia) Hmem) as (te & -> & Lte).
  destruct (build_ok dim train tr ltac:(lia) ltac:(lia) Ltr) as (s & Hs & Hrows).
  cbn [res_bind]. rewrite Hs. cbn [res_bind]. rewrite int_mul_ok by nia. cbn [res_bind].
  rewrite new_floats_ok by (nia || apply Hmem). cbn [res_bind].
  destruct (ground_truth_ok l2_dist dist_bits s tr te dim topk (Z.to_N train) Hrows ltac:(lia) ltac:(lia)
    (Z.to_nat test) 0 [] (raw_bytes (Z.to_N (4 * (test * topk)))) [] (raw_bytes (Z.to_N (4 * (test * topk)))))
    as (rows & Hf & Hl & Hg); [done|done|done|rewrite raw_length; nia|rewrite raw_length; nia|].
  rewrite !app_nil_l in Hg. rewrite Hg. cbn [res_bind fst snd].
  set (d := mkDataset _ _ _ _ _ _ _ _).
  assert (length (concat rows) = Z.to_nat (topk * test)) as Hcr.
  { rewrite (found_length _ _ _ _ _ _ _ Hf), Hl, Z_N_nat, <- Z2Nat.inj_mul by lia. f_equal. lia. }
  assert (dataset_ok d) as Hok.
  { split; simpl; rewrite ?label_words_length, ?dist_words_length, ?Hcr; nia. }
  destruct (read_write_bin d Hok) as (bytes & Hw & Hr); [repeat split; apply Hmem|].
  rewrite Hw. eexists bytes, d, s, rows. split_and!; done.
Qed.

End programs.

(** A generator that counts, for the witness. *)
#[local] Instance counting_rng : DataRng := { rng := N; rng_seed := Z.to_N; rng_next n := (n, n + 1)%N }.
Definition byte_l2 (_ : N) (a b : point) : Z := let d := Z.of_N (hd 0%N a) - Z.of_N (hd 0%N b) in d * d.

