(* ===== verification/Hdf52bin.v ===== *)
(** * tools/dataset_hdf52bin.cpp: HDF5 files to dataset files

    [main] reads four datasets of an HDF5 file, writes them with [write_bin],
    reads the file back and compares.  The HDF5 library is the interface [Hdf5]:
    the two dimensions of a dataset and its values as [float]s.  Dimensions are
    narrowed to [int]; the values must fit into the array made for them.  What
    the integers hold before [read_bin] is an argument. *)

From Stdlib Require Import ZArith Lia SpecFloat Ascii.
From stdpp Require Import base numbers list strings.
From S2P Require Import Prelude Binary Arith Floats BrutePersist Dataset Tools.
#[local] Open Scope Z_scope.

(** [getSimpleExtentDims] and [DataSet::read] with [NATIVE_FLOAT]: as many values
    as the dimensions say. *)
Class Hdf5 := {
  h5_dataset : string → string → res (N * N * list N);
  h5_size file name d0 d1 bytes : h5_dataset file name = Ok (d0, d1, bytes) →
    N.of_nat (length bytes) = (4 * d0 * d1)%N
}.

Section tool.
Context `{RM : RawMemory} `{H5 : Hdf5}.

(** The array, [num_elements] and [dim]. *)
Definition read_hdf5 (file_name dataset_name : string) : res (list N * Z * Z) :=
  x <- h5_dataset file_name dataset_name ;;
  let '(d0, d1, bytes) := x in
  let num_elements := to_int (d0 mod 4294967296) in
  let dim := to_int (d1 mod 4294967296) in
  n <- int_mul dim num_elements ;;
  data <- new_floats n ;;
  if (length bytes <=? length data)%nat then Ok (bytes ++ drop (length bytes) data, num_elements, dim)
  else Undef "read writes past the array".

(** [file_name.substr(0, file_name.find_last_of('.'))] *)
Fixpoint find_last_of (c : ascii) (s : string) : option nat :=
  match s with
  | EmptyString => None
  | String a s =>
      match find_last_of c s with
      | Some n => Some (S n)
      | None => if Ascii.eqb a c then Some O else None
      end
  end.
Definition binary_name (file_name : string) : string :=
  match find_last_of "."%char file_name with
  | Some n => String.substring 0 n file_name
  | None => file_name
  end +:+ ".bin".

(** [a[i] != b[i]] on [float]s. *)
Definition float_ne (a b : list N) (i : Z) : res bool :=
  x <- float_at a i ;; y <- float_at b i ;; Ok (negb (SFeqb (float_of_bits x) (float_of_bits y))).
(** The loops over [i] in [i0, i0 + n), left at the first difference. *)
Fixpoint same_floats (n : nat) (i : Z) (a b : list N) : res bool :=
  match n with
  | O => Ok true
  | S n => ne <- float_ne a b i ;; if ne then Ok false else same_floats n (i + 1) a b
  end.
Fixpoint same_pairs (n : nat) (i : Z) (a a' b b' : list N) : res bool :=
  match n with
  | O => Ok true
  | S n =>
      ne <- float_ne a a' i ;;
      if ne then Ok false else
      ne <- float_ne b b' i ;;
      if ne then Ok false else same_pairs n (i + 1) a a' b b'
  end.

(** The name and bytes of the file written, and whether the data is the same. *)
Definition dataset_hdf52bin (input : string) (dim_read train_read test_read topk_read : Z) :
    res (string * list N * bool) :=
  let file_name := match input with EmptyString => "./data/random-xs-32-euclidean.hdf5" | _ => input end in
  x <- read_hdf5 file_name "train" ;; let '(train, train_elements, dim) := x in
  x <- read_hdf5 file_name "test" ;; let '(test, test_elements, dim) := x in
  x <- read_hdf5 file_name "neighbors" ;; let '(neighbors, test_elements, topk) := x in
  x <- read_hdf5 file_name "distances" ;; let '(distances, test_elements, topk) := x in
  let d := mkDataset dim train_elements test_elements topk train test neighbors distances in
  bytes <- write_bin d ;;
  r <- read_bin (Some bytes) dim_read train_read test_read topk_read ;;
  n1 <- int_mul dim train_elements ;; same1 <- same_floats (Z.to_nat n1) 0 train (train_data r) ;;
  n2 <- int_mul dim test_elements ;; same2 <- same_floats (Z.to_nat n2) 0 test (test_data r) ;;
  n3 <- int_mul topk test_elements ;;
  same3 <- same_pairs (Z.to_nat n3) 0 neighbors (Dataset.neighbors r) distances (Dataset.distances r) ;;
  Ok (binary_name file_name, bytes, same1 && same2 && same3).

(** ** The tool finds its own file unchanged *)
Definition no_nan (a : list N) : Prop := ∀ i x, float_at a i = Ok x → float_of_bits x ≠ S754_nan.

Lemma SFeqb_refl x : x ≠ S754_nan → SFeqb x x = true.
Proof.
  destruct x as [s|s| |s m e]; intros H; try done; [by destruct s|]. unfold SFeqb, SFcompare.
  rewrite Z.compare_refl, Pos.compare_cont_refl. by destruct s.
Qed.
Lemma float_ne_same a i : no_nan a → 0 ≤ i → 4 * i + 4 ≤ Z.of_nat (length a) → float_ne a a i = Ok false.
Proof.
  intros Ha Hi Hl. unfold float_ne. destruct (float_at a i) as [x|e|u|] eqn:E.
  - cbn [res_bind]. by rewrite (SFeqb_refl _ (Ha i x E)).
  - unfold float_at in E. rewrite (proj2 (Z.leb_le _ _)), (proj2 (Z.leb_le _ _)) in E by lia. done.
  - unfold float_at in E. rewrite (proj2 (Z.leb_le _ _)), (proj2 (Z.leb_le _ _)) in E by lia. done.
  - unfold float_at in E. rewrite (proj2 (Z.leb_le _ _)), (proj2 (Z.leb_le _ _)) in E by lia. done.
Qed.
Lemma same_floats_refl a n : no_nan a → ∀ i, 0 ≤ i → 4 * (i + Z.of_nat n) ≤ Z.of_nat (length a) →
  same_floats n i a a = Ok true.
Proof.
  intros Ha. induction n as [|n IH]; intros i Hi Hl; cbn [same_floats]; [done|].
  rewrite float_ne_same by (done || lia). cbn [res_bind]. apply IH; lia.
Qed.
Lemma same_pairs_refl a b n : no_nan a → no_nan b → ∀ i, 0 ≤ i → 4 * (i + Z.of_nat n) ≤ Z.of_nat (length a) →
  4 * (i + Z.of_nat n) ≤ Z.of_nat (length b) → same_pairs n i a a b b = Ok true.
Proof.
  intros Ha Hb. induction n as [|n IH]; intros i Hi Hla Hlb; cbn [same_pairs]; [done|].
  rewrite !float_ne_same by (done || lia). cbn [res_bind]. apply IH; lia.
Qed.

(** A dataset of the file, with dimensions that fit. *)
Lemma read_hdf5_ok file name d0 d1 bytes :
  h5_dataset file name = Ok (d0, d1, bytes) → (d0 <= 2147483647)%N → (d1 <= 2147483647)%N → (d1 * d0 <= 2147483647)%N →
  malloc_ok (4 * (d1 * d0)) = true → read_hdf5 file name = Ok (bytes, Z.of_N d0, Z.of_N d1).
Proof.
  intros H H0 H1 Hp Hm. pose proof (h5_size _ _ _ _ _ H) as Hlen. unfold read_hdf5. rewrite H. cbn [res_bind].
  rewrite !N.mod_small by lia.
  assert (∀ d, (d <= 2147483647)%N → to_int d = Z.of_N d) as Hint.
  { intros d Hd. unfold to_int. by decide_cmp. }
  rewrite !Hint, int_mul_ok by lia. cbn [res_bind]. rewrite new_floats_ok by (lia || (rewrite <- Hm; f_equal; lia)).
  cbn [res_bind]. rewrite (proj2 (Nat.leb_le _ _)) by (rewrite raw_length; lia).
  rewrite drop_ge by (rewrite raw_length; lia). by rewrite (right_id_L [] (++)).
Qed.

(** [dataset_hdf52bin]: on an HDF5 file whose four datasets have matching
    dimensions, sizes within [int] and no NaN, the tool writes a file that
    [read_bin] reads back to the four datasets, and reports that the data is the
    same. *)
Theorem hdf52bin_same input train_n test_n d k train test nb ds u1 u2 u3 u4 :
  let file := match input with EmptyString => "./data/random-xs-32-euclidean.hdf5" | _ => input end in
  h5_dataset file "train" = Ok (train_n, d, train) → h5_dataset file "test" = Ok (test_n, d, test) →
  h5_dataset file "neighbors" = Ok (test_n, k, nb) → h5_dataset file "distances" = Ok (test_n, k, ds) →
  (d <= 2147483647 ∧ train_n <= 2147483647 ∧ test_n <= 2147483647 ∧ k <= 2147483647)%N →
  (d * train_n <= 2147483647 ∧ d * test_n <= 2147483647 ∧ k * test_n <= 2147483647)%N →
  (∀ n, malloc_ok n = true) → no_nan train → no_nan test → no_nan nb → no_nan ds →
  ∃ bytes, dataset_hdf52bin input u1 u2 u3 u4 = Ok (binary_name file, bytes, true) ∧
    ∀ a b c e, read_bin (Some bytes) a b c e =
      Ok (mkDataset (Z.of_N d) (Z.of_N train_n) (Z.of_N test_n) (Z.of_N k) train test nb ds).
Proof.
  intros file E1 E2 E3 E4 (R1 & R2 & R3 & R4) (P1 & P2 & P3) Hm N1 N2 N3 N4.
  pose proof (h5_size _ _ _ _ _ E1). pose proof (h5_size _ _ _ _ _ E2). pose proof (h5_size _ _ _ _ _ E3).
  pose proof (h5_size _ _ _ _ _ E4).
  set (x := mkDataset (Z.of_N d) (Z.of_N train_n) (Z.of_N test_n) (Z.of_N k) train test nb ds).
  assert (dataset_ok x) as Hx by (split; simpl; lia).
  destruct (read_write_bin x Hx) as (bytes & Hw & Hr); [by split_and!|]. exists bytes. split; [|done].
  unfold dataset_hdf52bin. fold file.
  rewrite (read_hdf5_ok _ _ _ _ _ E1), (read_hdf5_ok _ _ _ _ _ E2), (read_hdf5_ok _ _ _ _ _ E3),
    (read_hdf5_ok _ _ _ _ _ E4) by (done || lia).
  cbn [res_bind]. fold x. rewrite Hw. cbn [res_bind]. rewrite Hr. cbn [res_bind].
  rewrite !int_mul_ok by lia. cbn [res_bind train_data test_data Dataset.neighbors Dataset.distances x].
  rewrite !same_floats_refl by (done || lia). cbn [res_bind]. by rewrite same_pairs_refl by (done || lia).
Qed.
End tool.

#[local, program] Instance one_file : Hdf5 := {
  h5_dataset file name :=
    if String.eqb name "train" then Ok (2%N, 1%N, [0; 0; 128; 63; 0; 0; 0; 64]%N)
    else Ok (1%N, 1%N, [0; 0; 64; 64]%N)
}.
Next Obligation. intros file name d0 d1 bytes. cbv beta. case_match; intros [= <- <- <-]; done. Qed.
Lemma two_floats a x y : a = le 4 x ++ y → (length y ≤ 4)%nat → (x < 4294967296)%N →
  float_of_bits x ≠ S754_nan → (length y = 4%nat → float_of_bits (of_le y) ≠ S754_nan) → no_nan a.
Proof.
  intros -> Hy Hx Nx Ny i v. pose proof (le_length 4 x) as Hz. rewrite <- (of_le_le 4 x Hx) in Nx.
  revert Nx Hz. generalize (le 4 x). intros z Nx Hz. unfold float_at. rewrite length_app, Hz.
  destruct (Z.leb_spec 0 i), (Z.leb_spec (4 * i + 4) (Z.of_nat (4 + length y))); try done. cbn [andb]. intros [= <-].
  unfold float_ptr. assert (i = 0 ∨ i = 1) as [->| ->] by lia.
  - change (Z.to_nat (4 * 0)) with 0%nat. by rewrite drop_0, take_app_length'.
  - change (Z.to_nat (4 * 1)) with 4%nat. rewrite drop_app_length', take_ge by lia. apply Ny. lia.
Qed.
Lemma hdf52bin_same_witness :
  ∃ bytes, dataset_hdf52bin "data/x.hdf5" 0 0 0 0 = Ok ("data/x.bin", bytes, true) ∧
    ∀ a b c e, read_bin (Some bytes) a b c e =
      Ok (mkDataset 1 2 1 1 [0; 0; 128; 63; 0; 0; 0; 64]%N [0; 0; 64; 64]%N [0; 0; 64; 64]%N [0; 0; 64; 64]%N).
Proof.
  assert (no_nan [0; 0; 64; 64]%N) as H1 by (apply (two_floats _ 1077936128 []); vm_compute; done || lia).
  apply (hdf52bin_same "data/x.hdf5" 2 1 1 1 [0; 0; 128; 63; 0; 0; 0; 64]%N [0; 0; 64; 64]%N [0; 0; 64; 64]%N
    [0; 0; 64; 64]%N 0 0 0 0); try done.
  apply (two_floats _ 1065353216 [0; 0; 0; 64]%N); vm_compute; done || lia.
Defined.
