(* ===== verification/BeamSearch.v ===== *)
(** * The beam search of the two layer searches

    [searchBaseLayer] and [searchBaseLayerST] of hnswalg.h are the same
    best-first search: a queue of candidates, closest first, and a bounded
    queue of results, farthest first.  Here the search is written over an
    abstract graph ([nbs]), distance to the query ([dist]) and acceptance test
    ([acc]), and what it computes is proved once: it returns the [ef] nearest
    of the accepted nodes it has visited, and every visited node that was not
    expanded is no closer than the worst result.  HnswSearchLaws relates the
    two C++ functions to it. *)

From Stdlib Require Import Lia.
From stdpp Require Import base numbers list sorting relations.
From S2P Require Import Prelude Heap VisitedList Arith.
#[local] Open Scope N_scope.

(** [CompareByFirst] *)
Definition cmp {D} `{DistT D} : D * tableint → D * tableint → bool := lt_fst dlt.

(** The local variables of the layer searches. *)
Record lstate (D : Type) := mkLS {
  top_candidates : list (D * tableint);
  candidateSet : list (D * tableint);
  lowerBound : D;
  visited : VisitedList
}.
Arguments mkLS {D} _ _ _ _.
Arguments top_candidates {D} _.
Arguments candidateSet {D} _.
Arguments lowerBound {D} _.
Arguments visited {D} _.

(** [if (!top_candidates.empty()) lowerBound = top_candidates.top().first] *)
Definition lower {D} (top : list (D * tableint)) (lb : D) : D :=
  match pq_top top with Some t => t.1 | None => lb end.

(** [visited_array[i] == visited_array_tag] *)
Definition seen (vl : VisitedList) (i : tableint) : bool := bool_decide (is_visited vl i = Some true).

Section beam.
Context `{HI : HeapImpl} {D : Type} `{HD : DistT D}.
Variables (nbs : tableint → list tableint) (dist : tableint → D) (acc : tableint → bool) (ef : N).

Definition g_push (top : list (D * tableint)) (id : tableint) : list (D * tableint) :=
  let top := if acc id then pq_push cmp top (dist id, id) else top in
  if ef <? pq_size top then pq_pop cmp top else top.

Definition g_visit (v : lstate D) (id : tableint) : lstate D :=
  if seen (visited v) id then v
  else
    let vl := mark_visited (visited v) id in
    if (pq_size (top_candidates v) <? ef) || dlt (dist id) (lowerBound v) then
      let top := g_push (top_candidates v) id in
      mkLS top (pq_push cmp (candidateSet v) (dneg (dist id), id)) (lower top (lowerBound v)) vl
    else mkLS (top_candidates v) (candidateSet v) (lowerBound v) vl.

Definition g_for (v : lstate D) (ids : list tableint) : lstate D := foldl g_visit v ids.

(** [bare]: the exit test without the size of the result queue. *)
Definition g_stop (bare : bool) (v : lstate D) (d : D) : bool :=
  dlt (lowerBound v) (dneg d) && (bare || (pq_size (top_candidates v) =? ef)).

(** Remove the closest candidate and visit its neighbours. *)
Definition g_expand (v : lstate D) (c : tableint) : lstate D :=
  g_for (mkLS (top_candidates v) (pq_pop cmp (candidateSet v)) (lowerBound v) (visited v)) (nbs c).

Fixpoint g_while (bare : bool) (fuel : nat) (v : lstate D) : option (lstate D) :=
  match fuel with
  | O => None
  | S fuel =>
      match pq_top (candidateSet v) with
      | None => Some v
      | Some (d, c) => if g_stop bare v d then Some v else g_while bare fuel (g_expand v c)
      end
  end.

Definition g_init (ep : tableint) (vl : VisitedList) : lstate D :=
  if acc ep then
    mkLS (pq_push cmp [] (dist ep, ep)) (pq_push cmp [] (dneg (dist ep), ep)) (dist ep) (mark_visited vl ep)
  else mkLS [] (pq_push cmp [] (dneg dmax, ep)) dmax (mark_visited vl ep).

(** ** What the search computes *)

(** No closer than the worst of a full result queue. *)
Definition far (v : lstate D) (i : tableint) : Prop :=
  pq_size (top_candidates v) = ef ∧ dlt (dist i) (lowerBound v) = false.

(** [P]: the nodes the search may meet.  [E]: the nodes expanded so far. *)
Record beam_inv (P E : tableint → Prop) (n : N) (v : lstate D) : Prop := {
  bi_vl : vl_ok (visited v);
  bi_num : numelements (visited v) = n;
  bi_top_heap : is_heap cmp (top_candidates v);
  bi_cand_heap : is_heap cmp (candidateSet v);
  bi_size : pq_size (top_candidates v) ≤ ef;
  bi_lower : top_candidates v ≠ [] → lowerBound v = lower (top_candidates v) (lowerBound v);
  bi_top d i : (d, i) ∈ top_candidates v → d = dist i ∧ acc i = true ∧ visited_in (visited v) i;
  bi_nodup : NoDup (top_candidates v).*2;
  bi_cand d i : (d, i) ∈ candidateSet v → d = dneg (dist i) ∧ visited_in (visited v) i;
  bi_valid i : visited_in (visited v) i → P i;
  bi_best i : visited_in (visited v) i → acc i = true → i ∈ (top_candidates v).*2 ∨ far v i;
  bi_frontier i : visited_in (visited v) i → E i ∨ (dneg (dist i), i) ∈ candidateSet v ∨ far v i
}.

(** ** Visiting one node *)
Context `{HO : !DistOrder D}.
Hypothesis ef_pos : 1 ≤ ef.

Lemma cmp_sw : StrictWeak (cmp (D:=D)).
Proof. apply _. Qed.
#[local] Existing Instance cmp_sw.

Lemma seen_true vl i : seen vl i = true ↔ visited_in vl i.
Proof. unfold seen. apply bool_decide_eq_true. Qed.
Lemma seen_false vl i : vl_ok vl → i < numelements vl → seen vl i = false → is_visited vl i = Some false.
Proof.
  intros Hvl Hi Hs%bool_decide_eq_false.
  destruct (is_visited_is_Some vl i Hvl Hi) as [[] E]; [done|done].
Qed.
Lemma visited_in_mark vl i j :
  vl_ok vl → i < numelements vl → visited_in (mark_visited vl i) j ↔ j = i ∨ visited_in vl j.
Proof.
  intros Hvl Hi. unfold visited_in. destruct (decide (j = i)) as [->|Hne].
  - rewrite is_visited_mark_eq by done. by split; [left|].
  - rewrite is_visited_mark_ne by congruence. split; [by right|]. by intros [?|?].
Qed.

(** At most one entry leaves the result queue, a farthest one. *)
Lemma g_push_spec top id :
  is_heap cmp top → pq_size top ≤ ef →
  ∃ dropped, (if acc id then (dist id, id) :: top else top) ≡ₚ dropped ++ g_push top id ∧
    is_heap cmp (g_push top id) ∧ pq_size (g_push top id) ≤ ef ∧
    (dropped = [] ∨ ∃ e, dropped = [e] ∧ pq_size (g_push top id) = ef ∧
      ∀ y, y ∈ g_push top id → cmp e y = false).
Proof.
  intros Hh Hs. unfold g_push. destruct (acc id).
  - destruct (N.ltb_spec ef (pq_size (pq_push cmp top (dist id, id)))) as [Hlt|Hge].
    + destruct (pq_push_pop cmp top (dist id, id) Hh) as (e & Hp & Hmax & _).
      rewrite pq_push_size in Hlt.
      exists [e]. split_and!.
      * done.
      * apply pq_pop_heap; [apply _|]. by apply pq_push_heap; [apply _|].
      * rewrite pq_pop_size, pq_push_size. lia.
      * right. exists e. split_and!; [done| |done]. rewrite pq_pop_size, pq_push_size. lia.
    + exists []. split_and!; [by rewrite pq_push_perm|by apply pq_push_heap; [apply _|]|done|by left].
  - rewrite (proj2 (N.ltb_ge _ _)) by done. exists []. split_and!; [done..|by left].
Qed.

Lemma lower_elem (top : list (D * tableint)) lb :
  top ≠ [] → ∃ t, pq_top top = Some t ∧ t ∈ top ∧ lower top lb = t.1.
Proof. destruct top as [|t top]; [done|]. intros _. exists t. split_and!; [done|left|done]. Qed.
Lemma size_nonempty (top : list (D * tableint)) : pq_size top = ef → top ≠ [].
Proof. intros H ->. unfold pq_size in H. simpl in H. lia. Qed.

(** The lower bound is an upper bound of the results. *)
Lemma lower_max P E n v y :
  beam_inv P E n v → y ∈ top_candidates v → dlt (lowerBound v) y.1 = false.
Proof.
  intros Hi Hy. assert (top_candidates v ≠ []) as Hne by (intros Hn; rewrite Hn in Hy; by apply not_elem_of_nil in Hy).
  rewrite (bi_lower _ _ _ _ Hi Hne).
  destruct (lower_elem _ (lowerBound v) Hne) as (t & Ht & _ & ->).
  apply (is_heap_max cmp _ t y (bi_top_heap _ _ _ _ Hi) Ht Hy).
Qed.

(** Considering a node keeps far nodes far. *)
Lemma g_push_far P E n v id i :
  beam_inv P E n v → far v i → dlt (dist id) (lowerBound v) = true →
  let top := g_push (top_candidates v) id in
  pq_size top = ef ∧ dlt (dist i) (lower top (lowerBound v)) = false.
Proof.
  intros Hi [Hs Hd] Hlt top.
  destruct (g_push_spec (top_candidates v) id) as (dr & Hp & Hh & Hle & Hdr);
    [apply Hi|apply Hi|].
  assert (pq_size top = ef) as Hsz.
  { destruct Hdr as [->|(e & -> & H & _)]; [|done]. simpl in Hp.
    apply Permutation_length in Hp. unfold pq_size, top in *.
    destruct (acc id); simpl in Hp; lia. }
  split; [done|].
  destruct (lower_elem top (lowerBound v) (size_nonempty _ Hsz)) as (t & _ & Ht & ->).
  apply (sw_negtrans _ (lowerBound v)); [done|].
  assert (t ∈ (if acc id then (dist id, id) :: top_candidates v else top_candidates v)) as Hin.
  { rewrite Hp. apply elem_of_app. by right. }
  assert (t = (dist id, id) ∨ t ∈ top_candidates v) as [->|Hin'].
  { destruct (acc id); [by apply elem_of_cons|by right]. }
  - exact (sw_asym dlt _ _ Hlt).
  - eapply lower_max; done.
Qed.

(** What is pushed out is far. *)
Lemma dropped_far (top : list (D * tableint)) lb (e : D * tableint) :
  pq_size top = ef → (∀ y, y ∈ top → cmp e y = false) → dlt e.1 (lower top lb) = false.
Proof.
  intros Hs Hmax.
  destruct (lower_elem top lb (size_nonempty _ Hs)) as (t & _ & Ht & ->).
  by apply (Hmax t).
Qed.

(** The node stays among the results, or is far. *)
Lemma g_push_keep P E n v id x :
  beam_inv P E n v → acc id = true → x = (dist id, id) ∨ x ∈ top_candidates v →
  let top := g_push (top_candidates v) id in
  x ∈ top ∨ pq_size top = ef ∧ dlt x.1 (lower top (lowerBound v)) = false.
Proof.
  intros Hi Ha Hx top.
  destruct (g_push_spec (top_candidates v) id) as (dr & Hp & _ & _ & Hdr); [apply Hi..|].
  rewrite Ha in Hp. apply elem_of_cons in Hx. rewrite Hp in Hx.
  apply elem_of_app in Hx as [Hx|Hx]; [|by left].
  destruct Hdr as [->|(e & -> & Hs & Hmax)]; [by apply not_elem_of_nil in Hx|].
  apply list_elem_of_singleton in Hx as ->. right. split; [done|]. by apply dropped_far.
Qed.

Lemma g_push_reject v id : pq_size (top_candidates v) ≤ ef → acc id = false →
  g_push (top_candidates v) id = top_candidates v.
Proof. intros H Ha. unfold g_push. rewrite Ha. by rewrite (proj2 (N.ltb_ge _ _)). Qed.

Lemma g_push_sub P E n v id x :
  beam_inv P E n v → x ∈ g_push (top_candidates v) id →
  (x = (dist id, id) ∧ acc id = true) ∨ x ∈ top_candidates v.
Proof.
  intros Hi Hx.
  destruct (g_push_spec (top_candidates v) id) as (dr & Hp & _); [apply Hi..|].
  assert (x ∈ dr ++ g_push (top_candidates v) id) as Hx' by (apply elem_of_app; by right).
  rewrite <- Hp in Hx'. destruct (acc id); [|by right].
  apply elem_of_cons in Hx' as [->|Hx']; [by left|by right].
Qed.

Lemma g_push_nodup P E n v id :
  beam_inv P E n v → id ∉ (top_candidates v).*2 → NoDup (g_push (top_candidates v) id).*2.
Proof.
  intros Hi Hn.
  destruct (g_push_spec (top_candidates v) id) as (dr & Hp & _); [apply Hi..|].
  assert (NoDup (if acc id then (dist id, id) :: top_candidates v else top_candidates v).*2) as Hnd.
  { destruct (acc id); [|apply Hi]. simpl. constructor; [done|apply Hi]. }
  rewrite Hp, fmap_app in Hnd. by apply NoDup_app in Hnd as (_ & _ & ?).
Qed.

Lemma not_seen_not_top P E n v id :
  beam_inv P E n v → ¬ visited_in (visited v) id → id ∉ (top_candidates v).*2.
Proof.
  intros Hi Hn Hin. apply list_elem_of_fmap in Hin as ([d i] & -> & Hin).
  by apply (bi_top _ _ _ _ Hi) in Hin as (_ & _ & ?).
Qed.

(** A considered node. *)
Lemma g_visit_considered P E n v id :
  beam_inv P E n v → P id → id < n → ¬ visited_in (visited v) id →
  pq_size (top_candidates v) < ef ∨ dlt (dist id) (lowerBound v) = true →
  let top := g_push (top_candidates v) id in
  beam_inv P E n (mkLS top (pq_push cmp (candidateSet v) (dneg (dist id), id))
                    (lower top (lowerBound v)) (mark_visited (visited v) id)).
Proof.
  intros Hi HP Hid Hns Hc top.
  assert (vl_ok (visited v)) as Hvl by apply Hi.
  assert (id < numelements (visited v)) as Hid' by (rewrite (bi_num _ _ _ _ Hi); done).
  destruct (g_push_spec (top_candidates v) id) as (dr & _ & Hh & Hle & _); [apply Hi..|].
  assert (∀ i, far v i → far (mkLS top (pq_push cmp (candidateSet v) (dneg (dist id), id))
                    (lower top (lowerBound v)) (mark_visited (visited v) id)) i) as Hfar.
  { intros i Hf. destruct Hc as [Hc|Hc]; [destruct Hf; lia|]. by eapply g_push_far. }
  split; simpl.
  - by apply mark_visited_ok.
  - apply Hi.
  - done.
  - apply pq_push_heap; [apply _|apply Hi].
  - done.
  - intros Hne. by destruct (lower_elem top (lowerBound v) Hne) as (t & Ht & _ & ->); unfold lower; rewrite Ht.
  - intros d i Hin. apply (g_push_sub P E n) in Hin as [[[= -> ->] Ha]|Hin]; [| |done].
    + split_and!; [done|done|]. rewrite visited_in_mark by done. by left.
    + apply (bi_top _ _ _ _ Hi) in Hin as (? & ? & ?). split_and!; [done|done|].
      rewrite visited_in_mark by done. by right.
  - by eapply g_push_nodup, not_seen_not_top.
  - intros d i [[= -> ->]|Hin]%pq_elem_push.
    + split; [done|]. rewrite visited_in_mark by done. by left.
    + apply (bi_cand _ _ _ _ Hi) in Hin as (? & ?). split; [done|].
      rewrite visited_in_mark by done. by right.
  - intros i. rewrite visited_in_mark by done. intros [->|?]; [done|by apply Hi].
  - intros i Hv Ha. rewrite visited_in_mark in Hv by done.
    assert (∀ x, x = (dist id, id) ∨ x ∈ top_candidates v → acc id = true → x.2 = i → x.1 = dist i →
      i ∈ top.*2 ∨ far (mkLS top (pq_push cmp (candidateSet v) (dneg (dist id), id))
                    (lower top (lowerBound v)) (mark_visited (visited v) id)) i) as Hkeep.
    { intros x Hx Haid Hx2 Hx1. destruct (g_push_keep _ _ _ _ _ _ Hi Haid Hx) as [Hin|Hf].
      - left. apply list_elem_of_fmap. by exists x.
      - right. by rewrite Hx1 in Hf. }
    destruct Hv as [->|Hv]; [apply (Hkeep (dist id, id)); auto|].
    destruct (bi_best _ _ _ _ Hi i Hv Ha) as [Hin|Hf]; [|right; auto].
    destruct (acc id) eqn:Haid; [|by left; unfold top; rewrite g_push_reject by (done || apply Hi)].
    apply list_elem_of_fmap in Hin as ([d j] & -> & Hin).
    apply (Hkeep (d, j)); auto. by apply (bi_top _ _ _ _ Hi) in Hin as [-> _].
  - intros i Hv. rewrite visited_in_mark in Hv by done. rewrite pq_elem_push.
    destruct Hv as [->|Hv]; [auto|].
    destruct (bi_frontier _ _ _ _ Hi i Hv) as [?|[?|?]]; auto.
Qed.

(** A node that is only marked. *)
Lemma g_visit_ignored P E n v id :
  beam_inv P E n v → P id → id < n → ef ≤ pq_size (top_candidates v) →
  dlt (dist id) (lowerBound v) = false →
  beam_inv P E n (mkLS (top_candidates v) (candidateSet v) (lowerBound v) (mark_visited (visited v) id)).
Proof.
  intros Hi HP Hid Hs Hd.
  assert (vl_ok (visited v)) as Hvl by apply Hi.
  assert (id < numelements (visited v)) as Hid' by (rewrite (bi_num _ _ _ _ Hi); done).
  assert (pq_size (top_candidates v) = ef) as Hsz.
  { pose proof (bi_size _ _ _ _ Hi). lia. }
  destruct Hi as [H1 H2 H3 H4 H5 H6 H7 H8 H9 H10 H11 H12].
  split; simpl; try done.
  - by apply mark_visited_ok.
  - intros d i Hin. rewrite visited_in_mark by done. by destruct (H7 d i Hin) as (? & ? & ?); auto.
  - intros d i Hin. rewrite visited_in_mark by done. by destruct (H9 d i Hin); auto.
  - intros i. rewrite visited_in_mark by done. intros [->|?]; auto.
  - intros i. rewrite visited_in_mark by done. intros [->|?] Ha; [by right|by apply H11].
  - intros i. rewrite visited_in_mark by done. intros [->|?]; [by right; right|by apply H12].
Qed.

Lemma g_visit_inv P E n v id :
  beam_inv P E n v → P id → id < n → beam_inv P E n (g_visit v id).
Proof.
  intros Hi HP Hid. unfold g_visit. destruct (seen (visited v) id) eqn:Hs; [done|].
  assert (¬ visited_in (visited v) id) as Hn by (rewrite <- seen_true; congruence).
  destruct (N.ltb_spec (pq_size (top_candidates v)) ef); simpl.
  - apply g_visit_considered; auto.
  - destruct (dlt (dist id) (lowerBound v)) eqn:Hd.
    + apply g_visit_considered; auto.
    + by apply g_visit_ignored.
Qed.

Lemma g_visit_vl v id :
  visited (g_visit v id) = if seen (visited v) id then visited v else mark_visited (visited v) id.
Proof. unfold g_visit. destruct (seen (visited v) id); [done|]. by case_match. Qed.

Lemma g_visit_visited P E n v id j :
  beam_inv P E n v → id < n →
  visited_in (visited (g_visit v id)) j ↔ j = id ∨ visited_in (visited v) j.
Proof.
  intros Hi Hid. rewrite g_visit_vl. destruct (seen (visited v) id) eqn:Hs.
  - apply seen_true in Hs. split; [by right|]. by intros [->|?].
  - apply visited_in_mark; [apply Hi|]. by rewrite (bi_num _ _ _ _ Hi).
Qed.

(** ** Termination: candidates plus unvisited nodes *)
Definition measure (v : lstate D) : nat := (length (candidateSet v) + unvisited (visited v))%nat.

Lemma g_visit_measure P E n v id :
  beam_inv P E n v → id < n → (measure (g_visit v id) ≤ measure v)%nat.
Proof.
  intros Hi Hid. unfold g_visit, measure. destruct (seen (visited v) id) eqn:Hs; [done|].
  apply seen_false in Hs; [|apply Hi|by rewrite (bi_num _ _ _ _ Hi)].
  pose proof (unvisited_mark _ _ Hs).
  case_match; simpl; [rewrite pq_push_length|]; lia.
Qed.

(** ** Visiting the neighbours *)
Lemma g_for_inv P E n v ids :
  beam_inv P E n v → Forall (λ i, P i ∧ i < n) ids →
  beam_inv P E n (g_for v ids) ∧ (measure (g_for v ids) ≤ measure v)%nat ∧
  (∀ j, visited_in (visited (g_for v ids)) j ↔ j ∈ ids ∨ visited_in (visited v) j).
Proof.
  revert v. induction ids as [|id ids IH]; intros v Hi Hf.
  { split_and!; [done|done|]. intros j. split; [by right|]. intros [H%not_elem_of_nil|?]; done. }
  apply Forall_cons in Hf as [[HP Hid] Hf].
  destruct (IH (g_visit v id)) as (H1 & H2 & H3); [by apply g_visit_inv|done|].
  simpl. split_and!; [done| |].
  - pose proof (g_visit_measure _ _ _ _ _ Hi Hid). unfold g_for in *. lia.
  - intros j. unfold g_for in H3. rewrite H3, (g_visit_visited P E n), elem_of_cons by done. tauto.
Qed.

Lemma inv_pop P E n v d c :
  beam_inv P E n v → pq_top (candidateSet v) = Some (d, c) →
  beam_inv P (λ i, E i ∨ i = c) n
    (mkLS (top_candidates v) (pq_pop cmp (candidateSet v)) (lowerBound v) (visited v)).
Proof.
  intros [H1 H2 H3 H4 H5 H6 H7 H8 H9 H10 H11 H12] Ht. split; simpl; try done.
  - by apply pq_pop_heap; [apply _|].
  - intros d' i Hin%pq_elem_pop. auto.
  - intros i Hv. destruct (H12 i Hv) as [?|[Hin|?]]; [auto| |auto].
    rewrite (pq_pop_perm cmp _ _ Ht) in Hin.
    apply elem_of_cons in Hin as [[= _ ->]|Hin]; auto.
Qed.

(** ** The loop *)
Section loop.
Variables (P : tableint → Prop) (n : N).
Hypothesis P_nbs : ∀ i, P i → Forall P (nbs i).
Hypothesis P_lt : ∀ i, P i → i < n.

Definition expanded (E : tableint → Prop) (v : lstate D) : Prop :=
  ∀ e, E e → ∀ j, j ∈ nbs e → visited_in (visited v) j.

Lemma P_nbs_lt i : P i → Forall (λ j, P j ∧ j < n) (nbs i).
Proof. intros H%P_nbs. eapply Forall_impl; [done|]. intros j Hj. auto. Qed.

Lemma g_expand_inv E v d c :
  beam_inv P E n v → expanded E v → pq_top (candidateSet v) = Some (d, c) →
  beam_inv P (λ i, E i ∨ i = c) n (g_expand v c) ∧ expanded (λ i, E i ∨ i = c) (g_expand v c) ∧
  (measure (g_expand v c) < measure v)%nat ∧
  (∀ j, visited_in (visited v) j → visited_in (visited (g_expand v c)) j).
Proof.
  intros Hi HE Ht. pose proof (inv_pop _ _ _ _ _ _ Hi Ht) as Hpop.
  assert (P c) as Hc.
  { apply (bi_valid _ _ _ _ Hi). by apply pq_top_elem, (bi_cand _ _ _ _ Hi) in Ht as [_ ?]. }
  destruct (g_for_inv _ _ _ _ _ Hpop (P_nbs_lt c Hc)) as (H1 & H2 & H3).
  fold (g_expand v c) in H1, H2, H3. split_and!; [done| | |].
  - intros e [He| ->] j Hj; apply H3; [right; by eapply HE|by left].
  - unfold measure in *. simpl in H2. rewrite pq_pop_length in H2.
    destruct (candidateSet v); [done|]. simpl in *. lia.
  - intros j Hj. apply H3. by right.
Qed.

(** The loop has left: no candidate, or the closest one stops the search. *)
Definition finished (bare : bool) (v : lstate D) : Prop :=
  candidateSet v = [] ∨ ∃ d c, pq_top (candidateSet v) = Some (d, c) ∧ g_stop bare v d = true.

Lemma g_while_spec bare fuel E v :
  beam_inv P E n v → expanded E v → (measure v < fuel)%nat →
  ∃ v' E', g_while bare fuel v = Some v' ∧ beam_inv P E' n v' ∧ expanded E' v' ∧ finished bare v' ∧
    (∀ j, visited_in (visited v) j → visited_in (visited v') j).
Proof.
  revert E v. induction fuel as [|fuel IH]; intros E v Hi HE Hm; [lia|]. simpl.
  destruct (pq_top (candidateSet v)) as [[d c]|] eqn:Ht.
  - destruct (g_stop bare v d) eqn:Hs.
    + exists v, E. split_and!; [done..| |done]. right. eauto.
    + destruct (g_expand_inv _ _ _ _ Hi HE Ht) as (H1 & H2 & H3 & H4).
      destruct (IH _ _ H1 H2) as (v' & E' & ? & ? & ? & ? & ?); [lia|].
      exists v', E'. split_and!; [done..|]. auto.
  - apply pq_top_None in Ht. exists v, E. split_and!; [done..| |done]. by left.
Qed.

(** When every node is accepted, a candidate beyond the lower bound means
    that the result queue is full: the test of its size is redundant. *)
Lemma g_stop_bare E v d c :
  (∀ i, P i → acc i = true) → beam_inv P E n v → (d, c) ∈ candidateSet v →
  g_stop true v d = g_stop false v d.
Proof.
  intros Hacc Hi Hin. unfold g_stop. simpl. rewrite andb_true_r.
  destruct (dlt (lowerBound v) (dneg d)) eqn:Hd; [|done]. simpl. symmetry. apply N.eqb_eq.
  destruct (bi_cand _ _ _ _ Hi _ _ Hin) as [-> Hv]. rewrite dneg_neg in Hd.
  destruct (bi_best _ _ _ _ Hi c Hv) as [Hc|[? _]]; [by apply Hacc, Hi| |done].
  apply list_elem_of_fmap in Hc as ([d' c'] & -> & Hc).
  pose proof (lower_max _ _ _ _ _ Hi Hc) as Hlm.
  apply (bi_top _ _ _ _ Hi) in Hc as (-> & _ & _). simpl in *. congruence.
Qed.

Lemma g_while_bare fuel E v :
  (∀ i, P i → acc i = true) → beam_inv P E n v → expanded E v →
  g_while true fuel v = g_while false fuel v.
Proof.
  intros Hacc. revert E v. induction fuel as [|fuel IH]; intros E v Hi HE; [done|]. simpl.
  destruct (pq_top (candidateSet v)) as [[d c]|] eqn:Ht; [|done].
  rewrite (g_stop_bare E v d c) by eauto using pq_top_elem.
  destruct (g_stop false v d); [done|].
  destruct (g_expand_inv _ _ _ _ Hi HE Ht) as (H1 & H2 & _ & _). by eapply IH.
Qed.

(** ** The outcome *)

(** The queue is full and holds nothing that [i] would improve. *)
Definition worse (top : list (D * tableint)) (i : tableint) : Prop :=
  pq_size top = ef ∧ ∀ t, t ∈ top → dlt (dist i) t.1 = false.

Lemma far_worse E v i : beam_inv P E n v → far v i → worse (top_candidates v) i.
Proof.
  intros Hi [Hs Hd]. split; [done|]. intros t Ht.
  apply (sw_negtrans _ (lowerBound v)); [done|]. by eapply lower_max.
Qed.

(** [top] holds the nearest accepted nodes of the visited set [V], which is
    closed under links except at nodes that are no closer than all of [top]. *)
Record beam_result (ep : tableint) (top : list (D * tableint)) (V : tableint → Prop) : Prop := {
  br_heap : is_heap cmp top;
  br_size : pq_size top ≤ ef;
  br_nodup : NoDup top.*2;
  br_top d i : (d, i) ∈ top → d = dist i ∧ acc i = true ∧ V i;
  br_ep : V ep;
  br_valid i : V i → P i;
  br_best i : V i → acc i = true → i ∈ top.*2 ∨ worse top i;
  br_closed i : V i → (∀ j, j ∈ nbs i → V j) ∨ worse top i
}.

Lemma finished_result E v ep :
  beam_inv P E n v → expanded E v → finished false v → visited_in (visited v) ep →
  beam_result ep (top_candidates v) (visited_in (visited v)).
Proof.
  intros Hi HE Hf Hep. split; try by apply Hi.
  - done.
  - intros i Hv Ha. destruct (bi_best _ _ _ _ Hi i Hv Ha) as [?|?]; eauto using far_worse.
  - intros i Hv. destruct (bi_frontier _ _ _ _ Hi i Hv) as [He|[Hin|?]];
      [left; by apply HE| |by eauto using far_worse].
    destruct Hf as [Hn|(d & c & Ht & [Hd Hs]%andb_true_iff)].
    { rewrite Hn in Hin. by apply not_elem_of_nil in Hin. }
    right. apply (far_worse E); [done|]. simpl in Hs. apply N.eqb_eq in Hs. split; [done|].
    pose proof (is_heap_max cmp _ _ _ (bi_cand_heap _ _ _ _ Hi) Ht Hin) as Hmax.
    unfold cmp, lt_fst in Hmax. simpl in Hmax.
    rewrite <- (dneg_neg d), dneg_lt in Hmax.
    apply (sw_asym dlt). by apply (sw_lt_le_trans dlt _ (dneg d)).
Qed.

(** ** From the entry point *)
Lemma push_nil (x : D * tableint) : pq_push cmp [] x = [x].
Proof. apply Permutation_singleton_r. apply pq_push_perm. Qed.
Lemma pop_singleton (x : D * tableint) : pq_pop cmp [x] = [].
Proof. apply Permutation_nil_r. apply (pop_heap_perm cmp x []). Qed.

(** The entry point is always expanded. *)
Lemma g_while_init bare fuel ep vl :
  g_while bare (S fuel) (g_init ep vl) = g_while bare fuel (g_expand (g_init ep vl) ep).
Proof.
  simpl. destruct (pq_top (candidateSet (g_init ep vl))) as [[d c]|] eqn:Ht.
  - assert (c = ep ∧ d = dneg (lowerBound (g_init ep vl))) as [-> ->].
    { unfold g_init in Ht |- *. destruct (acc ep); simpl in *; rewrite push_nil in Ht;
        by injection Ht as <- <-. }
    unfold g_stop. by rewrite dneg_neg, sw_irrefl.
  - unfold g_init in Ht. destruct (acc ep); simpl in Ht; by rewrite push_nil in Ht.
Qed.

(** The state in which the entry point has been taken out. *)
Lemma g_init_popped ep vl :
  let v := g_init ep vl in
  vl_ok vl → numelements vl = n → P ep → (∀ i, i < n → is_visited vl i = Some false) →
  beam_inv P (λ i, i = ep) n
    (mkLS (top_candidates v) (pq_pop cmp (candidateSet v)) (lowerBound v) (visited v)).
Proof.
  intros v Hvl Hn Hep Hf.
  assert (ep < numelements vl) as Hlt by (rewrite Hn; auto).
  assert (∀ i, visited_in (mark_visited vl ep) i ↔ i = ep) as HV.
  { intros i. rewrite visited_in_mark by done. split; [|by left]. intros [?|Hv]; [done|].
    pose proof (is_visited_lt _ _ _ Hvl Hv) as Hi. rewrite Hn in Hi.
    unfold visited_in in Hv. rewrite Hf in Hv by done. done. }
  assert (pq_pop cmp (candidateSet v) = []) as ->.
  { unfold v, g_init. destruct (acc ep); simpl; by rewrite push_nil, pop_singleton. }
  unfold v, g_init. destruct (acc ep) eqn:Ha; simpl; rewrite ?push_nil; split; simpl;
    try (by apply mark_visited_ok); try (by apply is_heap_nil); try (by apply is_heap_singleton);
    try (by apply NoDup_singleton); try (by constructor); try done;
    try (by intros d i H%not_elem_of_nil); try (intros i ->%HV; by auto).
  - intros d i [= -> ->]%list_elem_of_singleton. by rewrite HV.
  - intros i ->%HV _. left. left.
  - unfold pq_size. simpl. lia.
  - intros i ->%HV. congruence.
Qed.

(** After the first expansion the invariant holds. *)
Lemma g_init_expanded ep vl :
  vl_ok vl → numelements vl = n → P ep → (∀ i, i < n → is_visited vl i = Some false) →
  let v := g_expand (g_init ep vl) ep in
  beam_inv P (λ i, i = ep) n v ∧ expanded (λ i, i = ep) v ∧ (measure v < N.to_nat n)%nat ∧
  visited_in (visited v) ep.
Proof.
  intros Hvl Hn Hep Hf v.
  pose proof (g_init_popped ep vl Hvl Hn Hep Hf) as Hpop.
  destruct (g_for_inv _ _ _ _ _ Hpop (P_nbs_lt ep Hep)) as (H1 & H2 & H3).
  fold (g_expand (g_init ep vl) ep) in H1, H2, H3. fold v in H1, H2, H3. split_and!; [done| | |].
  - intros e -> j Hj. apply H3. by left.
  - eapply Nat.le_lt_trans; [exact H2|]. unfold measure, g_init.
    assert (is_visited vl ep = Some false) as Hun by auto.
    pose proof (unvisited_mark _ _ Hun). pose proof (unvisited_le _ Hvl).
    destruct (acc ep); simpl; rewrite push_nil, pop_singleton; simpl; lia.
  - apply H3. right. unfold g_init.
    destruct (acc ep); simpl; apply is_visited_mark_eq; by rewrite ?Hn; auto.
Qed.

(** With every node accepted the two exit tests give the same run. *)
Lemma g_search_bare ep vl fuel :
  vl_ok vl → numelements vl = n → P ep → (∀ i, i < n → is_visited vl i = Some false) →
  (∀ i, P i → acc i = true) →
  g_while true fuel (g_init ep vl) = g_while false fuel (g_init ep vl).
Proof.
  intros Hvl Hn Hep Hf Hacc. destruct fuel as [|fuel]; [done|]. rewrite !g_while_init.
  destruct (g_init_expanded ep vl Hvl Hn Hep Hf) as (H1 & H2 & _). by eapply g_while_bare.
Qed.

Theorem g_search_spec bare ep vl fuel :
  vl_ok vl → numelements vl = n → P ep → (∀ i, i < n → is_visited vl i = Some false) →
  (bare = true → ∀ i, P i → acc i = true) → (N.to_nat n < fuel)%nat →
  ∃ v, g_while bare fuel (g_init ep vl) = Some v ∧
    vl_ok (visited v) ∧ numelements (visited v) = n ∧
    beam_result ep (top_candidates v) (visited_in (visited v)).
Proof.
  intros Hvl Hn Hep Hf Hb Hfuel.
  assert (g_while bare fuel (g_init ep vl) = g_while false fuel (g_init ep vl)) as ->.
  { destruct bare; [|done]. by apply g_search_bare; [..|apply Hb]. }
  destruct fuel as [|fuel]; [lia|]. rewrite g_while_init.
  destruct (g_init_expanded ep vl Hvl Hn Hep Hf) as (H1 & H2 & Hm & Hv).
  destruct (g_while_spec false fuel _ _ H1 H2) as (v & E & -> & H4 & H5 & H6 & H7); [lia|].
  exists v. split_and!; [done|apply H4|apply H4|]. eapply finished_result; eauto.
Qed.

(** ** Consequences *)
Lemma beam_nonempty ep top V : beam_result ep top V → acc ep = true → top ≠ [].
Proof.
  intros Hr Ha Hn. destruct (br_best _ _ _ Hr ep (br_ep _ _ _ Hr) Ha) as [Hin|[Hs _]]; subst.
  - by apply not_elem_of_nil in Hin.
  - unfold pq_size in Hs. simpl in Hs. lia.
Qed.

Lemma nodup_bound_all (l : list N) : NoDup l → Forall (λ i, i < n) l → n ≤ N.of_nat (length l) →
  ∀ i, i < n → i ∈ l.
Proof.
  clear ef_pos. intros Hnd Hf Hl i Hi.
  assert (l ≡ₚ N.of_nat <$> seq 0 (N.to_nat n)) as ->.
  { apply submseteq_length_Permutation.
    - apply NoDup_submseteq; [done|]. intros x Hx. rewrite Forall_forall in Hf. specialize (Hf x Hx).
      apply list_elem_of_fmap. exists (N.to_nat x). split; [lia|]. apply elem_of_seq. simpl in Hf. lia.
    - rewrite length_fmap, length_seq. lia. }
  apply list_elem_of_fmap. exists (N.to_nat i). split; [lia|]. apply elem_of_seq. lia.
Qed.

(** With [ef] at least the number of nodes the search is exhaustive. *)
Lemma beam_exhaustive ep top V i :
  beam_result ep top V → n ≤ ef → rtc (λ a b, b ∈ nbs a) ep i → acc i = true → i ∈ top.*2.
Proof.
  clear ef_pos. intros Hr Hn Hreach Ha.
  assert (∀ j, j ∈ top.*2 → V j) as HV.
  { intros j ([d j'] & -> & Hin)%list_elem_of_fmap. by apply (br_top _ _ _ Hr) in Hin as (_ & _ & ?). }
  destruct (decide (pq_size top = ef)) as [Hs|Hs].
  - apply nodup_bound_all; [apply Hr| |rewrite length_fmap; unfold pq_size in Hs; lia|].
    + apply Forall_forall. intros j Hj. by apply P_lt, (br_valid _ _ _ Hr), HV.
    + apply P_lt. clear Ha. revert i Hreach. apply rtc_ind_r; [apply (br_valid _ _ _ Hr), Hr|].
      intros y z _ Hz HP. pose proof (P_nbs _ HP) as Hf. rewrite Forall_forall in Hf. by apply Hf.
  - assert (V i) as Hi.
    { clear Ha. revert i Hreach. apply rtc_ind_r; [apply Hr|]. intros y z _ Hz HVy.
      destruct (br_closed _ _ _ Hr _ HVy) as [Hc|[? _]]; [auto|done]. }
    destruct (br_best _ _ _ Hr i Hi Ha) as [?|[? _]]; done.
Qed.

(** ** What the executable code needs along the way *)
Definition beam_safe (v : lstate D) : Prop :=
  vl_ok (visited v) ∧ numelements (visited v) = n ∧
  (∀ x, x ∈ candidateSet v → P x.2) ∧ pq_size (top_candidates v) ≤ ef.

Lemma g_push_size top id : pq_size top ≤ ef → pq_size (g_push top id) ≤ ef.
Proof.
  clear ef_pos. intros H. unfold g_push. destruct (acc id).
  - case_match eqn:E; [rewrite pq_pop_size, pq_push_size; lia|]. by apply N.ltb_ge in E.
  - by rewrite (proj2 (N.ltb_ge _ _)).
Qed.

Lemma g_visit_safe v id : beam_safe v → P id → beam_safe (g_visit v id).
Proof.
  intros (H1 & H2 & H3 & H4) HP. unfold g_visit. destruct (seen (visited v) id); [done|].
  case_match; (split; [|split; [|split]]); simpl; auto using mark_visited_ok, g_push_size.
  intros x [->|?]%pq_elem_push; auto.
Qed.
Lemma g_for_safe v ids : beam_safe v → Forall P ids → beam_safe (g_for v ids).
Proof.
  revert v. induction ids as [|id ids IH]; intros v Hv Hf; [done|].
  apply Forall_cons in Hf as [? ?]. simpl. apply IH; [|done]. by apply g_visit_safe.
Qed.
Lemma pop_safe v :
  beam_safe v →
  beam_safe (mkLS (top_candidates v) (pq_pop cmp (candidateSet v)) (lowerBound v) (visited v)).
Proof.
  intros (H1 & H2 & H3 & H4). split; [|split; [|split]]; simpl; try done.
  intros x ?%pq_elem_pop. auto.
Qed.
Lemma g_init_safe ep vl : vl_ok vl → numelements vl = n → P ep → beam_safe (g_init ep vl).
Proof.
  intros. unfold g_init. destruct (acc ep); (split; [|split; [|split]]); simpl; rewrite ?push_nil;
    auto using mark_visited_ok; try (by intros x ->%list_elem_of_singleton);
    unfold pq_size; simpl; lia.
Qed.
End loop.
End beam.

(** The outcome depends on the graph, the distance and the acceptance test
    only through their values; the latter on the nodes of the search. *)
Lemma beam_result_ext {D} `{DistT D} nbs nbs' (dist dist' : tableint → D) acc acc' ef (P P' : tableint → Prop) ep top V :
  (∀ i, nbs' i = nbs i) → (∀ i, dist' i = dist i) → (∀ i, P i → acc' i = acc i) → (∀ i, P i → P' i) →
  beam_result nbs dist acc ef P ep top V → beam_result nbs' dist' acc' ef P' ep top V.
Proof.
  intros Hn Hd Ha HP [H1 H2 H3 H4 H5 H6 H7 H8].
  assert (∀ i, worse dist ef top i → worse dist' ef top i) as Hw.
  { intros i [? Hi]. split; [done|]. intros t Ht. rewrite Hd. auto. }
  split; auto.
  - intros d i Hin. destruct (H4 d i Hin) as (? & ? & ?). rewrite Hd, Ha by auto. auto.
  - intros i Hi. rewrite Ha by auto. intros Hacc. destruct (H7 i Hi Hacc); auto.
  - intros i Hi. rewrite Hn. destruct (H8 i Hi); auto.
Qed.

Lemma g_while_acc `{HI : HeapImpl} {D} `{DistT D} nbs (dist : tableint → D) acc acc' ef (P : tableint → Prop) n bare fuel v :
  (∀ i, P i → Forall P (nbs i)) → (∀ i, P i → acc i = acc' i) → beam_safe ef P n v →
  g_while nbs dist acc ef bare fuel v = g_while nbs dist acc' ef bare fuel v.
Proof.
  intros HP Ha. revert v. induction fuel as [|fuel IH]; intros v Hv; [done|]. simpl.
  destruct (pq_top (candidateSet v)) as [[d c]|] eqn:Ht; [|done]. case_match; [done|].
  assert (P c) as Hc by (apply pq_top_elem in Ht; by apply Hv in Ht).
  assert (g_expand nbs dist acc ef v c = g_expand nbs dist acc' ef v c) as <-.
  { unfold g_expand, g_for. generalize (mkLS (top_candidates v) (pq_pop cmp (candidateSet v)) (lowerBound v) (visited v)).
    specialize (HP c Hc). induction HP as [|i ids Hi _ IHids]; intros w; simpl; [done|].
    rewrite IHids. unfold g_visit, g_push. by rewrite (Ha i Hi). }
  apply IH. unfold g_expand. apply g_for_safe; [by apply pop_safe|by apply HP].
Qed.
