(* ===== verification/Hnsw.v ===== *)
(** * hnswalg.h: the index, its memory and its element-level operations

    [HierarchicalNSW] keeps all vectors, labels and level-0 links of the
    elements in one array ([data_level0_memory_], here [level0]), the links of
    the upper levels in one block per element ([linkLists_], here [upper]), and
    the level of each element in [element_levels_].  A link list is a 32-bit
    word followed by a fixed number of 32-bit slots; the low 16 bits of the
    word are the number of links, and for level 0 bit 16 (the low bit of byte
    2, little-endian) is the delete mark.  An absent key is memory that was
    allocated and never written.

    Here an operation runs alone, so its mutexes have no effect; InsertThreads
    has the locks and runs insertions concurrently. *)

From Stdlib Require Import ZArith Lia.
From stdpp Require Import base numbers list gmap strings.
From S2P Require Import Prelude Heap VisitedList Arith.
#[local] Open Scope N_scope.

(** ** Link lists *)
Record linklist := mkLL { ll_word : N; ll_slots : list tableint }.

Definition getListCount (ll : linklist) : N := N.land (ll_word ll) (N.ones 16).
Definition setListCount (ll : linklist) (size : N) : linklist :=
  {| ll_word := N.lor (N.ldiff (ll_word ll) (N.ones 16)) (N.land size (N.ones 16));
     ll_slots := ll_slots ll |}.

(** A zeroed list with [n] slots ([memset]). *)
Definition blank_ll (n : N) : linklist := {| ll_word := 0; ll_slots := replicate (N.to_nat n) 0 |}.

(** The links stored in a list: [data[0], ..., data[count-1]]. *)
Definition links_of (ll : linklist) : res (list tableint) :=
  if (N.to_nat (getListCount ll) <=? length (ll_slots ll))%nat
  then Ok (take (N.to_nat (getListCount ll)) (ll_slots ll))
  else Undef "link count exceeds the slots".

Definition DELETE_MARK_BIT : N := 16.
Definition ll_deleted (ll : linklist) : bool := N.testbit (ll_word ll) DELETE_MARK_BIT.
Definition ll_mark (ll : linklist) : linklist :=
  {| ll_word := N.setbit (ll_word ll) DELETE_MARK_BIT; ll_slots := ll_slots ll |}.
Definition ll_unmark (ll : linklist) : linklist :=
  {| ll_word := N.clearbit (ll_word ll) DELETE_MARK_BIT; ll_slots := ll_slots ll |}.

(** One element of [data_level0_memory_]: links, vector, label. *)
Record element := mkEl { el_ll : linklist; el_data : point; el_label : labeltype }.

(** ** Random engines

    [random_level mult g] is the value of [(int)(-log(uniform(g)) * mult)],
    [None] when the product is no value of [int] (the draw is 0, or [mult] is
    infinite, as it is for [M = 1]); [uniform_float g] a draw of [std::uniform_real_distribution<float>(0, 1)];
    [inv_log M] the bits of [1 / log(1.0 * M)]. *)
Class RandomEngine := {
  engine : Type;
  seed_engine : N → engine;
  random_level : N → engine → option Z * engine;
  uniform_float : engine → float32 * engine;
  inv_log : N → N;
  random_level_nonneg M g l : (random_level (inv_log M) g).1 = Some l → (0 ≤ l)%Z;
  inv_log_bits M : inv_log M < 18446744073709551616;
  uniform_float_lt_1 g : SpecFloat.SFltb (f32_of_Z 1) (uniform_float g).1 = false
}.

(** [unordered_set]: [set_iter l] is the iteration order after inserting the
    elements of [l] in order into an empty set, [set_begin s] the element that
    [s.begin()] points to.  Both are unspecified. *)
Class HashOrder := {
  set_iter : list tableint → list tableint;
  set_iter_perm l : set_iter l ≡ₚ elements (list_to_set l : gset tableint);
  set_begin : gset tableint → tableint;
  set_begin_elem (s : gset tableint) : s ≠ ∅ → set_begin s ∈ s
}.

(** ** The index *)
Record config := mkConfig {
  max_elements_ : N;
  size_data_per_element_ : N;
  size_links_per_element_ : N;
  M_ : N;
  maxM_ : N;
  maxM0_ : N;
  ef_construction_ : N;
  ef_ : N;
  mult_ : N;
  size_links_level0_ : N;
  offsetData_ : N;
  offsetLevel0_ : N;
  label_offset_ : N;
  data_size_ : N;
  allow_replace_deleted_ : bool
}.

Record hnsw `{RandomEngine} := mkHnsw {
  cfg : config;
  cur_element_count : N;
  num_deleted_ : N;
  maxlevel_ : Z;
  enterpoint_node_ : tableint;
  level0 : gmap tableint element;
  upper : gmap tableint (list linklist);
  element_levels_ : list Z;
  label_lookup_ : gmap labeltype tableint;
  deleted_elements : gset tableint;
  visited_list_pool_ : VisitedListPool;
  level_generator_ : engine;
  update_probability_generator_ : engine;
  metric_distance_computations : Z;
  metric_hops : Z
}.

Section state.
Context `{RE : RandomEngine}.

(** ** Field updates *)
Definition set_cfg (c : config) (s : hnsw) : hnsw :=
  mkHnsw _ c (cur_element_count s) (num_deleted_ s) (maxlevel_ s) (enterpoint_node_ s)
    (level0 s) (upper s) (element_levels_ s) (label_lookup_ s) (deleted_elements s)
    (visited_list_pool_ s) (level_generator_ s) (update_probability_generator_ s)
    (metric_distance_computations s) (metric_hops s).
Definition set_count (n : N) (s : hnsw) : hnsw :=
  mkHnsw _ (cfg s) n (num_deleted_ s) (maxlevel_ s) (enterpoint_node_ s)
    (level0 s) (upper s) (element_levels_ s) (label_lookup_ s) (deleted_elements s)
    (visited_list_pool_ s) (level_generator_ s) (update_probability_generator_ s)
    (metric_distance_computations s) (metric_hops s).
Definition set_deleted (n : N) (d : gset tableint) (s : hnsw) : hnsw :=
  mkHnsw _ (cfg s) (cur_element_count s) n (maxlevel_ s) (enterpoint_node_ s)
    (level0 s) (upper s) (element_levels_ s) (label_lookup_ s) d
    (visited_list_pool_ s) (level_generator_ s) (update_probability_generator_ s)
    (metric_distance_computations s) (metric_hops s).
Definition set_entry (ep : tableint) (l : Z) (s : hnsw) : hnsw :=
  mkHnsw _ (cfg s) (cur_element_count s) (num_deleted_ s) l ep
    (level0 s) (upper s) (element_levels_ s) (label_lookup_ s) (deleted_elements s)
    (visited_list_pool_ s) (level_generator_ s) (update_probability_generator_ s)
    (metric_distance_computations s) (metric_hops s).
Definition set_level0 (m : gmap tableint element) (s : hnsw) : hnsw :=
  mkHnsw _ (cfg s) (cur_element_count s) (num_deleted_ s) (maxlevel_ s) (enterpoint_node_ s)
    m (upper s) (element_levels_ s) (label_lookup_ s) (deleted_elements s)
    (visited_list_pool_ s) (level_generator_ s) (update_probability_generator_ s)
    (metric_distance_computations s) (metric_hops s).
Definition set_upper (m : gmap tableint (list linklist)) (s : hnsw) : hnsw :=
  mkHnsw _ (cfg s) (cur_element_count s) (num_deleted_ s) (maxlevel_ s) (enterpoint_node_ s)
    (level0 s) m (element_levels_ s) (label_lookup_ s) (deleted_elements s)
    (visited_list_pool_ s) (level_generator_ s) (update_probability_generator_ s)
    (metric_distance_computations s) (metric_hops s).
Definition set_levels (l : list Z) (s : hnsw) : hnsw :=
  mkHnsw _ (cfg s) (cur_element_count s) (num_deleted_ s) (maxlevel_ s) (enterpoint_node_ s)
    (level0 s) (upper s) l (label_lookup_ s) (deleted_elements s)
    (visited_list_pool_ s) (level_generator_ s) (update_probability_generator_ s)
    (metric_distance_computations s) (metric_hops s).
Definition set_lookup (m : gmap labeltype tableint) (s : hnsw) : hnsw :=
  mkHnsw _ (cfg s) (cur_element_count s) (num_deleted_ s) (maxlevel_ s) (enterpoint_node_ s)
    (level0 s) (upper s) (element_levels_ s) m (deleted_elements s)
    (visited_list_pool_ s) (level_generator_ s) (update_probability_generator_ s)
    (metric_distance_computations s) (metric_hops s).
Definition set_pool (p : VisitedListPool) (s : hnsw) : hnsw :=
  mkHnsw _ (cfg s) (cur_element_count s) (num_deleted_ s) (maxlevel_ s) (enterpoint_node_ s)
    (level0 s) (upper s) (element_levels_ s) (label_lookup_ s) (deleted_elements s)
    p (level_generator_ s) (update_probability_generator_ s)
    (metric_distance_computations s) (metric_hops s).
Definition set_gens (g u : engine) (s : hnsw) : hnsw :=
  mkHnsw _ (cfg s) (cur_element_count s) (num_deleted_ s) (maxlevel_ s) (enterpoint_node_ s)
    (level0 s) (upper s) (element_levels_ s) (label_lookup_ s) (deleted_elements s)
    (visited_list_pool_ s) g u (metric_distance_computations s) (metric_hops s).
Definition set_metrics (d h : Z) (s : hnsw) : hnsw :=
  mkHnsw _ (cfg s) (cur_element_count s) (num_deleted_ s) (maxlevel_ s) (enterpoint_node_ s)
    (level0 s) (upper s) (element_levels_ s) (label_lookup_ s) (deleted_elements s)
    (visited_list_pool_ s) (level_generator_ s) (update_probability_generator_ s) d h.

(** ** Construction *)
Definition HierarchicalNSW_new `{Alloc} (space_data_size max_elements M ef_construction
    random_seed : N) (allow_replace_deleted : bool) : hnsw :=
  let M' := if M <=? 10000 then M else 10000 in
  let size_links_level0 := M' * 2 * 4 + 4 in
  {| cfg := {|
       max_elements_ := max_elements;
       size_data_per_element_ := size_links_level0 + space_data_size + 8;
       size_links_per_element_ := M' * 4 + 4;
       M_ := M'; maxM_ := M'; maxM0_ := M' * 2;
       ef_construction_ := N.max ef_construction M'; ef_ := 10; mult_ := inv_log M';
       size_links_level0_ := size_links_level0;
       offsetData_ := size_links_level0; offsetLevel0_ := 0;
       label_offset_ := size_links_level0 + space_data_size;
       data_size_ := space_data_size;
       allow_replace_deleted_ := allow_replace_deleted |};
     cur_element_count := 0; num_deleted_ := 0; maxlevel_ := -1;
     enterpoint_node_ := 4294967295;
     level0 := ∅; upper := ∅; element_levels_ := replicate (N.to_nat max_elements) 0%Z;
     label_lookup_ := ∅; deleted_elements := ∅;
     visited_list_pool_ := VisitedListPool_new 1 max_elements;
     level_generator_ := seed_engine random_seed;
     update_probability_generator_ := seed_engine (random_seed + 1);
     metric_distance_computations := 0; metric_hops := 0 |}.

(** ** Memory access *)
Definition get_el (s : hnsw) (id : tableint) : res element :=
  if id <? max_elements_ (cfg s) then of_opt "element never written" (level0 s !! id)
  else Undef "element outside the array".
Definition put_el (id : tableint) (e : element) (s : hnsw) : hnsw :=
  set_level0 (<[id := e]> (level0 s)) s.

Definition getExternalLabel (s : hnsw) (id : tableint) : res labeltype :=
  e <- get_el s id ;; Ok (el_label e).
Definition setExternalLabel (id : tableint) (label : labeltype) : eff hnsw unit :=
  let* e := eff_lift (λ s, get_el s id) in
  eff_mod (put_el id {| el_ll := el_ll e; el_data := el_data e; el_label := label |}).
Definition getDataByInternalId (s : hnsw) (id : tableint) : res point :=
  e <- get_el s id ;; Ok (el_data e).

Definition get_linklist0 (s : hnsw) (id : tableint) : res linklist :=
  e <- get_el s id ;; Ok (el_ll e).
Definition get_linklist (s : hnsw) (id : tableint) (level : Z) : res linklist :=
  ls <- of_opt "no upper lists" (upper s !! id) ;;
  if (level <? 1)%Z then Undef "level below the upper lists"
  else of_opt "level above the upper lists" (ls !! Z.to_nat (level - 1)).
Definition get_linklist_at_level (s : hnsw) (id : tableint) (level : Z) : res linklist :=
  if (level =? 0)%Z then get_linklist0 s id else get_linklist s id level.

(** Write a link list back. *)
Definition put_linklist (id : tableint) (level : Z) (ll : linklist) (s : hnsw) : hnsw :=
  if (level =? 0)%Z then
    match level0 s !! id with
    | Some e => put_el id {| el_ll := ll; el_data := el_data e; el_label := el_label e |} s
    | None => s
    end
  else
    match upper s !! id with
    | Some ls => set_upper (<[id := <[Z.to_nat (level - 1) := ll]> ls]> (upper s)) s
    | None => s
    end.

Definition get_level (s : hnsw) (id : tableint) : res Z :=
  of_opt "element_levels_ index" (element_levels_ s !! N.to_nat id).

(** The number of slots of a list: [level ? maxM_ : maxM0_]. *)
Definition Mmax (s : hnsw) (level : Z) : N := if (level =? 0)%Z then maxM0_ (cfg s) else maxM_ (cfg s).

(** ** Sizes and parameters *)
Definition setEf (ef : N) (s : hnsw) : hnsw :=
  let c := cfg s in
  set_cfg {| max_elements_ := max_elements_ c; size_data_per_element_ := size_data_per_element_ c;
    size_links_per_element_ := size_links_per_element_ c; M_ := M_ c; maxM_ := maxM_ c;
    maxM0_ := maxM0_ c; ef_construction_ := ef_construction_ c; ef_ := ef; mult_ := mult_ c;
    size_links_level0_ := size_links_level0_ c; offsetData_ := offsetData_ c;
    offsetLevel0_ := offsetLevel0_ c; label_offset_ := label_offset_ c;
    data_size_ := data_size_ c; allow_replace_deleted_ := allow_replace_deleted_ c |} s.
Definition set_max_elements (n : N) (c : config) : config :=
  {| max_elements_ := n; size_data_per_element_ := size_data_per_element_ c;
    size_links_per_element_ := size_links_per_element_ c; M_ := M_ c; maxM_ := maxM_ c;
    maxM0_ := maxM0_ c; ef_construction_ := ef_construction_ c; ef_ := ef_ c; mult_ := mult_ c;
    size_links_level0_ := size_links_level0_ c; offsetData_ := offsetData_ c;
    offsetLevel0_ := offsetLevel0_ c; label_offset_ := label_offset_ c;
    data_size_ := data_size_ c; allow_replace_deleted_ := allow_replace_deleted_ c |}.

Definition getMaxElements (s : hnsw) : N := max_elements_ (cfg s).
Definition getCurrentElementCount (s : hnsw) : N := cur_element_count s.
Definition getDeletedCount (s : hnsw) : N := num_deleted_ s.
(** [getLabelOpMutex]: the index of the lock of a label. *)
Definition label_lock (label : labeltype) : N := N.land label (65536 - 1).

(** [vector::resize]: truncate, or extend with zeros. *)
Definition vector_resize (l : list Z) (n : N) : list Z :=
  take (N.to_nat n) l ++ replicate (N.to_nat n - length l) 0%Z.

(** [realloc] keeps the elements below the new size. *)
Definition resizeIndex `{Alloc} (new_max_elements : N) : eff hnsw unit := λ s,
  if new_max_elements <? cur_element_count s
  then (s, Throw "Cannot resize, max element is less than the current number of elements")
  else
    let keep {A} (m : gmap tableint A) : gmap tableint A :=
      filter (λ kv : tableint * A, kv.1 < new_max_elements) m in
    (set_cfg (set_max_elements new_max_elements (cfg s))
      (set_upper (keep (upper s))
        (set_level0 (keep (level0 s))
          (set_levels (vector_resize (element_levels_ s) new_max_elements)
            (set_pool (VisitedListPool_new 1 new_max_elements) s)))), Ok tt).

(** ** Deletion marks *)
Definition isMarkedDeleted (s : hnsw) (id : tableint) : res bool :=
  ll <- get_linklist0 s id ;; Ok (ll_deleted ll).

Definition put_mark (id : tableint) (f : linklist → linklist) (s : hnsw) : hnsw :=
  match level0 s !! id with
  | Some e => put_el id {| el_ll := f (el_ll e); el_data := el_data e; el_label := el_label e |} s
  | None => s
  end.

Definition markDeletedInternal (internalId : tableint) : eff hnsw unit := λ s,
  if cur_element_count s <=? internalId then (s, Undef "assert(internalId < cur_element_count)")
  else match isMarkedDeleted s internalId with
  | Ok false =>
      let s1 := put_mark internalId ll_mark s in
      (set_deleted (num_deleted_ s + 1)
         (if allow_replace_deleted_ (cfg s) then {[internalId]} ∪ deleted_elements s
          else deleted_elements s) s1, Ok tt)
  | Ok true => (s, Throw "The requested to delete element is already deleted")
  | Throw e => (s, Throw e) | Undef u => (s, Undef u) | Fuel => (s, Fuel)
  end.

Definition unmarkDeletedInternal (internalId : tableint) : eff hnsw unit := λ s,
  if cur_element_count s <=? internalId then (s, Undef "assert(internalId < cur_element_count)")
  else match isMarkedDeleted s internalId with
  | Ok true =>
      let s1 := put_mark internalId ll_unmark s in
      (set_deleted ((num_deleted_ s + 18446744073709551615) mod 18446744073709551616)
         (if allow_replace_deleted_ (cfg s) then deleted_elements s ∖ {[internalId]}
          else deleted_elements s) s1, Ok tt)
  | Ok false => (s, Throw "The requested to undelete element is not deleted")
  | Throw e => (s, Throw e) | Undef u => (s, Undef u) | Fuel => (s, Fuel)
  end.

Definition markDelete (label : labeltype) : eff hnsw unit := λ s,
  match label_lookup_ s !! label with
  | None => (s, Throw "Label not found")
  | Some internalId => markDeletedInternal internalId s
  end.
Definition unmarkDelete (label : labeltype) : eff hnsw unit := λ s,
  match label_lookup_ s !! label with
  | None => (s, Throw "Label not found")
  | Some internalId => unmarkDeletedInternal internalId s
  end.

(** [getDataByLabel<float>]: the first [dim] floats, four bytes each. *)
Definition getDataByLabel (dim : N) (s : hnsw) (label : labeltype) : res point :=
  match label_lookup_ s !! label with
  | None => Throw "Label not found"
  | Some internalId =>
      d <- isMarkedDeleted s internalId ;;
      if d then Throw "Label not found"
      else
        p <- getDataByInternalId s internalId ;;
        if (4 * N.to_nat dim <=? length p)%nat then Ok (take (4 * N.to_nat dim) p)
        else Undef "reads past the vector"
  end.

Definition getRandomLevel : eff hnsw Z := λ s,
  let '(l, g) := random_level (mult_ (cfg s)) (level_generator_ s) in
  (set_gens g (update_probability_generator_ s) s,
   of_opt "level is not representable as int" l).

Definition getConnectionsWithLock (s : hnsw) (internalId : tableint) (level : Z) : res (list tableint) :=
  ll <- get_linklist_at_level s internalId level ;; links_of ll.

(** ** checkIntegrity *)
Fixpoint ci_targets (count i : N) (data : list tableint) (inbound : list N) : res (list N) :=
  match data with
  | [] => Ok inbound
  | t :: rest =>
      if negb (t <? count) then Undef "assert(data[j] < cur_element_count)"
      else if t =? i then Undef "assert(data[j] != i)"
      else ci_targets count i rest (alter N.succ (N.to_nat t) inbound)
  end.

(** The lists of levels [l], [l + 1], ... ([n] of them) of element [i]. *)
Fixpoint ci_levels (n : nat) (s : hnsw) (i : tableint) (l : Z) (inbound : list N) (checked : N) :
    res (list N * N) :=
  match n with
  | O => Ok (inbound, checked)
  | S n =>
      ll_cur <- get_linklist_at_level s i l ;;
      data <- links_of ll_cur ;;
      inbound <- ci_targets (cur_element_count s) i data inbound ;;
      if bool_decide (size (list_to_set data : gset tableint) = length data)
      then ci_levels n s i (l + 1) inbound (checked + N.of_nat (length data))
      else Undef "assert(s.size() == size)"
  end.

Fixpoint ci_elements (n : nat) (s : hnsw) (i : tableint) (inbound : list N) (checked : N) :
    res (list N * N) :=
  match n with
  | O => Ok (inbound, checked)
  | S n =>
      lv <- get_level s i ;;
      r <- ci_levels (Z.to_nat (lv + 1)) s i 0 inbound checked ;;
      ci_elements n s (i + 1) r.1 r.2
  end.

(** The inbound counts and the number of connections checked. *)
Definition checkIntegrity (s : hnsw) : res (list N * N) :=
  let n := N.to_nat (cur_element_count s) in
  r <- ci_elements n s 0 (replicate n 0) 0 ;;
  if (1 <? n)%nat && negb (forallb (N.ltb 0) r.1) then Undef "assert(inbound_connections_num[i] > 0)"
  else Ok r.
End state.

(** ** Instances for running the model *)

(** An engine that reads its levels from a list, then returns 0. *)
#[export, program] Instance scripted_engine : RandomEngine := {
  engine := list N;
  seed_engine _ := [];
  random_level _ g := match g with [] => (Some 0%Z, []) | x :: r => (Some (Z.of_N x), r) end;
  uniform_float g := (SpecFloat.S754_zero false, g);
  inv_log M := M mod 18446744073709551616
}.
Next Obligation. intros M [|x g] l [= <-]; lia. Qed.
Next Obligation. intros M. by apply N.mod_lt. Qed.
Next Obligation. intros g. vm_compute. done. Qed.

(** Sets iterated in the order of the last insertion of each element. *)
#[export, program] Instance list_order : HashOrder := {
  set_iter l := remove_dups l;
  set_begin s := default 0 (head (elements s))
}.
Next Obligation.
  intros l. simpl. apply NoDup_Permutation; [apply NoDup_remove_dups|apply NoDup_elements|].
  intros x. rewrite elem_of_remove_dups, elem_of_elements. symmetry. apply elem_of_list_to_set.
Qed.
Next Obligation.
  intros s Hs. simpl. destruct (elements s) as [|x l] eqn:E; simpl.
  - apply elements_empty_inv in E. by apply leibniz_equiv in E.
  - apply elem_of_elements. rewrite E. left.
Qed.
