(* ===== verification/HnswPersist.v ===== *)
(** * hnswalg.h: saveIndex, loadIndex, indexFileSize

    The file holds 13 header fields, the level-0 memory of the elements, and
    for each element the size of its upper link lists followed by the lists.
    [saveIndex] gives the bytes written; [loadIndex] runs on the bytes of the
    file, if it can be opened, and on the object it is called on, whose members
    it overwrites field by field.  A file whose offsets are not those of the
    constructor has no counterpart in [hnsw] (its fields would overlap in
    memory); the model stops there with [Undef]. *)

From Stdlib Require Import ZArith Lia.
From stdpp Require Import base numbers list gmap strings.
From S2P Require Import Prelude Heap Binary VisitedList Arith Hnsw.
#[local] Open Scope N_scope.

(** ** Object representations *)
Definition enc_ll (ll : linklist) : list N := le 4 (ll_word ll) ++ concat (le 4 <$> ll_slots ll).
Definition enc_el (e : element) : list N := enc_ll (el_ll e) ++ el_data e ++ le 8 (el_label e).

Definition slice (off n : N) (bs : list N) : list N := take (N.to_nat n) (drop (N.to_nat off) bs).
Fixpoint words (n : nat) (bs : list N) : list N :=
  match n with
  | O => []
  | S n => of_le (take 4 bs) :: words n (drop 4 bs)
  end.
Definition dec_ll (slots : N) (bs : list N) : linklist :=
  {| ll_word := of_le (take 4 bs); ll_slots := words (N.to_nat slots) (drop 4 bs) |}.
(** Links, vector and label at their offsets in an element's memory. *)
Definition dec_el (c : config) (bs : list N) : element :=
  {| el_ll := dec_ll (maxM0_ c) (drop (N.to_nat (offsetLevel0_ c)) bs);
     el_data := slice (offsetData_ c) (data_size_ c) bs;
     el_label := of_le (slice (label_offset_ c) 8 bs) |}.
Fixpoint dec_lists (n : nat) (slots : N) (bs : list N) : list linklist :=
  match n with
  | O => []
  | S n => dec_ll slots bs :: dec_lists n slots (drop (N.to_nat (4 * slots + 4)) bs)
  end.

(** The offsets set by the constructor. *)
Definition layout_ok (c : config) : bool :=
  (offsetLevel0_ c =? 0) && (offsetData_ c =? maxM0_ c * 4 + 4) &&
  (label_offset_ c =? offsetData_ c + data_size_ c) && (size_data_per_element_ c =? label_offset_ c + 8) &&
  (size_links_per_element_ c =? maxM_ c * 4 + 4) && (size_links_level0_ c =? maxM0_ c * 4 + 4).

Section persist.
Context `{RE : RandomEngine} `{AL : Alloc}.

(** ** saveIndex *)
Definition save_header (s : hnsw) : list N :=
  le 8 (offsetLevel0_ (cfg s)) ++ le 8 (max_elements_ (cfg s)) ++ le 8 (cur_element_count s) ++
  le 8 (size_data_per_element_ (cfg s)) ++ le 8 (label_offset_ (cfg s)) ++ le 8 (offsetData_ (cfg s)) ++
  le 4 (of_int (maxlevel_ s)) ++ le 4 (enterpoint_node_ s) ++ le 8 (maxM_ (cfg s)) ++
  le 8 (maxM0_ (cfg s)) ++ le 8 (M_ (cfg s)) ++ le 8 (mult_ (cfg s)) ++ le 8 (ef_construction_ (cfg s)).

Fixpoint save_level0 (n : nat) (s : hnsw) (i : tableint) : res (list N) :=
  match n with
  | O => Ok []
  | S n =>
      e <- get_el s i ;;
      rest <- save_level0 n s (i + 1) ;;
      Ok (enc_el e ++ rest)
  end.

(** [unsigned int linkListSize] *)
Definition linkListSize (s : hnsw) (level : Z) : N :=
  if (0 <? level)%Z then (size_links_per_element_ (cfg s) * Z.to_N level) mod 4294967296 else 0.

Fixpoint save_lists (n : nat) (s : hnsw) (i : tableint) : res (list N) :=
  match n with
  | O => Ok []
  | S n =>
      level <- get_level s i ;;
      let size := linkListSize s level in
      block <- (if size =? 0 then Ok []
                else ls <- of_opt "no upper lists" (upper s !! i) ;;
                     let bs := concat (enc_ll <$> ls) in
                     if (N.to_nat size <=? length bs)%nat then Ok (take (N.to_nat size) bs)
                     else Undef "write reads past the lists") ;;
      rest <- save_lists n s (i + 1) ;;
      Ok (le 4 size ++ block ++ rest)
  end.

Definition saveIndex (s : hnsw) : res (list N) :=
  let n := N.to_nat (cur_element_count s) in
  level0_bytes <- save_level0 n s 0 ;;
  list_bytes <- save_lists n s 0 ;;
  Ok (save_header s ++ level0_bytes ++ list_bytes).

(** ** indexFileSize *)
Fixpoint file_lists_size (n : nat) (s : hnsw) (i : tableint) (size : N) : res N :=
  match n with
  | O => Ok size
  | S n =>
      level <- get_level s i ;;
      file_lists_size n s (i + 1) (size + 4 + linkListSize s level)
  end.
Definition indexFileSize (s : hnsw) : res N :=
  file_lists_size (N.to_nat (cur_element_count s)) s 0
    (8 + 8 + 8 + 8 + 8 + 8 + 4 + 4 + 8 + 8 + 8 + 8 + 8 + cur_element_count s * size_data_per_element_ (cfg s)).

(** ** loadIndex *)

(** The upper lists freed by [clear]. *)
Fixpoint free_lists (n : nat) (s : hnsw) (i : tableint) : res unit :=
  match n with
  | O => Ok tt
  | S n =>
      level <- get_level s i ;;
      _ <- (if (0 <? level)%Z then of_opt "linkLists_[i] of no element" (upper s !! i) else Ok []) ;;
      free_lists n s (i + 1)
  end.
(** [clear()], also the destructor: the memory is freed; the members it does
    not name keep their values. *)
Definition clear : eff hnsw unit :=
  let* _ := eff_lift (λ s, free_lists (N.to_nat (cur_element_count s)) s 0) in
  eff_mod (λ s, set_pool {| pool := []; pool_numelements := 0 |} (set_level0 ∅ (set_upper ∅ (set_count 0 s)))).

Record header := mkHeader {
  h_offsetLevel0 : N; h_max_elements : N; h_count : N; h_size : N; h_label_offset : N; h_offsetData : N;
  h_maxlevel : N; h_enterpoint : N; h_maxM : N; h_maxM0 : N; h_M : N; h_mult : N; h_ef_construction : N
}.
(** A field that cannot be read keeps the member's value. *)
Definition read_header (s : hnsw) (st : stream) : header * stream :=
  let '(o0, st) := read_pod 8 (offsetLevel0_ (cfg s)) st in
  let '(mx, st) := read_pod 8 (max_elements_ (cfg s)) st in
  let '(cnt, st) := read_pod 8 (cur_element_count s) st in
  let '(sz, st) := read_pod 8 (size_data_per_element_ (cfg s)) st in
  let '(lo, st) := read_pod 8 (label_offset_ (cfg s)) st in
  let '(od, st) := read_pod 8 (offsetData_ (cfg s)) st in
  let '(ml, st) := read_pod 4 (of_int (maxlevel_ s)) st in
  let '(ep, st) := read_pod 4 (enterpoint_node_ s) st in
  let '(mM, st) := read_pod 8 (maxM_ (cfg s)) st in
  let '(mM0, st) := read_pod 8 (maxM0_ (cfg s)) st in
  let '(M, st) := read_pod 8 (M_ (cfg s)) st in
  let '(mult, st) := read_pod 8 (mult_ (cfg s)) st in
  let '(efc, st) := read_pod 8 (ef_construction_ (cfg s)) st in
  (mkHeader o0 mx cnt sz lo od ml ep mM mM0 M mult efc, st).

(** The members after the header has been read; [max_elements_i] is used when
    the elements fit. *)
Definition load_max (h : header) (max_elements_i : N) : N :=
  if max_elements_i <? h_count h then h_max_elements h else max_elements_i.
Definition load_config (c : config) (h : header) (space_data_size max_elements_i : N) : config :=
  {| max_elements_ := load_max h max_elements_i;
     size_data_per_element_ := h_size h; size_links_per_element_ := size_links_per_element_ c;
     M_ := h_M h; maxM_ := h_maxM h; maxM0_ := h_maxM0 h; ef_construction_ := h_ef_construction h;
     ef_ := ef_ c; mult_ := h_mult h; size_links_level0_ := size_links_level0_ c;
     offsetData_ := h_offsetData h; offsetLevel0_ := h_offsetLevel0 h; label_offset_ := h_label_offset h;
     data_size_ := space_data_size; allow_replace_deleted_ := allow_replace_deleted_ c |}.
Definition set_header (h : header) (space_data_size max_elements_i : N) (s : hnsw) : hnsw :=
  set_entry (h_enterpoint h) (to_int (h_maxlevel h)) (set_count (h_count h)
    (set_cfg (load_config (cfg s) h space_data_size max_elements_i) s)).
(** [size_links_per_element_], [size_links_level0_] and [ef_] are set later. *)
Definition finish_config (c : config) : config :=
  {| max_elements_ := max_elements_ c; size_data_per_element_ := size_data_per_element_ c;
     size_links_per_element_ := maxM_ c * 4 + 4; M_ := M_ c; maxM_ := maxM_ c; maxM0_ := maxM0_ c;
     ef_construction_ := ef_construction_ c; ef_ := 10; mult_ := mult_ c;
     size_links_level0_ := maxM0_ c * 4 + 4; offsetData_ := offsetData_ c; offsetLevel0_ := offsetLevel0_ c;
     label_offset_ := label_offset_ c; data_size_ := data_size_ c;
     allow_replace_deleted_ := allow_replace_deleted_ c |}.

Definition corrupted : string := "Index seems to be corrupted or unsupported".

(** [streamoff] is a signed 64-bit integer. *)
Definition to_off (n : N) : Z :=
  let m := n mod 18446744073709551616 in
  if m <? 9223372036854775808 then Z.of_N m else (Z.of_N m - 18446744073709551616)%Z.

(** The walk over the list sizes that precedes the loading. *)
Fixpoint check_lists (n : nat) (st : stream) : res stream :=
  match n with
  | O => Ok st
  | S n =>
      if (tellg st <? 0)%Z || (total_filesize st <=? tellg st)%Z then Throw corrupted
      else
        let '(size, st1) := read_pod 4 0 st in
        check_lists n (if size =? 0 then st1 else seekg (pos st1 + Z.of_N size) st1)
  end.

(** [input.read(data_level0_memory_, ...)]: [n] elements of [size] bytes from [i] on. *)
Fixpoint load_level0 (n : nat) (c : config) (i : tableint) (bs : list N) (m : gmap tableint element) :
    gmap tableint element :=
  match n with
  | O => m
  | S n => load_level0 n c (i + 1) (drop (N.to_nat (size_data_per_element_ c)) bs)
             (<[i := dec_el c (take (N.to_nat (size_data_per_element_ c)) bs)]> m)
  end.

(** The loop that reads labels and upper lists. *)
Fixpoint load_lists (n : nat) (i : tableint) (st : stream) : eff hnsw stream :=
  match n with
  | O => eff_ret st
  | S n =>
      let* label := eff_lift (λ s, getExternalLabel s i) in
      let* _ := eff_mod (λ s, set_lookup (<[label := i]> (label_lookup_ s)) s) in
      let '(size, st1) := read_pod 4 0 st in
      if size =? 0 then
        let* _ := eff_mod (λ s, set_levels (<[N.to_nat i := 0%Z]> (element_levels_ s)) s) in
        load_lists n (i + 1) st1
      else
        let '(bs, st2) := sread size st1 in
        let* _ := eff_mod (λ s,
          let levels := size / size_links_per_element_ (cfg s) in
          set_upper (<[i := dec_lists (N.to_nat levels) (maxM_ (cfg s)) bs]> (upper s))
            (set_levels (<[N.to_nat i := Z.of_N levels]> (element_levels_ s)) s)) in
        load_lists n (i + 1) st2
  end.

(** The loop that counts the deleted elements. *)
Fixpoint load_deleted (n : nat) (i : tableint) : eff hnsw unit :=
  match n with
  | O => eff_ret tt
  | S n =>
      let* d := eff_lift (λ s, isMarkedDeleted s i) in
      let* _ := (if (d : bool) then
                   eff_mod (λ s, set_deleted (num_deleted_ s + 1)
                     (if allow_replace_deleted_ (cfg s) then {[i]} ∪ deleted_elements s
                      else deleted_elements s) s)
                 else eff_ret tt) in
      load_deleted n (i + 1)
  end.

(** After the checks: [st] stands behind the header. *)
Definition load_body (st : stream) : eff hnsw unit :=
  let* count := eff_get cur_element_count in
  let* c := eff_get cfg in
  if max_elements_ c <? count then eff_undef "input.read writes past the level-0 memory"
  else if 18446744073709551616 <=? max_elements_ c * size_data_per_element_ c then eff_undef "size_t overflow"
  else if 9223372036854775808 <=? max_elements_ c * size_data_per_element_ c
  then eff_throw "Not enough memory: loadIndex failed to allocate level0"
  else if negb (layout_ok (finish_config c)) then eff_undef "layout without counterpart"
  else
    let '(bs, st1) := sread (count * size_data_per_element_ c) st in
    let* _ := eff_mod (λ s,
      set_level0 (load_level0 (N.to_nat count) c 0 bs ∅)
        (set_cfg (finish_config c)
          (set_pool (VisitedListPool_new 1 (max_elements_ c))
            (set_levels (replicate (N.to_nat (max_elements_ c)) 0%Z) s)))) in
    let* _ := load_lists (N.to_nat count) 0 st1 in
    load_deleted (N.to_nat count) 0.

Definition load_checked (bytes : list N) (space_data_size max_elements_i : N) : eff hnsw unit := λ s,
  let '(h, st) := read_header s (mkStream bytes 0 false) in
  let s' := set_header h space_data_size max_elements_i s in
  match check_lists (N.to_nat (h_count h)) (seekg (pos st + to_off (h_count h * h_size h)) st) with
  | Ok st' =>
      if (tellg st' =? total_filesize st')%Z
      then load_body (seekg (pos st) (clear_flags st')) s'
      else (s', Throw corrupted)
  | Throw e => (s', Throw e) | Undef u => (s', Undef u) | Fuel => (s', Fuel)
  end.

Definition loadIndex (location : option (list N)) (space_data_size max_elements_i : N) : eff hnsw unit :=
  match location with
  | None => eff_throw "Cannot open file"
  | Some bytes => let* _ := clear in load_checked bytes space_data_size max_elements_i
  end.

(** The members before a constructor sets them. *)
Definition HierarchicalNSW_blank (allow_replace_deleted : bool) : hnsw :=
  {| cfg := {| max_elements_ := 0; size_data_per_element_ := 0; size_links_per_element_ := 0; M_ := 0;
       maxM_ := 0; maxM0_ := 0; ef_construction_ := 0; ef_ := 0; mult_ := 0; size_links_level0_ := 0;
       offsetData_ := 0; offsetLevel0_ := 0; label_offset_ := 0; data_size_ := 0;
       allow_replace_deleted_ := allow_replace_deleted |};
     cur_element_count := 0; num_deleted_ := 0; maxlevel_ := 0; enterpoint_node_ := 0;
     level0 := ∅; upper := ∅; element_levels_ := []; label_lookup_ := ∅; deleted_elements := ∅;
     visited_list_pool_ := {| pool := []; pool_numelements := 0 |};
     level_generator_ := seed_engine 1; update_probability_generator_ := seed_engine 1;
     metric_distance_computations := 0; metric_hops := 0 |}.
(** [HierarchicalNSW(s, location, nmslib, max_elements, allow_replace_deleted)] *)
Definition HierarchicalNSW_load (space_data_size : N) (location : option (list N)) (max_elements : N)
    (allow_replace_deleted : bool) : hnsw * res unit :=
  loadIndex location space_data_size max_elements (HierarchicalNSW_blank allow_replace_deleted).
End persist.
