(* ===== verification/HnswSearch.v ===== *)
(** * hnswalg.h: graph search

    [searchBaseLayer] (construction), [searchBaseLayerST] (queries, with its
    two template flags, the label filter and the stop condition), the greedy
    descent through the upper levels, [searchKnn] and
    [searchStopConditionClosest].  Each [while] loop carries fuel; the fuel the
    callers give is proved to be enough in HnswSearchLaws. *)

From Stdlib Require Import ZArith Lia.
From stdpp Require Import base numbers list gmap strings.
From S2P Require Import Prelude Heap VisitedList Arith BeamSearch Hnsw.
#[local] Open Scope N_scope.

(** [BaseSearchStopCondition]: the virtual methods, on a state [SC]. *)
Class StopCondition (D SC : Type) := {
  add_point_to_result : labeltype → point → D → SC → res SC;
  remove_point_from_result : labeltype → point → D → SC → res SC;
  should_stop_search : D → D → SC → bool;
  should_consider_candidate : D → D → SC → bool;
  should_remove_extra : SC → bool;
  filter_results : list (D * labeltype) → SC → res (list (D * labeltype) * SC)
}.

(** No stop condition: there is no object of this type. *)
#[global] Instance no_stop {D} : StopCondition D Empty_set := {|
  add_point_to_result _ _ _ sc := Ok sc;
  remove_point_from_result _ _ _ sc := Ok sc;
  should_stop_search _ _ _ := false;
  should_consider_candidate _ _ _ := false;
  should_remove_extra _ := false;
  filter_results l sc := Ok (l, sc)
|}.

Section search.
Context `{RE : RandomEngine} `{HI : HeapImpl} `{AL : Alloc} {D : Type} `{HD : DistT D}.
Variable fstdistfunc_ : point → point → D.

(** ** searchBaseLayer *)

(** The body of the [for] loop over the neighbours. *)
Definition sbl_visit (s : hnsw) (data_point : point) (v : lstate D) (candidate_id : tableint) : res (lstate D) :=
  let ef := ef_construction_ (cfg s) in
  seen <- of_opt "visited_array index" (is_visited (visited v) candidate_id) ;;
  if (seen : bool) then Ok v
  else
    let vl := mark_visited (visited v) candidate_id in
    currObj1 <- getDataByInternalId s candidate_id ;;
    let dist1 := fstdistfunc_ data_point currObj1 in
    if (pq_size (top_candidates v) <? ef) || dlt dist1 (lowerBound v) then
      let cand := pq_push cmp (candidateSet v) (dneg dist1, candidate_id) in
      deleted <- isMarkedDeleted s candidate_id ;;
      let top := if (deleted : bool) then top_candidates v
                 else pq_push cmp (top_candidates v) (dist1, candidate_id) in
      let top := if ef <? pq_size top then pq_pop cmp top else top in
      Ok (mkLS top cand (lower top (lowerBound v)) vl)
    else Ok (mkLS (top_candidates v) (candidateSet v) (lowerBound v) vl).

Fixpoint sbl_for (s : hnsw) (data_point : point) (v : lstate D) (datal : list tableint) : res (lstate D) :=
  match datal with
  | [] => Ok v
  | candidate_id :: rest => v' <- sbl_visit s data_point v candidate_id ;; sbl_for s data_point v' rest
  end.

Fixpoint sbl_while (fuel : nat) (s : hnsw) (data_point : point) (layer : Z) (v : lstate D) : res (lstate D) :=
  match fuel with
  | O => Fuel
  | S fuel =>
      match pq_top (candidateSet v) with
      | None => Ok v
      | Some (d, curNodeNum) =>
          if dlt (lowerBound v) (dneg d)
             && (pq_size (top_candidates v) =? ef_construction_ (cfg s)) then Ok v
          else
            let cand := pq_pop cmp (candidateSet v) in
            data <- get_linklist_at_level s curNodeNum layer ;;
            datal <- links_of data ;;
            v' <- sbl_for s data_point (mkLS (top_candidates v) cand (lowerBound v) (visited v)) datal ;;
            sbl_while fuel s data_point layer v'
      end
  end.

Definition sbl_init (s : hnsw) (data_point : point) (ep_id : tableint) (vl : VisitedList) : res (lstate D) :=
  deleted <- isMarkedDeleted s ep_id ;;
  _ <- of_opt "visited_array index" (is_visited vl ep_id) ;;
  if (deleted : bool) then
    Ok (mkLS [] (pq_push cmp [] (dneg dmax, ep_id)) dmax (mark_visited vl ep_id))
  else
    p <- getDataByInternalId s ep_id ;;
    let dist := fstdistfunc_ data_point p in
    Ok (mkLS (pq_push cmp [] (dist, ep_id)) (pq_push cmp [] (dneg dist, ep_id)) dist
          (mark_visited vl ep_id)).

(** [getFreeVisitedList] and [releaseVisitedList] on the index's pool. *)
Definition take_visited : eff hnsw VisitedList := λ s,
  let '(vl, p) := getFreeVisitedList (visited_list_pool_ s) in (set_pool p s, Ok vl).
Definition give_visited (vl : VisitedList) : eff hnsw unit :=
  eff_mod (λ s, set_pool (releaseVisitedList (visited_list_pool_ s) vl) s).

(** Every node enters a candidate set at most once. *)
Definition search_fuel (s : hnsw) : nat := S (N.to_nat (max_elements_ (cfg s))).

Definition searchBaseLayer (ep_id : tableint) (data_point : point) (layer : Z) :
    eff hnsw (list (D * tableint)) :=
  let* vl := take_visited in
  let* v := eff_lift (λ s,
    v <- sbl_init s data_point ep_id vl ;; sbl_while (search_fuel s) s data_point layer v) in
  let* _ := give_visited (visited v) in
  eff_ret (top_candidates v).

(** ** searchBaseLayerST *)
Section stop.
Context {SC : Type} `{HS : StopCondition D SC}.
Variables (bare_bone_search collect_metrics : bool).

(** The test of [bare_bone_search], the delete mark and the filter functor. *)
Definition st_accept (s : hnsw) (isIdAllowed : option (labeltype → bool)) (id : tableint) : res bool :=
  if bare_bone_search then Ok true
  else
    deleted <- isMarkedDeleted s id ;;
    if (deleted : bool) then Ok false
    else match isIdAllowed with
         | None => Ok true
         | Some f => label <- getExternalLabel s id ;; Ok (f label)
         end.

(** The stop condition is consulted only when [!bare_bone_search]. *)
Definition st_stop (sc : option SC) : option SC := if bare_bone_search then None else sc.

Definition st_add (s : hnsw) (id : tableint) (currObj1 : point) (dist : D) (sc : option SC) :
    res (option SC) :=
  match st_stop sc with
  | None => Ok sc
  | Some c =>
      label <- getExternalLabel s id ;;
      c' <- add_point_to_result label currObj1 dist c ;; Ok (Some c')
  end.

Definition st_flag_remove (ef : N) (top : list (D * tableint)) (sc : option SC) : bool :=
  match st_stop sc with
  | Some c => should_remove_extra c
  | None => ef <? pq_size top
  end.

(** [while (flag_remove_extra)]; [top()] of an empty queue is undefined. *)
Fixpoint st_remove (fuel : nat) (s : hnsw) (ef : N) (dist : D) (top : list (D * tableint))
    (sc : option SC) : res (list (D * tableint) * option SC) :=
  if st_flag_remove ef top sc then
    match fuel with
    | O => Fuel
    | S fuel =>
        t <- of_opt "top() of an empty queue" (pq_top top) ;;
        let id := t.2 in
        let top := pq_pop cmp top in
        sc' <- match st_stop sc with
               | None => Ok sc
               | Some c =>
                   label <- getExternalLabel s id ;;
                   p <- getDataByInternalId s id ;;
                   c' <- remove_point_from_result label p dist c ;; Ok (Some c')
               end ;;
        st_remove fuel s ef dist top sc'
    end
  else Ok (top, sc).

Definition st_consider (ef : N) (v : lstate D) (dist : D) (sc : option SC) : bool :=
  match st_stop sc with
  | Some c => should_consider_candidate dist (lowerBound v) c
  | None => (pq_size (top_candidates v) <? ef) || dlt dist (lowerBound v)
  end.

(** The body of the [for] loop; [candidate_id] is an [int] here. *)
Definition st_visit (s : hnsw) (data_point : point) (ef : N) (isIdAllowed : option (labeltype → bool))
    (v : lstate D) (sc : option SC) (candidate_id : tableint) : res (lstate D * option SC) :=
  if 2147483648 <=? candidate_id then Undef "negative index" else
  seen <- of_opt "visited_array index" (is_visited (visited v) candidate_id) ;;
  if (seen : bool) then Ok (v, sc)
  else
    let vl := mark_visited (visited v) candidate_id in
    currObj1 <- getDataByInternalId s candidate_id ;;
    let dist := fstdistfunc_ data_point currObj1 in
    if st_consider ef v dist sc then
      let cand := pq_push cmp (candidateSet v) (dneg dist, candidate_id) in
      ok <- st_accept s isIdAllowed candidate_id ;;
      let top := if (ok : bool) then pq_push cmp (top_candidates v) (dist, candidate_id)
                 else top_candidates v in
      sc1 <- (if (ok : bool) then st_add s candidate_id currObj1 dist sc else Ok sc) ;;
      r <- st_remove (S (length top)) s ef dist top sc1 ;;
      Ok (mkLS r.1 cand (lower r.1 (lowerBound v)) vl, r.2)
    else Ok (mkLS (top_candidates v) (candidateSet v) (lowerBound v) vl, sc).

Fixpoint st_for (s : hnsw) (data_point : point) (ef : N) (isIdAllowed : option (labeltype → bool))
    (v : lstate D) (sc : option SC) (data : list tableint) : res (lstate D * option SC) :=
  match data with
  | [] => Ok (v, sc)
  | candidate_id :: rest =>
      r <- st_visit s data_point ef isIdAllowed v sc candidate_id ;;
      st_for s data_point ef isIdAllowed r.1 r.2 rest
  end.

Definition st_flag_stop (ef : N) (v : lstate D) (candidate_dist : D) (sc : option SC) : bool :=
  if bare_bone_search then dlt (lowerBound v) candidate_dist
  else match sc with
       | Some c => should_stop_search candidate_dist (lowerBound v) c
       | None => dlt (lowerBound v) candidate_dist && (pq_size (top_candidates v) =? ef)
       end.

(** [hops] and [dcs] are what is added to the two metrics. *)
Fixpoint st_while (fuel : nat) (s : hnsw) (data_point : point) (ef : N)
    (isIdAllowed : option (labeltype → bool)) (v : lstate D) (sc : option SC) (hops dcs : Z) :
    res (lstate D * option SC * (Z * Z)) :=
  match fuel with
  | O => Fuel
  | S fuel =>
      match pq_top (candidateSet v) with
      | None => Ok (v, sc, (hops, dcs))
      | Some (d, current_node_id) =>
          if st_flag_stop ef v (dneg d) sc then Ok (v, sc, (hops, dcs))
          else
            let cand := pq_pop cmp (candidateSet v) in
            data <- get_linklist0 s current_node_id ;;
            ids <- links_of data ;;
            let '(hops, dcs) := if collect_metrics
              then ((hops + 1)%Z, (dcs + Z.of_N (getListCount data))%Z) else (hops, dcs) in
            r <- st_for s data_point ef isIdAllowed
                   (mkLS (top_candidates v) cand (lowerBound v) (visited v)) sc ids ;;
            st_while fuel s data_point ef isIdAllowed r.1 r.2 hops dcs
      end
  end.

Definition st_init (s : hnsw) (data_point : point) (isIdAllowed : option (labeltype → bool))
    (ep_id : tableint) (vl : VisitedList) (sc : option SC) : res (lstate D * option SC) :=
  ok <- st_accept s isIdAllowed ep_id ;;
  _ <- of_opt "visited_array index" (is_visited vl ep_id) ;;
  if (ok : bool) then
    ep_data <- getDataByInternalId s ep_id ;;
    let dist := fstdistfunc_ data_point ep_data in
    sc1 <- st_add s ep_id ep_data dist sc ;;
    Ok (mkLS (pq_push cmp [] (dist, ep_id)) (pq_push cmp [] (dneg dist, ep_id)) dist
          (mark_visited vl ep_id), sc1)
  else
    Ok (mkLS [] (pq_push cmp [] (dneg dmax, ep_id)) dmax (mark_visited vl ep_id), sc).

Definition searchBaseLayerST (ep_id : tableint) (data_point : point) (ef : N)
    (isIdAllowed : option (labeltype → bool)) (stop_condition : option SC) :
    eff hnsw (list (D * tableint) * option SC) :=
  let* vl := take_visited in
  let* r := eff_lift (λ s,
    v <- st_init s data_point isIdAllowed ep_id vl stop_condition ;;
    st_while (search_fuel s) s data_point ef isIdAllowed v.1 v.2 0 0) in
  let* _ := eff_mod (λ s, set_metrics (metric_distance_computations s + r.2.2)%Z
                                      (metric_hops s + r.2.1)%Z s) in
  let* _ := give_visited (visited r.1.1) in
  eff_ret (top_candidates r.1.1, r.1.2).
End stop.

(** ** Greedy descent

    The same loop occurs in [searchKnn] and [searchStopConditionClosest] (with
    metrics and the check of [cand]), in [addPoint] (with the check) and in
    [repairConnectionsForUpdate] (without either). *)
Section greedy.
Variables (check_cand count_metrics : bool).

Fixpoint greedy_for (query : point) (datal : list tableint) (currObj : tableint) (curdist : D)
    (changed : bool) : eff hnsw (tableint * D * bool) :=
  match datal with
  | [] => eff_ret (currObj, curdist, changed)
  | cand :: rest =>
      let* bad := eff_get (λ s, check_cand && (max_elements_ (cfg s) <? cand)) in
      if bad then eff_throw "cand error"
      else
        let* p := eff_lift (λ s, getDataByInternalId s cand) in
        let d := fstdistfunc_ query p in
        if dlt d curdist then greedy_for query rest cand d true
        else greedy_for query rest currObj curdist changed
  end.

Fixpoint greedy_while (fuel : nat) (query : point) (level : Z) (currObj : tableint) (curdist : D) :
    eff hnsw (tableint * D) :=
  match fuel with
  | O => λ s, (s, Fuel)
  | S fuel =>
      let* data := eff_lift (λ s, get_linklist s currObj level) in
      let* _ := eff_mod (λ s, if count_metrics then
        set_metrics (metric_distance_computations s + Z.of_N (getListCount data))%Z
                    (metric_hops s + 1)%Z s else s) in
      let* datal := eff_lift (λ _, links_of data) in
      let* '(currObj', curdist', changed) := greedy_for query datal currObj curdist false in
      if (changed : bool) then greedy_while fuel query level currObj' curdist'
      else eff_ret (currObj', curdist')
  end.

(** [for (int level = low + n; level > low; level--)] *)
Fixpoint greedy_levels (n : nat) (low : Z) (query : point) (currObj : tableint) (curdist : D) :
    eff hnsw (tableint * D) :=
  match n with
  | O => eff_ret (currObj, curdist)
  | S n =>
      let* fuel := eff_get search_fuel in
      let* '(currObj', curdist') := greedy_while fuel query (low + Z.of_nat (S n)) currObj curdist in
      greedy_levels n low query currObj' curdist'
  end.
End greedy.

(** ** Queries *)
Definition res_less : D * labeltype → D * labeltype → bool := lt_pair dlt N.ltb.

(** The result queue: farthest first, as [getExternalLabel] is pushed. *)
Fixpoint push_labels (s : hnsw) (l : list (D * tableint)) (result : list (D * labeltype)) :
    res (list (D * labeltype)) :=
  match l with
  | [] => Ok result
  | rez :: rest =>
      label <- getExternalLabel s rez.2 ;;
      push_labels s rest (pq_push res_less result (rez.1, label))
  end.

(** The descent that opens both query functions. *)
Definition query_descent (query_data : point) : eff hnsw tableint :=
  let* currObj := eff_get enterpoint_node_ in
  let* p := eff_lift (λ s, getDataByInternalId s currObj) in
  let* maxlevel := eff_get maxlevel_ in
  let* '(currObj', _) := greedy_levels true true (Z.to_nat maxlevel) 0 query_data currObj
                           (fstdistfunc_ query_data p) in
  eff_ret currObj'.

Definition searchKnn (query_data : point) (k : N) (isIdAllowed : option (labeltype → bool)) :
    eff hnsw (list (D * labeltype)) :=
  let* count := eff_get cur_element_count in
  if count =? 0 then eff_ret []
  else
    let* currObj := query_descent query_data in
    let* bare_bone_search := eff_get (λ s,
      (num_deleted_ s =? 0) && (match isIdAllowed with None => true | Some _ => false end)) in
    let* ef := eff_get (λ s, ef_ (cfg s)) in
    let* '(top, _) := searchBaseLayerST (SC:=Empty_set) bare_bone_search false currObj query_data
                        (N.max ef k) isIdAllowed None in
    eff_lift (λ s, push_labels s (pq_drain cmp (pq_shrink cmp k top)) []).

(** [result[--sz] = top_candidates.top()]: the internal ids are stored as
    the labels. *)
Definition searchStopConditionClosest {SC} `{HS : StopCondition D SC} (query_data : point)
    (stop_condition : SC) (isIdAllowed : option (labeltype → bool)) :
    eff hnsw (list (D * labeltype) * SC) :=
  let* count := eff_get cur_element_count in
  if count =? 0 then eff_ret ([], stop_condition)
  else
    let* currObj := query_descent query_data in
    let* '(top, sc) := searchBaseLayerST false false currObj query_data 0 isIdAllowed
                         (Some stop_condition) in
    eff_lift (λ _, sc <- of_opt "stop condition" sc ;; filter_results (rev (pq_drain cmp top)) sc).

(** [AlgorithmInterface::searchKnnCloserFirst] *)
Definition searchKnnCloserFirst (query_data : point) (k : N) (isIdAllowed : option (labeltype → bool)) :
    eff hnsw (list (D * labeltype)) :=
  let* ret := searchKnn query_data k isIdAllowed in
  eff_ret (rev (pq_drain res_less ret)).
End search.
