(* ===== verification/HnswInsert.v ===== *)
(** * hnswalg.h: construction and update

    The neighbour heuristic, [mutuallyConnectNewElement], [updatePoint],
    [repairConnectionsForUpdate] and the two [addPoint] overloads. *)

From Stdlib Require Import ZArith Lia.
From stdpp Require Import base numbers list gmap strings.
From S2P Require Import Prelude Heap VisitedList Arith BeamSearch Hnsw HnswSearch.
#[local] Open Scope N_scope.

Section insert.
Context `{RE : RandomEngine} `{HI : HeapImpl} `{AL : Alloc} `{HO : HashOrder} {D : Type} `{HD : DistT D}.
Variable fstdistfunc_ : point → point → D.

(** ** getNeighborsByHeuristic2 *)
Definition neg_fst (x : D * tableint) : D * tableint := (dneg x.1, x.2).
(** The order of [std::priority_queue<std::pair<dist_t, tableint>>]. *)
Definition pair_less : D * tableint → D * tableint → bool := lt_pair dlt N.ltb.

Fixpoint heur_good (s : hnsw) (return_list : list (D * tableint)) (id : tableint) (dist_to_query : D) :
    res bool :=
  match return_list with
  | [] => Ok true
  | second_pair :: rest =>
      a <- getDataByInternalId s second_pair.2 ;;
      b <- getDataByInternalId s id ;;
      if dlt (fstdistfunc_ a b) dist_to_query then Ok false
      else heur_good s rest id dist_to_query
  end.

Fixpoint heur_while (fuel : nat) (s : hnsw) (M : N) (queue_closest return_list : list (D * tableint)) :
    res (list (D * tableint)) :=
  match pq_top queue_closest with
  | None => Ok return_list
  | Some curent_pair =>
      if M <=? N.of_nat (length return_list) then Ok return_list
      else match fuel with
      | O => Fuel
      | S fuel =>
          good <- heur_good s return_list curent_pair.2 (dneg curent_pair.1) ;;
          heur_while fuel s M (pq_pop pair_less queue_closest)
            (if (good : bool) then return_list ++ [curent_pair] else return_list)
      end
  end.

Definition getNeighborsByHeuristic2 (s : hnsw) (top_candidates : list (D * tableint)) (M : N) :
    res (list (D * tableint)) :=
  if pq_size top_candidates <? M then Ok top_candidates
  else
    let queue_closest := pq_push_all pair_less [] (map neg_fst (pq_drain cmp top_candidates)) in
    return_list <- heur_while (length top_candidates) s M queue_closest [] ;;
    Ok (pq_push_all cmp [] (map neg_fst return_list)).

(** ** mutuallyConnectNewElement *)

(** Write [ids] to the first slots of a list and set its count. *)
Definition store_links (ll : linklist) (ids : list tableint) : res linklist :=
  if (length ids <=? length (ll_slots ll))%nat then
    Ok (setListCount {| ll_word := ll_word ll; ll_slots := ids ++ drop (length ids) (ll_slots ll) |}
          (N.of_nat (length ids)))
  else Undef "more links than slots".

(** The [for] loop that fills the list of [cur_c]. *)
Fixpoint fill_links (cur_c : tableint) (level : Z) (isUpdate : bool) (idx : nat)
    (selectedNeighbors : list tableint) : eff hnsw unit :=
  match selectedNeighbors with
  | [] => eff_ret tt
  | nb :: rest =>
      let* ll := eff_lift (λ s, get_linklist_at_level s cur_c level) in
      let* old := eff_lift (λ _, of_opt "link slot" (ll_slots ll !! idx)) in
      if negb (old =? 0) && negb isUpdate then eff_throw "Possible memory corruption"
      else
        let* lv := eff_lift (λ s, get_level s nb) in
        if (lv <? level)%Z then eff_throw "Trying to make a link on a non-existent level"
        else
          let* _ := eff_mod (put_linklist cur_c level
                      {| ll_word := ll_word ll; ll_slots := <[idx := nb]> (ll_slots ll) |}) in
          fill_links cur_c level isUpdate (S idx) rest
  end.

(** [fstdistfunc_(data(id), data(center))] for each [id]. *)
Fixpoint dists_to (s : hnsw) (center : tableint) (ids : list tableint) : res (list (D * tableint)) :=
  match ids with
  | [] => Ok []
  | id :: rest =>
      a <- getDataByInternalId s id ;;
      b <- getDataByInternalId s center ;;
      l <- dists_to s center rest ;;
      Ok ((fstdistfunc_ a b, id) :: l)
  end.

(** The body of the second [for] loop: link [nb] back to [cur_c]. *)
Definition connect_back (cur_c : tableint) (level : Z) (isUpdate : bool) (nb : tableint) : eff hnsw unit :=
  let* Mcurmax := eff_get (λ s, Mmax s level) in
  let* ll_other := eff_lift (λ s, get_linklist_at_level s nb level) in
  let sz_link_list_other := getListCount ll_other in
  if Mcurmax <? sz_link_list_other then eff_throw "Bad value of sz_link_list_other"
  else if nb =? cur_c then eff_throw "Trying to connect an element to itself"
  else
    let* lv := eff_lift (λ s, get_level s nb) in
    if (lv <? level)%Z then eff_throw "Trying to make a link on a non-existent level"
    else
      let* data := eff_lift (λ _, links_of ll_other) in
      let is_cur_c_present := isUpdate && bool_decide (cur_c ∈ data) in
      if is_cur_c_present then eff_ret tt
      else if sz_link_list_other <? Mcurmax then
        let* ll := eff_lift (λ _, store_links ll_other (data ++ [cur_c])) in
        eff_mod (put_linklist nb level ll)
      else
        let* cs := eff_lift (λ s, dists_to s nb (cur_c :: data)) in
        let* candidates := eff_lift (λ s, getNeighborsByHeuristic2 s (pq_push_all cmp [] cs) Mcurmax) in
        let* ll := eff_lift (λ _, store_links ll_other (map snd (pq_drain cmp candidates))) in
        eff_mod (put_linklist nb level ll).

Fixpoint connect_all (cur_c : tableint) (level : Z) (isUpdate : bool) (selectedNeighbors : list tableint) :
    eff hnsw unit :=
  match selectedNeighbors with
  | [] => eff_ret tt
  | nb :: rest =>
      let* _ := connect_back cur_c level isUpdate nb in connect_all cur_c level isUpdate rest
  end.

Definition mutuallyConnectNewElement (cur_c : tableint) (top_candidates : list (D * tableint))
    (level : Z) (isUpdate : bool) : eff hnsw tableint :=
  let* M := eff_get (λ s, M_ (cfg s)) in
  let* top := eff_lift (λ s, getNeighborsByHeuristic2 s top_candidates M) in
  if M <? pq_size top
  then eff_throw "Should be not be more than M_ candidates returned by the heuristic"
  else
    let selectedNeighbors := map snd (pq_drain cmp top) in
    let* next_closest_entry_point :=
      eff_lift (λ _, of_opt "back() of an empty vector" (last selectedNeighbors)) in
    let* ll_cur := eff_lift (λ s, get_linklist_at_level s cur_c level) in
    if negb (ll_word ll_cur =? 0) && negb isUpdate
    then eff_throw "The newly inserted element should have blank link list"
    else
      let* _ := eff_mod (put_linklist cur_c level
                  (setListCount ll_cur (N.of_nat (length selectedNeighbors)))) in
      let* _ := fill_links cur_c level isUpdate 0 selectedNeighbors in
      let* _ := connect_all cur_c level isUpdate selectedNeighbors in
      eff_ret next_closest_entry_point.

(** Both callers add a deleted entry point to the candidates. *)
Definition push_entry (epDeleted : bool) (ef : N) (top : list (D * tableint)) (d : D) (ep : tableint) :
    list (D * tableint) :=
  if epDeleted then
    let q := pq_push cmp top (d, ep) in
    if ef <? pq_size q then pq_pop cmp q else q
  else top.

(** ** updatePoint *)
Definition draw_uniform : eff hnsw float32 := λ s,
  let '(u, g) := uniform_float (update_probability_generator_ s) in
  (set_gens (level_generator_ s) g s, Ok u).

(** The loop over [listOneHop]; the two sets are kept as insertion sequences. *)
Fixpoint one_hop_for (layer : Z) (updateNeighborProbability : float32) (listOneHop sCand sNeigh : list tableint) :
    eff hnsw (list tableint * list tableint) :=
  match listOneHop with
  | [] => eff_ret (sCand, sNeigh)
  | elOneHop :: rest =>
      let* u := draw_uniform in
      if SpecFloat.SFltb updateNeighborProbability u
      then one_hop_for layer updateNeighborProbability rest (sCand ++ [elOneHop]) sNeigh
      else
        let* listTwoHop := eff_lift (λ s, getConnectionsWithLock s elOneHop layer) in
        one_hop_for layer updateNeighborProbability rest ((sCand ++ [elOneHop]) ++ listTwoHop)
          (sNeigh ++ [elOneHop])
  end.

(** The loop over [sCand] for one [neigh]. *)
Fixpoint nearest_for (s : hnsw) (neigh : tableint) (elementsToKeep : N) (cands : list tableint)
    (candidates : list (D * tableint)) : res (list (D * tableint)) :=
  match cands with
  | [] => Ok candidates
  | cand :: rest =>
      if cand =? neigh then nearest_for s neigh elementsToKeep rest candidates
      else
        a <- getDataByInternalId s neigh ;;
        b <- getDataByInternalId s cand ;;
        let distance := fstdistfunc_ a b in
        if pq_size candidates <? elementsToKeep
        then nearest_for s neigh elementsToKeep rest (pq_push cmp candidates (distance, cand))
        else
          t <- of_opt "top() of an empty queue" (pq_top candidates) ;;
          if dlt distance t.1
          then nearest_for s neigh elementsToKeep rest
                 (pq_push cmp (pq_pop cmp candidates) (distance, cand))
          else nearest_for s neigh elementsToKeep rest candidates
  end.

Definition update_neigh (layer : Z) (sCand : list tableint) (neigh : tableint) : eff hnsw unit :=
  let size := if bool_decide (neigh ∈ sCand) then N.of_nat (length sCand) - 1
              else N.of_nat (length sCand) in
  let* ef := eff_get (λ s, ef_construction_ (cfg s)) in
  let* cs := eff_lift (λ s, nearest_for s neigh (N.min ef size) sCand []) in
  let* candidates := eff_lift (λ s, getNeighborsByHeuristic2 s cs (Mmax s layer)) in
  let* ll_cur := eff_lift (λ s, get_linklist_at_level s neigh layer) in
  let* ll := eff_lift (λ _, store_links ll_cur (map snd (pq_drain cmp candidates))) in
  eff_mod (put_linklist neigh layer ll).

Fixpoint update_neighs (layer : Z) (sCand sNeigh : list tableint) : eff hnsw unit :=
  match sNeigh with
  | [] => eff_ret tt
  | neigh :: rest => let* _ := update_neigh layer sCand neigh in update_neighs layer sCand rest
  end.

Definition update_layer (internalId : tableint) (updateNeighborProbability : float32) (layer : Z) :
    eff hnsw unit :=
  let* listOneHop := eff_lift (λ s, getConnectionsWithLock s internalId layer) in
  match listOneHop with
  | [] => eff_ret tt
  | _ =>
      let* '(sCand, sNeigh) := one_hop_for layer updateNeighborProbability listOneHop [internalId] [] in
      update_neighs layer (set_iter sCand) (set_iter sNeigh)
  end.

(** [for (int layer = ...; n times; layer++)] *)
Fixpoint update_layers (n : nat) (internalId : tableint) (p : float32) (layer : Z) : eff hnsw unit :=
  match n with
  | O => eff_ret tt
  | S n =>
      let* _ := update_layer internalId p layer in update_layers n internalId p (layer + 1)
  end.

(** ** repairConnectionsForUpdate *)
Definition repair_level (dataPoint : point) (entryPointInternalId dataPointInternalId currObj : tableint)
    (level : Z) : eff hnsw tableint :=
  let* topCandidates := searchBaseLayer fstdistfunc_ currObj dataPoint level in
  let filtered := pq_push_all cmp []
    (filter (λ x : D * tableint, x.2 ≠ dataPointInternalId) (pq_drain cmp topCandidates)) in
  match filtered with
  | [] => eff_ret currObj
  | _ =>
      let* epDeleted := eff_lift (λ s, isMarkedDeleted s entryPointInternalId) in
      let* p := eff_lift (λ s, getDataByInternalId s entryPointInternalId) in
      let* ef := eff_get (λ s, ef_construction_ (cfg s)) in
      mutuallyConnectNewElement dataPointInternalId
        (push_entry epDeleted ef filtered (fstdistfunc_ dataPoint p) entryPointInternalId) level true
  end.

(** [for (int level = n - 1; level >= 0; level--)] *)
Fixpoint repair_levels (n : nat) (dataPoint : point)
    (entryPointInternalId dataPointInternalId currObj : tableint) : eff hnsw unit :=
  match n with
  | O => eff_ret tt
  | S n =>
      let* currObj' := repair_level dataPoint entryPointInternalId dataPointInternalId currObj (Z.of_nat n) in
      repair_levels n dataPoint entryPointInternalId dataPointInternalId currObj'
  end.

Definition repairConnectionsForUpdate (dataPoint : point) (entryPointInternalId dataPointInternalId : tableint)
    (dataPointLevel maxLevel : Z) : eff hnsw unit :=
  let* currObj :=
    (if (dataPointLevel <? maxLevel)%Z then
       let* p := eff_lift (λ s, getDataByInternalId s entryPointInternalId) in
       let* '(o, _) := greedy_levels fstdistfunc_ false false (Z.to_nat (maxLevel - dataPointLevel))
                         dataPointLevel dataPoint entryPointInternalId (fstdistfunc_ dataPoint p) in
       eff_ret o
     else eff_ret entryPointInternalId) in
  if (maxLevel <? dataPointLevel)%Z
  then eff_throw "Level of item to be updated cannot be bigger than max level"
  else repair_levels (Z.to_nat (dataPointLevel + 1)) dataPoint entryPointInternalId dataPointInternalId currObj.

Definition updatePoint (dataPoint : point) (internalId : tableint) (updateNeighborProbability : float32) :
    eff hnsw unit :=
  let* n := eff_get (λ s, data_size_ (cfg s)) in
  let* e := eff_lift (λ s, get_el s internalId) in
  let* p := eff_lift (λ _, copy_point n dataPoint) in
  let* _ := eff_mod (put_el internalId {| el_ll := el_ll e; el_data := p; el_label := el_label e |}) in
  let* maxLevelCopy := eff_get maxlevel_ in
  let* entryPointCopy := eff_get enterpoint_node_ in
  let* count := eff_get cur_element_count in
  if (entryPointCopy =? internalId) && (count =? 1) then eff_ret tt
  else
    let* elemLevel := eff_lift (λ s, get_level s internalId) in
    let* _ := update_layers (Z.to_nat (elemLevel + 1)) internalId updateNeighborProbability 0 in
    repairConnectionsForUpdate dataPoint entryPointCopy internalId elemLevel maxLevelCopy.

(** ** addPoint *)

(** One level of the insertion loop. *)
Definition insert_level (data_point : point) (cur_c enterpoint_copy : tableint) (epDeleted : bool)
    (maxlevelcopy : Z) (currObj : tableint) (level : Z) : eff hnsw tableint :=
  if (maxlevelcopy <? level)%Z || (level <? 0)%Z then eff_throw "Level error"
  else
    let* top := searchBaseLayer fstdistfunc_ currObj data_point level in
    let* p := eff_lift (λ s, getDataByInternalId s enterpoint_copy) in
    let* ef := eff_get (λ s, ef_construction_ (cfg s)) in
    mutuallyConnectNewElement cur_c
      (push_entry epDeleted ef top (fstdistfunc_ data_point p) enterpoint_copy) level false.

(** [for (int level = n - 1; level >= 0; level--)] *)
Fixpoint insert_levels (n : nat) (data_point : point) (cur_c enterpoint_copy : tableint)
    (epDeleted : bool) (maxlevelcopy : Z) (currObj : tableint) : eff hnsw unit :=
  match n with
  | O => eff_ret tt
  | S n =>
      let* currObj' := insert_level data_point cur_c enterpoint_copy epDeleted maxlevelcopy currObj (Z.of_nat n) in
      insert_levels n data_point cur_c enterpoint_copy epDeleted maxlevelcopy currObj'
  end.

(** Zero the element's memory, then write its label and its vector. *)
Definition init_element (cur_c : tableint) (data_point : point) (label : labeltype) (curlevel : Z) :
    eff hnsw unit :=
  let* inb := eff_get (λ s, cur_c <? max_elements_ (cfg s)) in
  let* n := eff_get (λ s, data_size_ (cfg s)) in
  let* p := eff_lift (λ _, copy_point n data_point) in
  if negb inb then eff_undef "element outside the array"
  else
    let* _ := eff_mod (λ s, set_level0 (<[cur_c :=
                {| el_ll := blank_ll (maxM0_ (cfg s)); el_data := p; el_label := label |}]> (level0 s)) s) in
    if (curlevel =? 0)%Z then eff_ret tt
    else eff_mod (λ s, set_upper (<[cur_c :=
           replicate (Z.to_nat curlevel) (blank_ll (maxM_ (cfg s)))]> (upper s)) s).

(** Link the new element, level by level, from the entry point down. *)
Definition connect_new (data_point : point) (cur_c : tableint) (curlevel maxlevelcopy : Z)
    (enterpoint_copy : tableint) : eff hnsw unit :=
  let* currObj :=
    (if (curlevel <? maxlevelcopy)%Z then
       let* p := eff_lift (λ s, getDataByInternalId s enterpoint_copy) in
       let* '(o, _) := greedy_levels fstdistfunc_ true false (Z.to_nat (maxlevelcopy - curlevel))
                         curlevel data_point enterpoint_copy (fstdistfunc_ data_point p) in
       eff_ret o
     else eff_ret enterpoint_copy) in
  let* epDeleted := eff_lift (λ s, isMarkedDeleted s enterpoint_copy) in
  insert_levels (Z.to_nat (Z.min curlevel maxlevelcopy + 1)) data_point cur_c enterpoint_copy epDeleted
    maxlevelcopy currObj.

Definition p_one : float32 := f32_of_Z 1.

(** [addPoint(data_point, label, level)] *)
Definition addPointLevel (data_point : point) (label : labeltype) (level : Z) : eff hnsw tableint :=
  let* search := eff_get (λ s, label_lookup_ s !! label) in
  match search with
  | Some existingInternalId =>
      let* allow := eff_get (λ s, allow_replace_deleted_ (cfg s)) in
      let* deleted := eff_lift (λ s, isMarkedDeleted s existingInternalId) in
      if allow && deleted then
        eff_throw "Can't use addPoint to update deleted elements if replacement of deleted elements is enabled."
      else
        let* _ := (if (deleted : bool) then unmarkDeletedInternal existingInternalId else eff_ret tt) in
        let* _ := updatePoint data_point existingInternalId p_one in
        eff_ret existingInternalId
  | None =>
      let* full := eff_get (λ s, max_elements_ (cfg s) <=? cur_element_count s) in
      if (full : bool) then eff_throw "The number of elements exceeds the specified limit"
      else
        let* cur_c := eff_get cur_element_count in
        let* _ := eff_mod (set_count (cur_c + 1)) in
        let* _ := eff_mod (λ s, set_lookup (<[label := cur_c]> (label_lookup_ s)) s) in
        let* rnd := getRandomLevel in
        let curlevel := if (0 <? level)%Z then level else rnd in
        let* _ := eff_lift (λ s, get_level s cur_c) in
        let* _ := eff_mod (λ s, set_levels (<[N.to_nat cur_c := curlevel]> (element_levels_ s)) s) in
        let* maxlevelcopy := eff_get maxlevel_ in
        let* enterpoint_copy := eff_get enterpoint_node_ in
        let* _ := init_element cur_c data_point label curlevel in
        let* _ := (if negb (enterpoint_copy =? 4294967295)
                   then connect_new data_point cur_c curlevel maxlevelcopy enterpoint_copy
                   else eff_mod (set_entry 0 curlevel)) in
        let* _ := (if (maxlevelcopy <? curlevel)%Z then eff_mod (set_entry cur_c curlevel)
                   else eff_ret tt) in
        eff_ret cur_c
  end.

(** Give the slot of a deleted element to [label]. *)
Definition take_over (internal_id_replaced : tableint) (label : labeltype) : eff hnsw unit :=
  let* _ := eff_mod (λ s, set_deleted (num_deleted_ s) (deleted_elements s ∖ {[internal_id_replaced]}) s) in
  let* label_replaced := eff_lift (λ s, getExternalLabel s internal_id_replaced) in
  let* _ := setExternalLabel internal_id_replaced label in
  let* _ := eff_mod (λ s, set_lookup
    (<[label := internal_id_replaced]> (delete label_replaced (label_lookup_ s))) s) in
  unmarkDeletedInternal internal_id_replaced.

(** [addPoint(data_point, label, replace_deleted)] *)
Definition addPoint (data_point : point) (label : labeltype) (replace_deleted : bool) : eff hnsw unit :=
  let* allow := eff_get (λ s, allow_replace_deleted_ (cfg s)) in
  if negb allow && replace_deleted
  then eff_throw "Replacement of deleted elements is disabled in constructor"
  else if negb replace_deleted then
    let* _ := addPointLevel data_point label (-1) in eff_ret tt
  else
    let* deleted := eff_get deleted_elements in
    if bool_decide (deleted = ∅) then
      let* _ := addPointLevel data_point label (-1) in eff_ret tt
    else
      let internal_id_replaced := set_begin deleted in
      let* _ := take_over internal_id_replaced label in
      updatePoint data_point internal_id_replaced p_one.
End insert.
