(* ===== verification/StopConditions.v ===== *)
(** * stop_condition.h: multi-vector spaces and stop conditions

    A multi-vector space appends a document id to every vector.
    [MultiVectorSearchStopCondition] ends a search by the number of documents
    found, [EpsilonSearchStopCondition] by a distance; both implement the
    interface [StopCondition] that [searchBaseLayerST] calls back. *)

From Stdlib Require Import ZArith Lia.
From stdpp Require Import base numbers list gmap strings sorting.
From S2P Require Import Prelude Heap Binary VisitedList Arith Simd SpaceL2 SpaceIP BeamSearch Hnsw HnswPersist HnswSearch.
#[local] Open Scope N_scope.

(** ** Spaces *)

(** [mv_param] is what [get_dist_func_param] points to; [None] is a member that
    was never set.  [docid_size] is [sizeof(DOCIDTYPE)]. *)
Record MultiVectorSpace (F : Type) := mkMV {
  mv_data_size : N;
  mv_dist_func : list F → list F → N → option F;
  mv_param : option N;
  vector_size_ : N;
  docid_size : nat
}.
Arguments mkMV {F}.
Arguments mv_data_size {F}.
Arguments mv_dist_func {F}.
Arguments mv_param {F}.
Arguments vector_size_ {F}.
Arguments docid_size {F}.

Section spaces.
Context {F : Type} `{Arith F} (rvv_kernel : list F → list F → N → option F).

Definition MultiVectorL2Space (b : Build) (dim : N) (docid : nat) : MultiVectorSpace F :=
  let fstdistfunc :=
    if USE_RVV b then rvv_kernel
    else if USE_SSE b || USE_AVX b || USE_AVX512 b then
      if dim mod 16 =? 0 then L2SqrSIMD16Ext_ptr b
      else if dim mod 4 =? 0 then L2SqrSIMD4Ext
      else if 16 <? dim then L2SqrSIMD16ExtResiduals (L2SqrSIMD16Ext_ptr b)
      else if 4 <? dim then L2SqrSIMD4ExtResiduals
      else L2Sqr
    else L2Sqr in
  {| mv_data_size := dim * 4 + N.of_nat docid; mv_dist_func := fstdistfunc; mv_param := Some dim;
     vector_size_ := dim * 4; docid_size := docid |}.

(** The constructor does not set [dim_]. *)
Definition MultiVectorInnerProductSpace (b : Build) (dim : N) (docid : nat) : MultiVectorSpace F :=
  let p := ip_pointers b in
  let fstdistfunc :=
    if USE_AVX b || USE_SSE b || USE_AVX512 b then
      if dim mod 16 =? 0 then IPD16 p
      else if dim mod 4 =? 0 then IPD4 p
      else if 16 <? dim then InnerProductDistanceSIMD16ExtResiduals (IP16 p)
      else if 4 <? dim then InnerProductDistanceSIMD4ExtResiduals (IP4 p)
      else InnerProductDistance
    else InnerProductDistance in
  {| mv_data_size := dim * 4 + N.of_nat docid; mv_dist_func := fstdistfunc; mv_param := None;
     vector_size_ := dim * 4; docid_size := docid |}.

Definition get_doc_id (sp : MultiVectorSpace F) (datapoint : point) : res N :=
  let bs := slice (vector_size_ sp) (N.of_nat (docid_size sp)) datapoint in
  if (length bs =? docid_size sp)%nat then Ok (of_le bs) else Undef "document id past the vector".
Definition set_doc_id (sp : MultiVectorSpace F) (datapoint : point) (doc_id : N) : res point :=
  if (N.to_nat (vector_size_ sp) + docid_size sp <=? length datapoint)%nat
  then Ok (take (N.to_nat (vector_size_ sp)) datapoint ++ le (docid_size sp) doc_id ++
           drop (N.to_nat (vector_size_ sp) + docid_size sp) datapoint)
  else Undef "document id past the vector".
End spaces.

(** [size_t] minus one. *)
Definition size_pred (n : N) : N := (n + 18446744073709551615) mod 18446744073709551616.

Section conditions.
Context `{HI : HeapImpl} {D : Type} `{HD : DistT D}.

(** [operator<] of [std::pair<dist_t, DOCIDTYPE>] *)
Definition doc_less : D * N → D * N → bool := lt_pair dlt N.ltb.

(** [a == b] of distances. *)
Definition deq (a b : D) : bool := negb (dlt a b) && negb (dlt b a).

(** ** MultiVectorSearchStopCondition *)
Record multi_vector := mkMVSC {
  curr_num_docs_ : N;
  num_docs_to_search_ : N;
  ef_collection_ : N;
  doc_counter_ : gmap N N;
  search_results_ : list (D * N)
}.
Definition MultiVectorSearchStopCondition (num_docs_to_search ef_collection : N) : multi_vector :=
  {| curr_num_docs_ := 0; num_docs_to_search_ := num_docs_to_search;
     ef_collection_ := N.max ef_collection num_docs_to_search; doc_counter_ := ∅; search_results_ := [] |}.

(** [doc_counter_[doc_id]] creates a missing entry with 0. *)
Definition counter (sc : multi_vector) (doc_id : N) : N := default 0 (doc_counter_ sc !! doc_id).

Definition mv_add (doc_id : N) (dist : D) (sc : multi_vector) : multi_vector :=
  {| curr_num_docs_ := if counter sc doc_id =? 0 then curr_num_docs_ sc + 1 else curr_num_docs_ sc;
     num_docs_to_search_ := num_docs_to_search_ sc; ef_collection_ := ef_collection_ sc;
     doc_counter_ := <[doc_id := counter sc doc_id + 1]> (doc_counter_ sc);
     search_results_ := pq_push doc_less (search_results_ sc) (dist, doc_id) |}.
(** One vector of [doc_id] less; the queue loses its top. *)
Definition mv_drop (doc_id : N) (sc : multi_vector) : multi_vector :=
  let c := size_pred (counter sc doc_id) in
  {| curr_num_docs_ := if c =? 0 then size_pred (curr_num_docs_ sc) else curr_num_docs_ sc;
     num_docs_to_search_ := num_docs_to_search_ sc; ef_collection_ := ef_collection_ sc;
     doc_counter_ := <[doc_id := c]> (doc_counter_ sc);
     search_results_ := pq_pop doc_less (search_results_ sc) |}.

Definition mv_remove (doc_id : N) (sc : multi_vector) : res multi_vector :=
  match search_results_ sc with
  | [] => Undef "pop() of an empty queue"
  | _ => Ok (mv_drop doc_id sc)
  end.

(** [while (curr_num_docs_ > num_docs_to_search_)] *)
Fixpoint mv_filter (fuel : nat) (candidates : list (D * labeltype)) (sc : multi_vector) :
    res (list (D * labeltype) * multi_vector) :=
  if num_docs_to_search_ sc <? curr_num_docs_ sc then
    match fuel with
    | O => Fuel
    | S fuel =>
        c <- of_opt "back() of an empty vector" (last candidates) ;;
        t <- of_opt "top() of an empty queue" (pq_top (search_results_ sc)) ;;
        if negb (deq c.1 t.1) then Undef "assert(dist_cand == dist_res)"
        else mv_filter fuel (removelast candidates) (mv_drop t.2 sc)
    end
  else Ok (candidates, sc).

#[global] Instance mv_stop {F} (sp : MultiVectorSpace F) : StopCondition D multi_vector := {|
  add_point_to_result _ datapoint dist sc :=
    doc_id <- get_doc_id sp datapoint ;; Ok (mv_add doc_id dist sc);
  remove_point_from_result _ datapoint _ sc :=
    doc_id <- get_doc_id sp datapoint ;; mv_remove doc_id sc;
  should_stop_search candidate_dist lowerBound sc :=
    dlt lowerBound candidate_dist && (curr_num_docs_ sc =? ef_collection_ sc);
  should_consider_candidate candidate_dist lowerBound sc :=
    (curr_num_docs_ sc <? ef_collection_ sc) || dlt candidate_dist lowerBound;
  should_remove_extra sc := ef_collection_ sc <? curr_num_docs_ sc;
  filter_results candidates sc := mv_filter (S (length candidates)) candidates sc
|}.

(** ** EpsilonSearchStopCondition *)
Record epsilon_cond := mkEps {
  epsilon_ : D;
  min_num_candidates_ : N;
  max_num_candidates_ : N;
  curr_num_items_ : N
}.
Definition EpsilonSearchStopCondition (epsilon : D) (min_num_candidates max_num_candidates : N) : res epsilon_cond :=
  if max_num_candidates <? min_num_candidates
  then Undef "assert(min_num_candidates <= max_num_candidates)"
  else Ok {| epsilon_ := epsilon; min_num_candidates_ := min_num_candidates;
             max_num_candidates_ := max_num_candidates; curr_num_items_ := 0 |}.
Definition eps_items (n : N) (sc : epsilon_cond) : epsilon_cond :=
  {| epsilon_ := epsilon_ sc; min_num_candidates_ := min_num_candidates_ sc;
     max_num_candidates_ := max_num_candidates_ sc; curr_num_items_ := n |}.

(** The two loops of [filter_results]; each iteration removes one candidate. *)
Fixpoint eps_far (n : nat) (epsilon : D) (candidates : list (D * labeltype)) : list (D * labeltype) :=
  match n with
  | O => candidates
  | S n =>
      match last candidates with
      | Some c => if dlt epsilon c.1 then eps_far n epsilon (removelast candidates) else candidates
      | None => candidates
      end
  end.
Fixpoint eps_extra (n : nat) (max_num : N) (candidates : list (D * labeltype)) : list (D * labeltype) :=
  match n with
  | O => candidates
  | S n => if max_num <? N.of_nat (length candidates) then eps_extra n max_num (removelast candidates)
           else candidates
  end.

#[global] Instance eps_stop : StopCondition D epsilon_cond := {|
  add_point_to_result _ _ _ sc := Ok (eps_items (curr_num_items_ sc + 1) sc);
  remove_point_from_result _ _ _ sc := Ok (eps_items (size_pred (curr_num_items_ sc)) sc);
  should_stop_search candidate_dist lowerBound sc :=
    if dlt lowerBound candidate_dist && (curr_num_items_ sc =? max_num_candidates_ sc) then true
    else dlt (epsilon_ sc) candidate_dist && (min_num_candidates_ sc <=? curr_num_items_ sc);
  should_consider_candidate candidate_dist lowerBound sc :=
    (curr_num_items_ sc <? max_num_candidates_ sc) || dlt candidate_dist lowerBound;
  should_remove_extra sc := max_num_candidates_ sc <? curr_num_items_ sc;
  filter_results candidates sc :=
    let l := eps_far (length candidates) (epsilon_ sc) candidates in
    Ok (eps_extra (length l) (max_num_candidates_ sc) l, sc)
|}.
End conditions.

(** ** Document ids *)

(** [get_doc_id] reads what [set_doc_id] wrote, and [set_doc_id] leaves the
    vector itself as it was. *)
Theorem set_get_doc_id {F} (sp : MultiVectorSpace F) (p : point) (doc_id : N) :
  (N.to_nat (vector_size_ sp) + docid_size sp ≤ length p)%nat → doc_id < 256 ^ N.of_nat (docid_size sp) →
  ∃ p', set_doc_id sp p doc_id = Ok p' ∧ get_doc_id sp p' = Ok doc_id ∧ length p' = length p ∧
    take (N.to_nat (vector_size_ sp)) p' = take (N.to_nat (vector_size_ sp)) p.
Proof.
  intros Hp Hd. unfold set_doc_id. rewrite (proj2 (Nat.leb_le _ _)) by done. eexists. split; [done|].
  assert (length (take (N.to_nat (vector_size_ sp)) p) = N.to_nat (vector_size_ sp)) as Hlen.
  { rewrite length_take. lia. }
  split_and!.
  - unfold get_doc_id, slice. rewrite drop_app_length' by done. rewrite Nat2N.id.
    rewrite take_app_length' by by rewrite le_length. rewrite le_length, Nat.eqb_refl. by rewrite of_le_le.
  - rewrite !length_app, Hlen, le_length, length_drop. lia.
  - by rewrite take_app_length' by done.
Qed.
Lemma set_get_doc_id_witness :
  let sp := MultiVectorL2Space (F:=Z) (λ _ _ _, None) (mkBuild false false false false false false) 1 2 in
  ∃ p', set_doc_id sp [1; 2; 3; 4; 0; 0] 513 = Ok p' ∧ get_doc_id sp p' = Ok 513 ∧ length p' = 6%nat ∧
    take 4 p' = [1; 2; 3; 4].
Proof.
  apply (set_get_doc_id (MultiVectorL2Space (F:=Z) (λ _ _ _, None) (mkBuild false false false false false false) 1 2)
           [1; 2; 3; 4; 0; 0] 513); [vm_compute; lia|vm_compute; done].
Defined.

(** [MultiVectorL2Space] installs the kernel of [L2Space] with the
    dimension as parameter; [MultiVectorInnerProductSpace] installs that of
    [InnerProductSpace] but leaves the parameter the kernels read uninitialised,
    so that no distance of that space is defined. *)
Theorem multi_vector_spaces {F} `{Arith F} rvv (b : Build) (dim : N) (docid : nat) :
  mv_dist_func (MultiVectorL2Space rvv b dim docid) = get_dist_func (L2Space rvv b dim) ∧
  mv_param (MultiVectorL2Space rvv b dim docid) = Some (get_dist_func_param (L2Space rvv b dim)) ∧
  mv_dist_func (MultiVectorInnerProductSpace b dim docid) = get_dist_func (InnerProductSpace b dim) ∧
  mv_param (MultiVectorInnerProductSpace (F:=F) b dim docid) = None.
Proof. done. Qed.

(** ** Epsilon *)
Section laws.
Context `{HI : HeapImpl} {D : Type} `{HD : DistT D} `{HO : !DistOrder D}.
Implicit Types (l : list (D * labeltype)).

Definition closer_first l : Prop := StronglySorted (λ x y : D * labeltype, dlt y.1 x.1 = false) l.

Lemma removelast_snoc {A} (l : list A) x : removelast (l ++ [x]) = l.
Proof. apply removelast_last. Qed.

Lemma closer_first_snoc l x : closer_first (l ++ [x]) →
  closer_first l ∧ Forall (λ y, dlt x.1 y.1 = false) l.
Proof.
  induction l as [|y l IH]; simpl; intros H; [by split; constructor|].
  apply StronglySorted_inv in H as [H1 H2]. destruct (IH H1) as [H3 H4].
  rewrite Forall_app, Forall_singleton in H2. destruct H2 as [H2 H5]. split; by constructor.
Qed.

Lemma eps_far_sorted (eps : D) l : closer_first l →
  eps_far (length l) eps l = filter (λ x, dlt eps x.1 = false) l.
Proof.
  induction l as [|x l IH] using rev_ind; intros Hs; [done|].
  apply closer_first_snoc in Hs as [Hs Hx]. rewrite length_app, Nat.add_1_r. cbn [eps_far].
  rewrite last_snoc, removelast_snoc, filter_app. destruct (dlt eps x.1) eqn:E.
  - rewrite IH by done. rewrite filter_cons_False by by rewrite E. by rewrite filter_nil, (right_id_L [] (++)).
  - rewrite filter_cons_True by done. rewrite filter_nil. f_equal. symmetry. clear IH.
    induction Hx as [|y l Hy Hx IHx]; [done|]. apply StronglySorted_inv in Hs as [Hs _].
    rewrite filter_cons_True by by apply (sw_negtrans eps x.1 y.1). by rewrite IHx by done.
Qed.
Lemma eps_extra_take n l : eps_extra (length l) n l = take (N.to_nat n) l.
Proof.
  induction l as [|x l IH] using rev_ind; [by rewrite take_nil|].
  rewrite length_app, Nat.add_1_r. cbn [eps_extra]. rewrite removelast_snoc, length_app. simpl.
  destruct (N.ltb_spec n (N.of_nat (length l + 1))).
  - rewrite IH, take_app_le by lia. done.
  - by rewrite take_ge by (rewrite length_app; simpl; lia).
Qed.

(** [EpsilonSearchStopCondition::filter_results] on candidates ordered by
    distance returns the first [max_num_candidates] of those within [epsilon]. *)
Theorem epsilon_filter_results (sc : epsilon_cond) l :
  closer_first l →
  filter_results l sc =
    Ok (take (N.to_nat (max_num_candidates_ sc)) (filter (λ x, dlt (epsilon_ sc) x.1 = false) l), sc).
Proof. intros Hs. simpl. by rewrite eps_far_sorted, eps_extra_take. Qed.

(** ** Documents *)
Definition docs (l : list (D * N)) : gset N := list_to_set l.*2.
Definition ndocs (l : list (D * N)) : N := N.of_nat (size (docs l)).
Definition doc_count (doc : N) (l : list (D * N)) : N := N.of_nat (length (filter (λ x, x.2 = doc) l)).

Record mv_ok (sc : multi_vector (D:=D)) : Prop := {
  mv_heap : is_heap doc_less (search_results_ sc);
  mv_counter doc : counter sc doc = doc_count doc (search_results_ sc);
  mv_docs : curr_num_docs_ sc = ndocs (search_results_ sc);
  mv_small : N.of_nat (length (search_results_ sc)) < 18446744073709551616
}.

#[global] Instance doc_count_perm doc : Proper ((≡ₚ) ==> (=)) (doc_count doc).
Proof. intros l1 l2 Hp. unfold doc_count. by rewrite Hp. Qed.
#[global] Instance docs_perm : Proper ((≡ₚ) ==> (=)) docs.
Proof. intros l1 l2 Hp. unfold docs. apply leibniz_equiv. by rewrite Hp. Qed.
#[global] Instance ndocs_perm : Proper ((≡ₚ) ==> (=)) ndocs.
Proof. intros l1 l2 Hp. unfold ndocs. by rewrite Hp. Qed.

Lemma doc_count_cons doc d x l : doc_count doc ((d, x) :: l) = (if decide (x = doc) then 1 else 0) + doc_count doc l.
Proof. unfold doc_count. rewrite filter_cons. simpl. case_decide; simpl; lia. Qed.
Lemma doc_count_zero doc l : doc_count doc l = 0 ↔ doc ∉ docs l.
Proof.
  unfold docs. rewrite elem_of_list_to_set. induction l as [|[d x] l IH]; [simpl; split; [intros _; apply not_elem_of_nil|done]|].
  rewrite doc_count_cons. simpl. rewrite not_elem_of_cons, <- IH. case_decide; subst; split; intros; try lia; try tauto.
Qed.
Lemma ndocs_cons d x l : ndocs ((d, x) :: l) = if doc_count x l =? 0 then ndocs l + 1 else ndocs l.
Proof.
  unfold ndocs, docs. cbn [fmap list_fmap list_to_set fst snd]. fold (docs l).
  destruct (N.eqb_spec (doc_count x l) 0) as [H|H]; rewrite doc_count_zero in H.
  - rewrite size_union, size_singleton by by apply disjoint_singleton_l. lia.
  - apply dec_stable in H. by rewrite (subseteq_union_1_L {[x]} (docs l)) by by apply singleton_subseteq_l.
Qed.
Lemma ndocs_length l : ndocs l ≤ N.of_nat (length l).
Proof. induction l as [|[d x] l IH]; [done|]. rewrite ndocs_cons. simpl. case_match; lia. Qed.
Lemma doc_count_length doc l : doc_count doc l ≤ N.of_nat (length l).
Proof. unfold doc_count. pose proof (length_filter (λ x : D * N, x.2 = doc) l). lia. Qed.

Lemma size_pred_S n : n + 1 < 18446744073709551616 → size_pred (n + 1) = n.
Proof.
  intros Hn. unfold size_pred. replace (n + 1 + 18446744073709551615) with (n + 1 * 18446744073709551616) by lia.
  by rewrite N.Div0.mod_add, N.mod_small by lia.
Qed.

Lemma mv_new_ok n ef : mv_ok (MultiVectorSearchStopCondition n ef).
Proof. by split; simpl. Qed.
Lemma mv_add_ok doc d sc :
  mv_ok sc → N.of_nat (length (search_results_ sc)) + 1 < 18446744073709551616 → mv_ok (mv_add doc d sc).
Proof.
  intros [H1 H2 H3 H4] Hlt. split; simpl.
  - apply pq_push_heap; [apply _|done].
  - intros x. unfold counter. simpl. rewrite pq_push_perm, doc_count_cons. destruct (decide (doc = x)) as [->|Hne].
    + rewrite lookup_insert_eq. simpl. rewrite H2. lia.
    + rewrite lookup_insert_ne by done. fold (counter sc x). rewrite H2. lia.
  - rewrite pq_push_perm, ndocs_cons, H2, H3. done.
  - rewrite pq_push_length. lia.
Qed.
Lemma mv_drop_ok sc t : mv_ok sc → pq_top (search_results_ sc) = Some t → mv_ok (mv_drop t.2 sc).
Proof.
  intros [H1 H2 H3 H4] Ht. destruct t as [d doc]. pose proof (pq_pop_perm doc_less _ _ Ht) as Hp.
  set (q := pq_pop doc_less (search_results_ sc)) in *.
  assert (N.of_nat (length q) + 1 < 18446744073709551616) as Hlen.
  { rewrite Hp in H4. simpl in H4. lia. }
  pose proof (doc_count_length doc q). pose proof (ndocs_length q).
  assert (size_pred (counter sc doc) = doc_count doc q) as Hc.
  { rewrite H2, Hp, doc_count_cons, decide_True by done. rewrite N.add_comm. apply size_pred_S. lia. }
  split; simpl; fold q; rewrite ?Hc.
  - apply pq_pop_heap; [apply _|done].
  - intros x. unfold counter. simpl. destruct (decide (doc = x)) as [->|Hne]; [by rewrite lookup_insert_eq|].
    rewrite lookup_insert_ne by done. fold (counter sc x). by rewrite H2, Hp, doc_count_cons, decide_False.
  - rewrite H3. assert (ndocs (search_results_ sc) = ndocs ((d, doc) :: q)) as -> by by rewrite <- Hp.
    rewrite ndocs_cons. destruct (doc_count doc q =? 0); [|done]. apply size_pred_S. lia.
  - lia.
Qed.

Lemma pq_drain_cons (q : list (D * N)) t :
  pq_top q = Some t → pq_drain doc_less q = t :: pq_drain doc_less (pq_pop doc_less q).
Proof.
  destruct q as [|x q]; [done|]. intros [= ->]. unfold pq_drain.
  rewrite pq_pop_length. cbn [length pq_drain_aux]. by rewrite Nat.sub_1_r.
Qed.

(** The candidates and the queue hold the same distances, farthest last and
    farthest first. *)
Definition aligned (candidates : list (D * labeltype)) (sc : multi_vector (D:=D)) : Prop :=
  Forall2 (λ c t, deq c.1 t.1 = true) (rev candidates) (pq_drain doc_less (search_results_ sc)).

Lemma mv_filter_ok fuel : ∀ l sc,
  (length l < fuel)%nat → mv_ok sc → aligned l sc →
  let L := pq_drain doc_less (search_results_ sc) in
  ∃ n sc', mv_filter fuel l sc = Ok (take (length l - n) l, sc') ∧ mv_ok sc' ∧ (n ≤ length l)%nat ∧
    ndocs (drop n L) ≤ num_docs_to_search_ sc ∧
    ∀ m, (m < n)%nat → num_docs_to_search_ sc < ndocs (drop m L).
Proof.
  induction fuel as [|fuel IH]; intros l sc Hf Hok Ha L; [lia|]. cbn [mv_filter].
  pose proof (mv_docs _ Hok) as Hd. assert (ndocs L = curr_num_docs_ sc) as HL.
  { rewrite Hd. unfold L. by rewrite pq_drain_perm. }
  destruct (N.ltb_spec (num_docs_to_search_ sc) (curr_num_docs_ sc)) as [Hlt|Hge].
  2:{ exists 0%nat, sc. rewrite Nat.sub_0_r, take_ge by done. split_and!; [done|done|lia| |lia].
      rewrite drop_0, HL. lia. }
  destruct (pq_top (search_results_ sc)) as [t|] eqn:Ht.
  2:{ apply pq_top_None in Ht. rewrite Ht in Hd. pose proof (ndocs_length []) as Hz. simpl in Hz. lia. }
  pose proof (pq_drain_cons _ _ Ht) as HLc. unfold aligned in Ha. rewrite HLc in Ha.
  destruct l as [|c l _] using rev_ind; [by apply Forall2_nil_cons_inv in Ha|].
  rewrite rev_unit in Ha. apply Forall2_cons in Ha as [Heq Ha].
  rewrite last_snoc, removelast_snoc. cbn [of_opt res_bind]. rewrite Heq. cbn [negb].
  rewrite length_app in *. simpl in Hf.
  destruct (IH l (mv_drop t.2 sc)) as (n & sc' & Hrun & Hok' & Hn & Hle & Hmore); [lia|by apply mv_drop_ok|done|].
  exists (S n), sc'. simpl search_results_ in Hle, Hmore. simpl num_docs_to_search_ in Hle, Hmore.
  unfold L. rewrite HLc. cbn [drop]. split_and!; [| |simpl; lia|done|].
  - rewrite Hrun. do 2 f_equal. replace (length l + length [c] - S n)%nat with (length l - n)%nat by (simpl; lia).
    by rewrite take_app_le by lia.
  - done.
  - intros [|m] Hm; [|apply Hmore; lia]. cbn [drop]. rewrite <- HLc. fold L. by rewrite HL.
Qed.

(** [MultiVectorSearchStopCondition::filter_results], with counters that
    agree with its queue and candidates that have the queue's distances,
    returns (no [back()] or [top()] of an empty container, no failed assertion)
    a prefix of the candidates: the longest one with at most
    [num_docs_to_search] documents. *)
Theorem multi_vector_filter_results {F} (sp : MultiVectorSpace F) (sc : multi_vector (D:=D)) l :
  mv_ok sc → aligned l sc →
  let L := pq_drain doc_less (search_results_ sc) in
  ∃ n sc', filter_results (StopCondition:=mv_stop sp) l sc = Ok (take (length l - n) l, sc') ∧ mv_ok sc' ∧
    (n ≤ length l)%nat ∧ ndocs (drop n L) ≤ num_docs_to_search_ sc ∧
    ∀ m, (m < n)%nat → num_docs_to_search_ sc < ndocs (drop m L).
Proof. intros Hok Ha. apply mv_filter_ok; [lia|done|done]. Qed.
End laws.

Lemma epsilon_filter_results_witness :
  filter_results [(1%Z, 7); (4%Z, 8); (5%Z, 9); (30%Z, 10)] (mkEps 10%Z 0 2 4) =
  Ok ([(1%Z, 7); (4%Z, 8)], mkEps 10%Z 0 2 4).
Proof.
  rewrite (epsilon_filter_results (mkEps 10%Z 0 2 4) [(1%Z, 7); (4%Z, 8); (5%Z, 9); (30%Z, 10)]).
  - vm_compute. done.
  - repeat constructor.
Defined.

Definition mv_demo_space : MultiVectorSpace Z :=
  MultiVectorL2Space (λ _ _ _, None) (mkBuild false false false false false false) 1 1.
Definition mv_demo : multi_vector (D:=Z) :=
  mv_add 7 1%Z (mv_add 8 4%Z (mv_add 7 5%Z (MultiVectorSearchStopCondition 1 10))).
Lemma mv_demo_ok : mv_ok mv_demo.
Proof. repeat (apply mv_add_ok; [|vm_compute; done]). apply mv_new_ok. Qed.

Lemma multi_vector_filter_results_witness :
  let l := [(1%Z, 0); (4%Z, 1); (5%Z, 2)] in
  ∃ n sc', filter_results (StopCondition:=mv_stop mv_demo_space) l mv_demo = Ok (take (length l - n) l, sc') ∧ mv_ok sc' ∧
    (n ≤ length l)%nat ∧ ndocs (drop n (pq_drain doc_less (search_results_ mv_demo))) ≤ 1 ∧
    ∀ m, (m < n)%nat → 1 < ndocs (drop m (pq_drain doc_less (search_results_ mv_demo))).
Proof.
  apply (multi_vector_filter_results mv_demo_space mv_demo [(1%Z, 0); (4%Z, 1); (5%Z, 2)]).
  - apply mv_demo_ok.
  - vm_compute. repeat constructor.
Defined.
