(* ===== verification/HnswWf.v ===== *)
(** * The invariant of the index

    [graph_ok] says what [checkIntegrity] of hnswalg.h asserts of every link
    list (targets in range, no self link, no duplicate) and what the code
    relies on without checking: counts within the slots, targets that exist on
    the level of the link, memory written for every element.  [frame] relates
    two states that differ only in links, pool, generators and metrics. *)

From Stdlib Require Import ZArith Lia.
From stdpp Require Import base numbers list gmap strings.
From S2P Require Import Prelude Heap VisitedList Arith Hnsw.
#[local] Open Scope N_scope.

(** ** The word of a link list *)
Lemma count_set ll n : n < 65536 → getListCount (setListCount ll n) = n.
Proof.
  intros Hn. unfold getListCount, setListCount. simpl.
  apply N.bits_inj. intros i. rewrite N.land_spec, N.lor_spec, N.ldiff_spec, N.land_spec.
  destruct (N.lt_ge_cases i 16) as [Hi|Hi].
  - rewrite N.ones_spec_low by done. simpl. by rewrite andb_false_r, !andb_true_r.
  - rewrite N.ones_spec_high by done. rewrite andb_false_r. symmetry.
    destruct (decide (n = 0)) as [->|]; [apply N.bits_0|].
    apply N.bits_above_log2, N.lt_le_trans with 16; [|done]. apply N.log2_lt_pow2; [lia|]. exact Hn.
Qed.
Lemma deleted_set_count ll n : ll_deleted (setListCount ll n) = ll_deleted ll.
Proof.
  unfold ll_deleted, setListCount, DELETE_MARK_BIT. simpl.
  rewrite N.lor_spec, N.ldiff_spec, N.land_spec, N.ones_spec_high by done.
  by rewrite andb_true_r, andb_false_r, orb_false_r.
Qed.
Lemma count_mark ll : getListCount (ll_mark ll) = getListCount ll.
Proof.
  unfold getListCount, ll_mark. simpl. apply N.bits_inj. intros i. rewrite !N.land_spec, N.setbit_eqb.
  destruct (N.lt_ge_cases i 16) as [Hi|Hi].
  - unfold DELETE_MARK_BIT. by decide_cmp.
  - by rewrite N.ones_spec_high, !andb_false_r by done.
Qed.
Lemma count_unmark ll : getListCount (ll_unmark ll) = getListCount ll.
Proof.
  unfold getListCount, ll_unmark. simpl. apply N.bits_inj. intros i. rewrite !N.land_spec, N.clearbit_eqb.
  destruct (N.lt_ge_cases i 16) as [Hi|Hi].
  - unfold DELETE_MARK_BIT. decide_cmp. by rewrite andb_true_r.
  - by rewrite N.ones_spec_high, !andb_false_r by done.
Qed.
Lemma deleted_mark ll : ll_deleted (ll_mark ll) = true.
Proof. apply N.setbit_eq. Qed.
Lemma deleted_unmark ll : ll_deleted (ll_unmark ll) = false.
Proof. apply N.clearbit_eq. Qed.
Lemma unmark_mark ll : ll_deleted ll = false → ll_unmark (ll_mark ll) = ll.
Proof.
  destruct ll as [w sl]. unfold ll_deleted, ll_unmark, ll_mark. simpl. intros H. f_equal.
  apply N.bits_inj. intros i. rewrite N.clearbit_eqb, N.setbit_eqb.
  destruct (N.eqb_spec DELETE_MARK_BIT i) as [<-|]; simpl; [by rewrite H|]. by rewrite andb_true_r.
Qed.

(** ** Nodes, levels and links *)
Section wf.
Context `{RE : RandomEngine}.
Implicit Types (s : hnsw) (i j : tableint) (l lv : Z) (ll : linklist).

Definition level_of s i : option Z := element_levels_ s !! N.to_nat i.

(** [i] is an element that takes part in level [l]. *)
Definition at_level s i l : Prop := i < cur_element_count s ∧ ∃ lv, level_of s i = Some lv ∧ (l ≤ lv)%Z.

Definition ll_ids ll : list tableint := take (N.to_nat (getListCount ll)) (ll_slots ll).

(** The words of a list are 32-bit. *)
Definition ll_typed ll : Prop := ll_word ll < 4294967296 ∧ Forall (λ v, v < 4294967296) (ll_slots ll).

Definition ll_ok s i l ll : Prop :=
  length (ll_slots ll) = N.to_nat (Mmax s l) ∧ getListCount ll ≤ Mmax s l ∧
  NoDup (ll_ids ll) ∧ Forall (λ j, j ≠ i ∧ at_level s j l) (ll_ids ll) ∧ ll_typed ll.

Record node_ok s i (e : element) lv : Prop := {
  no_el : level0 s !! i = Some e;
  no_size : length (el_data e) = N.to_nat (data_size_ (cfg s));
  no_level : level_of s i = Some lv;
  no_pos : (0 ≤ lv)%Z;
  no_upper : (0 < lv)%Z → ∃ ls, upper s !! i = Some ls ∧ length ls = Z.to_nat lv;
  no_links l : (0 ≤ l ≤ lv)%Z → ∃ ll, get_linklist_at_level s i l = Ok ll ∧ ll_ok s i l ll
}.

Definition cfg_ok (c : config) : Prop :=
  1 ≤ M_ c ∧ M_ c ≤ maxM_ c ∧ M_ c ≤ maxM0_ c ∧ maxM_ c < 65536 ∧ maxM0_ c < 65536 ∧
  M_ c ≤ ef_construction_ c ∧ max_elements_ c ≤ 2147483648 ∧ mult_ c = inv_log (M_ c).

(** The offsets into an element's memory, as the constructor computes them. *)
Definition cfg_layout (c : config) : Prop :=
  offsetLevel0_ c = 0 ∧ offsetData_ c = maxM0_ c * 4 + 4 ∧ label_offset_ c = offsetData_ c + data_size_ c ∧
  size_data_per_element_ c = label_offset_ c + 8 ∧ size_links_per_element_ c = maxM_ c * 4 + 4 ∧
  size_links_level0_ c = maxM0_ c * 4 + 4.

Record graph_ok s : Prop := {
  go_cfg : cfg_ok (cfg s);
  go_count : cur_element_count s ≤ max_elements_ (cfg s);
  go_levels : length (element_levels_ s) = N.to_nat (max_elements_ (cfg s));
  go_pool : pool_ok (visited_list_pool_ s);
  go_pool_n : pool_numelements (visited_list_pool_ s) = max_elements_ (cfg s);
  go_node i : i < cur_element_count s → ∃ e lv, node_ok s i e lv;
  go_layout : cfg_layout (cfg s)
}.

(** The entry point is an element of the highest level. *)
Definition entry_ok s : Prop :=
  (cur_element_count s = 0 ∧ enterpoint_node_ s = 4294967295 ∧ maxlevel_ s = (-1)%Z) ∨
  (enterpoint_node_ s < cur_element_count s ∧ level_of s (enterpoint_node_ s) = Some (maxlevel_ s) ∧
   ∀ i lv, i < cur_element_count s → level_of s i = Some lv → (lv ≤ maxlevel_ s)%Z).

(** ** 32-bit words *)
Lemma u32_bits w : w < 4294967296 ↔ ∀ k, 32 ≤ k → N.testbit w k = false.
Proof.
  change 4294967296 with (2 ^ 32). split.
  - intros Hw k Hk. rewrite <- (N.mod_small w (2 ^ 32)) by done. by apply N.mod_pow2_bits_high.
  - intros Hw. assert (w = w mod 2 ^ 32) as ->; [|by apply N.mod_lt].
    apply N.bits_inj. intros k. destruct (N.lt_ge_cases k 32).
    + by rewrite N.mod_pow2_bits_low.
    + by rewrite N.mod_pow2_bits_high, Hw.
Qed.
Lemma typed_set_count ll n : ll_typed ll → ll_typed (setListCount ll n).
Proof.
  intros [Hw Hs]. split; [|done]. rewrite u32_bits in *. intros k Hk. unfold setListCount. cbn [ll_word].
  rewrite N.lor_spec, N.ldiff_spec, N.land_spec, (Hw k Hk), N.ones_spec_high by lia. by rewrite andb_false_r.
Qed.
Lemma typed_mark ll : ll_typed ll → ll_typed (ll_mark ll).
Proof.
  intros [Hw Hs]. split; [|done]. rewrite u32_bits in *. intros k Hk. unfold ll_mark. cbn [ll_word].
  unfold DELETE_MARK_BIT. rewrite N.setbit_neq by lia. auto.
Qed.
Lemma typed_unmark ll : ll_typed ll → ll_typed (ll_unmark ll).
Proof.
  intros [Hw Hs]. split; [|done]. rewrite u32_bits in *. intros k Hk. unfold ll_unmark. cbn [ll_word].
  unfold DELETE_MARK_BIT. rewrite N.clearbit_neq by lia. auto.
Qed.
Lemma typed_blank n : ll_typed (blank_ll n).
Proof. split; [done|]. unfold blank_ll. cbn [ll_slots]. by apply Forall_replicate. Qed.

(** The first slots overwritten by elements of the index. *)
Lemma typed_ids s i l ll ids :
  ll_typed ll → cur_element_count s ≤ 2147483648 → Forall (λ j, j ≠ i ∧ at_level s j l) ids →
  ll_typed {| ll_word := ll_word ll; ll_slots := ids ++ drop (length ids) (ll_slots ll) |}.
Proof.
  intros [Hw Hs] Hn Hf. split; [done|]. cbn [ll_slots] in *. apply Forall_app. split; [|by apply Forall_drop].
  eapply Forall_impl; [exact Hf|]. intros j (_ & Hj & _). simpl. lia.
Qed.

Lemma count_u31 s : graph_ok s → cur_element_count s ≤ 2147483648.
Proof. intros Hg. pose proof (go_count _ Hg). destruct (go_cfg _ Hg) as (_ & _ & _ & _ & _ & _ & Hm & _). lia. Qed.

(** ** Reading a well-formed index *)
Lemma links_of_ok s i l ll : ll_ok s i l ll → links_of ll = Ok (ll_ids ll).
Proof.
  intros (H1 & H2 & _). unfold links_of, ll_ids. by decide_cmp.
Qed.

Lemma at_level_0 s i : graph_ok s → i < cur_element_count s → at_level s i 0.
Proof. intros Hg Hi. destruct (go_node _ Hg i Hi) as (e & lv & Hn). split; [done|]. exists lv. split; apply Hn. Qed.

Lemma at_level_le s i l l' : at_level s i l → (l' ≤ l)%Z → at_level s i l'.
Proof. intros (H & lv & H1 & H2) ?. split; [done|]. exists lv. split; [done|lia]. Qed.

Lemma ok_get_el s i e lv : graph_ok s → i < cur_element_count s → node_ok s i e lv → get_el s i = Ok e.
Proof.
  intros Hg Hi Hn. unfold get_el. pose proof (go_count _ Hg).
  decide_cmp. by rewrite (no_el _ _ _ _ Hn).
Qed.

(** The contents of an element, as total functions. *)
Definition data_of s i : point := default [] (el_data <$> level0 s !! i).
Definition label_of s i : labeltype := default 0 (el_label <$> level0 s !! i).
Definition live s i : bool := default false ((λ e, negb (ll_deleted (el_ll e))) <$> level0 s !! i).

Lemma ok_reads s i :
  graph_ok s → i < cur_element_count s →
  getDataByInternalId s i = Ok (data_of s i) ∧ getExternalLabel s i = Ok (label_of s i) ∧
  isMarkedDeleted s i = Ok (negb (live s i)).
Proof.
  intros Hg Hi. destruct (go_node _ Hg i Hi) as (e & lv & Hn).
  pose proof (ok_get_el _ _ _ _ Hg Hi Hn) as He.
  unfold getDataByInternalId, getExternalLabel, isMarkedDeleted, get_linklist0, data_of, label_of, live.
  rewrite He, (no_el _ _ _ _ Hn). simpl. by rewrite negb_involutive.
Qed.

(** The links of a node on a level, as a total function. *)
Definition nbs_at s l i : list tableint :=
  match get_linklist_at_level s i l with Ok ll => ll_ids ll | _ => [] end.

Lemma ok_links s i l :
  graph_ok s → (0 ≤ l)%Z → at_level s i l →
  ∃ ll, get_linklist_at_level s i l = Ok ll ∧ ll_ok s i l ll ∧ links_of ll = Ok (nbs_at s l i).
Proof.
  intros Hg Hl (Hi & lv & Hlv & Hle). destruct (go_node _ Hg i Hi) as (e & lv' & Hn).
  assert (lv' = lv) as -> by (pose proof (no_level _ _ _ _ Hn); congruence).
  destruct (no_links _ _ _ _ Hn l) as (ll & H1 & H2); [lia|].
  exists ll. split_and!; [done|done|]. unfold nbs_at. rewrite H1. by eapply links_of_ok.
Qed.

Lemma nbs_at_level s i j l :
  graph_ok s → (0 ≤ l)%Z → at_level s i l → j ∈ nbs_at s l i → at_level s j l ∧ j ≠ i.
Proof.
  intros Hg Hl Hi Hj. destruct (ok_links s i l Hg Hl Hi) as (ll & H1 & (_ & _ & _ & Hf & _) & _).
  unfold nbs_at in Hj. rewrite H1 in Hj. rewrite Forall_forall in Hf. by destruct (Hf j Hj).
Qed.

(** ** What link updates leave alone *)
Definition el_view (e : element) : point * labeltype * bool := (el_data e, el_label e, ll_deleted (el_ll e)).

Record frame s s' : Prop := {
  fr_cfg : cfg s' = cfg s;
  fr_count : cur_element_count s' = cur_element_count s;
  fr_num_deleted : num_deleted_ s' = num_deleted_ s;
  fr_deleted : deleted_elements s' = deleted_elements s;
  fr_maxlevel : maxlevel_ s' = maxlevel_ s;
  fr_entry : enterpoint_node_ s' = enterpoint_node_ s;
  fr_lookup : label_lookup_ s' = label_lookup_ s;
  fr_levels : element_levels_ s' = element_levels_ s;
  fr_el i : el_view <$> level0 s' !! i = el_view <$> level0 s !! i
}.

#[global] Instance frame_preorder : PreOrder frame.
Proof.
  split.
  - intros s. by split.
  - intros s1 s2 s3 [] []. split; congruence.
Qed.
Lemma frame_sym s s' : frame s s' → frame s' s.
Proof. intros []. split; congruence || done. Qed.

Lemma frame_Mmax s s' l : frame s s' → Mmax s' l = Mmax s l.
Proof. intros Hf. unfold Mmax. by rewrite (fr_cfg _ _ Hf). Qed.
Lemma frame_level_of s s' i : frame s s' → level_of s' i = level_of s i.
Proof. intros Hf. unfold level_of. by rewrite (fr_levels _ _ Hf). Qed.
Lemma frame_at_level s s' i l : frame s s' → at_level s' i l ↔ at_level s i l.
Proof. intros Hf. unfold at_level. by rewrite (frame_level_of s s'), (fr_count _ _ Hf) by done. Qed.
Lemma frame_ll_ok s s' i l ll : frame s s' → ll_ok s' i l ll ↔ ll_ok s i l ll.
Proof.
  intros Hf. unfold ll_ok. rewrite (frame_Mmax s s') by done.
  assert (Forall (λ j, j ≠ i ∧ at_level s' j l) (ll_ids ll) ↔ Forall (λ j, j ≠ i ∧ at_level s j l) (ll_ids ll)) as ->;
    [|done].
  rewrite !Forall_forall. by setoid_rewrite (frame_at_level s s' _ _ Hf).
Qed.
Lemma frame_entry s s' : frame s s' → entry_ok s → entry_ok s'.
Proof.
  intros Hf. unfold entry_ok.
  rewrite (fr_count _ _ Hf), (fr_entry _ _ Hf), (fr_maxlevel _ _ Hf).
  setoid_rewrite (frame_level_of s s' _ Hf). done.
Qed.

Lemma frame_data s s' i : frame s s' → data_of s' i = data_of s i.
Proof.
  intros Hf. pose proof (fr_el _ _ Hf i) as H. unfold data_of.
  destruct (level0 s' !! i), (level0 s !! i); simpl in *; by simplify_eq.
Qed.
Lemma frame_live s s' i : frame s s' → live s' i = live s i.
Proof.
  intros Hf. pose proof (fr_el _ _ Hf i) as H. unfold live.
  destruct (level0 s' !! i) as [e'|], (level0 s !! i) as [e|]; simpl in *; [|done..].
  injection H as _ _ H. by rewrite H.
Qed.
Lemma frame_label s s' i : frame s s' → label_of s' i = label_of s i.
Proof.
  intros Hf. pose proof (fr_el _ _ Hf i) as H. unfold label_of.
  destruct (level0 s' !! i), (level0 s !! i); simpl in *; by simplify_eq.
Qed.

(** ** Writing a link list *)
Definition links_eq s s' : Prop := ∀ i l, get_linklist_at_level s' i l = get_linklist_at_level s i l.

(** Search changes the pool, the metrics and the generators only. *)
Lemma graph_ok_links s s' :
  graph_ok s → frame s s' → links_eq s s' → upper s' = upper s →
  pool_ok (visited_list_pool_ s') → pool_numelements (visited_list_pool_ s') = max_elements_ (cfg s) →
  graph_ok s'.
Proof.
  intros [H1 H2 H3 H4 H5 H6 H7] Hf Hl Hu Hp Hn.
  split; rewrite ?(fr_cfg _ _ Hf), ?(fr_count _ _ Hf), ?(fr_levels _ _ Hf); try done.
  intros i Hi. destruct (H6 i Hi) as (e & lv & [N1 N2 N3 N4 N5 N6]).
  pose proof (fr_el _ _ Hf i) as Hel. rewrite N1 in Hel. simpl in Hel.
  destruct (level0 s' !! i) as [e'|] eqn:He; [|done]. injection Hel as Hd _ _.
  exists e', lv. split; rewrite ?(fr_cfg _ _ Hf), ?Hu; try done.
  - by rewrite Hd.
  - by rewrite (frame_level_of s s').
  - intros l Hll. rewrite (Hl i l). destruct (N6 l Hll) as (ll & ? & ?).
    exists ll. split; [done|]. by apply (frame_ll_ok s s').
Qed.

(** Reading operations: pool, metrics and generators may change. *)
Record quiet s s' : Prop := {
  qu_graph : graph_ok s';
  qu_frame : frame s s';
  qu_links : links_eq s s';
  qu_upper : upper s' = upper s
}.

Lemma quiet_refl s : graph_ok s → quiet s s.
Proof. by split. Qed.
Lemma quiet_trans s1 s2 s3 : quiet s1 s2 → quiet s2 s3 → quiet s1 s3.
Proof.
  intros [_ H2 H3 H4] [H5 H6 H7 H8]. split; [done|by etrans| |congruence].
  intros i l. by rewrite (H7 i l), (H3 i l).
Qed.
Lemma quiet_metrics d h s : graph_ok s → quiet s (set_metrics d h s).
Proof. intros Hg. split; try done. eapply graph_ok_links; [done|by split|done|done|apply Hg|apply Hg]. Qed.
Lemma quiet_gens g u s : graph_ok s → quiet s (set_gens g u s).
Proof. intros Hg. split; try done. eapply graph_ok_links; [done|by split|done|done|apply Hg|apply Hg]. Qed.
Lemma quiet_pool p s :
  graph_ok s → pool_ok p → pool_numelements p = max_elements_ (cfg s) → quiet s (set_pool p s).
Proof. intros Hg Hp Hn. split; try done. eapply graph_ok_links; done. Qed.
Lemma quiet_nbs s s' l i : quiet s s' → nbs_at s' l i = nbs_at s l i.
Proof. intros Hq. unfold nbs_at. by rewrite (qu_links _ _ Hq i l). Qed.

Lemma put_el_get s i e j :
  get_el (put_el i e s) j = if decide (i = j) then (if j <? max_elements_ (cfg s) then Ok e else Undef "element outside the array")
                            else get_el s j.
Proof.
  unfold get_el, put_el. simpl. destruct (decide (i = j)) as [->|Hne].
  - by rewrite lookup_insert_eq.
  - by rewrite lookup_insert_ne.
Qed.

Lemma get_linklist0_el s i ll : get_linklist_at_level s i 0 = Ok ll →
  i < max_elements_ (cfg s) ∧ ∃ e, level0 s !! i = Some e ∧ el_ll e = ll.
Proof.
  unfold get_linklist_at_level, get_linklist0, get_el. simpl.
  destruct (N.ltb_spec i (max_elements_ (cfg s))); [|done].
  destruct (level0 s !! i) as [e|] eqn:He; simpl; [|done]. intros [= <-]. eauto.
Qed.
Lemma get_linklist_upper s i l ll : (0 < l)%Z → get_linklist_at_level s i l = Ok ll →
  ∃ ls, upper s !! i = Some ls ∧ ls !! Z.to_nat (l - 1) = Some ll.
Proof.
  intros Hl. unfold get_linklist_at_level, get_linklist. decide_cmp.
  destruct (upper s !! i) as [ls|]; simpl; [|done]. decide_cmp.
  destruct (ls !! Z.to_nat (l - 1)) eqn:E; simpl; [|done]. intros [= ->]. eauto.
Qed.
Lemma get_linklist_upper_2 s i l ls ll : (0 < l)%Z → upper s !! i = Some ls →
  ls !! Z.to_nat (l - 1) = Some ll → get_linklist_at_level s i l = Ok ll.
Proof.
  intros Hl H1 H2. unfold get_linklist_at_level, get_linklist. decide_cmp.
  rewrite H1. simpl. decide_cmp. by rewrite H2.
Qed.

Lemma get_put_eq s i l ll ll0 :
  (0 ≤ l)%Z → get_linklist_at_level s i l = Ok ll0 →
  get_linklist_at_level (put_linklist i l ll s) i l = Ok ll.
Proof.
  intros Hl H. destruct (decide (l = 0%Z)) as [->|Hne].
  - apply get_linklist0_el in H as (Hi & e & He & _). unfold put_linklist. simpl. rewrite He.
    unfold get_linklist_at_level, get_linklist0. simpl. rewrite put_el_get, decide_True by done.
    by rewrite (proj2 (N.ltb_lt _ _)).
  - apply get_linklist_upper in H as (ls & H1 & H2); [|lia].
    unfold put_linklist. decide_cmp. rewrite H1.
    eapply get_linklist_upper_2; [lia|simpl; apply lookup_insert_eq|].
    apply list_lookup_insert_eq. by eapply lookup_lt_Some.
Qed.

Lemma get_put_ne s i l ll j l' :
  (0 ≤ l)%Z → (i ≠ j ∨ l ≠ l') →
  get_linklist_at_level (put_linklist i l ll s) j l' = get_linklist_at_level s j l'.
Proof.
  intros Hl Hne. unfold put_linklist, get_linklist_at_level.
  destruct (Z.eqb_spec l 0) as [->|Hl0].
  - destruct (level0 s !! i) as [e|] eqn:He; [|done]. destruct (Z.eqb_spec l' 0) as [->|]; [|done].
    unfold get_linklist0. rewrite put_el_get, decide_False by (destruct Hne; congruence). done.
  - destruct (upper s !! i) as [ls|] eqn:Hu; [|done]. destruct (Z.eqb_spec l' 0) as [->|]; [done|].
    unfold get_linklist. simpl. destruct (decide (i = j)) as [->|].
    + rewrite lookup_insert_eq, Hu. simpl. destruct (Z.ltb_spec l' 1); [done|].
      rewrite list_lookup_insert_ne by (destruct Hne; lia || done). done.
    + by rewrite lookup_insert_ne.
Qed.

Lemma frame_put s i l ll ll0 :
  get_linklist_at_level s i l = Ok ll0 → (l = 0%Z → ll_deleted ll = ll_deleted ll0) →
  frame s (put_linklist i l ll s).
Proof.
  intros H Hd. unfold put_linklist. destruct (Z.eqb_spec l 0) as [->|Hl].
  - apply get_linklist0_el in H as (_ & e & He & Hll). rewrite He. split; try done.
    intros j. simpl. destruct (decide (i = j)) as [<-|]; [|by rewrite lookup_insert_ne].
    rewrite lookup_insert_eq, He. simpl. unfold el_view. simpl. by rewrite Hd, Hll.
  - destruct (upper s !! i); by split.
Qed.

Lemma put_pool s i l ll : visited_list_pool_ (put_linklist i l ll s) = visited_list_pool_ s.
Proof. unfold put_linklist. by repeat case_match. Qed.
Lemma put_upper_length s i l ll j ls :
  upper s !! j = Some ls → ∃ ls', upper (put_linklist i l ll s) !! j = Some ls' ∧ length ls' = length ls.
Proof.
  intros Hj. unfold put_linklist. destruct (Z.eqb_spec l 0).
  - case_match; simpl; eauto.
  - case_match eqn:E; simpl; [|eauto]. destruct (decide (i = j)) as [->|].
    + rewrite lookup_insert_eq. rewrite Hj in E. injection E as ->. eexists. split; [done|].
      apply length_insert.
    + rewrite lookup_insert_ne by done. eauto.
Qed.

(** The one lemma behind every link update. *)
Lemma graph_ok_put s i l ll ll0 :
  graph_ok s → (0 ≤ l)%Z → get_linklist_at_level s i l = Ok ll0 →
  (l = 0%Z → ll_deleted ll = ll_deleted ll0) → ll_ok s i l ll →
  graph_ok (put_linklist i l ll s).
Proof.
  intros [H1 H2 H3 H4 H5 H6 H7] Hl Hget Hdel Hok.
  pose proof (frame_put s i l ll ll0 Hget Hdel) as Hf.
  split; rewrite ?(fr_cfg _ _ Hf), ?(fr_count _ _ Hf), ?(fr_levels _ _ Hf), ?put_pool; try done.
  intros j Hj. destruct (H6 j Hj) as (e & lv & [N1 N2 N3 N4 N5 N6]).
  pose proof (fr_el _ _ Hf j) as Hel. rewrite N1 in Hel. simpl in Hel.
  destruct (level0 (put_linklist i l ll s) !! j) as [e'|] eqn:He; [|done]. injection Hel as Hd _ _.
  exists e', lv. split; rewrite ?(fr_cfg _ _ Hf); try done.
  - by rewrite Hd.
  - by rewrite (frame_level_of s).
  - intros (ls & Hls & Hlen)%N5. destruct (put_upper_length s i l ll j ls Hls) as (ls' & ? & ?).
    exists ls'. split; [done|congruence].
  - intros l' Hl'. destruct (N6 l' Hl') as (ll' & Hg & Ho).
    destruct (decide (i = j ∧ l = l')) as [[-> ->]|Hne].
    + exists ll. split; [by eapply get_put_eq|]. by apply (frame_ll_ok s).
    + exists ll'. rewrite get_put_ne
        by (done || (destruct (decide (i = j)) as [->|]; [right; intros ->; by apply Hne|by left])).
      split; [done|]. by apply (frame_ll_ok s).
Qed.
End wf.
