(* ===== verification/HnswSearchLaws.v ===== *)
(** * What the searches of the index compute

    On a well-formed index ([graph_ok]) the layer searches never leave the
    arrays, never run out of fuel, and refine the beam search of BeamSearch;
    the greedy descent stops at a local minimum; [searchKnn] returns what its
    name says about the nodes it visited. *)

From Stdlib Require Import ZArith Lia.
From stdpp Require Import base numbers list gmap strings relations.
From S2P Require Import Prelude Heap VisitedList Arith BeamSearch Hnsw HnswSearch HnswWf.
#[local] Open Scope N_scope.

Section laws.
Context `{RE : RandomEngine} `{HI : HeapImpl} `{AL : Alloc} {D : Type} `{HD : DistT D} `{HO : !DistOrder D}.
Variable fstdistfunc_ : point → point → D.
Implicit Types (s : hnsw) (i j : tableint) (l lv : Z).

Definition dist_to s (q : point) i : D := fstdistfunc_ q (data_of s i).

(** ** searchBaseLayer refines the beam search *)
Section sbl.
Variables (s : hnsw) (q : point) (layer : Z).
Hypothesis Hg : graph_ok s.
Hypothesis Hlayer : (0 ≤ layer)%Z.
Let n := max_elements_ (cfg s).
Let efc := ef_construction_ (cfg s).
Let P i := at_level s i layer.

Lemma efc_pos : 1 ≤ efc.
Proof. destruct (go_cfg _ Hg) as (? & _ & _ & _ & _ & ? & _). unfold efc. lia. Qed.
Lemma P_bound i : P i → i < n.
Proof. intros [? _]. pose proof (go_count _ Hg). unfold n. lia. Qed.
Lemma P_closed i : P i → Forall P (nbs_at s layer i).
Proof. intros Hi. apply Forall_forall. intros j Hj. by eapply nbs_at_level. Qed.

Lemma visited_read (vl : VisitedList) i :
  vl_ok vl → numelements vl = n → P i → is_visited vl i = Some (seen vl i).
Proof.
  intros Hvl Hn Hi. unfold seen.
  destruct (is_visited_is_Some vl i Hvl) as [[] ->]; [rewrite Hn; by apply P_bound|done|done].
Qed.

Lemma sbl_visit_refine (v : lstate D) i :
  beam_safe efc P n v → P i →
  sbl_visit fstdistfunc_ s q v i = Ok (g_visit (dist_to s q) (live s) efc v i).
Proof.
  intros (Hvl & Hn & _ & _) Hi. unfold sbl_visit, g_visit.
  rewrite (visited_read _ _ Hvl Hn Hi). simpl. destruct (seen (visited v) i); [done|].
  destruct (ok_reads s i Hg) as (-> & _ & ->); [apply Hi|]. simpl. fold (dist_to s q i) efc.
  case_match; [|done]. unfold g_push. by destruct (live s i).
Qed.

Lemma sbl_for_refine (v : lstate D) ids :
  beam_safe efc P n v → Forall P ids →
  sbl_for fstdistfunc_ s q v ids = Ok (g_for (dist_to s q) (live s) efc v ids).
Proof.
  revert v. induction ids as [|i ids IH]; intros v Hv Hf; [done|].
  apply Forall_cons in Hf as [Hi Hf]. simpl. rewrite sbl_visit_refine by done. simpl.
  rewrite IH; [done| |done]. by apply g_visit_safe.
Qed.

Lemma sbl_while_refine fuel (v : lstate D) :
  beam_safe efc P n v →
  sbl_while fstdistfunc_ fuel s q layer v =
    match g_while (nbs_at s layer) (dist_to s q) (live s) efc false fuel v with Some v' => Ok v' | None => Fuel end.
Proof.
  revert v. induction fuel as [|fuel IH]; intros v Hv; [done|]. simpl.
  destruct (pq_top (candidateSet v)) as [[d c]|] eqn:Ht; [|done].
  unfold g_stop. simpl. fold efc. case_match; [done|].
  assert (P c) as Hc by (apply pq_top_elem in Ht; by apply Hv in Ht).
  destruct (ok_links s c layer Hg Hlayer Hc) as (ll & -> & _ & Hll). simpl. rewrite Hll. simpl.
  rewrite sbl_for_refine by (by apply pop_safe || by apply P_closed). simpl.
  apply IH. apply g_for_safe; [by apply pop_safe|by apply P_closed].
Qed.

Lemma sbl_init_refine ep vl :
  vl_ok vl → numelements vl = n → P ep →
  sbl_init fstdistfunc_ s q ep vl = Ok (g_init (dist_to s q) (live s) ep vl).
Proof.
  intros Hvl Hn Hep. unfold sbl_init, g_init.
  destruct (ok_reads s ep Hg) as (-> & _ & ->); [apply Hep|]. simpl.
  rewrite visited_read by done. simpl. by destruct (live s ep).
Qed.
End sbl.

(** ** searchBaseLayerST without a stop condition *)
Section st.
Variables (s : hnsw) (q : point) (bare : bool) (ef : N) (flt : option (labeltype → bool)).
Hypothesis Hg : graph_ok s.
Hypothesis Hef : 1 ≤ ef.
Let n := max_elements_ (cfg s).
Let P i := at_level s i 0.

(** The elements the query may return. *)
Definition st_acc i : bool :=
  bare || (live s i && match flt with Some f => f (label_of s i) | None => true end).

Lemma st_accept_ok i : i < cur_element_count s → st_accept bare s flt i = Ok (st_acc i).
Proof.
  intros Hi. unfold st_accept, st_acc. destruct bare; [done|]. simpl.
  destruct (ok_reads s i Hg Hi) as (_ & -> & ->). simpl. destruct (live s i); simpl; [|done].
  by destruct flt.
Qed.

Lemma st_remove_none {SC} `{StopCondition D SC} (d : D) top :
  pq_size top ≤ ef + 1 →
  st_remove (SC:=SC) bare (S (length top)) s ef d top None =
    Ok (if ef <? pq_size top then pq_pop cmp top else top, None).
Proof.
  intros Hs. assert (st_stop (SC:=SC) bare None = None) as Hn by (by destruct bare).
  simpl. unfold st_flag_remove. rewrite Hn. destruct (N.ltb_spec ef (pq_size top)) as [Hlt|]; [|done].
  destruct top as [|t top]; [unfold pq_size in Hlt; simpl in Hlt; lia|]. simpl of_opt. simpl res_bind.
  change (pop_heap cmp (t :: top)) with (pq_pop cmp (t :: top)).
  assert ((ef <? pq_size (pq_pop cmp (t :: top))) = false) as Hsz.
  { apply N.ltb_ge. rewrite pq_pop_size. lia. }
  generalize dependent (pq_pop cmp (t :: top)). intros top' Hsz.
  destruct (length (t :: top)); simpl; unfold st_flag_remove; rewrite Hn, Hsz; done.
Qed.

Lemma st_visit_refine {SC} `{StopCondition D SC} (v : lstate D) i :
  beam_safe ef P n v → P i →
  st_visit (SC:=SC) fstdistfunc_ bare s q ef flt v None i = Ok (g_visit (dist_to s q) st_acc ef v i, None).
Proof.
  intros (Hvl & Hn & _ & Hsz) Hi. unfold st_visit, g_visit.
  assert (st_stop (SC:=SC) bare None = None) as Hstop by (by destruct bare).
  pose proof (P_bound s 0 Hg i Hi) as Hb. destruct (go_cfg _ Hg) as (_ & _ & _ & _ & _ & _ & Hmax & _).
  decide_cmp.
  rewrite (visited_read s 0 Hg _ _ Hvl Hn Hi). cbn [of_opt res_bind]. destruct (seen (visited v) i); [done|].
  destruct (ok_reads s i Hg) as (-> & _ & _); [apply Hi|]. cbn [res_bind]. fold (dist_to s q i).
  unfold st_consider. rewrite Hstop. case_match; [|done].
  rewrite st_accept_ok by apply Hi. cbn [res_bind]. unfold g_push.
  assert ((if st_acc i then st_add bare s i (data_of s i) (dist_to s q i) (None : option SC) else Ok None) = Ok None)
    as ->.
  { unfold st_add. rewrite Hstop. by destruct (st_acc i). }
  cbn [res_bind]. rewrite st_remove_none; [done|].
  destruct (st_acc i); [rewrite pq_push_size|]; lia.
Qed.

Lemma st_for_refine {SC} `{StopCondition D SC} (v : lstate D) ids :
  beam_safe ef P n v → Forall P ids →
  st_for (SC:=SC) fstdistfunc_ bare s q ef flt v None ids = Ok (g_for (dist_to s q) st_acc ef v ids, None).
Proof.
  revert v. induction ids as [|i ids IH]; intros v Hv Hf; [done|].
  apply Forall_cons in Hf as [Hi Hf]. simpl. rewrite st_visit_refine by done. simpl.
  rewrite IH; [done| |done]. by apply g_visit_safe.
Qed.

Lemma st_while_refine {SC} `{StopCondition D SC} fuel (v : lstate D) hops dcs :
  beam_safe ef P n v →
  st_while (SC:=SC) fstdistfunc_ bare false fuel s q ef flt v None hops dcs =
    match g_while (nbs_at s 0) (dist_to s q) st_acc ef bare fuel v with
    | Some v' => Ok (v', None, (hops, dcs)) | None => Fuel end.
Proof.
  revert v. induction fuel as [|fuel IH]; intros v Hv; [done|]. simpl.
  destruct (pq_top (candidateSet v)) as [[d c]|] eqn:Ht; [|done].
  assert (st_flag_stop (SC:=SC) bare ef v (dneg d) None = g_stop ef bare v d) as ->.
  { unfold st_flag_stop, g_stop. destruct bare; [by rewrite andb_true_r|done]. }
  case_match; [done|].
  assert (P c) as Hc by (apply pq_top_elem in Ht; by apply Hv in Ht).
  destruct (ok_links s c 0 Hg ltac:(done) Hc) as (ll & Hll & _ & Hids).
  change (get_linklist0 s c) with (get_linklist_at_level s c 0). rewrite Hll. simpl. rewrite Hids. simpl.
  rewrite st_for_refine by (by apply pop_safe || by apply (P_closed s 0)). simpl.
  apply IH. apply g_for_safe; [by apply pop_safe|by apply (P_closed s 0)].
Qed.

Lemma st_init_refine {SC} `{StopCondition D SC} ep vl :
  vl_ok vl → numelements vl = n → P ep →
  st_init (SC:=SC) fstdistfunc_ bare s q flt ep vl None = Ok (g_init (dist_to s q) st_acc ep vl, None).
Proof.
  intros Hvl Hn Hep. unfold st_init, g_init. rewrite st_accept_ok by apply Hep. simpl.
  rewrite (visited_read s 0) by done. simpl.
  destruct (ok_reads s ep Hg) as (-> & _ & _); [apply Hep|].
  destruct (st_acc ep); [|done]. simpl. unfold st_add.
  assert (st_stop (SC:=SC) bare None = None) as -> by (by destruct bare). done.
Qed.
End st.

(** ** The two layer searches *)
Lemma quiet_dist s s' q i : quiet s s' → dist_to s' q i = dist_to s q i.
Proof. intros Hq. unfold dist_to. by rewrite (frame_data s s') by apply Hq. Qed.

(** The nodes of a level that links lead to from [ep]. *)
Definition reach s l ep i : Prop := rtc (λ a b, b ∈ nbs_at s l a) ep i.

Lemma reach_at_level s l ep i :
  graph_ok s → (0 ≤ l)%Z → at_level s ep l → reach s l ep i → at_level s i l.
Proof.
  intros Hg Hl Hep. revert i. apply rtc_ind_r; [done|]. intros y z _ Hz Hy. by eapply nbs_at_level.
Qed.
Lemma reach_nbs s l ep i : reach s l ep i → Forall (reach s l ep) (nbs_at s l i).
Proof. intros Hi. apply Forall_forall. intros j Hj. by eapply rtc_r. Qed.

Lemma quiet_reach s s' l ep i : quiet s s' → reach s' l ep i → reach s l ep i.
Proof. intros Hq. apply rtc_subrel. intros a b. by rewrite (quiet_nbs s s'). Qed.
Lemma quiet_acc s s' flt i : quiet s s' → st_acc s' false flt i = st_acc s false flt i.
Proof. intros Hq. unfold st_acc. by rewrite (frame_live s s'), (frame_label s s') by apply Hq. Qed.

Lemma search_setup s :
  graph_ok s → ∃ vl p,
    take_visited s = (set_pool p s, Ok vl) ∧ vl_ok vl ∧ numelements vl = max_elements_ (cfg s) ∧
    (∀ i, i < max_elements_ (cfg s) → is_visited vl i = Some false) ∧
    quiet s (set_pool p s) ∧
    ∀ s' vl', quiet s s' → visited_list_pool_ s' = p → vl_ok vl' → numelements vl' = max_elements_ (cfg s) →
      eff_wp (give_visited vl') (λ s'' _, quiet s s'') s'.
Proof.
  intros Hg. pose proof (getFree_ok _ (go_pool _ Hg)) as Hfree. unfold take_visited.
  destruct (getFreeVisitedList (visited_list_pool_ s)) as [vl p] eqn:E.
  destruct Hfree as (H1 & H2 & H3 & H4 & H5). rewrite (go_pool_n _ Hg) in *.
  exists vl, p. split_and!; [done|done|congruence|done|by apply quiet_pool|].
  intros s' vl' Hq Hp Hvl Hn. apply wp_mod. eapply quiet_trans; [done|].
  apply quiet_pool; rewrite ?Hp; [apply Hq| |].
  - apply release_ok; [done|done|congruence].
  - simpl. rewrite (fr_cfg _ _ (qu_frame _ _ Hq)). congruence.
Qed.

Lemma searchBaseLayer_wp s q ep layer :
  graph_ok s → (0 ≤ layer)%Z → at_level s ep layer →
  eff_wp (searchBaseLayer fstdistfunc_ ep q layer) (λ s' top, quiet s s' ∧
    ∃ V, beam_result (nbs_at s layer) (dist_to s q) (live s) (ef_construction_ (cfg s))
           (reach s layer ep) ep top V) s.
Proof.
  intros Hg Hl Hep. unfold searchBaseLayer.
  destruct (search_setup s Hg) as (vl & p & Htake & Hvl & Hn & Hf & Hq & Hgive).
  apply wp_bind. exists (set_pool p s), vl. split; [done|].
  destruct (g_search_spec (nbs_at s layer) (dist_to s q) (live s) (ef_construction_ (cfg s)) (efc_pos s Hg)
    (reach s layer ep) (max_elements_ (cfg s)) (reach_nbs s layer ep)
    (λ i Hi, P_bound s layer Hg i (reach_at_level _ _ _ _ Hg Hl Hep Hi))
    false ep vl (search_fuel s)) as (v & Hv & Hvl' & Hn' & Hr); [done|done|apply rtc_refl|done|done|unfold search_fuel; lia|].
  assert (sbl_init fstdistfunc_ (set_pool p s) q ep vl = Ok (g_init (dist_to s q) (live s) ep vl)) as Hinit.
  { by apply (sbl_init_refine (set_pool p s) q layer (qu_graph _ _ Hq)). }
  assert (sbl_while fstdistfunc_ (search_fuel (set_pool p s)) (set_pool p s) q layer
            (g_init (dist_to s q) (live s) ep vl) = Ok v) as Hwhile.
  { rewrite (sbl_while_refine (set_pool p s) q layer (qu_graph _ _ Hq) Hl).
    - change (nbs_at (set_pool p s)) with (nbs_at s). change (dist_to (set_pool p s)) with (dist_to s).
      change (live (set_pool p s)) with (live s). change (search_fuel (set_pool p s)) with (search_fuel s).
      simpl cfg. by rewrite Hv.
    - apply g_init_safe; [by apply (efc_pos s)|done|done|done]. }
  eapply wp_bind_lift; [rewrite Hinit; exact Hwhile|].
  eapply wp_seq; [by apply (Hgive _ (visited v) Hq)|].
  intros s' u Hq'. apply wp_ret. eauto.
Qed.

(** [searchBaseLayerST]; with [bare] the caller promises that every element
    may be returned. *)
Lemma searchBaseLayerST_wp {SC} `{StopCondition D SC} s q bare ep ef flt :
  graph_ok s → 1 ≤ ef → ep < cur_element_count s →
  (bare = true → flt = None ∧ ∀ i, i < cur_element_count s → live s i = true) →
  eff_wp (searchBaseLayerST (SC:=SC) fstdistfunc_ bare false ep q ef flt None) (λ s' r, quiet s s' ∧
    ∃ V, beam_result (nbs_at s 0) (dist_to s q) (st_acc s false flt) ef (reach s 0 ep) ep r.1 V) s.
Proof.
  intros Hg Hef Hep0 Hbare. pose proof (at_level_0 s ep Hg Hep0) as Hep. unfold searchBaseLayerST.
  destruct (search_setup s Hg) as (vl & p & Htake & Hvl & Hn & Hf & Hq & Hgive).
  assert (∀ i, reach s 0 ep i → at_level s i 0) as Hreach by (intros i; by apply reach_at_level).
  assert (∀ i, reach s 0 ep i → st_acc s bare flt i = st_acc s false flt i) as Hacc.
  { intros i [Hi _]%Hreach. unfold st_acc. destruct bare; [|done].
    destruct Hbare as [-> Hlive]; [done|]. by rewrite Hlive. }
  apply wp_bind. exists (set_pool p s), vl. split; [done|].
  destruct (g_search_spec (nbs_at s 0) (dist_to s q) (st_acc s bare flt) ef Hef
    (reach s 0 ep) (max_elements_ (cfg s)) (reach_nbs s 0 ep)
    (λ i Hi, P_bound s 0 Hg i (Hreach i Hi))
    bare ep vl (search_fuel s)) as (v & Hv & Hvl' & Hn' & Hr);
    [done|done|apply rtc_refl|done| |unfold search_fuel; lia|].
  { intros -> i Hi. done. }
  assert (st_init (SC:=SC) fstdistfunc_ bare (set_pool p s) q flt ep vl None =
            Ok (g_init (dist_to s q) (st_acc s bare flt) ep vl, None)) as Hinit.
  { by apply (st_init_refine (set_pool p s) q bare flt (qu_graph _ _ Hq)). }
  assert (st_while (SC:=SC) fstdistfunc_ bare false (search_fuel (set_pool p s)) (set_pool p s) q ef flt
            (g_init (dist_to s q) (st_acc s bare flt) ep vl) None 0 0 = Ok (v, None, (0, 0)%Z)) as Hwhile.
  { rewrite (st_while_refine (set_pool p s) q bare ef flt (qu_graph _ _ Hq) Hef).
    - change (nbs_at (set_pool p s)) with (nbs_at s). change (dist_to (set_pool p s)) with (dist_to s).
      change (st_acc (set_pool p s)) with (st_acc s). change (search_fuel (set_pool p s)) with (search_fuel s).
      by rewrite Hv.
    - by apply g_init_safe. }
  eapply wp_bind_lift; [rewrite Hinit; exact Hwhile|]. apply wp_bind, wp_mod.
  eapply wp_seq; [apply (Hgive _ (visited v))|]; [|done..|].
  { eapply quiet_trans; [exact Hq|]. apply quiet_metrics, Hq. }
  intros s' u Hq'. apply wp_ret. split; [done|]. eexists. eapply beam_result_ext; [done|done| |done|exact Hr].
  intros i Hi. by rewrite Hacc.
Qed.

(** Without deletions and filter the two instantiations of
    [searchBaseLayerST] do the same. *)
Lemma searchBaseLayerST_bare {SC} `{StopCondition D SC} s q ep ef :
  graph_ok s → 1 ≤ ef → ep < cur_element_count s → (∀ i, i < cur_element_count s → live s i = true) →
  searchBaseLayerST (SC:=SC) fstdistfunc_ true false ep q ef None None s =
  searchBaseLayerST (SC:=SC) fstdistfunc_ false false ep q ef None None s.
Proof.
  intros Hg Hef Hep0 Hlive. pose proof (at_level_0 s ep Hg Hep0) as Hep. unfold searchBaseLayerST.
  destruct (search_setup s Hg) as (vl & p & Htake & Hvl & Hn & Hf & Hq & _).
  assert (∀ i, reach s 0 ep i → at_level s i 0) as Hreach by (intros i; by apply reach_at_level).
  assert (∀ i, at_level s i 0 → st_acc s true None i = st_acc s false None i) as Hacc.
  { intros i [Hi _]. unfold st_acc. by rewrite Hlive. }
  rewrite !(eff_bind_ok _ _ _ _ _ Htake). unfold eff_bind at 1 4, eff_lift.
  assert (∀ bare, (v <- st_init (SC:=SC) fstdistfunc_ bare (set_pool p s) q None ep vl None ;;
    st_while (SC:=SC) fstdistfunc_ bare false (search_fuel (set_pool p s)) (set_pool p s) q ef None v.1 v.2 0 0)
    = match g_while (nbs_at s 0) (dist_to s q) (st_acc s bare None) ef bare (search_fuel s)
              (g_init (dist_to s q) (st_acc s bare None) ep vl)
      with Some v' => Ok (v', None, (0, 0)%Z) | None => Fuel end) as Hrun.
  { intros bare. rewrite (st_init_refine (set_pool p s) q bare None (qu_graph _ _ Hq)) by done. cbn [res_bind fst snd].
    apply (st_while_refine (set_pool p s) q bare ef None (qu_graph _ _ Hq) Hef).
    by apply (g_init_safe (dist_to s q) (st_acc s bare None)). }
  rewrite !Hrun.
  assert (g_init (dist_to s q) (st_acc s true None) ep vl = g_init (dist_to s q) (st_acc s false None) ep vl) as ->.
  { unfold g_init. by rewrite Hacc. }
  rewrite (g_while_acc _ _ (st_acc s true None) (st_acc s false None) ef (λ i, at_level s i 0) (max_elements_ (cfg s))).
  - erewrite (g_search_bare (nbs_at s 0) (dist_to s q) (st_acc s false None) ef Hef (reach s 0 ep)
      (max_elements_ (cfg s)) (reach_nbs s 0 ep) (λ i Hi, P_bound s 0 Hg i (Hreach i Hi)));
      [done|done|done|apply rtc_refl|done|].
    intros i Hi. rewrite <- Hacc by auto. done.
  - by apply (P_closed s 0).
  - done.
  - by apply (g_init_safe (dist_to s q) (st_acc s false None)).
Qed.

(** ** Greedy descent *)
Section greedy.
Variables (check_cand count_metrics : bool) (q : point).

Lemma greedy_for_ok s ids obj ch :
  graph_ok s → Forall (λ j, j < cur_element_count s) ids →
  ∃ o ch', greedy_for fstdistfunc_ check_cand q ids obj (dist_to s q obj) ch s = (s, Ok (o, dist_to s q o, ch')) ∧
    ((o = obj ∧ ch' = ch) ∨ (o ∈ ids ∧ ch' = true ∧ dlt (dist_to s q o) (dist_to s q obj) = true)) ∧
    ∀ j, j ∈ ids → dlt (dist_to s q j) (dist_to s q o) = false.
Proof.
  intros Hg. revert obj ch. induction ids as [|c ids IH]; intros obj ch Hf.
  { exists obj, ch. split_and!; [done|by left|]. by intros j H%not_elem_of_nil. }
  apply Forall_cons in Hf as [Hc Hf]. simpl. unfold eff_bind at 1, eff_get. cbv beta iota.
  assert (check_cand && (max_elements_ (cfg s) <? c) = false) as ->.
  { pose proof (go_count _ Hg). decide_cmp. apply andb_false_r. }
  unfold eff_bind, eff_lift. destruct (ok_reads s c Hg Hc) as (-> & _ & _). fold (dist_to s q c).
  destruct (dlt (dist_to s q c) (dist_to s q obj)) eqn:Hlt.
  - destruct (IH c true Hf) as (o & ch' & Hrun & Hcase & Hmin).
    assert (dlt (dist_to s q c) (dist_to s q o) = false) as Hco.
    { destruct Hcase as [[-> _]|(_ & _ & H)]; [apply sw_irrefl|by apply (sw_asym dlt)]. }
    exists o, ch'. split_and!; [done| |].
    + right. destruct Hcase as [[-> ->]|(Hin & -> & H)]; [split_and!; [left|done|done]|].
      split_and!; [by right|done|]. by eapply (sw_trans (lt:=dlt)).
    + intros j [->|Hj]%elem_of_cons; auto.
  - destruct (IH obj ch Hf) as (o & ch' & Hrun & Hcase & Hmin).
    exists o, ch'. split_and!; [done| |].
    + destruct Hcase as [[-> ->]|(Hin & -> & H)]; [by left|right]. split_and!; [by right|done|done].
    + intros j [->|Hj]%elem_of_cons; [|auto].
      destruct Hcase as [[-> _]|(_ & _ & H)]; [done|].
      apply (sw_negtrans _ (dist_to s q obj)); [done|]. by apply (sw_asym dlt).
Qed.

(** The number of elements closer to the query: it bounds the steps. *)
Definition closer s obj : nat :=
  length (filter (λ i, dlt (dist_to s q i) (dist_to s q obj) = true)
            (N.of_nat <$> seq 0 (N.to_nat (cur_element_count s)))).

Lemma closer_le s obj : (closer s obj ≤ N.to_nat (cur_element_count s))%nat.
Proof. unfold closer. etrans; [apply length_filter|]. by rewrite length_fmap, length_seq. Qed.
Lemma closer_lt s a b :
  a < cur_element_count s → dlt (dist_to s q a) (dist_to s q b) = true → (closer s a < closer s b)%nat.
Proof.
  intros Ha Hlt. unfold closer.
  set (l := N.of_nat <$> seq 0 (N.to_nat (cur_element_count s))).
  assert (NoDup l) as Hnd by (apply NoDup_fmap; [apply _|apply NoDup_seq]).
  assert (a ∈ l) as Hin.
  { apply list_elem_of_fmap. exists (N.to_nat a). split; [lia|]. apply elem_of_seq. lia. }
  apply (submseteq_length (a :: filter (λ i, dlt (dist_to s q i) (dist_to s q a) = true) l)), NoDup_submseteq.
  - constructor; [|by apply NoDup_filter]. rewrite list_elem_of_filter, sw_irrefl. by intros [? _].
  - intros x [->|Hx]%elem_of_cons; [by apply list_elem_of_filter|].
    apply list_elem_of_filter in Hx as [Hx ?]. apply list_elem_of_filter. split; [|done].
    by eapply (sw_trans (lt:=dlt)).
Qed.

(** No neighbour on the level is closer. *)
Definition local_min s l o : Prop := ∀ j, j ∈ nbs_at s l o → dlt (dist_to s q j) (dist_to s q o) = false.

Lemma greedy_while_wp s l fuel obj :
  graph_ok s → (0 < l)%Z → at_level s obj l → (closer s obj < fuel)%nat →
  eff_wp (greedy_while fstdistfunc_ check_cand count_metrics fuel q l obj (dist_to s q obj))
    (λ s' r, quiet s s' ∧ at_level s r.1 l ∧ r.2 = dist_to s q r.1 ∧ local_min s l r.1 ∧
      dlt (dist_to s q obj) r.2 = false) s.
Proof.
  revert s obj. induction fuel as [|fuel IH]; intros s obj Hg Hl Hobj Hfuel; [lia|]. simpl.
  destruct (ok_links s obj l Hg) as (ll & Hget & _ & Hids); [lia|done|].
  eapply wp_bind_lift.
  { unfold get_linklist_at_level in Hget. rewrite (proj2 (Z.eqb_neq _ _)) in Hget by lia. exact Hget. }
  apply wp_bind, wp_mod. set (s1 := if count_metrics then _ else _).
  assert (quiet s s1) as Hq by (unfold s1; destruct count_metrics; auto using quiet_metrics, quiet_refl).
  wp_read Hids.
  destruct (greedy_for_ok s1 (nbs_at s l obj) obj false) as (o & ch & Hrun & Hcase & Hmin); [apply Hq| |].
  { apply Forall_forall. intros j Hj. rewrite (fr_count _ _ (qu_frame _ _ Hq)). 
    by destruct (nbs_at_level s obj j l Hg ltac:(lia) Hobj Hj) as [[? _] _]. }
  assert (∀ i, dist_to s1 q i = dist_to s q i) as Hd by (intros; by apply quiet_dist).
  rewrite !Hd in *. setoid_rewrite Hd in Hmin.
  apply wp_bind. exists s1, (o, dist_to s q o, ch). split; [done|].
  destruct Hcase as [[-> ->]|(Hin & -> & Hlt)].
  - apply wp_ret. split_and!; [done|done|done|done|apply sw_irrefl].
  - assert (at_level s o l) as Ho by (eapply nbs_at_level; eauto; lia).
    rewrite <- Hd. eapply wp_mono.
    + apply IH; [apply Hq|done|by apply (frame_at_level s s1); [apply Hq|]|].
      assert (closer s1 o = closer s o) as ->.
      { unfold closer. rewrite (fr_count _ _ (qu_frame _ _ Hq)). f_equal. apply list_filter_iff.
        intros i. by rewrite !Hd. }
      pose proof (closer_lt s o obj ltac:(apply Ho) Hlt). lia.
    + intros s' [o' d'] (H1 & H2 & H3 & H4 & H5). simpl in *. rewrite !Hd in *.
      split_and!.
      * by eapply quiet_trans.
      * by apply (frame_at_level s s1) in H2; [|apply Hq].
      * done.
      * intros j Hj. rewrite <- !Hd. apply H4. by rewrite (quiet_nbs s s1).
      * apply (sw_negtrans _ (dist_to s q o)); [by apply (sw_asym dlt)|done].
Qed.

Lemma greedy_levels_wp s n low obj :
  graph_ok s → (0 ≤ low)%Z → at_level s obj (low + Z.of_nat n) →
  eff_wp (greedy_levels fstdistfunc_ check_cand count_metrics n low q obj (dist_to s q obj))
    (λ s' r, quiet s s' ∧ at_level s r.1 low ∧ r.2 = dist_to s q r.1 ∧
      (n = 0%nat → r.1 = obj) ∧ (n ≠ 0%nat → at_level s r.1 (low + 1) ∧ local_min s (low + 1) r.1) ∧
      dlt (dist_to s q obj) r.2 = false) s.
Proof.
  revert s obj. induction n as [|n IH]; intros s obj Hg Hlow Hobj.
  { apply wp_ret. split_and!; [by apply quiet_refl|eapply at_level_le; [done|lia]|done|done|done|apply sw_irrefl]. }
  cbn [greedy_levels]. apply wp_bind, wp_get.
  eapply wp_seq; [apply greedy_while_wp; [done|lia|done|]|].
  { unfold search_fuel. pose proof (closer_le s obj). pose proof (go_count _ Hg). lia. }
  intros s1 [o d] (Hq & Ho & Hd & Hmin & Hle). simpl in *. subst d.
  assert (∀ i, dist_to s1 q i = dist_to s q i) as Hd by (intros; by apply quiet_dist).
  rewrite <- Hd. eapply wp_mono.
  - apply IH; [apply Hq|done|]. apply (frame_at_level s s1); [apply Hq|]. eapply at_level_le; [done|lia].
  - intros s' [o' d'] (H1 & H2 & H3 & H4 & H5 & H6). simpl in *. rewrite !Hd in *. split_and!.
    + by eapply quiet_trans.
    + by apply (frame_at_level s s1) in H2; [|apply Hq].
    + done.
    + done.
    + intros _. destruct n as [|n].
      * rewrite H4 by done. done.
      * destruct H5 as [H5 H5']; [done|]. split; [by apply (frame_at_level s s1) in H5; [|apply Hq]|].
        intros j Hj. rewrite <- !Hd. apply H5'. by rewrite (quiet_nbs s s1).
    + by apply (sw_negtrans _ (dist_to s q o)).
Qed.
End greedy.
End laws.
