(* ===== verification/HnswKnn.v ===== *)
(** * Queries on a well-formed index

    [searchKnn] and [searchKnnCloserFirst]: they return (no exception, no
    access outside the arrays, both loops end), and what they return are the
    [k] nearest acceptable elements among those the layer search visited. *)

From Stdlib Require Import ZArith Lia.
From stdpp Require Import base numbers list gmap strings relations sorting.
From S2P Require Import Prelude Heap VisitedList Arith BeamSearch Hnsw HnswSearch HnswWf HnswSearchLaws.
#[local] Open Scope N_scope.

Section knn.
Context `{RE : RandomEngine} `{HI : HeapImpl} `{AL : Alloc} {D : Type} `{HD : DistT D} `{HO : !DistOrder D}.
Variable fstdistfunc_ : point → point → D.
Implicit Types (s : hnsw) (i j : tableint).
#[local] Abbreviation dist := (dist_to fstdistfunc_).

(** The deletion counters agree with the marks. *)
Definition deleted_ids s : list tableint :=
  filter (λ i, live s i = false) (N.of_nat <$> seq 0 (N.to_nat (cur_element_count s))).
Definition marks_ok s : Prop :=
  num_deleted_ s = N.of_nat (length (deleted_ids s)) ∧
  deleted_elements s = (if allow_replace_deleted_ (cfg s) then list_to_set (deleted_ids s) else ∅).

Lemma elem_deleted_ids s i : i ∈ deleted_ids s ↔ i < cur_element_count s ∧ live s i = false.
Proof.
  unfold deleted_ids. rewrite list_elem_of_filter, list_elem_of_fmap. split.
  - intros [H (x & -> & Hx%elem_of_seq)]. split; [lia|done].
  - intros [H1 H2]. split; [done|]. exists (N.to_nat i). split; [lia|]. apply elem_of_seq. lia.
Qed.
Lemma none_deleted s i : marks_ok s → num_deleted_ s = 0 → i < cur_element_count s → live s i = true.
Proof.
  intros [H _] H0 Hi. destruct (live s i) eqn:E; [done|].
  assert (i ∈ deleted_ids s) as Hin by by apply elem_deleted_ids.
  destruct (deleted_ids s); [by apply not_elem_of_nil in Hin|]. simpl in H. lia.
Qed.

Lemma push_labels_ok s (l : list (D * tableint)) r :
  graph_ok s → Forall (λ x, x.2 < cur_element_count s) l →
  ∃ r', push_labels s l r = Ok r' ∧ r' ≡ₚ ((λ x, (x.1, label_of s x.2)) <$> l) ++ r ∧
    (is_heap res_less r → is_heap res_less r').
Proof.
  intros Hg. revert r. induction l as [|x l IH]; intros r Hf; [by exists r|].
  apply Forall_cons in Hf as [Hx Hf]. simpl. destruct (ok_reads s x.2 Hg Hx) as (_ & -> & _). simpl.
  destruct (IH (pq_push res_less r (x.1, label_of s x.2)) Hf) as (r' & -> & Hp & Hh).
  exists r'. split_and!; [done| |].
  - rewrite Hp, pq_push_perm. by rewrite Permutation_middle.
  - intros Hr. apply Hh, pq_push_heap; [apply _|done].
Qed.

(** Greedy descent to level 0. *)
Lemma query_descent_wp s q :
  graph_ok s → entry_ok s → 0 < cur_element_count s →
  eff_wp (query_descent fstdistfunc_ q) (λ s' o, quiet s s' ∧ o < cur_element_count s ∧
    dlt (dist s q (enterpoint_node_ s)) (dist s q o) = false ∧
    ((0 < maxlevel_ s)%Z → local_min fstdistfunc_ q s 1 o)) s.
Proof.
  intros Hg [He|(Hep & Hlv & _)] Hc; [lia|]. unfold query_descent.
  apply wp_bind, wp_get. destruct (ok_reads s _ Hg Hep) as (Hp & _). wp_read Hp. apply wp_bind, wp_get.
  fold (dist s q (enterpoint_node_ s)).
  destruct (go_node _ Hg _ Hep) as (e & lv & Hn).
  assert (lv = maxlevel_ s) as -> by (pose proof (no_level _ _ _ _ Hn); congruence).
  pose proof (no_pos _ _ _ _ Hn).
  eapply wp_seq; [apply greedy_levels_wp; [done|done|]|].
  { split; [done|]. exists (maxlevel_ s). split; [done|lia]. }
  intros s1 [o d] (H1 & H2 & H3 & H4 & H5 & H6). simpl in *. subst d.
  apply wp_ret. split_and!; [done|apply H2|done|]. intros. apply H5. lia.
Qed.

(** What a query returns: the elements [ids], with [V] the visited ones. *)
Record knn_result s q (k : N) flt ep (V : tableint → Prop) (r : list (D * labeltype)) (ids : list tableint) : Prop := {
  kr_perm : r ≡ₚ (λ i, (dist s q i, label_of s i)) <$> ids;
  kr_nodup : NoDup ids;
  kr_size : N.of_nat (length ids) ≤ k;
  kr_acc i : i ∈ ids → i < cur_element_count s ∧ st_acc s false flt i = true ∧ V i;
  kr_ep : V ep;
  kr_reach i : V i → reach s 0 ep i;
  kr_best j : V j → st_acc s false flt j = true →
    j ∈ ids ∨ N.of_nat (length ids) = k ∧ ∀ i, i ∈ ids → dlt (dist s q j) (dist s q i) = false;
  kr_closed j : V j → (∀ x, x ∈ nbs_at s 0 j → V x) ∨ ∀ i, i ∈ ids → dlt (dist s q j) (dist s q i) = false;
  kr_all i : cur_element_count s ≤ N.max (ef_ (cfg s)) k → reach s 0 ep i → st_acc s false flt i = true → V i
}.

Lemma beam_knn s q k flt ep top V r :
  graph_ok s → ep < cur_element_count s →
  beam_result (nbs_at s 0) (dist s q) (st_acc s false flt) (N.max (ef_ (cfg s)) k) (reach s 0 ep) ep top V →
  r ≡ₚ (λ x, (x.1, label_of s x.2)) <$> pq_shrink cmp k top →
  knn_result s q k flt ep V r (pq_shrink cmp k top).*2.
Proof.
  intros Hg Hep Hr Hperm.
  assert (StrictWeak (cmp (D:=D))) as Hcw by apply _.
  destruct (pq_shrink_spec cmp k top) as (dr & Hp & Hsz & Hdr).
  destruct (Hdr Hcw (br_heap _ _ _ _ _ _ _ _ Hr)) as [_ Hmax]. clear Hdr.
  assert (∀ i, reach s 0 ep i → i < cur_element_count s) as Hlt.
  { intros i Hi. by apply (reach_at_level s 0 ep i Hg ltac:(done) (at_level_0 s ep Hg Hep)) in Hi as [? _]. }
  assert (∀ x, x ∈ pq_shrink cmp k top → x ∈ top ∧ x.1 = dist s q x.2) as Hin.
  { intros [d i] Hx. assert ((d, i) ∈ top) as Ht by (rewrite Hp; apply elem_of_app; by right).
    split; [done|]. by apply (br_top _ _ _ _ _ _ _ _ Hr) in Ht as [-> _]. }
  assert (∀ i, i ∈ (pq_shrink cmp k top).*2 → (dist s q i, i) ∈ pq_shrink cmp k top) as Hin2.
  { intros i ([d j] & -> & Hx)%list_elem_of_fmap. destruct (Hin _ Hx) as [_ Hd]. simpl in *. by subst d. }
  assert (∀ j, worse (dist s q) (N.max (ef_ (cfg s)) k) top j →
    ∀ i, i ∈ (pq_shrink cmp k top).*2 → dlt (dist s q j) (dist s q i) = false) as Hworse.
  { intros j [_ Hw] i Hi. apply Hin2 in Hi as Hi'. by apply Hin in Hi' as [Ht _]; apply Hw in Ht. }
  unfold pq_size in Hsz. split; try apply Hr.
  - rewrite Hperm. rewrite <- list_fmap_compose. apply Permutation_refl'.
    apply list_fmap_ext. intros n x Hx%list_elem_of_lookup_2. simpl. f_equal. by apply Hin in Hx as [_ ->].
  - pose proof (br_nodup _ _ _ _ _ _ _ _ Hr) as Hnd. rewrite Hp, fmap_app in Hnd. by apply NoDup_app in Hnd as (_ & _ & ?).
  - rewrite length_fmap. lia.
  - intros i Hi%Hin2. apply Hin in Hi as [Ht _].
    apply (br_top _ _ _ _ _ _ _ _ Hr) in Ht as (_ & Ha & HV). split_and!; [|done|done].
    by apply Hlt, (br_valid _ _ _ _ _ _ _ _ Hr).
  - intros j HV Ha. destruct (br_best _ _ _ _ _ _ _ _ Hr j HV Ha) as [Ht|Hw].
    + rewrite Hp, fmap_app, elem_of_app in Ht. destruct Ht as [Ht|Ht]; [|by left]. right.
      apply list_elem_of_fmap in Ht as ([d j'] & -> & Hd). split.
      * rewrite length_fmap. apply Permutation_length in Hp. rewrite length_app in Hp.
        assert (length dr ≠ 0)%nat by (destruct dr; [by apply not_elem_of_nil in Hd|done]). lia.
      * intros i Hi%Hin2. pose proof (Hmax _ _ Hd Hi) as H. unfold cmp, lt_fst in H. simpl in *.
        assert ((d, j') ∈ top) as Ht by (rewrite Hp; apply elem_of_app; by left).
        by apply (br_top _ _ _ _ _ _ _ _ Hr) in Ht as [-> _].
    + right. split; [|by apply Hworse]. destruct Hw as [Hw _]. unfold pq_size in Hw. rewrite length_fmap. lia.
  - intros j HV. destruct (br_closed _ _ _ _ _ _ _ _ Hr j HV) as [?|Hw]; [by left|right]. by apply Hworse.
  - intros i Hc Hi Ha.
    assert (i ∈ top.*2) as Ht.
    { by apply (beam_exhaustive (nbs_at s 0) (dist s q) (st_acc s false flt) (N.max (ef_ (cfg s)) k) (reach s 0 ep)
        (cur_element_count s) (reach_nbs s 0 ep) Hlt ep top V). }
    apply list_elem_of_fmap in Ht as ([d i'] & -> & Ht). by apply (br_top _ _ _ _ _ _ _ _ Hr) in Ht as (_ & _ & ?).
Qed.

Lemma searchKnn_wp s q k flt :
  graph_ok s → entry_ok s → marks_ok s → 1 ≤ N.max (ef_ (cfg s)) k → 0 < cur_element_count s →
  eff_wp (searchKnn fstdistfunc_ q k flt) (λ s' r, quiet s s' ∧ is_heap res_less r ∧
    ∃ ep V ids, ep < cur_element_count s ∧ knn_result s q k flt ep V r ids) s.
Proof.
  intros Hg He Hm Hef Hc. unfold searchKnn. apply wp_bind, wp_get.
  decide_cmp.
  eapply wp_seq; [by apply query_descent_wp|]. intros s1 o (Hq & Ho & _).
  apply wp_bind, wp_get. apply wp_bind, wp_get.
  pose proof (qu_frame _ _ Hq) as Hf.
  rewrite (fr_num_deleted _ _ Hf), (fr_cfg _ _ Hf).
  eapply wp_seq; [apply searchBaseLayerST_wp; [apply Hq|done|by rewrite (fr_count _ _ Hf)|]|].
  { intros [Hd Hflt]%andb_true_iff. split; [by destruct flt|]. rewrite (fr_count _ _ Hf). intros i Hi.
    rewrite (frame_live s s1) by done. apply none_deleted; [done|by apply N.eqb_eq|done]. }
  intros s2 [top sc] (Hq2 & V & Hr). simpl in *.
  assert (quiet s s2) as Hq3 by by eapply quiet_trans.
  assert (beam_result (nbs_at s 0) (dist s q) (st_acc s false flt) (N.max (ef_ (cfg s)) k) (reach s 0 o) o top V) as Hr'.
  { eapply beam_result_ext; [| | | |exact Hr]; intros i.
    - symmetry. by apply quiet_nbs.
    - symmetry. by apply quiet_dist.
    - intros _. symmetry. by apply quiet_acc.
    - by apply quiet_reach. }
  destruct (push_labels_ok s2 (pq_drain cmp (pq_shrink cmp k top)) []) as (r & Hrun & Hperm & Hheap); [apply Hq2| |].
  { apply Forall_forall. intros [d i]. rewrite pq_drain_perm. intros Hin. simpl.
    rewrite (fr_count _ _ (qu_frame _ _ Hq3)).
    apply (kr_acc _ _ _ _ _ _ _ _ (beam_knn s q k flt o top V _ Hg Ho Hr' (Permutation_refl _))).
    apply list_elem_of_fmap. by exists (d, i). }
  eapply wp_lift; [exact Hrun|]. split_and!; [done|by apply Hheap, is_heap_nil|].
  exists o, V, (pq_shrink cmp k top).*2. split; [done|]. apply beam_knn; try done.
  rewrite Hperm, (right_id_L [] (++)), pq_drain_perm. apply Permutation_refl'.
  apply list_fmap_ext. intros n x _. by rewrite (frame_label s s2) by apply Hq3.
Qed.
End knn.
