(* ===== verification/HeuristicLaws.v ===== *)
(** * getNeighborsByHeuristic2: what is selected

    The candidates are examined from the closest to the centre outwards; one is
    kept when no kept one is closer to it than the centre is, until [M] are
    kept. *)

From Stdlib Require Import ZArith Lia.
From stdpp Require Import base numbers list gmap strings sorting.
From S2P Require Import Prelude Heap VisitedList Arith BeamSearch Hnsw HnswSearch HnswInsert HnswWf.
#[local] Open Scope N_scope.

Section heuristic.
Context `{RE : RandomEngine} `{HI : HeapImpl} {D : Type} `{HD : DistT D} `{HO : !DistOrder D}.
Variable fstdistfunc_ : point → point → D.
Implicit Types (s : hnsw) (i j : tableint) (x y : D * tableint).

(** Distance between two elements. *)
Definition node_dist s i j : D := fstdistfunc_ (data_of s i) (data_of s j).

(** [y] at distance [d] of the centre may be kept although [x] is. *)
Definition compatible s x y : Prop := dlt (node_dist s x.2 y.2) y.1 = false.
Definition ids_in s (l : list (D * tableint)) : Prop := Forall (λ x, x.2 < cur_element_count s) l.

Lemma ids_in_perm s l l' : l ≡ₚ l' → ids_in s l → ids_in s l'.
Proof. unfold ids_in. by intros ->. Qed.

Lemma heur_good_ok s (rl : list (D * tableint)) id dq :
  graph_ok s → ids_in s rl → id < cur_element_count s →
  ∃ b, heur_good fstdistfunc_ s rl id dq = Ok b ∧
    (b = true → Forall (λ y, dlt (node_dist s y.2 id) dq = false) rl) ∧
    (b = false → Exists (λ y, dlt (node_dist s y.2 id) dq = true) rl).
Proof.
  intros Hg Hrl Hid. induction Hrl as [|y rl Hy Hrl IH].
  { by exists true. }
  simpl. destruct (ok_reads s y.2 Hg Hy) as (-> & _ & _). destruct (ok_reads s id Hg Hid) as (-> & _ & _).
  simpl. fold (node_dist s y.2 id). destruct (dlt (node_dist s y.2 id) dq) eqn:E.
  - exists false. split_and!; [done|done|]. by left.
  - destruct IH as (b & -> & H1 & H2). exists b. split_and!; [done| |].
    + intros Hb. constructor; auto.
    + intros Hb. right. auto.
Qed.

(** The loop, on lists of [(-distance, id)]. *)
Record selection s (M : N) (rl kept dropped : list (D * tableint)) : Prop := {
  se_size : (length (rl ++ kept) ≤ N.to_nat M ∨ kept = [])%nat;
  se_first : rl = [] → 1 ≤ M → kept ++ dropped ≠ [] → kept ≠ [];
  se_sorted : StronglySorted (λ x y, pair_less x y = false) kept;
  se_diverse k x : (rl ++ kept) !! k = Some x → (length rl ≤ k)%nat →
    Forall (λ y, dlt (node_dist s y.2 x.2) (dneg x.1) = false) (take k (rl ++ kept));
  se_dropped x : x ∈ dropped → N.of_nat (length (rl ++ kept)) = M ∨ M ≤ N.of_nat (length rl) ∨
    Exists (λ y, dlt (node_dist s y.2 x.2) (dneg x.1) = true) (rl ++ kept)
}.

Lemma selection_stop s M rl q :
  (q = [] ∨ M ≤ N.of_nat (length rl)) → selection s M rl [] q.
Proof.
  intros H. split.
  - by right.
  - intros -> HM Hne. destruct H as [->|H]; [done|]. simpl in H. lia.
  - constructor.
  - intros k x Hk Hle. rewrite (right_id_L [] (++)) in Hk. apply lookup_lt_Some in Hk. lia.
  - intros x Hx. destruct H as [->|H]; [by apply not_elem_of_nil in Hx|auto].
Qed.

Lemma selection_keep s M rl x kept dropped :
  N.of_nat (length rl) < M → Forall (λ y, dlt (node_dist s y.2 x.2) (dneg x.1) = false) rl →
  (∀ y, y ∈ kept ++ dropped → pair_less x y = false) →
  selection s M (rl ++ [x]) kept dropped → selection s M rl (x :: kept) dropped.
Proof.
  intros Hlt Hgood Hmax [H1 H2 H3 H4 H5].
  assert (rl ++ x :: kept = (rl ++ [x]) ++ kept) as Heq by by rewrite <- app_assoc.
  rewrite length_app in H1. simpl in H1. split; rewrite ?Heq.
  - left. destruct H1 as [H1| ->]; rewrite ?length_app in *; simpl in *; lia.
  - done.
  - constructor; [done|]. apply Forall_forall. intros y Hy. apply Hmax, elem_of_app. by left.
  - intros k y Hk Hle. destruct (decide (k = length rl)) as [->|].
    + assert (y = x) as ->.
      { rewrite lookup_app_l, lookup_app_r, Nat.sub_diag in Hk by (rewrite ?length_app; simpl; lia). by injection Hk. }
      rewrite <- app_assoc, take_app_length. done.
    + apply H4; [done|]. rewrite length_app. simpl. lia.
  - intros y Hy. destruct (H5 y Hy) as [?|[Hle|?]]; [auto| |auto].
    rewrite length_app in Hle. simpl in Hle. left.
    destruct H1 as [H1| ->]; rewrite ?length_app in *; simpl in *; lia.
Qed.

Lemma selection_drop s M rl x kept dropped :
  N.of_nat (length rl) < M → Exists (λ y, dlt (node_dist s y.2 x.2) (dneg x.1) = true) rl →
  selection s M rl kept dropped → selection s M rl kept (x :: dropped).
Proof.
  intros Hlt Hbad [H1 H2 H3 H4 H5]. split; try done.
  - intros ->. by apply Exists_nil in Hbad.
  - intros y [->|Hy]%elem_of_cons; [|auto]. right. right. apply Exists_app. by left.
Qed.

Lemma heur_while_ok s M fuel q rl :
  graph_ok s → ids_in s q → ids_in s rl → is_heap pair_less q → (length q ≤ fuel)%nat →
  ∃ kept dropped, heur_while fstdistfunc_ fuel s M q rl = Ok (rl ++ kept) ∧
    q ≡ₚ kept ++ dropped ∧ selection s M rl kept dropped.
Proof.
  intros Hg. revert q rl. induction fuel as [|fuel IH]; intros q rl Hq Hrl Hh Hlen.
  { destruct q; [|simpl in Hlen; lia]. exists [], []. simpl. rewrite (right_id_L [] (++)).
    split_and!; [done|done|]. apply selection_stop. by left. }
  cbn [heur_while]. destruct (pq_top q) as [x|] eqn:Ht.
  2:{ apply pq_top_None in Ht as ->. exists [], []. rewrite (right_id_L [] (++)).
      split_and!; [done|done|]. apply selection_stop. by left. }
  destruct (N.leb_spec M (N.of_nat (length rl))) as [HM|HM].
  { exists [], q. rewrite (right_id_L [] (++)). split_and!; [done|done|]. apply selection_stop. by right. }
  pose proof (pq_pop_perm pair_less q x Ht) as Hp.
  assert (ids_in s (x :: pq_pop pair_less q)) as Hids by by eapply ids_in_perm.
  apply Forall_cons in Hids as [Hx Hpop].
  assert (is_heap pair_less (pq_pop pair_less q)) as Hh' by (apply pq_pop_heap; [apply _|done]).
  assert (length (pq_pop pair_less q) ≤ fuel)%nat as Hlen' by (rewrite pq_pop_length; lia).
  assert (∀ y, y ∈ pq_pop pair_less q → pair_less x y = false) as Hmax.
  { intros y Hy%pq_elem_pop. by apply (is_heap_max pair_less q x y). }
  destruct (heur_good_ok s rl x.2 (dneg x.1) Hg Hrl Hx) as ([] & -> & Hgood & Hbad); simpl.
  - destruct (IH (pq_pop pair_less q) (rl ++ [x])) as (kept & dropped & Hrun & Hperm & Hsel); try done.
    { apply Forall_app. split; [done|]. by constructor. }
    exists (x :: kept), dropped. rewrite Hrun, <- app_assoc. split_and!; [done| |].
    + rewrite Hp, Hperm. done.
    + apply selection_keep; [done|by apply Hgood| |done]. intros y. rewrite <- Hperm. apply Hmax.
  - destruct (IH (pq_pop pair_less q) rl) as (kept & dropped & Hrun & Hperm & Hsel); try done.
    exists kept, (x :: dropped). rewrite Hrun. split_and!; [done| |].
    + rewrite Hp, Hperm. by rewrite Permutation_middle.
    + apply selection_drop; [done|by apply Hbad|done].
Qed.

Lemma neg_fst_neg (l : list (D * tableint)) : neg_fst <$> (neg_fst <$> l) = l.
Proof.
  rewrite <- list_fmap_compose. rewrite <- (list_fmap_id l) at 2. apply list_fmap_ext.
  intros k [d i] _. unfold neg_fst. simpl. by rewrite dneg_neg.
Qed.
Lemma neg_fst_ids (l : list (D * tableint)) : (neg_fst <$> l).*2 = l.*2.
Proof. rewrite <- list_fmap_compose. done. Qed.

(** Order of two candidates by distance, ties by larger id first. *)
Definition nearer_first x y : Prop := pair_less (neg_fst x) (neg_fst y) = false.

(** The outcome: [kept] in the order of selection. *)
Record heuristic_result s (M : N) (cands kept dropped : list (D * tableint)) : Prop := {
  hr_perm : cands ≡ₚ kept ++ dropped;
  hr_size : N.of_nat (length kept) ≤ M;
  hr_first : 1 ≤ M → cands ≠ [] → kept ≠ [];
  hr_full : N.of_nat (length cands) < M → dropped = [];
  hr_sorted : M ≤ N.of_nat (length cands) → StronglySorted nearer_first kept;
  hr_diverse k x : M ≤ N.of_nat (length cands) → kept !! k = Some x →
    Forall (λ y, compatible s y x) (take k kept);
  hr_dropped x : x ∈ dropped → N.of_nat (length kept) = M ∨
    Exists (λ y, dlt (node_dist s y.2 x.2) x.1 = true) kept
}.

Lemma heuristic_ok s M cands :
  graph_ok s → ids_in s cands → 1 ≤ M → is_heap cmp cands →
  ∃ top kept dropped, getNeighborsByHeuristic2 fstdistfunc_ s cands M = Ok top ∧
    is_heap cmp top ∧ top ≡ₚ kept ∧ heuristic_result s M cands kept dropped.
Proof.
  intros Hg Hids HM Hh. unfold getNeighborsByHeuristic2, pq_size.
  destruct (N.ltb_spec (N.of_nat (length cands)) M) as [Hlt|Hge].
  { exists cands, cands, []. split_and!; [done..|]. split; rewrite ?(right_id_L [] (++)); try done.
    - lia.
    - lia.
    - intros k x ?. lia.
    - by intros x H%not_elem_of_nil. }
  set (q := pq_push_all pair_less [] (map neg_fst (pq_drain cmp cands))).
  assert (q ≡ₚ neg_fst <$> cands) as Hq.
  { unfold q. rewrite pq_push_all_perm, (right_id_L [] (++)). by rewrite pq_drain_perm. }
  destruct (heur_while_ok s M (length cands) q []) as (kept & dropped & Hrun & Hperm & Hsel); [done| | | | |].
  - eapply ids_in_perm; [symmetry; exact Hq|]. unfold ids_in. apply Forall_fmap. done.
  - constructor.
  - apply pq_push_all_heap; [apply _|]. apply is_heap_nil.
  - by rewrite Hq, length_fmap.
  - simpl in Hrun. rewrite Hrun. cbn [res_bind].
    exists (pq_push_all cmp [] (map neg_fst kept)), (neg_fst <$> kept), (neg_fst <$> dropped).
    split_and!; [done| | |].
    + apply pq_push_all_heap; [apply _|]. apply is_heap_nil.
    + by rewrite pq_push_all_perm, (right_id_L [] (++)).
    + destruct Hsel as [S1 S2 S3 S4 S5]. simpl in *.
      assert (cands ≡ₚ (neg_fst <$> kept) ++ (neg_fst <$> dropped)) as Hc.
      { rewrite <- fmap_app, <- Hperm, Hq. by rewrite neg_fst_neg. }
      split; rewrite ?length_fmap; [done| | | | | |].
      * destruct S1 as [?| ->]; [lia|simpl; lia].
      * intros _ Hne. assert (kept ≠ []) as Hk.
        { apply S2; [done|done|]. intros Hnil. rewrite <- fmap_app, Hnil in Hc. simpl in Hc.
          by apply Permutation_nil_r in Hc. }
        by destruct kept.
      * lia.
      * intros _. clear -S3 HO. induction S3 as [|x l Hl IH Hx]; simpl; constructor; [done|].
        apply Forall_fmap. eapply Forall_impl; [exact Hx|]. intros y Hy.
        unfold nearer_first, compose. destruct x, y. unfold neg_fst. simpl. by rewrite !dneg_neg.
      * intros k x _ Hk. rewrite list_lookup_fmap in Hk.
        destruct (kept !! k) as [x'|] eqn:E; [|done]. injection Hk as <-.
        rewrite <- fmap_take. apply Forall_fmap. eapply Forall_impl; [apply S4; [done|lia]|]. done.
      * intros x ([d i] & -> & Hx)%list_elem_of_fmap. destruct (S5 _ Hx) as [?|[?|HE]]; [by left|lia|right].
        apply Exists_fmap. done.
Qed.

(** The ids that the callers store, farthest first. *)
Lemma heuristic_ids s M cands :
  graph_ok s → ids_in s cands → 1 ≤ M → is_heap cmp cands → NoDup cands.*2 →
  ∃ top, getNeighborsByHeuristic2 fstdistfunc_ s cands M = Ok top ∧
    let ids := map snd (pq_drain cmp top) in
    NoDup ids ∧ (∀ i, i ∈ ids → i ∈ cands.*2) ∧ N.of_nat (length ids) ≤ M ∧ pq_size top ≤ M ∧
    (cands ≠ [] → ids ≠ []).
Proof.
  intros Hg Hids HM Hh Hnd.
  destruct (heuristic_ok s M cands Hg Hids HM Hh) as (top & kept & dropped & Hrun & _ & Hp & Hr).
  exists top. split; [done|]. cbv zeta.
  assert (map snd (pq_drain cmp top) ≡ₚ kept.*2) as Hperm.
  { change (map snd (pq_drain cmp top)) with (pq_drain cmp top).*2. by rewrite pq_drain_perm, Hp. }
  pose proof (hr_perm _ _ _ _ _ Hr) as Hc. rewrite Hc, fmap_app in Hnd.
  assert (length top = length kept) as Hlen by by rewrite Hp.
  pose proof (hr_size _ _ _ _ _ Hr). split_and!.
  - rewrite Hperm. by apply NoDup_app in Hnd as (? & _ & _).
  - intros i. rewrite Hperm, Hc, fmap_app, elem_of_app. by left.
  - rewrite Hperm, length_fmap. lia.
  - unfold pq_size. lia.
  - intros Hne Hnil. rewrite Hnil in Hperm. symmetry in Hperm. apply Permutation_nil_r, fmap_nil_inv in Hperm.
    by apply (hr_first _ _ _ _ _ Hr) in Hperm.
Qed.
End heuristic.
