(* ===== verification/HnswConnectLaws.v ===== *)
(** * mutuallyConnectNewElement on a well-formed index

    Linking an element on one level keeps the index well-formed, touches the
    lists of that level only, and never takes one of the function's exceptions. *)

From Stdlib Require Import ZArith Lia.
From stdpp Require Import base numbers list gmap strings sorting.
From S2P Require Import Prelude Heap VisitedList Arith BeamSearch Hnsw HnswSearch HnswInsert HnswWf HeuristicLaws.
#[local] Open Scope N_scope.

Section connect.
Context `{RE : RandomEngine} `{HI : HeapImpl} {D : Type} `{HD : DistT D} `{HO : !DistOrder D}.
Variable fstdistfunc_ : point → point → D.
Implicit Types (s : hnsw) (i j : tableint) (l : Z) (ll : linklist).

(** ** Consecutive writes to one list *)
Lemma put_put s i l ll1 ll2 : put_linklist i l ll2 (put_linklist i l ll1 s) = put_linklist i l ll2 s.
Proof.
  unfold put_linklist. destruct (l =? 0)%Z.
  - destruct (level0 s !! i) as [e|] eqn:E; simpl; rewrite ?lookup_insert_eq, ?E; [|done].
    unfold put_el. simpl. by rewrite insert_insert_eq.
  - destruct (upper s !! i) as [ls|] eqn:E; simpl; rewrite ?lookup_insert_eq, ?E; [|done].
    unfold set_upper. simpl. by rewrite insert_insert_eq, list_insert_insert_eq.
Qed.
Lemma put_get s i l ll : get_linklist_at_level s i l = Ok ll → (0 ≤ l)%Z → put_linklist i l ll s = s.
Proof.
  intros H Hl. unfold put_linklist. destruct (Z.eqb_spec l 0) as [->|].
  - apply get_linklist0_el in H as (_ & e & He & <-). rewrite He. unfold put_el.
    rewrite insert_id; [by destruct s|]. rewrite He. by destruct e.
  - apply get_linklist_upper in H as (ls & H1 & H2); [|lia]. rewrite H1.
    rewrite list_insert_id, insert_id by done. by destruct s.
Qed.

(** ** Filling the list of the new element *)
Lemma list_insert_middle (sl : list tableint) k x xs :
  (k < length sl)%nat →
  take (S k) (<[k := x]> sl) ++ xs ++ drop (S k + length xs) (<[k := x]> sl)
  = take k sl ++ (x :: xs) ++ drop (k + length (x :: xs)) sl.
Proof.
  intros Hk. rewrite (take_S_r _ _ x) by (by rewrite list_lookup_insert_eq).
  rewrite take_insert_ge by lia. rewrite drop_insert_lt by lia.
  rewrite <- app_assoc. simpl. by replace (S (k + length xs)) with (k + S (length xs))%nat by lia.
Qed.

Lemma fill_links_run c l upd idx ids s ll :
  (0 ≤ l)%Z → get_linklist_at_level s c l = Ok ll →
  (idx + length ids ≤ length (ll_slots ll))%nat →
  (upd = true ∨ ∀ k x, (idx ≤ k)%nat → ll_slots ll !! k = Some x → x = 0) →
  Forall (λ j, at_level s j l) ids →
  fill_links c l upd idx ids s =
    (put_linklist c l {| ll_word := ll_word ll;
       ll_slots := take idx (ll_slots ll) ++ ids ++ drop (idx + length ids) (ll_slots ll) |} s, Ok tt).
Proof.
  intros Hl. revert idx s ll. induction ids as [|j ids IH]; intros idx s ll Hget Hlen Hz Hf.
  { simpl. rewrite Nat.add_0_r, take_drop. rewrite put_get; [done| |done]. rewrite Hget. by destruct ll. }
  apply Forall_cons in Hf as [(Hj & lv & Hlv & Hle) Hf]. simpl in Hlen.
  cbn [fill_links]. rewrite (eff_bind_lift (λ s, get_linklist_at_level s c l) _ s _ Hget).
  destruct (lookup_lt_is_Some_2 (ll_slots ll) idx) as [old Hold]; [lia|].
  rewrite (eff_bind_lift _ _ _ old) by by rewrite Hold.
  assert (negb (old =? 0) && negb upd = false) as ->.
  { destruct Hz as [->|Hz]; [by rewrite andb_false_r|]. rewrite (Hz idx old) by (lia || done). done. }
  rewrite (eff_bind_lift _ _ _ lv) by (unfold get_level; unfold level_of in Hlv; by rewrite Hlv).
  decide_cmp. erewrite eff_bind_ok by done.
  erewrite (IH _ _ {| ll_word := ll_word ll; ll_slots := <[idx := j]> (ll_slots ll) |});
    [|by eapply get_put_eq|simpl; rewrite length_insert; lia| |].
  - rewrite put_put. cbn [ll_word ll_slots]. by rewrite list_insert_middle by lia.
  - destruct Hz as [->|Hz]; [by left|right]. intros k x Hk. simpl. rewrite list_lookup_insert_ne by lia.
    apply Hz. lia.
  - eapply Forall_impl; [exact Hf|]. intros i. apply frame_at_level.
    apply frame_put with ll; done.
Qed.

(** ** Storing a selection *)
Lemma store_links_ok s i l ll ids :
  ll_ok s i l ll → N.of_nat (length ids) ≤ Mmax s l → Mmax s l < 65536 → NoDup ids →
  Forall (λ j, j ≠ i ∧ at_level s j l) ids → cur_element_count s ≤ 2147483648 →
  ∃ ll', store_links ll ids = Ok ll' ∧ ll_ok s i l ll' ∧ ll_ids ll' = ids ∧ ll_deleted ll' = ll_deleted ll.
Proof.
  intros (H1 & H2 & H3 & H4 & H5) Hle HM Hnd Hf Hn. unfold store_links.
  decide_cmp.
  set (ll1 := {| ll_word := ll_word ll; ll_slots := ids ++ drop (length ids) (ll_slots ll) |}).
  assert (getListCount (setListCount ll1 (N.of_nat (length ids))) = N.of_nat (length ids)) as Hc.
  { apply count_set. lia. }
  assert (ll_ids (setListCount ll1 (N.of_nat (length ids))) = ids) as Hids.
  { unfold ll_ids. rewrite Hc. unfold setListCount, ll1. cbn [ll_slots ll_word].
    rewrite Nat2N.id, take_app_length. done. }
  eexists. split_and!; [done| |done|].
  - unfold ll_ok. rewrite Hc, Hids. split_and!; [|lia|done|done|by eapply typed_set_count, typed_ids].
    unfold setListCount, ll1. simpl. rewrite length_app, length_drop. lia.
  - by rewrite deleted_set_count.
Qed.

Lemma cfg_Mmax s l : graph_ok s → M_ (cfg s) ≤ Mmax s l ∧ 1 ≤ Mmax s l ∧ Mmax s l < 65536.
Proof.
  intros Hg. destruct (go_cfg _ Hg) as (? & ? & ? & ? & ? & _). unfold Mmax. destruct (l =? 0)%Z; lia.
Qed.

(** Only lists of level [l] of the nodes in [W] change. *)
Definition links_frame s s' l (W : tableint → Prop) : Prop :=
  ∀ i l', (0 ≤ l')%Z → (l' ≠ l ∨ ¬ W i) → get_linklist_at_level s' i l' = get_linklist_at_level s i l'.

Lemma links_frame_nbs s s' l W i l' :
  links_frame s s' l W → (0 ≤ l')%Z → (l' ≠ l ∨ ¬ W i) → nbs_at s' l' i = nbs_at s l' i.
Proof. intros H ? ?. unfold nbs_at. by rewrite H. Qed.

(** Overwriting the list of one node. *)
Lemma put_ids_wp s i l ll ids :
  graph_ok s → (0 ≤ l)%Z → get_linklist_at_level s i l = Ok ll → ll_ok s i l ll →
  N.of_nat (length ids) ≤ Mmax s l → NoDup ids → Forall (λ j, j ≠ i ∧ at_level s j l) ids →
  ∃ ll', store_links ll ids = Ok ll' ∧
    let s' := put_linklist i l ll' s in
    graph_ok s' ∧ frame s s' ∧ links_frame s s' l (λ j, j = i) ∧ nbs_at s' l i = ids.
Proof.
  intros Hg Hl Hget Hok Hle Hnd Hf.
  destruct (store_links_ok s i l ll ids) as (ll' & Hst & Hok' & Hids & Hdel);
    [done|done|by apply cfg_Mmax|done|done|by apply count_u31|].
  exists ll'. split; [done|]. split_and!.
  - by eapply graph_ok_put.
  - by eapply frame_put.
  - intros j l' Hl' Hne. apply get_put_ne; [done|]. destruct Hne; [by right|left]. congruence.
  - unfold nbs_at. by rewrite (get_put_eq s i l ll' ll).
Qed.

(** ** Linking a neighbour back *)
Lemma dists_to_ok s center ids :
  graph_ok s → center < cur_element_count s → Forall (λ i, i < cur_element_count s) ids →
  dists_to fstdistfunc_ s center ids = Ok ((λ i, (node_dist fstdistfunc_ s i center, i)) <$> ids).
Proof.
  intros Hg Hc Hf. induction Hf as [|i ids Hi Hf IH]; [done|]. simpl.
  destruct (ok_reads s i Hg Hi) as (-> & _ & _). destruct (ok_reads s center Hg Hc) as (-> & _ & _).
  simpl. by rewrite IH.
Qed.
Lemma dists_ids s center ids : ((λ i, (node_dist fstdistfunc_ s i center, i)) <$> ids).*2 = ids.
Proof. rewrite <- list_fmap_compose. apply list_fmap_id. Qed.

(** Candidates pushed onto an empty queue and thinned out. *)
Lemma thin_out s M (cs : list (D * tableint)) :
  graph_ok s → ids_in s cs → 1 ≤ M → NoDup cs.*2 →
  ∃ top, getNeighborsByHeuristic2 fstdistfunc_ s (pq_push_all cmp [] cs) M = Ok top ∧
    let ids := map snd (pq_drain cmp top) in
    NoDup ids ∧ (∀ i, i ∈ ids → i ∈ cs.*2) ∧ N.of_nat (length ids) ≤ M.
Proof.
  intros Hg Hids HM Hnd.
  assert (pq_push_all cmp [] cs ≡ₚ cs) as Hp by by rewrite pq_push_all_perm, (right_id_L [] (++)).
  destruct (heuristic_ids fstdistfunc_ s M (pq_push_all cmp [] cs)) as (top & Hrun & H1 & H2 & H3 & _).
  - done.
  - by eapply ids_in_perm.
  - done.
  - apply pq_push_all_heap; [apply _|apply is_heap_nil].
  - by rewrite Hp.
  - exists top. split; [done|]. cbv zeta in *. split_and!; [done| |done]. intros i Hi%H2. by rewrite Hp in Hi.
Qed.

Lemma connect_back_wp s c l upd nb :
  graph_ok s → (0 ≤ l)%Z → at_level s nb l → at_level s c l → nb ≠ c →
  (upd = true ∨ c ∉ nbs_at s l nb) →
  eff_wp (connect_back fstdistfunc_ c l upd nb) (λ s' _,
    graph_ok s' ∧ frame s s' ∧ links_frame s s' l (λ j, j = nb) ∧
    ∀ x, x ∈ nbs_at s' l nb → x = c ∨ x ∈ nbs_at s l nb) s.
Proof.
  intros Hg Hl Hnb Hc Hne Hupd. unfold connect_back. apply wp_bind, wp_get.
  destruct (ok_links s nb l Hg Hl Hnb) as (ll & Hget & Hok & Hids). wp_read Hget.
  assert (ll_ids ll = nbs_at s l nb) as Hll by (unfold nbs_at; by rewrite Hget).
  pose proof Hok as (Hlen & Hcount & Hnd & Hf & _). rewrite Hll in Hnd, Hf.
  assert (length (nbs_at s l nb) = N.to_nat (getListCount ll)) as Hcl.
  { rewrite <- Hll. unfold ll_ids. rewrite length_take. lia. }
  rewrite (proj2 (N.ltb_ge _ _)) by done. rewrite (proj2 (N.eqb_neq _ _)) by done.
  pose proof Hnb as (_ & lv & Hlv & Hle).
  eapply wp_bind_lift; [unfold get_level; unfold level_of in Hlv; by rewrite Hlv|].
  decide_cmp. wp_read Hids.
  destruct (upd && bool_decide (c ∈ nbs_at s l nb)) eqn:Hpres.
  { apply wp_ret. split_and!; [done|done|done|auto]. }
  assert (c ∉ nbs_at s l nb) as Hnin.
  { destruct Hupd as [->|?]; [|done]. by apply bool_decide_eq_false in Hpres. }
  destruct (N.ltb_spec (getListCount ll) (Mmax s l)) as [Hlt|Hge].
  - destruct (put_ids_wp s nb l ll (nbs_at s l nb ++ [c])) as (ll' & Hst & H1 & H2 & H3 & H4); try done.
    + rewrite length_app. simpl. lia.
    + apply NoDup_app. split_and!; [done| |apply NoDup_singleton]. by intros x Hx ->%list_elem_of_singleton.
    + apply Forall_app. split; [done|]. apply Forall_singleton. by split.
    + wp_read Hst. apply wp_mod. split_and!; [done..|]. intros x. rewrite H4, elem_of_app, list_elem_of_singleton. tauto.
  - assert (Forall (λ i, i < cur_element_count s) (c :: nbs_at s l nb)) as Hin.
    { constructor; [apply Hc|]. eapply Forall_impl; [exact Hf|]. by intros i [_ [? _]]. }
    eapply wp_bind_lift; [apply dists_to_ok; [done|apply Hnb|done]|].
    destruct (thin_out s (Mmax s l) ((λ i, (node_dist fstdistfunc_ s i nb, i)) <$> c :: nbs_at s l nb))
      as (top & Hrun & T1 & T2 & T3).
    + done.
    + apply Forall_fmap. done.
    + by apply cfg_Mmax.
    + rewrite dists_ids. by constructor.
    + wp_read Hrun. rewrite dists_ids in T2.
      destruct (put_ids_wp s nb l ll (map snd (pq_drain cmp top))) as (ll' & Hst & H1 & H2 & H3 & H4); try done.
      { apply Forall_forall. intros x [->|Hx]%T2%elem_of_cons; [done|]. rewrite Forall_forall in Hf. by apply Hf. }
      wp_read Hst. apply wp_mod. split_and!; [done..|]. intros x. rewrite H4. intros Hx%T2. by apply elem_of_cons.
Qed.

Lemma links_frame_refl s l W : links_frame s s l W.
Proof. done. Qed.
Lemma links_frame_trans s1 s2 s3 l (W1 W2 W : tableint → Prop) :
  links_frame s1 s2 l W1 → links_frame s2 s3 l W2 → (∀ i, W1 i → W i) → (∀ i, W2 i → W i) →
  links_frame s1 s3 l W.
Proof.
  intros H1 H2 HW1 HW2 i l' Hl Hne. rewrite H2, H1; [done|done| |done|].
  - destruct Hne; [by left|right]. auto.
  - destruct Hne; [by left|right]. auto.
Qed.

Lemma connect_all_wp s c l upd sel :
  graph_ok s → (0 ≤ l)%Z → at_level s c l → NoDup sel → Forall (λ j, j ≠ c ∧ at_level s j l) sel →
  (upd = true ∨ ∀ j, j ∈ sel → c ∉ nbs_at s l j) →
  eff_wp (connect_all fstdistfunc_ c l upd sel) (λ s' _,
    graph_ok s' ∧ frame s s' ∧ links_frame s s' l (λ j, j ∈ sel)) s.
Proof.
  intros Hg Hl Hc Hnd. revert s Hg Hc. induction Hnd as [|nb sel Hnin Hnd IH]; intros s Hg Hc Hf Hupd.
  { apply wp_ret. by split_and!. }
  apply Forall_cons in Hf as [[Hne Hnb] Hf]. cbn [connect_all].
  eapply wp_seq; [apply connect_back_wp; try done|].
  { destruct Hupd as [->|Hupd]; [by left|right]. apply Hupd. left. }
  intros s1 _u (H1 & H2 & H3 & _). eapply wp_mono.
  - apply IH; [done|by apply (frame_at_level s)| |].
    + eapply Forall_impl; [exact Hf|]. intros j [? ?]. split; [done|]. by apply (frame_at_level s).
    + destruct Hupd as [->|Hupd]; [by left|right]. intros j Hj.
      rewrite (links_frame_nbs s s1 l _ j l H3); [|done|right; by intros ->]. apply Hupd. by right.
  - intros s' u (H4 & H5 & H6). split_and!; [done|by etrans|].
    eapply links_frame_trans; [exact H3|exact H6| |]; intros i Hi; [rewrite Hi; left|by right].
Qed.

(** The first half: the list of [c] is overwritten by the selection. *)
Lemma fill_new_wp s c l upd ll ids :
  graph_ok s → (0 ≤ l)%Z → get_linklist_at_level s c l = Ok ll → ll_ok s c l ll →
  (upd = true ∨ ll = blank_ll (Mmax s l)) →
  N.of_nat (length ids) ≤ Mmax s l → NoDup ids → Forall (λ j, j ≠ c ∧ at_level s j l) ids →
  eff_wp (let* _ := eff_mod (put_linklist c l (setListCount ll (N.of_nat (length ids)))) in
          fill_links c l upd 0 ids) (λ s' _,
    graph_ok s' ∧ frame s s' ∧ links_frame s s' l (λ j, j = c) ∧ nbs_at s' l c = ids) s.
Proof.
  intros Hg Hl Hget Hok Hupd Hle Hnd Hf.
  destruct (put_ids_wp s c l ll ids) as (ll' & Hst & Hpost); try done.
  unfold store_links in Hst. destruct Hok as (Hlen & _). rewrite (proj2 (Nat.leb_le _ _)) in Hst by lia.
  injection Hst as <-. apply wp_bind, wp_mod. eexists _, _. split; [|exact Hpost].
  rewrite (fill_links_run c l upd 0 ids _ (setListCount ll (N.of_nat (length ids)))).
  - rewrite put_put. done.
  - done.
  - by eapply get_put_eq.
  - simpl. lia.
  - destruct Hupd as [->| ->]; [by left|right]. intros k x _ Hk. simpl in Hk.
    by apply lookup_replicate in Hk as [-> _].
  - eapply Forall_impl; [exact Hf|]. intros j [_ Hj]. apply (frame_at_level s); [|done].
    eapply frame_put; [done|]. intros _. apply deleted_set_count.
Qed.

Lemma mutuallyConnect_wp s c cands l upd :
  graph_ok s → (0 ≤ l)%Z → at_level s c l → is_heap cmp cands → NoDup cands.*2 → cands ≠ [] →
  (∀ j, j ∈ cands.*2 → j ≠ c ∧ at_level s j l) →
  (upd = true ∨ get_linklist_at_level s c l = Ok (blank_ll (Mmax s l)) ∧ ∀ j, j ∈ cands.*2 → c ∉ nbs_at s l j) →
  eff_wp (mutuallyConnectNewElement fstdistfunc_ c cands l upd) (λ s' next,
    graph_ok s' ∧ frame s s' ∧ links_frame s s' l (λ j, j = c ∨ j ∈ cands.*2) ∧ next ∈ cands.*2 ∧
    nbs_at s' l c ≠ [] ∧ N.of_nat (length (nbs_at s' l c)) ≤ M_ (cfg s) ∧
    ∀ j, j ∈ nbs_at s' l c → j ∈ cands.*2) s.
Proof.
  intros Hg Hl Hc Hh Hnd Hne Hcand Hupd. unfold mutuallyConnectNewElement. apply wp_bind, wp_get.
  destruct (heuristic_ids fstdistfunc_ s (M_ (cfg s)) cands) as (top & Hrun & S1 & S2 & S3 & S4 & S5).
  { done. }
  { apply Forall_forall. intros x Hx. apply (Hcand x.2). apply list_elem_of_fmap. eauto. }
  { by destruct (go_cfg _ Hg) as (? & _). }
  { done. }
  { done. }
  wp_read Hrun. rewrite (proj2 (N.ltb_ge _ _)) by done. cbv zeta.
  set (sel := map snd (pq_drain cmp top)) in *. specialize (S5 Hne).
  destruct (last sel) as [next|] eqn:Hlast; [|by apply last_None in Hlast].
  eapply wp_bind_lift; [done|].
  destruct (ok_links s c l Hg Hl Hc) as (ll & Hget & Hok & _). wp_read Hget.
  assert (upd = true ∨ ll = blank_ll (Mmax s l)) as Hblank.
  { destruct Hupd as [?|[Hb _]]; [by left|right]. congruence. }
  assert (negb (ll_word ll =? 0) && negb upd = false) as ->.
  { destruct Hblank as [->| ->]; [by rewrite andb_false_r|done]. }
  assert (Forall (λ j, j ≠ c ∧ at_level s j l) sel) as Hsel.
  { apply Forall_forall. intros j Hj. by apply Hcand, S2. }
  destruct (cfg_Mmax s l Hg) as (HM & _ & _).
  apply wp_assoc. eapply wp_seq; [apply fill_new_wp; try done; lia|].
  intros s1 u (F1 & F2 & F3 & F4).
  eapply wp_seq; [apply connect_all_wp; try done|].
  - by apply (frame_at_level s).
  - eapply Forall_impl; [exact Hsel|]. intros j [? ?]. split; [done|]. by apply (frame_at_level s).
  - destruct Hupd as [->|[_ Hn]]; [by left|right]. intros j Hj.
    rewrite (links_frame_nbs s s1 l _ j l F3); [by apply Hn, S2|done|]. right.
    rewrite Forall_forall in Hsel. by apply Hsel.
  - intros s' _u (G1 & G2 & G3). apply wp_ret.
    assert (nbs_at s' l c = sel) as ->.
    { rewrite (links_frame_nbs s1 s' l _ c l G3), F4; [done|done|]. right. intros Hin.
      rewrite Forall_forall in Hsel. by destruct (Hsel c Hin). }
    split_and!; [done|by etrans| |by apply S2, last_Some_elem_of|done|lia|done].
    eapply links_frame_trans; [exact F3|exact G3| |]; intros i Hi; [by left|right; by apply S2].
Qed.
End connect.
