(* ===== verification/HnswAddLaws.v ===== *)
(** * addPoint on a well-formed index: new elements

    The insertion loop links the new element on every level it shares with the
    index; the index stays well-formed. *)

From Stdlib Require Import ZArith Lia.
From stdpp Require Import base numbers list gmap strings sorting relations.
From S2P Require Import Prelude Heap VisitedList Arith BeamSearch Hnsw HnswSearch HnswInsert HnswWf.
From S2P Require Import HnswSearchLaws HnswKnn HeuristicLaws HnswConnectLaws.
#[local] Open Scope N_scope.

Section add.
Context `{RE : RandomEngine} `{HI : HeapImpl} `{AL : Alloc} {D : Type} `{HD : DistT D} `{HO : !DistOrder D}.
Variable fstdistfunc_ : point → point → D.
Implicit Types (s : hnsw) (i j : tableint) (l : Z).
#[local] Abbreviation dist := (dist_to fstdistfunc_).

(** ** The entry point among the candidates *)
Lemma push_entry_ok epDel ef (top : list (D * tableint)) d ep :
  1 ≤ ef → is_heap cmp top → NoDup top.*2 → (epDel = true → ep ∉ top.*2) → (epDel = true ∨ top ≠ []) →
  let q := push_entry epDel ef top d ep in
  is_heap cmp q ∧ NoDup q.*2 ∧ q ≠ [] ∧ ∀ i, i ∈ q.*2 → i ∈ top.*2 ∨ epDel = true ∧ i = ep.
Proof.
  intros Hef Hh Hnd Hep Hne. unfold push_entry. destruct epDel.
  2:{ destruct Hne; [done|]. split_and!; auto. }
  specialize (Hep eq_refl). set (q := pq_push cmp top (d, ep)).
  assert (q ≡ₚ (d, ep) :: top) as Hq by apply pq_push_perm.
  assert (is_heap cmp q) as Hqh by (apply pq_push_heap; [apply _|done]).
  assert (NoDup q.*2) as Hqn by (rewrite Hq; simpl; by constructor).
  assert (∀ i, i ∈ q.*2 → i ∈ top.*2 ∨ true = true ∧ i = ep) as Hsub.
  { intros i. rewrite Hq. simpl. rewrite elem_of_cons. tauto. }
  assert (q ≠ []) as Hqne by (intros Hn; rewrite Hn in Hq; by apply Permutation_nil_l in Hq).
  destruct (N.ltb_spec ef (pq_size q)) as [Hlt|_]; [|by split_and!].
  destruct (pq_top q) as [t|] eqn:Ht; [|by apply pq_top_None in Ht].
  pose proof (pq_pop_perm cmp q t Ht) as Hp. split_and!.
  - apply pq_pop_heap; [apply _|done].
  - rewrite Hp in Hqn. simpl in Hqn. by apply NoDup_cons in Hqn as [_ ?].
  - intros Hn. unfold pq_size in Hlt. rewrite Hp, Hn in Hlt. simpl in Hlt. lia.
  - intros i Hi. apply Hsub. rewrite Hp. simpl. by right.
Qed.

(** No list of the level points to [c]. *)
Definition unlinked s l c : Prop := ∀ j, at_level s j l → c ∉ nbs_at s l j.

Lemma reach_not s l o c i :
  graph_ok s → (0 ≤ l)%Z → at_level s o l → o ≠ c → unlinked s l c → reach s l o i → i ≠ c.
Proof.
  intros Hg Hl Ho Hne Hun Hr.
  assert (i ≠ c ∧ at_level s i l) as [? _]; [|done].
  revert i Hr. apply rtc_ind_r; [done|]. intros y z _ Hz [_ Hy]. split.
  - intros ->. by apply (Hun y).
  - by eapply nbs_at_level.
Qed.

Lemma quiet_links s s' l W : quiet s s' → links_frame s s' l W.
Proof. intros Hq i l' _ _. apply Hq. Qed.

(** A layer search followed by linking on that layer. *)
Record linked s s' l c next (epDel : bool) : Prop := {
  lk_graph : graph_ok s';
  lk_frame : frame s s';
  lk_links : links_frame s s' l (λ _, True);
  lk_next : at_level s next l;
  lk_next_ne : next ≠ c;
  lk_next_live : epDel = true ∨ live s next = true;
  lk_nonempty : nbs_at s' l c ≠ [];
  lk_size : N.of_nat (length (nbs_at s' l c)) ≤ M_ (cfg s)
}.

Lemma insert_level_wp s q c ep epDel maxl o l :
  graph_ok s → (0 ≤ l ≤ maxl)%Z → at_level s c l → at_level s o l → o ≠ c → at_level s ep l → ep ≠ c →
  unlinked s l c → get_linklist_at_level s c l = Ok (blank_ll (Mmax s l)) →
  epDel = negb (live s ep) → (epDel = true ∨ live s o = true) →
  eff_wp (insert_level fstdistfunc_ q c ep epDel maxl o l) (λ s' next, linked s s' l c next epDel) s.
Proof.
  intros Hg Hl Hc Ho Hoc Hep Hepc Hun Hblank Hdel Hlive. unfold insert_level.
  decide_cmp. decide_cmp. cbn [orb].
  eapply wp_seq; [apply searchBaseLayer_wp; [done|lia|done]|].
  intros s1 top (Hq & V & Hr). pose proof (qu_frame _ _ Hq) as Hf.
  destruct (ok_reads s1 ep (qu_graph _ _ Hq)) as (Hp & _).
  { rewrite (fr_count _ _ Hf). apply Hep. }
  wp_read Hp. apply wp_bind, wp_get. rewrite (fr_cfg _ _ Hf).
  assert (∀ i, i ∈ top.*2 → reach s l o i ∧ live s i = true) as Htop.
  { intros i ([d i'] & -> & Hin)%list_elem_of_fmap. apply (br_top _ _ _ _ _ _ _ _ Hr) in Hin as (_ & ? & HV).
    split; [|done]. by apply (br_valid _ _ _ _ _ _ _ _ Hr). }
  destruct (push_entry_ok epDel (ef_construction_ (cfg s)) top (fstdistfunc_ q (data_of s1 ep)) ep)
    as (Q1 & Q2 & Q3 & Q4).
  { by apply efc_pos. }
  { apply Hr. }
  { apply Hr. }
  { intros -> [_ Hlv]%Htop. rewrite Hlv in Hdel. done. }
  { destruct Hlive as [->|Hlive]; [by left|right]. by eapply beam_nonempty; [apply (efc_pos s)|..]. }
  set (cands := push_entry _ _ _ _ _) in *.
  assert (∀ i, i ∈ cands.*2 → i ≠ c ∧ at_level s i l ∧ (epDel = true ∨ live s i = true)) as Hcand.
  { intros i [[Hi ?]%Htop|[-> ->]]%Q4; [|by auto]. split_and!; [| |by right].
    - by apply (reach_not s l o c i Hg ltac:(lia) Ho Hoc Hun).
    - by apply (reach_at_level s l o i Hg ltac:(lia) Ho). }
  eapply wp_mono; [apply mutuallyConnect_wp; try done|].
  - apply Hq.
  - lia.
  - by apply (frame_at_level s).
  - intros j (? & ? & _)%Hcand. split; [done|]. by apply (frame_at_level s).
  - right. rewrite (frame_Mmax s s1) by done. rewrite (qu_links _ _ Hq c l). split; [done|].
    intros j (_ & ? & _)%Hcand. rewrite (quiet_nbs s s1) by done. by apply Hun.
  - intros s' next (G1 & G2 & G3 & G4 & G5 & G6 & _). rewrite (fr_cfg _ _ Hf) in G6.
    destruct (Hcand next G4) as (N1 & N2 & N3). split; try done.
    + by etrans.
    + eapply links_frame_trans; [by apply quiet_links|exact G3|done|done]. Unshelve. exact (λ _, True).
Qed.

Lemma insert_levels_wp n s q c ep epDel maxl o :
  graph_ok s → (Z.of_nat n - 1 ≤ maxl)%Z → at_level s c (Z.of_nat n - 1) →
  (n ≠ 0%nat → at_level s o (Z.of_nat n - 1)) → o ≠ c → at_level s ep maxl → ep ≠ c →
  (∀ l, (0 ≤ l < Z.of_nat n)%Z → unlinked s l c ∧ get_linklist_at_level s c l = Ok (blank_ll (Mmax s l))) →
  epDel = negb (live s ep) → (epDel = true ∨ live s o = true) →
  eff_wp (insert_levels fstdistfunc_ n q c ep epDel maxl o) (λ s' _, graph_ok s' ∧ frame s s' ∧
    (∀ i l, (Z.of_nat n ≤ l)%Z → get_linklist_at_level s' i l = get_linklist_at_level s i l) ∧
    ∀ l, (0 ≤ l < Z.of_nat n)%Z → nbs_at s' l c ≠ [] ∧ N.of_nat (length (nbs_at s' l c)) ≤ M_ (cfg s)) s.
Proof.
  revert s o. induction n as [|n IH]; intros s o Hg Hn Hc Ho Hoc Hep Hepc Hblank Hdel Hlive.
  { apply wp_ret. split_and!; [done|done|done|]. intros l ?. lia. }
  cbn [insert_levels]. replace (Z.of_nat (S n) - 1)%Z with (Z.of_nat n) in * by lia.
  destruct (Hblank (Z.of_nat n)) as [Hun Hb]; [lia|].
  eapply wp_seq; [apply insert_level_wp; try done; [lia|by apply Ho|by eapply at_level_le]|].
  intros s1 next [L1 L2 L3 L4 L5 L6 L7 L8]. eapply wp_mono.
  - apply IH; try done.
    + lia.
    + apply (frame_at_level s); [done|]. eapply at_level_le; [exact Hc|lia].
    + intros _. apply (frame_at_level s); [done|]. eapply at_level_le; [exact L4|lia].
    + by apply (frame_at_level s).
    + intros l Hl. destruct (Hblank l) as [Hu Hbl]; [lia|]. split.
      * intros j Hj. rewrite (links_frame_nbs s s1 _ _ j l L3) by (lia || (left; lia)).
        apply Hu. by apply (frame_at_level s s1) in Hj.
      * rewrite (L3 c l) by (lia || (left; lia)). by rewrite (frame_Mmax s s1).
    + by rewrite (frame_live s s1).
    + by rewrite (frame_live s s1).
  - intros s' _u (G1 & G2 & G3 & G4). split_and!; [done|by etrans| |].
    + intros i l Hl. rewrite G3 by lia. apply L3; [lia|left; lia].
    + intros l Hl. rewrite (fr_cfg _ _ L2) in G4. destruct (decide (l = Z.of_nat n)) as [->|]; [|apply G4; lia].
      unfold nbs_at. rewrite G3 by lia. done.
Qed.

(** ** A blank element at the end of the arrays *)
Lemma blank_ids n : ll_ids (blank_ll n) = [].
Proof. done. Qed.
Lemma blank_ok s i l : ll_ok s i l (blank_ll (Mmax s l)).
Proof.
  unfold ll_ok. rewrite blank_ids.
  split_and!; [apply length_replicate|apply N.le_0_l|constructor|constructor|apply typed_blank].
Qed.

Record extends s s' (c : tableint) (e : element) (curlevel : Z) : Prop := {
  ex_c : c = cur_element_count s;
  ex_cfg : cfg s' = cfg s;
  ex_count : cur_element_count s' = c + 1;
  ex_levels : element_levels_ s' = <[N.to_nat c := curlevel]> (element_levels_ s);
  ex_level0 : level0 s' = <[c := e]> (level0 s);
  ex_upper : upper s' = if (curlevel =? 0)%Z then upper s
             else <[c := replicate (Z.to_nat curlevel) (blank_ll (maxM_ (cfg s)))]> (upper s);
  ex_pool : visited_list_pool_ s' = visited_list_pool_ s;
  ex_blank : el_ll e = blank_ll (maxM0_ (cfg s));
  ex_size : length (el_data e) = N.to_nat (data_size_ (cfg s));
  ex_pos : (0 ≤ curlevel)%Z;
  ex_room : c < max_elements_ (cfg s)
}.

Section extend.
Context s s' c e curlevel (Hex : extends s s' c e curlevel) (Hg : graph_ok s).

Lemma ex_level_old i : i ≠ c → level_of s' i = level_of s i.
Proof. intros Hi. unfold level_of. rewrite (ex_levels _ _ _ _ _ Hex). apply list_lookup_insert_ne. lia. Qed.
Lemma ex_level_new : level_of s' c = Some curlevel.
Proof.
  unfold level_of. rewrite (ex_levels _ _ _ _ _ Hex). apply list_lookup_insert_eq.
  rewrite (go_levels _ Hg). pose proof (ex_room _ _ _ _ _ Hex). lia.
Qed.
Lemma ex_old i : i < cur_element_count s → i ≠ c.
Proof. rewrite (ex_c _ _ _ _ _ Hex). lia. Qed.
Lemma ex_at_level i l : at_level s i l → at_level s' i l.
Proof.
  intros (Hi & lv & H1 & H2). split.
  - rewrite (ex_count _ _ _ _ _ Hex), (ex_c _ _ _ _ _ Hex). lia.
  - exists lv. rewrite ex_level_old by by apply ex_old. done.
Qed.
Lemma ex_get_old i l : i ≠ c → get_linklist_at_level s' i l = get_linklist_at_level s i l.
Proof.
  intros Hi. unfold get_linklist_at_level, get_linklist0, get_el, get_linklist.
  rewrite (ex_cfg _ _ _ _ _ Hex), (ex_level0 _ _ _ _ _ Hex), (ex_upper _ _ _ _ _ Hex).
  rewrite lookup_insert_ne by done. destruct (curlevel =? 0)%Z; [done|]. by rewrite lookup_insert_ne.
Qed.
Lemma ex_Mmax l : Mmax s' l = Mmax s l.
Proof. unfold Mmax. by rewrite (ex_cfg _ _ _ _ _ Hex). Qed.
Lemma ex_get_new l : (0 ≤ l ≤ curlevel)%Z → get_linklist_at_level s' c l = Ok (blank_ll (Mmax s' l)).
Proof.
  intros Hl. rewrite ex_Mmax. unfold Mmax. destruct (Z.eqb_spec l 0) as [->|Hne].
  - unfold get_linklist_at_level, get_linklist0, get_el. simpl.
    rewrite (ex_cfg _ _ _ _ _ Hex), (ex_level0 _ _ _ _ _ Hex), lookup_insert_eq.
    rewrite (proj2 (N.ltb_lt _ _)) by apply Hex. simpl. by rewrite (ex_blank _ _ _ _ _ Hex).
  - eapply get_linklist_upper_2; [lia| |].
    + rewrite (ex_upper _ _ _ _ _ Hex). decide_cmp. apply lookup_insert_eq.
    + apply lookup_replicate. split; [done|lia].
Qed.
Lemma ex_nbs_new l : (0 ≤ l ≤ curlevel)%Z → nbs_at s' l c = [].
Proof. intros Hl. unfold nbs_at. rewrite ex_get_new by done. apply blank_ids. Qed.

Lemma ex_unlinked l : (0 ≤ l ≤ curlevel)%Z → unlinked s' l c.
Proof.
  intros Hl j Hj. destruct (decide (j = c)) as [->|Hne].
  { rewrite ex_nbs_new by done. apply not_elem_of_nil. }
  unfold nbs_at. rewrite ex_get_old by done. intros Hin.
  assert (at_level s j l) as Hj'.
  { destruct Hj as (Hlt & lv & H1 & H2). rewrite (ex_count _ _ _ _ _ Hex) in Hlt. rewrite ex_level_old in H1 by done.
    split; [rewrite <- (ex_c _ _ _ _ _ Hex); lia|]. by exists lv. }
  destruct (nbs_at_level s j c l Hg ltac:(lia) Hj' Hin) as [[Hlt _] _].
  rewrite (ex_c _ _ _ _ _ Hex) in Hlt. lia.
Qed.

Lemma ex_node_old i : i < cur_element_count s → ∃ e' lv, node_ok s' i e' lv.
Proof.
  intros Hi. pose proof (ex_old i Hi) as Hne.
  destruct (go_node _ Hg i Hi) as (e' & lv & [N1 N2 N3 N4 N5 N6]). exists e', lv.
  split; rewrite ?(ex_cfg _ _ _ _ _ Hex); try done.
  - rewrite (ex_level0 _ _ _ _ _ Hex). by rewrite lookup_insert_ne.
  - by rewrite ex_level_old.
  - rewrite (ex_upper _ _ _ _ _ Hex). destruct (curlevel =? 0)%Z; [done|]. by rewrite lookup_insert_ne.
  - intros l Hl. destruct (N6 l Hl) as (ll & Hget & L1 & L2 & L3 & L4 & L5). exists ll.
    rewrite ex_get_old by done. split; [done|]. unfold ll_ok. rewrite ex_Mmax. split_and!; [done|done|done| |done].
    eapply Forall_impl; [exact L4|]. intros j [? ?]. split; [done|]. by apply ex_at_level.
Qed.
Lemma ex_node_new : node_ok s' c e curlevel.
Proof.
  split; rewrite ?(ex_cfg _ _ _ _ _ Hex); try apply Hex.
  - rewrite (ex_level0 _ _ _ _ _ Hex). apply lookup_insert_eq.
  - apply ex_level_new.
  - intros Hpos. rewrite (ex_upper _ _ _ _ _ Hex), (proj2 (Z.eqb_neq _ _)), lookup_insert_eq by lia.
    eexists. split; [done|]. apply length_replicate.
  - intros l Hl. exists (blank_ll (Mmax s' l)). split; [by apply ex_get_new|apply blank_ok].
Qed.

Lemma ex_graph : graph_ok s'.
Proof.
  split; rewrite ?(ex_cfg _ _ _ _ _ Hex), ?(ex_pool _ _ _ _ _ Hex); try apply Hg.
  - rewrite (ex_count _ _ _ _ _ Hex). pose proof (ex_room _ _ _ _ _ Hex). lia.
  - rewrite (ex_levels _ _ _ _ _ Hex), length_insert. apply Hg.
  - intros i. rewrite (ex_count _ _ _ _ _ Hex). intros Hi. destruct (decide (i = c)) as [->|].
    + eauto using ex_node_new.
    + apply ex_node_old. rewrite <- (ex_c _ _ _ _ _ Hex). lia.
Qed.
Lemma ex_el_old i : i ≠ c → level0 s' !! i = level0 s !! i.
Proof. intros Hi. rewrite (ex_level0 _ _ _ _ _ Hex). by rewrite lookup_insert_ne. Qed.
Lemma ex_live_new : live s' c = true.
Proof.
  unfold live. rewrite (ex_level0 _ _ _ _ _ Hex), lookup_insert_eq. simpl.
  by rewrite (ex_blank _ _ _ _ _ Hex).
Qed.
End extend.

(** ** Linking the new element *)
Lemma connect_new_wp s q c ep curlevel maxl :
  graph_ok s → (0 ≤ curlevel)%Z → (0 ≤ maxl)%Z → c < cur_element_count s → level_of s c = Some curlevel →
  at_level s ep maxl → ep ≠ c →
  (∀ l, (0 ≤ l ≤ curlevel)%Z → unlinked s l c ∧ get_linklist_at_level s c l = Ok (blank_ll (Mmax s l))) →
  (live s ep = false ∨ ∀ i, i < cur_element_count s → i ≠ c → live s i = true) →
  eff_wp (connect_new fstdistfunc_ q c curlevel maxl ep) (λ s' _, graph_ok s' ∧ frame s s' ∧
    ∀ l, (0 ≤ l ≤ Z.min curlevel maxl)%Z →
      nbs_at s' l c ≠ [] ∧ N.of_nat (length (nbs_at s' l c)) ≤ M_ (cfg s)) s.
Proof.
  intros Hg Hcl Hml Hc Hclv Hep Hepc Hblank Hlive. unfold connect_new.
  eapply (wp_seq _ _ (λ s1 o, quiet s s1 ∧ at_level s o (Z.min curlevel maxl) ∧ o ≠ c)).
  - destruct (Z.ltb_spec curlevel maxl) as [Hlt|Hge].
    + destruct (ok_reads s ep Hg) as (Hp & _); [apply Hep|]. wp_read Hp. fold (dist s q ep).
      eapply wp_seq; [apply greedy_levels_wp; [done|done|]|].
      { replace (curlevel + Z.of_nat (Z.to_nat (maxl - curlevel)))%Z with maxl by lia. done. }
      intros s1 [o d] (H1 & H2 & _ & _ & H3 & _). apply wp_ret. simpl in *.
      destruct H3 as [(Ho & lv & Hlv & Hle) _]; [lia|]. split_and!; [done| |].
      * eapply at_level_le; [exact H2|lia].
      * intros ->. rewrite Hclv in Hlv. injection Hlv as <-. lia.
    + apply wp_ret. split_and!; [by apply quiet_refl|eapply at_level_le; [exact Hep|lia]|done].
  - intros s1 o (Hq & Ho & Hoc). pose proof (qu_frame _ _ Hq) as Hf.
    destruct (ok_reads s1 ep (qu_graph _ _ Hq)) as (_ & _ & Hdel).
    { rewrite (fr_count _ _ Hf). apply Hep. }
    wp_read Hdel. eapply wp_mono.
    + apply insert_levels_wp; try done; try (by apply Hq).
      * lia.
      * apply (frame_at_level s); [done|]. split; [done|]. exists curlevel. split; [done|lia].
      * intros _. apply (frame_at_level s); [done|]. eapply at_level_le; [exact Ho|lia].
      * by apply (frame_at_level s).
      * intros l Hl. destruct (Hblank l) as [Hu Hb]; [lia|]. split.
        -- intros j Hj. rewrite (quiet_nbs s s1) by done. apply Hu. by apply (frame_at_level s s1) in Hj.
        -- rewrite (qu_links _ _ Hq c l), (frame_Mmax s s1) by done. done.
      * rewrite !(frame_live s s1) by done. destruct Hlive as [->|Hl]; [by left|right]. apply Hl; [apply Ho|done].
    + intros s' _u (G1 & G2 & _ & G4). split_and!; [done|by etrans|]. rewrite (fr_cfg _ _ Hf) in G4.
      intros l Hl. apply G4. lia.
Qed.

(** ** The whole index *)
Definition labels_ok s : Prop :=
  (∀ lab i, label_lookup_ s !! lab = Some i → i < cur_element_count s ∧ label_of s i = lab) ∧
  ∀ i, i < cur_element_count s → label_lookup_ s !! label_of s i = Some i.

Record index_ok s : Prop := {
  ix_graph : graph_ok s;
  ix_entry : entry_ok s;
  ix_labels : labels_ok s;
  ix_marks : marks_ok s
}.

(** The index as a map from labels to vectors with a flag: not deleted. *)
Definition view s (lab : labeltype) : option (point * bool) :=
  i ← label_lookup_ s !! lab; Some (data_of s i, live s i).

Lemma frame_view s s' lab : frame s s' → view s' lab = view s lab.
Proof.
  intros Hf. unfold view. rewrite (fr_lookup _ _ Hf). destruct (label_lookup_ s !! lab); simpl; [|done].
  by rewrite (frame_data s s'), (frame_live s s').
Qed.
Lemma frame_labels s s' : frame s s' → labels_ok s → labels_ok s'.
Proof.
  intros Hf [H1 H2]. unfold labels_ok. rewrite (fr_lookup _ _ Hf), (fr_count _ _ Hf).
  split; intros; rewrite (frame_label s s') by done; auto.
Qed.
Lemma deleted_ids_same s s' :
  cur_element_count s' = cur_element_count s → (∀ i, i < cur_element_count s → live s' i = live s i) →
  deleted_ids s' = deleted_ids s.
Proof.
  intros Hc Hl. unfold deleted_ids. rewrite Hc. apply filter_ext_in.
  intros x (k & -> & Hk%elem_of_seq)%list_elem_of_fmap. rewrite Hl by lia. done.
Qed.
Lemma frame_marks s s' : frame s s' → marks_ok s → marks_ok s'.
Proof.
  intros Hf [H1 H2]. unfold marks_ok. rewrite (fr_num_deleted _ _ Hf), (fr_deleted _ _ Hf), (fr_cfg _ _ Hf).
  rewrite (deleted_ids_same s s'); [done|apply Hf|]. intros i _. by apply frame_live.
Qed.
#[local] Hint Resolve frame_entry frame_labels frame_marks : hnsw.
Lemma frame_index s s' : frame s s' → graph_ok s' → index_ok s → index_ok s'.
Proof. intros Hf Hg [_ H1 H2 H3]. split; eauto with hnsw. Qed.

(** The entry point plays no part in [graph_ok]. *)
Lemma graph_ok_entry ep l s : graph_ok s → graph_ok (set_entry ep l s).
Proof.
  intros [H1 H2 H3 H4 H5 H6]. split; try done. intros i Hi.
  destruct (H6 i Hi) as (e & lv & [N1 N2 N3 N4 N5 N6]). exists e, lv. by split.
Qed.

Section extend_index.
Context s s' c e curlevel (Hex : extends s s' c e curlevel).
Context (Hlookup : label_lookup_ s' = <[el_label e := c]> (label_lookup_ s)).
Context (Hnum : num_deleted_ s' = num_deleted_ s) (Hdel : deleted_elements s' = deleted_elements s).
Context (Hix : index_ok s) (Hfresh : label_lookup_ s !! el_label e = None).

Lemma ex_data_new : data_of s' c = el_data e.
Proof. unfold data_of. by rewrite (ex_level0 _ _ _ _ _ Hex), lookup_insert_eq. Qed.
Lemma ex_label_new : label_of s' c = el_label e.
Proof. unfold label_of. by rewrite (ex_level0 _ _ _ _ _ Hex), lookup_insert_eq. Qed.

Lemma ex_labels : labels_ok s'.
Proof.
  destruct (ix_labels _ Hix) as [L1 L2]. pose proof (ex_c _ _ _ _ _ Hex) as Hc.
  split; rewrite Hlookup, (ex_count _ _ _ _ _ Hex).
  - intros lab i. destruct (decide (el_label e = lab)) as [<-|Hne].
    + rewrite lookup_insert_eq. intros [= <-]. split; [lia|apply ex_label_new].
    + rewrite lookup_insert_ne by done. intros Hi. destruct (L1 lab i Hi) as [Hlt Hlab]. split; [lia|].
      unfold label_of. rewrite (ex_el_old _ _ _ _ _ Hex) by lia. done.
  - intros i Hi. destruct (decide (i = c)) as [->|Hne].
    + rewrite ex_label_new. apply lookup_insert_eq.
    + assert (label_of s' i = label_of s i) as ->.
      { unfold label_of. by rewrite (ex_el_old _ _ _ _ _ Hex). }
      assert (label_lookup_ s !! label_of s i = Some i) as HL by (apply L2; lia).
      rewrite lookup_insert_ne by congruence. done.
Qed.
Lemma ex_deleted_ids : deleted_ids s' = deleted_ids s.
Proof.
  unfold deleted_ids. rewrite (ex_count _ _ _ _ _ Hex), (ex_c _ _ _ _ _ Hex).
  replace (N.to_nat (cur_element_count s + 1)) with (S (N.to_nat (cur_element_count s))) by lia.
  rewrite seq_S, fmap_app, filter_app. simpl.
  rewrite filter_cons_False, filter_nil, (right_id_L [] (++)).
  - apply filter_ext_in. intros x (k & -> & Hk%elem_of_seq)%list_elem_of_fmap. unfold live.
    rewrite (ex_el_old _ _ _ _ _ Hex); [done|]. rewrite (ex_c _ _ _ _ _ Hex). lia.
  - rewrite N2Nat.id, <- (ex_c _ _ _ _ _ Hex), (ex_live_new _ _ _ _ _ Hex). done.
Qed.
Lemma ex_marks : marks_ok s'.
Proof.
  destruct (ix_marks _ Hix) as [M1 M2]. unfold marks_ok.
  by rewrite Hnum, Hdel, (ex_cfg _ _ _ _ _ Hex), ex_deleted_ids.
Qed.
Lemma ex_view lab : view s' lab = if decide (lab = el_label e) then Some (el_data e, true) else view s lab.
Proof.
  unfold view. rewrite Hlookup. destruct (decide (lab = el_label e)) as [->|Hne].
  - rewrite lookup_insert_eq. simpl. by rewrite ex_data_new, (ex_live_new _ _ _ _ _ Hex).
  - rewrite lookup_insert_ne by done. destruct (label_lookup_ s !! lab) as [i|] eqn:Hi; simpl; [|done].
    destruct (ix_labels _ Hix) as [L1 _]. destruct (L1 _ _ Hi) as [Hlt _].
    unfold data_of, live. rewrite (ex_el_old _ _ _ _ _ Hex); [done|]. rewrite (ex_c _ _ _ _ _ Hex). lia.
Qed.

(** The entry point, kept or moved to the new element. *)
Lemma ex_entry s'' : frame s' s'' → enterpoint_node_ s' = enterpoint_node_ s → maxlevel_ s' = maxlevel_ s →
  entry_ok (if (maxlevel_ s <? curlevel)%Z then set_entry c curlevel s'' else s'').
Proof.
  intros Hf He Hm. pose proof (ex_c _ _ _ _ _ Hex) as Hc.
  pose proof (ex_level_new _ _ _ _ _ Hex (ix_graph _ Hix)) as Hnew.
  assert (∀ i lv, i < cur_element_count s → level_of s i = Some lv → (lv ≤ maxlevel_ s)%Z) as Hmax.
  { intros i lv Hi Hlv. destruct (ix_entry _ Hix) as [(H0 & _)|(_ & _ & H)]; [lia|eauto]. }
  assert (∀ i lv, i < cur_element_count s'' → level_of s'' i = Some lv → i = c ∧ lv = curlevel ∨ (lv ≤ maxlevel_ s)%Z)
    as Hall.
  { intros i lv Hi Hlv. rewrite (frame_level_of s' s'') in Hlv by done.
    rewrite (fr_count _ _ Hf), (ex_count _ _ _ _ _ Hex) in Hi.
    destruct (decide (i = c)) as [->|Hne]; [left; split; congruence|right].
    rewrite (ex_level_old _ _ _ _ _ Hex) in Hlv by done. apply (Hmax i); [lia|done]. }
  right. destruct (Z.ltb_spec (maxlevel_ s) curlevel) as [Hlt|Hge]; simpl.
  - split_and!.
    + rewrite (fr_count _ _ Hf), (ex_count _ _ _ _ _ Hex). lia.
    + change (level_of (set_entry c curlevel s'') c) with (level_of s'' c). by rewrite (frame_level_of s' s'').
    + intros i lv Hi Hlv. destruct (Hall i lv Hi Hlv) as [[_ ->]|?]; lia.
  - pose proof (ex_pos _ _ _ _ _ Hex).
    destruct (ix_entry _ Hix) as [(_ & _ & Hm1)|(E1 & E2 & _)]; [lia|].
    rewrite (fr_entry _ _ Hf), (fr_maxlevel _ _ Hf), He, Hm. split_and!.
    + rewrite (fr_count _ _ Hf), (ex_count _ _ _ _ _ Hex). lia.
    + rewrite (frame_level_of s' s''), (ex_level_old _ _ _ _ _ Hex) by (done || lia). done.
    + intros i lv Hi Hlv. destruct (Hall i lv Hi Hlv) as [[_ ->]|?]; lia.
Qed.
End extend_index.

(** ** addPoint of a label that is not in the index *)
Definition drawn_level s (level : Z) : option Z :=
  if (0 <? level)%Z then Some level else (random_level (mult_ (cfg s)) (level_generator_ s)).1.

(** What an insertion achieves. *)
Record added s s' (c : tableint) (label : labeltype) (p : point) (curlevel : Z) : Prop := {
  ad_index : index_ok s';
  ad_id : c = cur_element_count s;
  ad_count : cur_element_count s' = cur_element_count s + 1;
  ad_cfg : cfg s' = cfg s;
  ad_level : level_of s' c = Some curlevel;
  ad_lookup : label_lookup_ s' !! label = Some c;
  ad_view lab : view s' lab = if decide (lab = label) then Some (p, true) else view s lab;
  ad_linked l : (0 ≤ l ≤ Z.min curlevel (maxlevel_ s))%Z →
    nbs_at s' l c ≠ [] ∧ N.of_nat (length (nbs_at s' l c)) ≤ M_ (cfg s)
}.

Lemma added_finish s s1 s2 c e curlevel :
  index_ok s → extends s s1 c e curlevel → label_lookup_ s !! el_label e = None →
  label_lookup_ s1 = <[el_label e := c]> (label_lookup_ s) →
  num_deleted_ s1 = num_deleted_ s → deleted_elements s1 = deleted_elements s →
  enterpoint_node_ s1 = enterpoint_node_ s → maxlevel_ s1 = maxlevel_ s →
  graph_ok s2 → frame s1 s2 →
  (∀ l, (0 ≤ l ≤ Z.min curlevel (maxlevel_ s))%Z →
    nbs_at s2 l c ≠ [] ∧ N.of_nat (length (nbs_at s2 l c)) ≤ M_ (cfg s)) →
  let s3 := if (maxlevel_ s <? curlevel)%Z then set_entry c curlevel s2 else s2 in
  added s s3 c (el_label e) (el_data e) curlevel.
Proof.
  intros Hix Hex Hfresh Hlook Hnum Hdel He Hm Hg2 Hf Hlinks s3.
  assert (entry_ok s3) as Hentry by (by eapply ex_entry).
  assert (label_lookup_ s3 = label_lookup_ s2 ∧ cur_element_count s3 = cur_element_count s2 ∧ cfg s3 = cfg s2 ∧
    (∀ i, level_of s3 i = level_of s2 i) ∧ (∀ lab, view s3 lab = view s2 lab) ∧
    (∀ l i, nbs_at s3 l i = nbs_at s2 l i) ∧ (labels_ok s2 → labels_ok s3) ∧ (marks_ok s2 → marks_ok s3))
    as (E1 & E2 & E3 & E4 & E5 & E6 & E7 & E8) by (unfold s3; by case_match).
  assert (graph_ok s3) as Hg3 by (unfold s3; case_match; [by apply graph_ok_entry|done]).
  split.
  - split; [done|done| |].
    + apply E7. eapply frame_labels; [done|]. by eapply ex_labels.
    + apply E8. eapply frame_marks; [done|]. by eapply ex_marks.
  - apply Hex.
  - rewrite E2, (fr_count _ _ Hf), (ex_count _ _ _ _ _ Hex). by rewrite (ex_c _ _ _ _ _ Hex).
  - by rewrite E3, (fr_cfg _ _ Hf), (ex_cfg _ _ _ _ _ Hex).
  - rewrite E4, (frame_level_of s1 s2) by done. apply (ex_level_new _ _ _ _ _ Hex). by apply ix_graph.
  - rewrite E1, (fr_lookup _ _ Hf), Hlook. apply lookup_insert_eq.
  - intros lab. rewrite E5, (frame_view s1 s2) by done. by eapply ex_view.
  - intros l Hl. rewrite E6. by apply Hlinks.
Qed.

(** The state after the element's memory has been initialised. *)
Record fresh_element s s1 c e curlevel : Prop := {
  fe_ext : extends s s1 c e curlevel;
  fe_lookup : label_lookup_ s1 = <[el_label e := c]> (label_lookup_ s);
  fe_num : num_deleted_ s1 = num_deleted_ s;
  fe_del : deleted_elements s1 = deleted_elements s;
  fe_entry : enterpoint_node_ s1 = enterpoint_node_ s;
  fe_maxlevel : maxlevel_ s1 = maxlevel_ s
}.

Lemma link_new_wp s s1 q c e curlevel :
  index_ok s → label_lookup_ s !! el_label e = None → fresh_element s s1 c e curlevel →
  (live s (enterpoint_node_ s) = false ∨ ∀ i, i < cur_element_count s → live s i = true) →
  eff_wp (let* _ := (if negb (enterpoint_node_ s =? 4294967295)
                     then connect_new fstdistfunc_ q c curlevel (maxlevel_ s) (enterpoint_node_ s)
                     else eff_mod (set_entry 0 curlevel)) in
          let* _ := (if (maxlevel_ s <? curlevel)%Z then eff_mod (set_entry c curlevel) else eff_ret tt) in
          eff_ret c)
    (λ s' c', added s s' c' (el_label e) (el_data e) curlevel) s1.
Proof.
  intros Hix Hfresh [Hex F1 F2 F3 F4 F5] Hlive.
  pose proof (ix_graph _ Hix) as Hg. pose proof (ex_graph _ _ _ _ _ Hex Hg) as Hg1.
  pose proof (ex_pos _ _ _ _ _ Hex) as Hpos. pose proof (ex_c _ _ _ _ _ Hex) as Hc.
  assert (∀ i, i ≠ c → live s1 i = live s i) as Hl1.
  { intros i Hi. unfold live. by rewrite (ex_el_old _ _ _ _ _ Hex). }
  destruct (ix_entry _ Hix) as [(E1 & E2 & E3)|(E1 & E2 & E3)].
  - rewrite E2. cbn [negb N.eqb Pos.eqb]. apply wp_bind, wp_mod. decide_cmp.
    apply wp_bind, wp_mod, wp_ret.
    pose proof (added_finish s s1 s1 c e curlevel Hix Hex Hfresh F1 F2 F3 F4 F5 Hg1 (reflexivity _)) as Hadd.
    rewrite (proj2 (Z.ltb_lt _ _)) in Hadd by lia. apply Hadd. intros l Hl. lia.
  - rewrite (proj2 (N.eqb_neq _ _)).
    2:{ pose proof (go_count _ Hg). destruct (go_cfg _ Hg) as (_ & _ & _ & _ & _ & _ & ? & _). lia. }
    cbn [negb]. destruct (go_node _ Hg _ E1) as (ee & lv & Hn). pose proof (no_pos _ _ _ _ Hn) as Hlv.
    assert (lv = maxlevel_ s) as -> by (pose proof (no_level _ _ _ _ Hn); congruence).
    assert (enterpoint_node_ s ≠ c) as Hne by lia.
    eapply wp_seq; [apply connect_new_wp; try done|].
    + rewrite (ex_count _ _ _ _ _ Hex). lia.
    + by apply (ex_level_new _ _ _ _ _ Hex).
    + apply (ex_at_level _ _ _ _ _ Hex). split; [done|]. by exists (maxlevel_ s).
    + intros l Hl. split; [by eapply ex_unlinked|by eapply ex_get_new].
    + rewrite Hl1 by done. destruct Hlive as [?|Hl]; [by left|right]. intros i Hi Hic. rewrite Hl1 by done.
      apply Hl. rewrite (ex_count _ _ _ _ _ Hex) in Hi. lia.
    + intros s2 _u (G1 & G2 & G3). rewrite (ex_cfg _ _ _ _ _ Hex) in G3.
      pose proof (added_finish s s1 s2 c e curlevel Hix Hex Hfresh F1 F2 F3 F4 F5 G1 G2 G3) as Hadd.
      destruct (Z.ltb_spec (maxlevel_ s) curlevel); apply wp_bind; [apply wp_mod|apply wp_ret]; by apply wp_ret.
Qed.

Lemma getRandomLevel_ok s r :
  (random_level (mult_ (cfg s)) (level_generator_ s)).1 = Some r →
  getRandomLevel s = (set_gens (random_level (mult_ (cfg s)) (level_generator_ s)).2
                        (update_probability_generator_ s) s, Ok r).
Proof. intros H. unfold getRandomLevel. destruct (random_level _ _). simpl in *. by rewrite H. Qed.

Lemma addPoint_new_wp `{HS : HashOrder} s q label level curlevel :
  index_ok s → label_lookup_ s !! label = None → cur_element_count s < max_elements_ (cfg s) →
  (N.to_nat (data_size_ (cfg s)) ≤ length q)%nat →
  (random_level (mult_ (cfg s)) (level_generator_ s)).1 ≠ None → drawn_level s level = Some curlevel →
  (live s (enterpoint_node_ s) = false ∨ ∀ i, i < cur_element_count s → live s i = true) →
  eff_wp (addPointLevel fstdistfunc_ q label level) (λ s' c,
    added s s' c label (take (N.to_nat (data_size_ (cfg s))) q) curlevel) s.
Proof.
  intros Hix Hfresh Hroom Hq Hrnd Hdrawn Hlive.
  pose proof (ix_graph _ Hix) as Hg. unfold addPointLevel.
  apply wp_bind, wp_get. rewrite Hfresh. apply wp_bind, wp_get. rewrite (proj2 (N.leb_gt _ _)) by done.
  apply wp_bind, wp_get. set (c := cur_element_count s). do 2 apply wp_bind, wp_mod.
  unfold drawn_level in Hdrawn.
  destruct (random_level (mult_ (cfg s)) (level_generator_ s)).1 as [r|] eqn:Hr; [|done].
  assert (0 ≤ curlevel)%Z as Hpos.
  { destruct (Z.ltb_spec 0 level); [injection Hdrawn as <-; lia|]. injection Hdrawn as <-.
    destruct (go_cfg _ Hg) as (_ & _ & _ & _ & _ & _ & _ & Hmult).
    apply (random_level_nonneg (M_ (cfg s)) (level_generator_ s)). by rewrite <- Hmult. }
  apply wp_bind. eexists _, r. split; [by apply getRandomLevel_ok|].
  assert ((if (0 <? level)%Z then level else r) = curlevel) as -> by (destruct (0 <? level)%Z; congruence).
  destruct (lookup_lt_is_Some_2 (element_levels_ s) (N.to_nat c)) as [old Hold].
  { rewrite (go_levels _ Hg). unfold c. lia. }
  eapply wp_bind_lift; [unfold get_level; simpl; by rewrite Hold|].
  apply wp_bind, wp_mod. do 2 apply wp_bind, wp_get. unfold init_element.
  apply wp_bind. apply wp_bind, wp_get. apply wp_bind, wp_get.
  eapply wp_bind_lift; [by apply copy_point_ok|]. cbn [cfg set_levels set_gens set_lookup set_count].
  rewrite (proj2 (N.ltb_lt _ _)) by done. cbn [negb].
  set (e := {| el_ll := blank_ll (maxM0_ (cfg s)); el_data := take (N.to_nat (data_size_ (cfg s))) q; el_label := label |}).
  apply wp_bind, wp_mod. eapply (wp_mono _ (λ s1 _, fresh_element s s1 c e curlevel)).
  - destruct (curlevel =? 0)%Z eqn:Hz; [apply wp_ret|apply wp_mod]; (split; [|done..]); split; try done; simpl;
      rewrite ?Hz; try done; rewrite length_take; lia.
  - intros s1 _u Hfe. by apply (link_new_wp s s1 q c e).
Qed.
End add.
