(* ===== verification/HnswUpdateLaws.v ===== *)
(** * updatePoint and repairConnectionsForUpdate on a well-formed index *)

From Stdlib Require Import ZArith Lia.
From stdpp Require Import base numbers list gmap strings sorting relations.
From S2P Require Import Prelude Heap VisitedList Arith BeamSearch Hnsw HnswSearch HnswInsert HnswWf.
From S2P Require Import HnswSearchLaws HnswKnn HeuristicLaws HnswConnectLaws HnswAddLaws.
#[local] Open Scope N_scope.

Section update.
Context `{RE : RandomEngine} `{HI : HeapImpl} `{AL : Alloc} `{HS : HashOrder} {D : Type} `{HD : DistT D} `{HO : !DistOrder D}.
Variable fstdistfunc_ : point → point → D.
Implicit Types (s : hnsw) (i j : tableint) (l : Z).
#[local] Abbreviation dist := (dist_to fstdistfunc_).

(** ** Rewriting one element in place *)
Section put_element.
Context s i (e e' : element) (Hg : graph_ok s) (Hi : i < cur_element_count s) (He : level0 s !! i = Some e).
Context (Hsize : length (el_data e') = N.to_nat (data_size_ (cfg s))).
Context (Hslots : ll_slots (el_ll e') = ll_slots (el_ll e)).
Context (Hcount : getListCount (el_ll e') = getListCount (el_ll e)).

Lemma put_el_ids : ll_ids (el_ll e') = ll_ids (el_ll e).
Proof. unfold ll_ids. by rewrite Hslots, Hcount. Qed.
Lemma put_el_links_ne j l : (j ≠ i ∨ l ≠ 0%Z) →
  get_linklist_at_level (put_el i e' s) j l = get_linklist_at_level s j l.
Proof.
  intros Hne. unfold get_linklist_at_level. destruct (Z.eqb_spec l 0); [|done].
  unfold get_linklist0. rewrite put_el_get, decide_False; [done|]. destruct Hne; congruence.
Qed.
Lemma put_el_links_eq : get_linklist_at_level (put_el i e' s) i 0 = Ok (el_ll e').
Proof.
  unfold get_linklist_at_level, get_linklist0. simpl. rewrite put_el_get, decide_True by done.
  pose proof (go_count _ Hg). by decide_cmp.
Qed.
Lemma put_el_nbs j l : nbs_at (put_el i e' s) l j = nbs_at s l j.
Proof.
  unfold nbs_at. destruct (decide (j = i ∧ l = 0%Z)) as [[-> ->]|Hne].
  - rewrite put_el_links_eq, put_el_ids. unfold get_linklist_at_level, get_linklist0, get_el. simpl.
    pose proof (go_count _ Hg). by rewrite (proj2 (N.ltb_lt _ _)), He by lia.
  - rewrite put_el_links_ne; [done|]. destruct (decide (j = i)); [right; tauto|by left].
Qed.
Lemma put_el_graph : (ll_typed (el_ll e) → ll_typed (el_ll e')) → graph_ok (put_el i e' s).
Proof.
  intros Hty. destruct Hg as [H1 H2 H3 H4 H5 H6 H7]. split; try done. intros j Hj.
  destruct (H6 j Hj) as (ej & lv & [N1 N2 N3 N4 N5 N6]).
  exists (if decide (j = i) then e' else ej), lv. split; try done.
  - unfold put_el. simpl. destruct (decide (j = i)) as [->|]; [apply lookup_insert_eq|by rewrite lookup_insert_ne].
  - by destruct (decide (j = i)).
  - intros l Hl. destruct (N6 l Hl) as (ll & Hget & Hok).
    destruct (decide (j = i ∧ l = 0%Z)) as [[-> ->]|Hne].
    + exists (el_ll e'). split; [apply put_el_links_eq|].
      apply get_linklist0_el in Hget as (_ & e2 & He2 & <-). rewrite He in He2. injection He2 as <-.
      destruct Hok as (O1 & O2 & O3 & O4 & O5). unfold ll_ok. rewrite put_el_ids, Hslots, Hcount. split_and!; by auto.
    + exists ll. rewrite put_el_links_ne; [done|]. destruct (decide (j = i)); [right; tauto|by left].
Qed.
End put_element.

(** ** The candidates of one neighbour *)
Lemma nearest_for_ok s neigh keep cands (acc : list (D * tableint)) :
  graph_ok s → neigh < cur_element_count s → 1 ≤ keep →
  Forall (λ j, j < cur_element_count s) cands → NoDup cands → (∀ j, j ∈ cands → j ∉ acc.*2) →
  is_heap cmp acc → NoDup acc.*2 →
  ∃ r, nearest_for fstdistfunc_ s neigh keep cands acc = Ok r ∧ is_heap cmp r ∧ NoDup r.*2 ∧
    ∀ j, j ∈ r.*2 → j ∈ acc.*2 ∨ j ∈ cands ∧ j ≠ neigh.
Proof.
  intros Hg Hne Hk Hf Hnd. revert acc. induction Hnd as [|j cands Hj Hnd IH]; intros acc Hdis Hh Ha.
  { exists acc. split_and!; auto. }
  apply Forall_cons in Hf as [Hjc Hf]. specialize (IH Hf). cbn [nearest_for].
  assert (∀ acc', is_heap cmp acc' → NoDup acc'.*2 → (∀ x, x ∈ acc'.*2 → x ∈ acc.*2 ∨ x = j ∧ j ≠ neigh) →
    ∃ r, nearest_for fstdistfunc_ s neigh keep cands acc' = Ok r ∧ is_heap cmp r ∧ NoDup r.*2 ∧
      ∀ x, x ∈ r.*2 → x ∈ acc.*2 ∨ x ∈ j :: cands ∧ x ≠ neigh) as Hnext.
  { intros acc' Hh' Hnd' Hsub. destruct (IH acc') as (r & R1 & R2 & R3 & R4); [|done|done|].
    - intros x Hx Hin. destruct (Hsub x Hin) as [Hin'|[-> _]]; [|done]. apply (Hdis x); [by right|done].
    - exists r. split_and!; [done..|]. intros x Hx. rewrite elem_of_cons.
      destruct (R4 x Hx) as [[?|[-> ?]]%Hsub|[? ?]]; tauto. }
  destruct (N.eqb_spec j neigh) as [->|Hjn].
  { apply Hnext; auto. }
  destruct (ok_reads s neigh Hg Hne) as (-> & _ & _). destruct (ok_reads s j Hg Hjc) as (-> & _ & _).
  cbn [res_bind]. set (d := fstdistfunc_ _ _).
  assert (j ∉ acc.*2) as Hja by (apply Hdis; left).
  destruct (N.ltb_spec (pq_size acc) keep) as [Hlt|Hge].
  { apply Hnext.
    - apply pq_push_heap; [apply _|done].
    - rewrite pq_push_perm. simpl. by constructor.
    - intros x. rewrite pq_push_perm. simpl. rewrite elem_of_cons. tauto. }
  destruct (pq_top acc) as [t|] eqn:Ht.
  2:{ apply pq_top_None in Ht as ->. unfold pq_size in Hge. simpl in Hge. lia. }
  cbn [of_opt res_bind]. destruct (dlt d t.1); [|apply Hnext; auto].
  pose proof (pq_pop_perm cmp acc t Ht) as Hp.
  assert (∀ x, x ∈ (pq_pop cmp acc).*2 → x ∈ acc.*2) as Hpop.
  { intros x Hx. rewrite Hp. simpl. by right. }
  apply Hnext.
  - apply pq_push_heap; [apply _|]. apply pq_pop_heap; [apply _|done].
  - rewrite pq_push_perm. simpl. constructor; [by intros Hin%Hpop|].
    rewrite Hp in Ha. simpl in Ha. by apply NoDup_cons in Ha as [_ ?].
  - intros x. rewrite pq_push_perm. simpl. rewrite elem_of_cons. intros [->|?]; [tauto|]. left. auto.
Qed.

Lemma update_neigh_wp s l sCand neigh i0 :
  graph_ok s → (0 ≤ l)%Z → at_level s neigh l → NoDup sCand → Forall (λ j, at_level s j l) sCand →
  i0 ∈ sCand → i0 ≠ neigh →
  eff_wp (update_neigh fstdistfunc_ l sCand neigh) (λ s' _,
    graph_ok s' ∧ frame s s' ∧ links_frame s s' l (λ j, j = neigh)) s.
Proof.
  intros Hg Hl Hneigh Hnd Hf Hi0 Hne. unfold update_neigh. apply wp_bind, wp_get.
  set (size := if bool_decide (neigh ∈ sCand) then _ else _).
  assert (1 ≤ size) as Hsize.
  { unfold size. case_bool_decide as Hin.
    - assert (2 ≤ length sCand)%nat; [|lia]. apply list_elem_of_split in Hin as (a & b & ->).
      rewrite elem_of_app, elem_of_cons in Hi0. rewrite length_app. simpl.
      assert (length a ≠ 0 ∨ length b ≠ 0)%nat; [|lia].
      destruct Hi0 as [Ha|[?|Hb]]; [left|done|right]; intros Hz%length_zero_iff_nil; subst; by apply not_elem_of_nil in Ha || by apply not_elem_of_nil in Hb.
    - destruct sCand; [by apply not_elem_of_nil in Hi0|]. simpl. lia. }
  destruct (nearest_for_ok s neigh (N.min (ef_construction_ (cfg s)) size) sCand []) as (cs & Hcs & C1 & C2 & C3).
  { done. }
  { apply Hneigh. }
  { pose proof (efc_pos s Hg). lia. }
  { eapply Forall_impl; [exact Hf|]. by intros j [? _]. }
  { done. }
  { intros j _. apply not_elem_of_nil. }
  { apply is_heap_nil. }
  { constructor. }
  wp_read Hcs. assert (∀ j, j ∈ cs.*2 → j ≠ neigh ∧ at_level s j l) as Hcsl.
  { intros j [H%not_elem_of_nil|[Hj ?]]%C3; [done|]. rewrite Forall_forall in Hf. auto. }
  destruct (heuristic_ids fstdistfunc_ s (Mmax s l) cs) as (top & Hrun & S1 & S2 & S3 & _ & _).
  { done. }
  { apply Forall_forall. intros x Hx. destruct (Hcsl x.2) as [_ [? _]]; [|done]. apply list_elem_of_fmap. eauto. }
  { by apply cfg_Mmax. }
  { done. }
  { done. }
  wp_read Hrun. destruct (ok_links s neigh l Hg Hl Hneigh) as (ll & Hget & Hok & _). wp_read Hget.
  destruct (put_ids_wp s neigh l ll (map snd (pq_drain cmp top))) as (ll' & Hst & P1 & P2 & P3 & _); try done.
  { apply Forall_forall. intros j Hj. by apply Hcsl, S2. }
  wp_read Hst. apply wp_mod. done.
Qed.

Lemma update_neighs_wp s l sCand sNeigh i0 :
  graph_ok s → (0 ≤ l)%Z → NoDup sCand → Forall (λ j, at_level s j l) sCand → i0 ∈ sCand →
  Forall (λ j, j ≠ i0 ∧ at_level s j l) sNeigh →
  eff_wp (update_neighs fstdistfunc_ l sCand sNeigh) (λ s' _, graph_ok s' ∧ frame s s') s.
Proof.
  intros Hg Hl Hnd Hf Hi0 Hn. revert s Hg Hf Hn. induction sNeigh as [|j sNeigh IH]; intros s Hg Hf Hn.
  { apply wp_ret. done. }
  apply Forall_cons in Hn as [[Hne Hj] Hn]. cbn [update_neighs].
  eapply wp_seq; [by apply (update_neigh_wp s l sCand j i0)|]. intros s1 _u (H1 & H2 & _).
  eapply wp_mono; [apply IH|]; [done| | |].
  - eapply Forall_impl; [exact Hf|]. intros x. by apply (frame_at_level s).
  - eapply Forall_impl; [exact Hn|]. intros x [? ?]. split; [done|]. by apply (frame_at_level s).
  - intros s' u (H3 & H4). split; [done|by etrans].
Qed.

Lemma draw_uniform_wp s : graph_ok s → eff_wp draw_uniform (λ s' _, quiet s s') s.
Proof.
  intros Hg. unfold draw_uniform, eff_wp.
  destruct (uniform_float (update_probability_generator_ s)) as [u g]. eexists _, u. split; [done|].
  by apply quiet_gens.
Qed.

(** The two sets: elements of the level; neighbours differ from [i]. *)
Lemma one_hop_for_wp s l p hops sCand sNeigh i :
  graph_ok s → (0 ≤ l)%Z →
  Forall (λ j, j ≠ i ∧ at_level s j l) hops → Forall (λ j, at_level s j l) sCand →
  Forall (λ j, j ≠ i ∧ at_level s j l) sNeigh → i ∈ sCand →
  eff_wp (one_hop_for l p hops sCand sNeigh) (λ s' r, quiet s s' ∧
    Forall (λ j, at_level s j l) r.1 ∧ Forall (λ j, j ≠ i ∧ at_level s j l) r.2 ∧ i ∈ r.1) s.
Proof.
  intros Hg Hl Hh. revert s sCand sNeigh Hg Hh.
  induction hops as [|j hops IH]; intros s sCand sNeigh Hg Hh Hc Hn Hi.
  { apply wp_ret. split_and!; [by apply quiet_refl|done|done|done]. }
  apply Forall_cons in Hh as [Hj Hh]. cbn [one_hop_for].
  eapply wp_seq; [by apply draw_uniform_wp|]. intros s1 u Hq. cbv beta in Hq. pose proof (qu_frame _ _ Hq) as Hf.
  assert (∀ x, at_level s1 x l ↔ at_level s x l) as Hat by (intros; by apply frame_at_level).
  assert (∀ sC sN, Forall (λ j, at_level s j l) sC → Forall (λ j, j ≠ i ∧ at_level s j l) sN → i ∈ sC →
    eff_wp (one_hop_for l p hops sC sN) (λ s' r, quiet s s' ∧
      Forall (λ j, at_level s j l) r.1 ∧ Forall (λ j, j ≠ i ∧ at_level s j l) r.2 ∧ i ∈ r.1) s1) as Hnext.
  { intros sC sN HC HN HiC. eapply wp_mono; [apply IH; [apply Hq|..|done]|].
    1-3: setoid_rewrite Hat; done.
    intros s' r (R1 & R2 & R3 & R4). setoid_rewrite Hat in R2. setoid_rewrite Hat in R3.
    split_and!; [by eapply quiet_trans|done|done|done]. }
  assert (Forall (λ x, at_level s x l) (sCand ++ [j])) as Hc'.
  { apply Forall_app. split; [done|]. apply Forall_singleton. apply Hj. }
  destruct (SpecFloat.SFltb p u).
  { apply Hnext; [done|done|]. apply elem_of_app. by left. }
  destruct (ok_links s j l Hg Hl) as (ll & Hget & _ & Hids); [apply Hj|].
  eapply wp_bind_lift.
  { unfold getConnectionsWithLock. rewrite (qu_links _ _ Hq j l), Hget. exact Hids. }
  apply Hnext.
  - apply Forall_app. split; [done|]. apply Forall_forall. intros x Hx.
    destruct Hj as [_ Hj]. by destruct (nbs_at_level s j x l Hg Hl Hj Hx).
  - apply Forall_app. split; [done|]. by apply Forall_singleton.
  - rewrite !elem_of_app. tauto.
Qed.

Lemma set_iter_elem (l : list tableint) x : x ∈ set_iter l ↔ x ∈ l.
Proof. rewrite set_iter_perm, elem_of_elements. apply elem_of_list_to_set. Qed.
Lemma set_iter_nodup (l : list tableint) : NoDup (set_iter l).
Proof. rewrite set_iter_perm. apply NoDup_elements. Qed.

Lemma update_layer_wp s i p l :
  graph_ok s → (0 ≤ l)%Z → at_level s i l →
  eff_wp (update_layer fstdistfunc_ i p l) (λ s' _, graph_ok s' ∧ frame s s') s.
Proof.
  intros Hg Hl Hi. unfold update_layer.
  destruct (ok_links s i l Hg Hl Hi) as (ll & Hget & _ & Hids).
  eapply wp_bind_lift; [unfold getConnectionsWithLock; rewrite Hget; exact Hids|].
  assert (Forall (λ j, j ≠ i ∧ at_level s j l) (nbs_at s l i)) as Hh.
  { apply Forall_forall. intros j Hj. by destruct (nbs_at_level s i j l Hg Hl Hi Hj). }
  destruct (nbs_at s l i) as [|h hs] eqn:Hn; [by apply wp_ret|]. rewrite <- Hn in *.
  eapply wp_seq; [apply (one_hop_for_wp s l p (nbs_at s l i) [i] [] i); try done|].
  { by apply Forall_singleton. }
  { left. }
  intros s1 [sCand sNeigh] (Hq & H1 & H2 & H3). simpl in *. pose proof (qu_frame _ _ Hq) as Hf.
  rewrite Forall_forall in H1. rewrite Forall_forall in H2.
  eapply wp_mono; [apply (update_neighs_wp s1 l _ _ i)|].
  - apply Hq.
  - done.
  - apply set_iter_nodup.
  - apply Forall_forall. intros j. rewrite set_iter_elem. intros Hj. apply (frame_at_level s); [done|]. by apply H1.
  - by apply set_iter_elem.
  - apply Forall_forall. intros j. rewrite set_iter_elem. intros Hj. destruct (H2 j Hj). split; [done|]. by apply (frame_at_level s).
  - intros s' u (G1 & G2). split; [done|by etrans].
Qed.

Lemma update_layers_wp n s i p l :
  graph_ok s → (0 ≤ l)%Z → at_level s i (l + Z.of_nat n - 1) →
  eff_wp (update_layers fstdistfunc_ n i p l) (λ s' _, graph_ok s' ∧ frame s s') s.
Proof.
  revert s l. induction n as [|n IH]; intros s l Hg Hl Hi.
  { by apply wp_ret. }
  cbn [update_layers]. eapply wp_seq; [apply update_layer_wp; [done|done|]|].
  { eapply at_level_le; [exact Hi|lia]. }
  intros s1 _u (H1 & H2). eapply wp_mono; [apply IH; [done|lia|]|].
  - apply (frame_at_level s); [done|]. eapply at_level_le; [exact Hi|lia].
  - intros s' u (G1 & G2). split; [done|by etrans].
Qed.

(** ** repairConnectionsForUpdate *)
Lemma repair_level_wp s q ep i o l :
  graph_ok s → (0 ≤ l)%Z → at_level s i l → at_level s o l → at_level s ep l → live s i = true →
  eff_wp (repair_level fstdistfunc_ q ep i o l) (λ s' next,
    graph_ok s' ∧ frame s s' ∧ at_level s next l) s.
Proof.
  intros Hg Hl Hi Ho Hep Hlive. unfold repair_level.
  eapply wp_seq; [by apply searchBaseLayer_wp|]. intros s1 top (Hq & V & Hr).
  pose proof (qu_frame _ _ Hq) as Hf. cbv zeta.
  assert (∀ j, j ∈ top.*2 → at_level s j l ∧ live s j = true) as Htop.
  { intros j ([d j'] & -> & Hin)%list_elem_of_fmap. apply (br_top _ _ _ _ _ _ _ _ Hr) in Hin as (_ & ? & HV).
    split; [|done]. apply (reach_at_level s l o j' Hg Hl Ho). by apply (br_valid _ _ _ _ _ _ _ _ Hr). }
  set (keep := filter (λ x : D * tableint, x.2 ≠ i) (pq_drain cmp top)).
  assert (pq_push_all cmp [] keep ≡ₚ keep) as Hp by by rewrite pq_push_all_perm, (right_id_L [] (++)).
  assert (NoDup (pq_push_all cmp [] keep).*2) as Hnd.
  { rewrite Hp. apply nodup_fmap_filter. rewrite pq_drain_perm. apply Hr. }
  assert (∀ j, j ∈ (pq_push_all cmp [] keep).*2 → j ≠ i ∧ j ∈ top.*2) as Hin.
  { intros j. rewrite Hp. intros ([d j'] & -> & [Hne Hx]%list_elem_of_filter)%list_elem_of_fmap.
    rewrite pq_drain_perm in Hx. split; [done|]. apply list_elem_of_fmap. by exists (d, j'). }
  destruct (pq_push_all cmp [] keep) as [|x xs] eqn:Hk; [apply wp_ret; split_and!; [apply Hq|done|done]|]. rewrite <- Hk in *.
  destruct (ok_reads s1 ep (qu_graph _ _ Hq)) as (Hpt & _ & Hdel).
  { rewrite (fr_count _ _ Hf). apply Hep. }
  wp_read Hdel. wp_read Hpt. apply wp_bind, wp_get. rewrite (fr_cfg _ _ Hf), (frame_live s s1) by done.
  destruct (push_entry_ok (negb (live s ep)) (ef_construction_ (cfg s)) (pq_push_all cmp [] keep)
    (fstdistfunc_ q (data_of s1 ep)) ep) as (Q1 & Q2 & Q3 & Q4).
  { by apply efc_pos. }
  { apply pq_push_all_heap; [apply _|apply is_heap_nil]. }
  { done. }
  { intros Hd [_ [_ Hlv]%Htop]%Hin. by rewrite Hlv in Hd. }
  { right. by rewrite Hk. }
  assert (∀ j, j ∈ (push_entry (negb (live s ep)) (ef_construction_ (cfg s)) (pq_push_all cmp [] keep)
    (fstdistfunc_ q (data_of s1 ep)) ep).*2 → j ≠ i ∧ at_level s j l) as Hc.
  { intros j [[? [? _]%Htop]%Hin|[Hd ->]]%Q4; [done|]. split; [|done]. intros ->. by rewrite Hlive in Hd. }
  eapply wp_mono; [apply mutuallyConnect_wp; try done|].
  - apply Hq.
  - by apply (frame_at_level s).
  - intros j [? ?]%Hc. split; [done|]. by apply (frame_at_level s).
  - by left.
  - intros s' next (G1 & G2 & _ & G4 & _). split_and!; [done|by etrans|]. by apply Hc.
Qed.

Lemma repair_levels_wp n s q ep i o :
  graph_ok s → at_level s i (Z.of_nat n - 1) → at_level s o (Z.of_nat n - 1) → at_level s ep (Z.of_nat n - 1) →
  live s i = true →
  eff_wp (repair_levels fstdistfunc_ n q ep i o) (λ s' _, graph_ok s' ∧ frame s s') s.
Proof.
  revert s o. induction n as [|n IH]; intros s o Hg Hi Ho Hep Hlive; [by apply wp_ret|].
  cbn [repair_levels]. replace (Z.of_nat (S n) - 1)%Z with (Z.of_nat n) in * by lia.
  eapply wp_seq; [apply repair_level_wp; try done; lia|]. intros s1 next (H1 & H2 & H3).
  eapply wp_mono; [apply IH; [done|..]|].
  1-3: apply (frame_at_level s); [done|]; eapply at_level_le; [eassumption|lia].
  - by rewrite (frame_live s s1).
  - intros s' u (G1 & G2). split; [done|by etrans].
Qed.

Lemma repair_wp s q ep i lv maxl :
  graph_ok s → (0 ≤ lv ≤ maxl)%Z → at_level s i lv → at_level s ep maxl → live s i = true →
  eff_wp (repairConnectionsForUpdate fstdistfunc_ q ep i lv maxl) (λ s' _, graph_ok s' ∧ frame s s') s.
Proof.
  intros Hg Hlv Hi Hep Hlive. unfold repairConnectionsForUpdate.
  eapply (wp_seq _ _ (λ s1 o, quiet s s1 ∧ at_level s o lv)).
  - destruct (Z.ltb_spec lv maxl) as [Hlt|Hge].
    + destruct (ok_reads s ep Hg) as (Hp & _); [apply Hep|]. wp_read Hp. fold (dist s q ep).
      eapply wp_seq; [apply greedy_levels_wp; [done|lia|]|].
      { replace (lv + Z.of_nat (Z.to_nat (maxl - lv)))%Z with maxl by lia. done. }
      intros s1 [o d] (H1 & H2 & _). by apply wp_ret.
    + apply wp_ret. split; [by apply quiet_refl|eapply at_level_le; [exact Hep|lia]].
  - intros s1 o (Hq & Ho). pose proof (qu_frame _ _ Hq) as Hf. decide_cmp.
    eapply wp_mono; [apply repair_levels_wp; [apply Hq|..]|].
    1-3: apply (frame_at_level s); [done|]; eapply at_level_le; [eassumption|lia].
    + by rewrite (frame_live s s1).
    + intros s' u (G1 & G2). split; [done|by etrans].
Qed.

(** ** updatePoint *)
Lemma put_data_index s i e p :
  index_ok s → i < cur_element_count s → level0 s !! i = Some e → length p = N.to_nat (data_size_ (cfg s)) →
  let s1 := put_el i {| el_ll := el_ll e; el_data := p; el_label := el_label e |} s in
  index_ok s1 ∧ (∀ j, live s1 j = live s j) ∧ (∀ j, label_of s1 j = label_of s j) ∧
  (∀ j, data_of s1 j = if decide (j = i) then p else data_of s j).
Proof.
  intros [Hg He [L1 L2] Hm] Hi Hel Hp s1.
  assert (∀ j, level0 s1 !! j = if decide (j = i) then Some {| el_ll := el_ll e; el_data := p; el_label := el_label e |}
    else level0 s !! j) as Hlk.
  { intros j. unfold s1, put_el. simpl. destruct (decide (j = i)) as [->|]; [apply lookup_insert_eq|by rewrite lookup_insert_ne]. }
  assert (∀ j, live s1 j = live s j) as Hlive.
  { intros j. unfold live. rewrite Hlk. destruct (decide (j = i)) as [->|]; [by rewrite Hel|done]. }
  assert (∀ j, label_of s1 j = label_of s j) as Hlab.
  { intros j. unfold label_of. rewrite Hlk. destruct (decide (j = i)) as [->|]; [by rewrite Hel|done]. }
  split_and!; [|done|done|].
  - split.
    + by eapply put_el_graph.
    + exact He.
    + split; intros; rewrite Hlab; auto.
    + destruct Hm as [M1 M2]. unfold marks_ok. rewrite (deleted_ids_same s s1); [done|done|by intros].
  - intros j. unfold data_of. rewrite Hlk. by destruct (decide (j = i)).
Qed.

(** The outcome of an update. *)
Record updated s s' (i : tableint) (p : point) : Prop := {
  up_index : index_ok s';
  up_cfg : cfg s' = cfg s;
  up_count : cur_element_count s' = cur_element_count s;
  up_lookup : label_lookup_ s' = label_lookup_ s;
  up_label j : label_of s' j = label_of s j;
  up_live j : live s' j = live s j;
  up_data j : data_of s' j = if decide (j = i) then p else data_of s j
}.

Lemma updatePoint_wp s q i prob :
  index_ok s → i < cur_element_count s → live s i = true → (N.to_nat (data_size_ (cfg s)) ≤ length q)%nat →
  eff_wp (updatePoint fstdistfunc_ q i prob) (λ s' _, updated s s' i (take (N.to_nat (data_size_ (cfg s))) q)) s.
Proof.
  intros Hix Hi Hlive Hq. pose proof (ix_graph _ Hix) as Hg. unfold updatePoint. apply wp_bind, wp_get.
  destruct (go_node _ Hg i Hi) as (e & lv & Hn).
  pose proof (ok_get_el _ _ _ _ Hg Hi Hn) as He. wp_read He.
  eapply wp_bind_lift; [by apply copy_point_ok|]. apply wp_bind, wp_mod.
  set (p := take _ q). set (s1 := put_el i _ s).
  destruct (put_data_index s i e p Hix Hi (no_el _ _ _ _ Hn)) as (Hix1 & H1 & H2 & H3).
  { unfold p. rewrite length_take. lia. }
  fold s1 in Hix1, H1, H2, H3. do 3 apply wp_bind, wp_get.
  assert (∀ s', graph_ok s' → frame s1 s' → updated s s' i p) as Hdone.
  { intros s' Hg' Hf. split; try (rewrite ?(fr_cfg _ _ Hf), ?(fr_count _ _ Hf), ?(fr_lookup _ _ Hf); done).
    - by eapply frame_index.
    - intros j. by rewrite (frame_label s1 s').
    - intros j. by rewrite (frame_live s1 s').
    - intros j. by rewrite (frame_data s1 s'). }
  case_match; [apply wp_ret, Hdone; [apply Hix1|done]|].
  pose proof (no_level _ _ _ _ Hn) as Hlv. unfold level_of in Hlv.
  eapply wp_bind_lift; [unfold get_level; simpl; by rewrite Hlv|].
  assert (at_level s1 i lv) as Hat by (split; [done|]; exists lv; split; [apply Hn|done]).
  pose proof (no_pos _ _ _ _ Hn) as Hpos.
  destruct (ix_entry _ Hix) as [(E1 & _)|(E1 & E2 & E3)]; [lia|].
  eapply wp_seq; [apply update_layers_wp; [apply Hix1|done|]|].
  { eapply at_level_le; [exact Hat|lia]. }
  intros s2 _u (G1 & G2). eapply wp_mono; [apply repair_wp|].
  - done.
  - split; [done|]. apply (E3 i lv Hi). apply Hn.
  - by apply (frame_at_level s1).
  - apply (frame_at_level s1); [done|]. split; [done|]. exists (maxlevel_ s). done.
  - rewrite (frame_live s1 s2), H1 by done. done.
  - intros s' u (G3 & G4). apply Hdone; [done|by etrans].
Qed.

(** The update, seen through the labels. *)
Lemma updated_view s s' i p lab :
  index_ok s → updated s s' i p → label_lookup_ s !! lab = Some i → live s i = true →
  ∀ lab', view s' lab' = if decide (lab' = lab) then Some (p, true) else view s lab'.
Proof.
  intros Hix Hu Hlab Hlive lab'. unfold view. rewrite (up_lookup _ _ _ _ Hu).
  destruct (decide (lab' = lab)) as [->|Hne].
  - rewrite Hlab. simpl. by rewrite (up_data _ _ _ _ Hu), (up_live _ _ _ _ Hu), decide_True, Hlive.
  - destruct (label_lookup_ s !! lab') as [j|] eqn:Hj; simpl; [|done].
    rewrite (up_data _ _ _ _ Hu), (up_live _ _ _ _ Hu), decide_False; [done|]. intros ->.
    destruct (ix_labels _ Hix) as [L1 _]. destruct (L1 _ _ Hj), (L1 _ _ Hlab). congruence.
Qed.
End update.
