(* ===== verification/HnswIndexLaws.v ===== *)
(** * The operations of the index, together

    [index_ok] is established by the constructor and kept by every operation
    that changes the index; [view], the map from labels to vectors and
    deletion flags, says what each of them does to the contents. *)

From Stdlib Require Import ZArith Lia.
From stdpp Require Import base numbers list gmap strings sorting relations.
From S2P Require Import Prelude Heap VisitedList Arith BeamSearch Hnsw HnswSearch HnswInsert HnswWf.
From S2P Require Import HnswSearchLaws HnswKnn HeuristicLaws HnswConnectLaws HnswAddLaws HnswUpdateLaws.
#[local] Open Scope N_scope.

Section index.
Context `{RE : RandomEngine} `{AL : Alloc}.
Implicit Types (s : hnsw) (i j : tableint) (l : Z).

(** [graph_ok] reads the elements, the links, the levels, the configuration
    and the pool. *)
Lemma graph_ok_same s s' :
  cfg s' = cfg s → cur_element_count s' = cur_element_count s → element_levels_ s' = element_levels_ s →
  level0 s' = level0 s → upper s' = upper s → visited_list_pool_ s' = visited_list_pool_ s →
  graph_ok s → graph_ok s'.
Proof.
  destruct s, s'; simpl; intros -> -> -> -> -> -> [H1 H2 H3 H4 H5 H6 H7]. split; try done.
  intros i Hi. destruct (H6 i Hi) as (e & lv & [N1 N2 N3 N4 N5 N6]). exists e, lv. by split.
Qed.

(** ** Construction *)
Lemma new_index_ok size n M efc seed allow :
  1 ≤ M → n ≤ 2147483648 → index_ok (HierarchicalNSW_new size n M efc seed allow).
Proof.
  intros HM Hn. split.
  - split; simpl.
    + unfold cfg_ok. simpl. destruct (N.leb_spec M 10000); split_and!; try lia; done.
    + lia.
    + apply length_replicate.
    + apply pool_new_ok.
    + done.
    + intros i Hi. lia.
    + unfold cfg_layout. simpl. split_and!; lia.
  - by left.
  - split; simpl; [intros lab i H; by rewrite lookup_empty in H|intros i Hi; lia].
  - split; simpl; [done|]. by destruct allow.
Qed.

(** ** Marks *)
Lemma deleted_ids_nodup s : NoDup (deleted_ids s).
Proof. apply NoDup_filter, NoDup_fmap; [apply _|apply NoDup_seq]. Qed.

Section mark.
Context s i (e e' : element) (num : N) (del : gset tableint).
Context (Hix : index_ok s) (Hi : i < cur_element_count s) (He : level0 s !! i = Some e).
Context (Hdata : el_data e' = el_data e) (Hlabel : el_label e' = el_label e).
Context (Hslots : ll_slots (el_ll e') = ll_slots (el_ll e)).
Context (Hcount : getListCount (el_ll e') = getListCount (el_ll e)).
Context (Htyped : ll_typed (el_ll e) → ll_typed (el_ll e')).
Let s1 := set_deleted num del (put_el i e' s).

Lemma mark_lookup j : level0 s1 !! j = if decide (j = i) then Some e' else level0 s !! j.
Proof. unfold s1, put_el. simpl. destruct (decide (j = i)) as [->|]; [apply lookup_insert_eq|by rewrite lookup_insert_ne]. Qed.
Lemma mark_label j : label_of s1 j = label_of s j.
Proof. unfold label_of. rewrite mark_lookup. destruct (decide (j = i)) as [->|]; [|done]. rewrite He. simpl. done. Qed.
Lemma mark_data j : data_of s1 j = data_of s j.
Proof. unfold data_of. rewrite mark_lookup. destruct (decide (j = i)) as [->|]; [|done]. rewrite He. simpl. done. Qed.
Lemma mark_live j : live s1 j = if decide (j = i) then negb (ll_deleted (el_ll e')) else live s j.
Proof. unfold live. rewrite mark_lookup. by destruct (decide (j = i)). Qed.

Lemma mark_index : marks_ok s1 → index_ok s1.
Proof.
  intros Hm. destruct Hix as [Hg Hen [L1 L2] _]. split; [| |split|done].
  - apply (graph_ok_same (put_el i e' s)); try done. eapply put_el_graph; try done.
    rewrite Hdata. destruct (go_node _ Hg i Hi) as (e2 & lv & Hn).
    assert (e2 = e) as -> by (pose proof (no_el _ _ _ _ Hn); congruence). apply Hn.
  - exact Hen.
  - intros lab j Hj. rewrite mark_label. by apply L1.
  - intros j Hj. rewrite mark_label. by apply L2.
Qed.
Lemma mark_view lab : view s1 lab =
  (j ← label_lookup_ s !! lab; Some (data_of s j, if decide (j = i) then negb (ll_deleted (el_ll e')) else live s j)).
Proof.
  unfold view. simpl. destruct (label_lookup_ s !! lab) as [j|]; [|done]. simpl.
  by rewrite mark_data, mark_live.
Qed.
End mark.

(** A label's flag, others unchanged. *)
Definition set_flag (f : bool) (o : option (point * bool)) : option (point * bool) :=
  (λ x, (x.1, f)) <$> o.

Lemma view_flag s s' lab i b :
  index_ok s → label_lookup_ s !! lab = Some i →
  (∀ lab', view s' lab' = (j ← label_lookup_ s !! lab'; Some (data_of s j, if decide (j = i) then b else live s j))) →
  ∀ lab', view s' lab' = if decide (lab' = lab) then set_flag b (view s lab') else view s lab'.
Proof.
  intros Hix Hl Hv lab'. rewrite Hv. unfold view. destruct (decide (lab' = lab)) as [->|Hne].
  - rewrite Hl. simpl. by rewrite decide_True.
  - destruct (label_lookup_ s !! lab') as [j|] eqn:Hj; simpl; [|done]. rewrite decide_False; [done|].
    intros ->. destruct (ix_labels _ Hix) as [L1 _].
    destruct (L1 _ _ Hl) as [_ H1]. destruct (L1 _ _ Hj) as [_ H2]. congruence.
Qed.

Lemma live_el s i : graph_ok s → i < cur_element_count s →
  ∃ e, level0 s !! i = Some e ∧ live s i = negb (ll_deleted (el_ll e)).
Proof.
  intros Hg Hi. destruct (go_node _ Hg i Hi) as (e & lv & Hn). exists e.
  unfold live. by rewrite (no_el _ _ _ _ Hn).
Qed.

Lemma markDeletedInternal_ok s i :
  index_ok s → i < cur_element_count s → live s i = true →
  ∃ s', markDeletedInternal i s = (s', Ok tt) ∧ index_ok s' ∧ cfg s' = cfg s ∧
    cur_element_count s' = cur_element_count s ∧ label_lookup_ s' = label_lookup_ s ∧
    num_deleted_ s' = num_deleted_ s + 1 ∧
    (∀ lab, view s' lab = (j ← label_lookup_ s !! lab; Some (data_of s j, if decide (j = i) then false else live s j))).
Proof.
  intros Hix Hi Hlive. pose proof (ix_graph _ Hix) as Hg.
  destruct (live_el s i Hg Hi) as (e & He & Hle).
  destruct (ok_reads s i Hg Hi) as (_ & _ & Hdel). unfold markDeletedInternal.
  rewrite (proj2 (N.leb_gt _ _)), Hdel, Hlive by done. simpl. eexists. split; [done|].
  unfold put_mark. rewrite He.
  set (e' := {| el_ll := ll_mark (el_ll e); el_data := el_data e; el_label := el_label e |}).
  set (del := if allow_replace_deleted_ (cfg s) then _ else _).
  assert (ll_deleted (el_ll e') = true) as Hd' by apply deleted_mark.
  pose proof (mark_live s i e' (num_deleted_ s + 1) del) as Hml. rewrite Hd' in Hml. simpl in Hml.
  assert (deleted_ids (set_deleted (num_deleted_ s + 1) del (put_el i e' s)) ≡ₚ i :: deleted_ids s) as Hids.
  { apply NoDup_Permutation; [apply deleted_ids_nodup| |].
    - constructor; [|apply deleted_ids_nodup]. rewrite elem_deleted_ids, Hlive. by intros [_ ?].
    - intros j. rewrite elem_of_cons, !elem_deleted_ids, Hml. simpl.
      destruct (decide (j = i)) as [->|]; [|tauto]. by split; auto. }
  split_and!; try done.
  - apply mark_index with e; try done; [apply count_mark|apply typed_mark|].
    destruct (ix_marks _ Hix) as [M1 M2]. split.
    + rewrite Hids. simpl. lia.
    + simpl. unfold del. rewrite M2. destruct (allow_replace_deleted_ (cfg s)); [|done].
      apply leibniz_equiv. rewrite Hids. simpl. done.
  - intros lab. rewrite (mark_view s i e e') by done. by rewrite Hd'.
Qed.

Lemma num_deleted_pos s i : index_ok s → i < cur_element_count s → live s i = false →
  (num_deleted_ s + 18446744073709551615) mod 18446744073709551616 + 1 = num_deleted_ s.
Proof.
  intros Hix Hi Hlive. pose proof (ix_graph _ Hix) as Hg. destruct (ix_marks _ Hix) as [M1 _].
  assert (i ∈ deleted_ids s) as Hin by by apply elem_deleted_ids.
  assert (length (deleted_ids s) ≤ N.to_nat (cur_element_count s))%nat as Hle.
  { unfold deleted_ids. etrans; [apply length_filter|]. by rewrite length_fmap, length_seq. }
  assert (1 ≤ num_deleted_ s).
  { rewrite M1. destruct (deleted_ids s); [by apply not_elem_of_nil in Hin|]. simpl. lia. }
  pose proof (go_count _ Hg). destruct (go_cfg _ Hg) as (_ & _ & _ & _ & _ & _ & ? & _).
  replace (num_deleted_ s + 18446744073709551615) with ((num_deleted_ s - 1) + 1 * 18446744073709551616) by lia.
  rewrite N.Div0.mod_add, N.mod_small by lia. lia.
Qed.

Lemma unmarkDeletedInternal_ok s i :
  index_ok s → i < cur_element_count s → live s i = false →
  ∃ s', unmarkDeletedInternal i s = (s', Ok tt) ∧ index_ok s' ∧ cfg s' = cfg s ∧
    cur_element_count s' = cur_element_count s ∧ label_lookup_ s' = label_lookup_ s ∧
    num_deleted_ s' + 1 = num_deleted_ s ∧ live s' i = true ∧ (∀ j, data_of s' j = data_of s j) ∧
    (∀ lab, view s' lab = (j ← label_lookup_ s !! lab; Some (data_of s j, if decide (j = i) then true else live s j))).
Proof.
  intros Hix Hi Hlive. pose proof (ix_graph _ Hix) as Hg.
  destruct (live_el s i Hg Hi) as (e & He & Hle).
  destruct (ok_reads s i Hg Hi) as (_ & _ & Hdel). unfold unmarkDeletedInternal.
  rewrite (proj2 (N.leb_gt _ _)), Hdel, Hlive by done. cbn [negb]. eexists. split; [done|].
  unfold put_mark. rewrite He.
  set (e' := {| el_ll := ll_unmark (el_ll e); el_data := el_data e; el_label := el_label e |}).
  set (num := _ mod _). set (del := if allow_replace_deleted_ (cfg s) then _ else _).
  assert (ll_deleted (el_ll e') = false) as Hd' by apply deleted_unmark.
  pose proof (mark_live s i e' num del) as Hml. rewrite Hd' in Hml. simpl in Hml.
  set (s1 := set_deleted num del (put_el i e' s)) in *.
  assert (deleted_ids s ≡ₚ i :: deleted_ids s1) as Hids.
  { apply NoDup_Permutation; [apply deleted_ids_nodup| |].
    - constructor; [|apply deleted_ids_nodup]. rewrite elem_deleted_ids, Hml, decide_True by done. by intros [_ ?].
    - intros j. rewrite elem_of_cons, !elem_deleted_ids, Hml. simpl.
      destruct (decide (j = i)) as [->|]; [|tauto]. by split; auto. }
  destruct (ix_marks _ Hix) as [M1 M2].
  assert (num + 1 = num_deleted_ s) as Hnum by by eapply num_deleted_pos.
  split_and!; try done.
  - apply mark_index with e; try done; [apply count_unmark|apply typed_unmark|]. fold s1. split.
    + simpl. rewrite Hids in M1. simpl in M1. lia.
    + simpl. unfold del. rewrite M2. destruct (allow_replace_deleted_ (cfg s)); [|done].
      apply leibniz_equiv. rewrite Hids. simpl.
      assert (i ∉ deleted_ids s1) as Hn.
      { rewrite elem_deleted_ids, Hml, decide_True by done. by intros [_ ?]. }
      intros x. rewrite elem_of_difference, elem_of_union, elem_of_singleton, elem_of_list_to_set.
      split; [tauto|]. intros Hx. split; [by right|]. by intros ->.
  - rewrite Hml. by rewrite decide_True.
  - intros j. by eapply mark_data.
  - intros lab. unfold s1. rewrite (mark_view s i e e') by done. by rewrite Hd'.
Qed.

(** ** Resizing *)
Lemma lookup_keep {A} (m : gmap tableint A) n i :
  i < n → filter (λ kv : tableint * A, kv.1 < n) m !! i = m !! i.
Proof.
  intros Hi. destruct (m !! i) as [x|] eqn:E.
  - by apply map_lookup_filter_Some.
  - apply map_lookup_filter_None. by left.
Qed.

Lemma vector_resize_length (l : list Z) n : length (vector_resize l n) = N.to_nat n.
Proof. unfold vector_resize. rewrite length_app, length_take, length_replicate. lia. Qed.
Lemma vector_resize_lookup (l : list Z) n (i : nat) x :
  l !! i = Some x → (i < N.to_nat n)%nat → vector_resize l n !! i = Some x.
Proof.
  intros Hx Hi. unfold vector_resize. pose proof (lookup_lt_Some _ _ _ Hx).
  rewrite lookup_app_l by (rewrite length_take; lia). by rewrite lookup_take_lt.
Qed.

Lemma resize_same s n i :
  let s' := (resizeIndex n s).1 in
  graph_ok s → cur_element_count s ≤ n → i < cur_element_count s →
  level0 s' !! i = level0 s !! i ∧ upper s' !! i = upper s !! i ∧ level_of s' i = level_of s i ∧
  ∀ l, get_linklist_at_level s' i l = get_linklist_at_level s i l.
Proof.
  intros s' Hg Hn Hi. unfold s', resizeIndex. rewrite (proj2 (N.ltb_ge _ _)) by done. simpl.
  destruct (go_node _ Hg i Hi) as (e & lv & Hnode). pose proof (go_count _ Hg).
  assert (level_of s i = Some lv) as Hlv by apply Hnode.
  split_and!.
  - apply lookup_keep. lia.
  - apply lookup_keep. lia.
  - rewrite Hlv. apply vector_resize_lookup; [exact Hlv|lia].
  - intros l. unfold get_linklist_at_level, get_linklist0, get_el, get_linklist. simpl.
    rewrite !lookup_keep by lia. by rewrite !(proj2 (N.ltb_lt _ _)) by lia.
Qed.

Lemma resize_graph s n :
  graph_ok s → cur_element_count s ≤ n → n ≤ 2147483648 → graph_ok (resizeIndex n s).1.
Proof.
  intros Hg Hn Hmax. pose proof (resize_same s n) as Hsame. cbv zeta in Hsame.
  assert (cur_element_count (resizeIndex n s).1 = cur_element_count s) as Hc.
  { unfold resizeIndex. by destruct (n <? cur_element_count s). }
  assert (cfg (resizeIndex n s).1 = set_max_elements n (cfg s)) as Hcfg.
  { unfold resizeIndex. by rewrite (proj2 (N.ltb_ge _ _)). }
  assert (∀ j l, at_level s j l → at_level (resizeIndex n s).1 j l) as Hat.
  { intros j l (Hj & lv & H1 & H2). split; [by rewrite Hc|]. exists lv.
    destruct (Hsame j Hg Hn Hj) as (_ & _ & -> & _). done. }
  split; rewrite ?Hc, ?Hcfg; simpl.
  - destruct (go_cfg _ Hg) as (? & ? & ? & ? & ? & ? & ? & ?). unfold cfg_ok. simpl. by split_and!.
  - done.
  - unfold resizeIndex. rewrite (proj2 (N.ltb_ge _ _)) by done. simpl. apply vector_resize_length.
  - unfold resizeIndex. rewrite (proj2 (N.ltb_ge _ _)) by done. simpl. apply pool_new_ok.
  - unfold resizeIndex. by rewrite (proj2 (N.ltb_ge _ _)).
  - intros i Hi. destruct (Hsame i Hg Hn Hi) as (S1 & S2 & S3 & S4).
    destruct (go_node _ Hg i Hi) as (e & lv & [N1 N2 N3 N4 N5 N6]). exists e, lv.
    split; rewrite ?S1, ?S2, ?S3, ?Hcfg; try done.
    intros l Hl. rewrite S4. destruct (N6 l Hl) as (ll & Hget & O1 & O2 & O3 & O4 & O5).
    exists ll. split; [done|].
    assert (Mmax (resizeIndex n s).1 l = Mmax s l) as HM by (unfold Mmax; by rewrite Hcfg).
    unfold ll_ok. rewrite HM. split_and!; [done|done|done| |done].
    eapply Forall_impl; [exact O4|]. intros j [? ?]. auto.
  - exact (go_layout _ Hg).
Qed.

Lemma resize_contents s n i :
  graph_ok s → cur_element_count s ≤ n → i < cur_element_count s →
  data_of (resizeIndex n s).1 i = data_of s i ∧ label_of (resizeIndex n s).1 i = label_of s i ∧
  live (resizeIndex n s).1 i = live s i.
Proof.
  intros Hg Hn Hi. destruct (resize_same s n i Hg Hn Hi) as (S1 & _).
  unfold data_of, label_of, live. by rewrite S1.
Qed.

Lemma resize_index s n :
  index_ok s → cur_element_count s ≤ n → n ≤ 2147483648 →
  index_ok (resizeIndex n s).1 ∧ ∀ lab, view (resizeIndex n s).1 lab = view s lab.
Proof.
  intros [Hg He [L1 L2] [M1 M2]] Hn Hmax.
  pose proof (λ i, resize_contents s n i Hg Hn) as Hcont.
  pose proof (λ i, resize_same s n i Hg Hn) as Hsame.
  assert (resizeIndex n s = ((resizeIndex n s).1, Ok tt)) as Hrun.
  { unfold resizeIndex. by rewrite (proj2 (N.ltb_ge _ _)). }
  assert (cur_element_count (resizeIndex n s).1 = cur_element_count s ∧
    label_lookup_ (resizeIndex n s).1 = label_lookup_ s ∧ num_deleted_ (resizeIndex n s).1 = num_deleted_ s ∧
    deleted_elements (resizeIndex n s).1 = deleted_elements s ∧
    maxlevel_ (resizeIndex n s).1 = maxlevel_ s ∧ enterpoint_node_ (resizeIndex n s).1 = enterpoint_node_ s ∧
    allow_replace_deleted_ (cfg (resizeIndex n s).1) = allow_replace_deleted_ (cfg s))
    as (C1 & C2 & C3 & C4 & C5 & C6 & C7).
  { unfold resizeIndex. rewrite (proj2 (N.ltb_ge _ _)) by done. done. }
  split; [split|].
  - by apply resize_graph.
  - unfold entry_ok. rewrite C1, C5, C6. destruct He as [?|(E1 & E2 & E3)]; [by left|right].
    split_and!; [done| |].
    + by destruct (Hsame _ E1) as (_ & _ & -> & _).
    + intros i lv Hi. destruct (Hsame _ Hi) as (_ & _ & -> & _). by apply E3.
  - split; rewrite C1, C2.
    + intros lab i Hi. destruct (L1 lab i Hi) as [Hlt Hlab]. split; [done|].
      by destruct (Hcont i Hlt) as (_ & -> & _).
    + intros i Hi. destruct (Hcont i Hi) as (_ & -> & _). by apply L2.
  - unfold marks_ok. rewrite C3, C4, C7, (deleted_ids_same s); [done|done|].
    intros i Hi. by destruct (Hcont i Hi) as (_ & _ & ->).
  - intros lab. unfold view. rewrite C2. destruct (label_lookup_ s !! lab) as [i|] eqn:Hi; [|done]. simpl.
    destruct (L1 lab i Hi) as [Hlt _]. by destruct (Hcont i Hlt) as (-> & _ & ->).
Qed.

(** ** Reusing the slot of a deleted element *)
Section replace.
Context s i (e : element) (label : labeltype) (num : N).
Context (Hix : index_ok s) (Hi : i < cur_element_count s) (He : level0 s !! i = Some e).
Context (Hdeleted : live s i = false).
Context (Hfree : label_lookup_ s !! label = None ∨ label = el_label e).
Context (Hallow : allow_replace_deleted_ (cfg s) = true) (Hnum : num + 1 = num_deleted_ s).
Let e' := {| el_ll := ll_unmark (el_ll e); el_data := el_data e; el_label := label |}.
Let s1 := set_deleted num (deleted_elements s ∖ {[i]} ∖ {[i]})
            (set_lookup (<[label := i]> (delete (el_label e) (label_lookup_ s))) (put_el i e' s)).

Lemma rep_lookup j : level0 s1 !! j = if decide (j = i) then Some e' else level0 s !! j.
Proof. unfold s1, put_el. simpl. destruct (decide (j = i)) as [->|]; [apply lookup_insert_eq|by rewrite lookup_insert_ne]. Qed.
Lemma rep_live j : live s1 j = if decide (j = i) then true else live s j.
Proof.
  unfold live. rewrite rep_lookup. destruct (decide (j = i)); [|done]. simpl. by rewrite deleted_unmark.
Qed.
Lemma rep_label_i : label_of s i = el_label e.
Proof. unfold label_of. by rewrite He. Qed.
Lemma rep_other lab j : lab ≠ el_label e → label_lookup_ s !! lab = Some j → j ≠ i.
Proof.
  intros Hne Hj ->. destruct (ix_labels _ Hix) as [L1 _]. destruct (L1 _ _ Hj) as [_ H].
  by rewrite rep_label_i in H.
Qed.
Lemma rep_old_label : label_lookup_ s !! el_label e = Some i.
Proof. destruct (ix_labels _ Hix) as [_ L2]. rewrite <- rep_label_i. by apply L2. Qed.

Lemma rep_labels : labels_ok s1.
Proof.
  destruct (ix_labels _ Hix) as [L1 L2]. unfold labels_ok, s1. cbn [label_lookup_ set_deleted set_lookup cur_element_count put_el set_level0].
  fold s1.
  assert (∀ j, label_of s1 j = if decide (j = i) then label else label_of s j) as Hlab.
  { intros j. unfold label_of. rewrite rep_lookup. by destruct (decide (j = i)). }
  split.
  - intros lab j. rewrite Hlab. destruct (decide (label = lab)) as [<-|Hne].
    + rewrite lookup_insert_eq. intros [= <-]. by rewrite decide_True.
    + rewrite lookup_insert_ne by done. intros [Hd Hj]%lookup_delete_Some.
      destruct (L1 _ _ Hj). rewrite decide_False; [done|]. by eapply rep_other.
  - intros j Hj. rewrite Hlab. destruct (decide (j = i)) as [->|Hne]; [apply lookup_insert_eq|].
    pose proof (L2 j Hj) as HL. pose proof rep_old_label as Hold.
    rewrite lookup_insert_ne, lookup_delete_ne; [done| |].
    + intros E. rewrite E in Hold. congruence.
    + intros E. rewrite E in Hfree. destruct Hfree as [Hn|E2]; [congruence|]. rewrite E2 in HL. congruence.
Qed.

Lemma rep_marks : marks_ok s1.
Proof.
  destruct (ix_marks _ Hix) as [M1 M2].
  assert (deleted_ids s ≡ₚ i :: deleted_ids s1) as Hids.
  { apply NoDup_Permutation; [apply deleted_ids_nodup| |].
    - constructor; [|apply deleted_ids_nodup]. rewrite elem_deleted_ids, rep_live, decide_True by done. by intros [_ ?].
    - intros j. rewrite elem_of_cons, !elem_deleted_ids, rep_live. simpl.
      destruct (decide (j = i)) as [->|]; [|tauto]. by split; auto. }
  split.
  - simpl. rewrite Hids in M1. simpl in M1. lia.
  - simpl. rewrite Hallow in *. rewrite M2.
    assert (i ∉ deleted_ids s1) as Hn.
    { rewrite elem_deleted_ids, rep_live, decide_True by done. by intros [_ ?]. }
    apply leibniz_equiv. rewrite Hids. simpl. intros x.
    rewrite !elem_of_difference, elem_of_union, elem_of_singleton, elem_of_list_to_set.
    split; [tauto|]. intros Hx. split; [|by intros ->]. split; [by right|by intros ->].
Qed.

Lemma rep_index : index_ok s1.
Proof.
  destruct Hix as [Hg Hen _ _]. split; [|exact Hen|apply rep_labels|apply rep_marks].
  apply (graph_ok_same (put_el i e' s)); try done. eapply put_el_graph; try done; [|apply count_unmark|apply typed_unmark].
  destruct (go_node _ Hg i Hi) as (e2 & lv & Hn).
  assert (e2 = e) as -> by (pose proof (no_el _ _ _ _ Hn); congruence). apply Hn.
Qed.
Lemma rep_view lab : lab ≠ label → view s1 lab = if decide (lab = el_label e) then None else view s lab.
Proof.
  intros Hne. unfold view, s1. cbn [label_lookup_ set_deleted set_lookup]. fold s1.
  rewrite lookup_insert_ne by done. destruct (decide (lab = el_label e)) as [->|Hne2].
  { by rewrite lookup_delete_eq. }
  rewrite lookup_delete_ne by done. destruct (label_lookup_ s !! lab) as [j|] eqn:Hj; [|done]. simpl.
  pose proof (rep_other _ _ Hne2 Hj) as Hji. rewrite rep_live, decide_False by done.
  unfold data_of. by rewrite rep_lookup, decide_False.
Qed.

Lemma rep_run : num = (num_deleted_ s + 18446744073709551615) mod 18446744073709551616 →
  take_over i label s = (s1, Ok tt).
Proof.
  intros Hn. pose proof (ix_graph _ Hix) as Hg. pose proof (go_count _ Hg) as Hmax.
  assert ((i <? max_elements_ (cfg s)) = true) as Hlt by (apply N.ltb_lt; lia).
  unfold take_over. erewrite eff_bind_ok by done.
  rewrite (eff_bind_lift _ _ _ (el_label e)).
  2:{ unfold getExternalLabel, get_el. simpl. by rewrite Hlt, He. }
  assert (∀ d, setExternalLabel i label (set_deleted (num_deleted_ s) d s) =
    (put_el i {| el_ll := el_ll e; el_data := el_data e; el_label := label |} (set_deleted (num_deleted_ s) d s), Ok tt)) as Hset.
  { intros d. unfold setExternalLabel. rewrite (eff_bind_lift _ _ _ e); [done|]. unfold get_el. simpl. by rewrite Hlt, He. }
  rewrite (eff_bind_ok _ _ _ _ _ (Hset _)). erewrite eff_bind_ok by done.
  unfold unmarkDeletedInternal, isMarkedDeleted, get_linklist0, get_el. simpl.
  rewrite (proj2 (N.leb_gt _ _)) by done. rewrite Hlt, lookup_insert_eq. simpl.
  assert (ll_deleted (el_ll e) = true) as ->.
  { unfold live in Hdeleted. rewrite He in Hdeleted. simpl in Hdeleted. by apply negb_false_iff in Hdeleted. }
  unfold put_mark. simpl. rewrite lookup_insert_eq, Hallow. unfold s1, put_el. simpl. rewrite insert_insert_eq, <- Hn. done.
Qed.
Lemma rep_cfg : cfg s1 = cfg s.
Proof. done. Qed.
Lemma rep_count : cur_element_count s1 = cur_element_count s.
Proof. done. Qed.
Lemma rep_label : label_lookup_ s1 !! label = Some i.
Proof. apply lookup_insert_eq. Qed.
End replace.

Lemma set_begin_deleted `{HashOrder} s :
  index_ok s → deleted_elements s ≠ ∅ →
  let i := set_begin (deleted_elements s) in
  allow_replace_deleted_ (cfg s) = true ∧ i < cur_element_count s ∧ live s i = false ∧
  ∃ e, level0 s !! i = Some e ∧ label_of s i = el_label e.
Proof.
  intros Hix Hne i. destruct (ix_marks _ Hix) as [_ M2].
  assert (i ∈ deleted_elements s) as Hin by by apply set_begin_elem.
  rewrite M2 in Hin, Hne. destruct (allow_replace_deleted_ (cfg s)); [|done].
  apply elem_of_list_to_set, elem_deleted_ids in Hin as [Hi Hl]. split_and!; [done|done|done|].
  destruct (live_el s i (ix_graph _ Hix) Hi) as (e & He & _). exists e. split; [done|].
  unfold label_of. by rewrite He.
Qed.
End index.
