(* ===== verification/HnswCopy.v ===== *)
(** * Copies of an index

    [copied s s']: the object [s'] holds the elements, links, labels, marks and
    entry point of [s], possibly with another capacity.  Loading a saved index
    and unpickling one both produce copies; a copy of a well-formed index is
    well-formed and stands for the same collection. *)

From Stdlib Require Import ZArith Lia.
From stdpp Require Import base numbers list gmap strings.
From S2P Require Import Prelude VisitedList Hnsw HnswPersist HnswWf HnswKnn HnswAddLaws.
#[local] Open Scope N_scope.

Section copy.
Context `{RE : RandomEngine} `{AL : Alloc}.
Implicit Types (s : hnsw) (i j : tableint).

Record copied s s' : Prop := {
  cp_M : M_ (cfg s') = M_ (cfg s) ∧ maxM_ (cfg s') = maxM_ (cfg s) ∧ maxM0_ (cfg s') = maxM0_ (cfg s);
  cp_construction : ef_construction_ (cfg s') = ef_construction_ (cfg s) ∧ mult_ (cfg s') = mult_ (cfg s) ∧
    data_size_ (cfg s') = data_size_ (cfg s);
  cp_max : cur_element_count s ≤ max_elements_ (cfg s') ≤ 2147483648;
  cp_count : cur_element_count s' = cur_element_count s;
  cp_maxlevel : maxlevel_ s' = maxlevel_ s;
  cp_enterpoint : enterpoint_node_ s' = enterpoint_node_ s;
  cp_el j : j < cur_element_count s → level0 s' !! j = level0 s !! j;
  cp_level j : j < cur_element_count s → level_of s' j = level_of s j;
  cp_upper j lv : j < cur_element_count s → level_of s j = Some lv → (0 < lv)%Z → upper s' !! j = upper s !! j;
  cp_lookup : label_lookup_ s' = label_lookup_ s;
  cp_num_deleted : num_deleted_ s' = num_deleted_ s;
  cp_deleted : deleted_elements s' = if allow_replace_deleted_ (cfg s') then list_to_set (deleted_ids s) else ∅;
  cp_levels : length (element_levels_ s') = N.to_nat (max_elements_ (cfg s'));
  cp_pool : visited_list_pool_ s' = VisitedListPool_new 1 (max_elements_ (cfg s'));
  cp_layout : cfg_layout (cfg s')
}.

Lemma copied_lists s s' j lv l :
  graph_ok s → copied s s' → j < cur_element_count s → level_of s j = Some lv → (0 ≤ l ≤ lv)%Z →
  get_linklist_at_level s' j l = get_linklist_at_level s j l.
Proof.
  intros Hg Hr Hj Hlv Hl. unfold get_linklist_at_level. pose proof (go_count _ Hg). pose proof (cp_max _ _ Hr).
  destruct (Z.eqb_spec l 0) as [->|Hne].
  - unfold get_linklist0, get_el. rewrite !(proj2 (N.ltb_lt _ _)) by lia. by rewrite (cp_el _ _ Hr).
  - unfold get_linklist. by rewrite (cp_upper _ _ Hr j lv) by (done || lia).
Qed.
Lemma copied_reads s s' j : copied s s' → j < cur_element_count s →
  data_of s' j = data_of s j ∧ label_of s' j = label_of s j ∧ live s' j = live s j.
Proof. intros Hr Hj. unfold data_of, label_of, live. by rewrite (cp_el _ _ Hr). Qed.

Lemma copied_graph s s' : graph_ok s → copied s s' → graph_ok s'.
Proof.
  intros Hg Hr. pose proof (cp_count _ _ Hr) as Hn. destruct (cp_M _ _ Hr) as (M1 & M2 & M3).
  destruct (cp_construction _ _ Hr) as (K1 & K2 & K3). destruct (cp_max _ _ Hr) as [X1 X2].
  assert (∀ l, Mmax s' l = Mmax s l) as HM by (intros l; unfold Mmax; by rewrite M2, M3).
  assert (∀ j l, at_level s j l → at_level s' j l) as Hat.
  { intros j l (Hj & lv & H1 & H2). split; [by rewrite Hn|]. exists lv. by rewrite (cp_level _ _ Hr). }
  destruct (go_cfg _ Hg) as (C1 & C2 & C3 & C4 & C5 & C6 & C7 & C8). split.
  - unfold cfg_ok. rewrite M1, M2, M3, K1, K2. by split_and!.
  - by rewrite Hn.
  - apply Hr.
  - rewrite (cp_pool _ _ Hr). apply pool_new_ok.
  - by rewrite (cp_pool _ _ Hr).
  - rewrite Hn. intros i Hi. destruct (go_node _ Hg i Hi) as (e & lv & [N1 N2 N3 N4 N5 N6]). exists e, lv. split.
    + by rewrite (cp_el _ _ Hr).
    + by rewrite N2, K3.
    + by rewrite (cp_level _ _ Hr).
    + done.
    + intros Hpos. rewrite (cp_upper _ _ Hr i lv) by done. by apply N5.
    + intros l Hl. rewrite (copied_lists s s' i lv) by done.
      destruct (N6 l Hl) as (ll & Hget & O1 & O2 & O3 & O4 & O5). exists ll. split; [done|].
      unfold ll_ok. rewrite HM. split_and!; [done|done|done| |done].
      eapply Forall_impl; [exact O4|]. intros j [? ?]. auto.
  - apply Hr.
Qed.

Lemma copied_index s s' : index_ok s → copied s s' →
  index_ok s' ∧ (∀ lab, view s' lab = view s lab) ∧
  ∀ j l, at_level s j l → (0 ≤ l)%Z → nbs_at s' l j = nbs_at s l j.
Proof.
  intros Hix Hr. pose proof (ix_graph _ Hix) as Hg. destruct (ix_labels _ Hix) as [L1 L2].
  pose proof (cp_count _ _ Hr) as Hn. assert (deleted_ids s' = deleted_ids s) as Hdel.
  { apply deleted_ids_same; [done|]. intros j Hj. by apply (copied_reads s s' j Hr). }
  split; [split|split].
  - by eapply copied_graph.
  - unfold entry_ok. rewrite Hn, (cp_enterpoint _ _ Hr), (cp_maxlevel _ _ Hr).
    destruct (ix_entry _ Hix) as [?|(E1 & E2 & E3)]; [by left|right]. split_and!; [done| |].
    + by rewrite (cp_level _ _ Hr).
    + intros i lv Hi. rewrite (cp_level _ _ Hr) by done. by apply E3.
  - split; rewrite ?Hn, ?(cp_lookup _ _ Hr).
    + intros lab i Hi. destruct (L1 _ _ Hi) as [Hlt <-]. split; [done|]. by apply (copied_reads s s' i Hr).
    + intros i Hi. destruct (copied_reads s s' i Hr Hi) as (_ & -> & _). by apply L2.
  - split; rewrite Hdel.
    + rewrite (cp_num_deleted _ _ Hr). apply (ix_marks _ Hix).
    + apply Hr.
  - intros lab. unfold view. rewrite (cp_lookup _ _ Hr). destruct (label_lookup_ s !! lab) as [i|] eqn:Hi; [|done].
    simpl. destruct (L1 _ _ Hi) as [Hlt _]. by destruct (copied_reads s s' i Hr Hlt) as (-> & _ & ->).
  - intros j l (Hj & lv & Hlv & Hle') Hl. unfold nbs_at. by rewrite (copied_lists s s' j lv) by done.
Qed.

(** ** Counting the deleted elements *)
Definition dead_in s i (n : nat) : list tableint :=
  filter (λ j, live s j = false) (N.of_nat <$> seq (N.to_nat i) n).

Lemma load_deleted_ok s n : ∀ i s2,
  i + N.of_nat n ≤ cur_element_count s →
  (∀ j, j < cur_element_count s → ∃ e, level0 s !! j = Some e ∧ get_el s2 j = Ok e) →
  eff_wp (load_deleted n i) (λ s3 _, s3 = set_deleted (num_deleted_ s2 + N.of_nat (length (dead_in s i n)))
    (if allow_replace_deleted_ (cfg s2) then list_to_set (dead_in s i n) ∪ deleted_elements s2
     else deleted_elements s2) s2) s2.
Proof.
  induction n as [|n IH]; intros i s2 Hi H2; cbn [load_deleted].
  { apply wp_ret. unfold dead_in. simpl. rewrite N.add_0_r, (left_id_L ∅ (∪)).
    destruct s2 as [c ? ? ? ? ? ? ? ? ? ? ? ? ? ?]. unfold set_deleted. simpl. by destruct (allow_replace_deleted_ c). }
  destruct (H2 i) as (e & Hel & Hget); [lia|].
  assert (isMarkedDeleted s2 i = Ok (negb (live s i))) as Hm.
  { unfold isMarkedDeleted, get_linklist0. rewrite Hget. cbn [res_bind]. unfold live. rewrite Hel. simpl.
    by rewrite negb_involutive. }
  assert (dead_in s i (S n) = (if live s i then [] else [i]) ++ dead_in s (i + 1) n) as Hdead.
  { unfold dead_in. cbn [seq fmap list_fmap]. rewrite N2Nat.id. replace (N.to_nat (i + 1)) with (S (N.to_nat i)) by lia.
    rewrite filter_cons. by destruct (live s i). }
  wp_read Hm. destruct (live s i); cbn [negb].
  - apply wp_bind, wp_ret. eapply wp_mono; [apply IH; [lia|done]|]. intros s3 _u ->. by rewrite Hdead.
  - apply wp_bind, wp_mod. eapply wp_mono; [apply IH; [lia|done]|]. intros s3 _u ->. rewrite Hdead.
    unfold set_deleted. simpl. f_equal; [lia|]. destruct (allow_replace_deleted_ (cfg s2)); [|done].
    apply leibniz_equiv. intros x. rewrite !elem_of_union. tauto.
Qed.
End copy.
