(* ===== verification/HnswPersistLaws.v ===== *)
(** * Saving and loading an index

    A saved index, loaded into a new object, is the same index: same elements,
    labels, marks, levels, links and entry point.  A file that was cut short or
    extended is rejected. *)

From Stdlib Require Import ZArith Lia.
From stdpp Require Import base numbers list gmap strings.
From S2P Require Import HnswCopy.
From S2P Require Import Prelude Heap Binary VisitedList Arith Hnsw HnswPersist HnswWf HnswKnn HnswAddLaws HnswIndexLaws.
#[local] Open Scope N_scope.

(** ** Object representations *)
Definition ll_fits (slots : N) (ll : linklist) : Prop :=
  ll_word ll < 4294967296 ∧ Forall (λ v, v < 4294967296) (ll_slots ll) ∧ length (ll_slots ll) = N.to_nat slots.

Lemma concat_le4_length l : length (concat (le 4 <$> l)) = (4 * length l)%nat.
Proof. induction l as [|v l IH]; [done|]. cbn [fmap list_fmap concat]. rewrite length_app, le_length, IH. simpl. lia. Qed.
Lemma enc_ll_length ll : length (enc_ll ll) = (4 * length (ll_slots ll) + 4)%nat.
Proof. unfold enc_ll. rewrite length_app, le_length, concat_le4_length. lia. Qed.

Lemma words_enc l rest : Forall (λ v, v < 4294967296) l → words (length l) (concat (le 4 <$> l) ++ rest) = l.
Proof.
  induction 1 as [|v l Hv Hl IH]; [done|]. cbn [length words fmap list_fmap concat]. rewrite <- app_assoc.
  rewrite take_app_length', drop_app_length' by by rewrite le_length. rewrite of_le_le by done. by rewrite IH.
Qed.
Lemma dec_enc_ll slots ll rest : ll_fits slots ll → dec_ll slots (enc_ll ll ++ rest) = ll.
Proof.
  intros (Hw & Hs & Hlen). destruct ll as [w sl]. unfold dec_ll, enc_ll. cbn [ll_word ll_slots] in *. rewrite <- app_assoc.
  rewrite take_app_length', drop_app_length' by by rewrite le_length. rewrite of_le_le by done.
  rewrite <- Hlen, words_enc by done. done.
Qed.
Lemma dec_enc_lists slots lls rest :
  Forall (ll_fits slots) lls → dec_lists (length lls) slots (concat (enc_ll <$> lls) ++ rest) = lls.
Proof.
  induction 1 as [|ll lls Hll Hlls IH]; [done|]. cbn [length dec_lists fmap list_fmap concat]. rewrite <- app_assoc.
  rewrite dec_enc_ll by done. rewrite drop_app_length'; [by rewrite IH|].
  destruct Hll as (_ & _ & Hlen). rewrite enc_ll_length. lia.
Qed.
Lemma enc_lists_length slots lls :
  Forall (ll_fits slots) lls → length (concat (enc_ll <$> lls)) = (N.to_nat (slots * 4 + 4) * length lls)%nat.
Proof.
  induction 1 as [|ll lls (_ & _ & Hlen) _ IH]; cbn [fmap list_fmap concat length]; [simpl; lia|].
  rewrite length_app, enc_ll_length, IH. lia.
Qed.

Definition el_fits (c : config) (e : element) : Prop :=
  ll_fits (maxM0_ c) (el_ll e) ∧ length (el_data e) = N.to_nat (data_size_ c) ∧
  el_label e < 18446744073709551616.

Lemma layout_ok_iff c : layout_ok c = true ↔ cfg_layout c.
Proof. unfold layout_ok, cfg_layout. rewrite !andb_true_iff, !N.eqb_eq. tauto. Qed.

Lemma enc_el_length c e : cfg_layout c → el_fits c e →
  length (enc_el e) = N.to_nat (size_data_per_element_ c).
Proof.
  intros (L1 & L2 & L3 & L4 & _) ((_ & _ & Hlen) & Hd & _).
  unfold enc_el. rewrite !length_app, enc_ll_length, le_length. lia.
Qed.
Lemma dec_enc_el c e : cfg_layout c → el_fits c e → dec_el c (enc_el e) = e.
Proof.
  intros (L1 & L2 & L3 & L4 & _) (Hll & Hd & Hlab).
  destruct e as [ll d lab]. unfold dec_el, enc_el, slice. cbn [el_ll el_data el_label] in *. rewrite L1.
  pose proof Hll as (_ & _ & Hlen).
  assert (length (enc_ll ll) = N.to_nat (offsetData_ c)) as Hoff by (rewrite enc_ll_length; lia).
  assert (N.to_nat (label_offset_ c) = length (enc_ll ll ++ d)) as Hlo by (rewrite length_app; lia).
  f_equal.
  - change (drop (N.to_nat 0) ?x) with x. by apply dec_enc_ll.
  - rewrite drop_app_length' by done. by rewrite take_app_length' by done.
  - rewrite (assoc_L (++)), Hlo, drop_app_length, take_ge by (rewrite le_length; lia). by apply of_le_le.
Qed.

Section persist.
Context `{RE : RandomEngine} `{AL : Alloc}.
Implicit Types (s : hnsw) (i j : tableint).

(** What the invariant does not bound: the sizes chosen by the caller fit their
    types, and those the code computes from them do not wrap ([linkListSize] is
    32-bit, file offsets are signed). *)
Record storable s : Prop := {
  so_size : size_data_per_element_ (cfg s) < 18446744073709551616;
  so_construction : ef_construction_ (cfg s) < 18446744073709551616;
  so_bytes : cur_element_count s * size_data_per_element_ (cfg s) < 9223372036854775808;
  so_label i : i < cur_element_count s → label_of s i < 18446744073709551616;
  so_level i lv : i < cur_element_count s → level_of s i = Some lv →
    size_links_per_element_ (cfg s) * Z.to_N lv < 4294967296
}.

(** What the file holds of an element. *)
Definition el_at s i : element := default (mkEl (blank_ll 0) [] 0) (level0 s !! i).
Definition lists_at s i : list linklist :=
  match level_of s i with
  | Some lv => if (0 <? lv)%Z then default [] (upper s !! i) else []
  | None => []
  end.
Definition block_at s i : list N := concat (enc_ll <$> lists_at s i).
Fixpoint level0_bytes (n : nat) s i : list N :=
  match n with O => [] | S n => enc_el (el_at s i) ++ level0_bytes n s (i + 1) end.
Fixpoint list_bytes (n : nat) s i : list N :=
  match n with
  | O => []
  | S n => le 4 (N.of_nat (length (block_at s i))) ++ block_at s i ++ list_bytes n s (i + 1)
  end.
Definition file_of s : list N :=
  let n := N.to_nat (cur_element_count s) in save_header s ++ level0_bytes n s 0 ++ list_bytes n s 0.

Section saved.
Context s (Hix : index_ok s) (Hst : storable s).
Let Hg : graph_ok s := ix_graph _ Hix.

(** The rest of what a file holds is bounded by the invariant. *)
Lemma header_fits : Forall (λ v, v < 18446744073709551616)
    [offsetLevel0_ (cfg s); max_elements_ (cfg s); cur_element_count s; size_data_per_element_ (cfg s);
     label_offset_ (cfg s); offsetData_ (cfg s); maxM_ (cfg s); maxM0_ (cfg s); M_ (cfg s); mult_ (cfg s);
     ef_construction_ (cfg s)].
Proof.
  pose proof (count_u31 _ Hg). pose proof (so_size _ Hst). pose proof (so_construction _ Hst).
  destruct (go_cfg _ Hg) as (C1 & C2 & C3 & C4 & C5 & C6 & C7 & ->). pose proof (inv_log_bits (M_ (cfg s))).
  destruct (go_layout _ Hg) as (L1 & L2 & L3 & L4 & _).
  repeat constructor; lia.
Qed.
Lemma level_fits i lv : i < cur_element_count s → level_of s i = Some lv → (0 ≤ lv < 1073741824)%Z.
Proof.
  intros Hi Hlv. pose proof (so_level _ Hst i lv Hi Hlv) as Hb.
  destruct (go_layout _ Hg) as (_ & _ & _ & _ & L5 & _). destruct (go_node _ Hg i Hi) as (e & lv' & Hn).
  assert (lv' = lv) as -> by (pose proof (no_level _ _ _ _ Hn); congruence).
  pose proof (no_pos _ _ _ _ Hn). split; [done|]. nia.
Qed.
Lemma entry_fits : enterpoint_node_ s < 4294967296 ∧ (-2147483648 ≤ maxlevel_ s < 2147483648)%Z.
Proof.
  pose proof (count_u31 _ Hg). destruct (ix_entry _ Hix) as [(_ & -> & ->)|(Hi & Hlv & _)]; [lia|].
  pose proof (level_fits _ _ Hi Hlv). lia.
Qed.
Lemma ok_fits i l ll : ll_ok s i l ll → ll_fits (Mmax s l) ll.
Proof. intros (H1 & _ & _ & _ & Hw & Hs). done. Qed.

Lemma at_fits i : i < cur_element_count s →
  get_el s i = Ok (el_at s i) ∧ level0 s !! i = Some (el_at s i) ∧ el_fits (cfg s) (el_at s i).
Proof.
  intros Hi. destruct (go_node _ Hg i Hi) as (e & lv & Hn).
  pose proof (no_el _ _ _ _ Hn) as He. pose proof (ok_get_el _ _ _ _ Hg Hi Hn) as Hget.
  pose proof (no_pos _ _ _ _ Hn). destruct (no_links _ _ _ _ Hn 0%Z) as (ll & Hll & Hok); [lia|].
  apply get_linklist0_el in Hll as (_ & e2 & He2 & <-). rewrite He in He2. injection He2 as <-.
  unfold el_at. rewrite He. simpl. split_and!; [done|done|]. split_and!; [exact (ok_fits _ _ _ Hok)|apply Hn|].
  pose proof (so_label _ Hst i Hi) as Hlab. unfold label_of in Hlab. by rewrite He in Hlab.
Qed.

Lemma upper_fit i e lv ls : node_ok s i e lv → upper s !! i = Some ls → length ls = Z.to_nat lv →
  Forall (ll_fits (maxM_ (cfg s))) ls.
Proof.
  intros Hn Hls Hlen. apply Forall_lookup. intros k ll Hk. pose proof (lookup_lt_Some _ _ _ Hk) as Hlt.
  destruct (no_links _ _ _ _ Hn (Z.of_nat k + 1)%Z) as (ll' & Hget & Hok); [lia|].
  apply get_linklist_upper in Hget as (ls' & H1 & H2); [|lia].
  rewrite Hls in H1. injection H1 as <-. replace (Z.to_nat (Z.of_nat k + 1 - 1)) with k in H2 by lia.
  rewrite Hk in H2. injection H2 as <-. apply ok_fits in Hok. unfold Mmax in Hok.
  by rewrite (proj2 (Z.eqb_neq _ _)) in Hok by lia.
Qed.
Lemma lists_fit i : i < cur_element_count s → ∃ lv,
  level_of s i = Some lv ∧ (0 ≤ lv)%Z ∧ Forall (ll_fits (maxM_ (cfg s))) (lists_at s i) ∧
  length (lists_at s i) = Z.to_nat lv ∧ ((0 < lv)%Z → upper s !! i = Some (lists_at s i)) ∧
  N.of_nat (length (block_at s i)) = linkListSize s lv.
Proof.
  intros Hi. destruct (go_node _ Hg i Hi) as (e & lv & Hn). exists lv.
  pose proof (no_level _ _ _ _ Hn) as Hlv. pose proof (no_pos _ _ _ _ Hn) as Hpos.
  pose proof (so_level _ Hst i lv Hi Hlv) as Hsz.
  destruct (go_layout _ Hg) as (_ & _ & _ & _ & Hslpe & _).
  unfold linkListSize, block_at, lists_at. rewrite Hlv. destruct (Z.ltb_spec 0 lv) as [Hlt|Hge].
  - destruct (no_upper _ _ _ _ Hn Hlt) as (ls & Hls & Hlen). rewrite Hls. simpl.
    pose proof (upper_fit i e lv ls Hn Hls Hlen) as Hf. split_and!; try done.
    rewrite (enc_lists_length _ _ Hf), Hlen, N.mod_small by done. lia.
  - split_and!; [done|done|constructor|simpl; lia|lia|done].
Qed.

Lemma list_size_fits i : i < cur_element_count s → N.of_nat (length (block_at s i)) < 4294967296.
Proof.
  intros Hi. destruct (lists_fit i Hi) as (lv & Hlv & _ & _ & _ & _ & ->).
  unfold linkListSize. destruct (0 <? lv)%Z; [by apply N.mod_lt|done].
Qed.

Lemma save_level0_ok n : ∀ i, i + N.of_nat n ≤ cur_element_count s →
  save_level0 n s i = Ok (level0_bytes n s i) ∧
  length (level0_bytes n s i) = (n * N.to_nat (size_data_per_element_ (cfg s)))%nat.
Proof.
  induction n as [|n IH]; intros i Hi; cbn [save_level0 level0_bytes]; [done|].
  destruct (at_fits i) as (Hget & _ & Hfit); [lia|]. destruct (IH (i + 1)) as [H1 H2]; [lia|].
  rewrite Hget. cbn [res_bind]. rewrite H1. cbn [res_bind]. split; [done|].
  rewrite length_app, H2, (enc_el_length (cfg s)) by (done || apply Hg). done.
Qed.

Lemma save_lists_ok n : ∀ i, i + N.of_nat n ≤ cur_element_count s → save_lists n s i = Ok (list_bytes n s i).
Proof.
  induction n as [|n IH]; intros i Hi; cbn [save_lists list_bytes]; [done|].
  destruct (lists_fit i) as (lv & Hlv & Hpos & Hfit & Hlen & Hup & Hsz); [lia|].
  unfold get_level. unfold level_of in Hlv. rewrite Hlv. cbn [of_opt res_bind]. rewrite <- Hsz.
  destruct (N.eqb_spec (N.of_nat (length (block_at s i))) 0) as [Hz|Hz].
  - cbn [res_bind]. rewrite IH by lia. cbn [res_bind]. destruct (block_at s i); [done|]. simpl in Hz. lia.
  - assert (0 < lv)%Z as Hlt.
    { rewrite Hsz in Hz. unfold linkListSize in Hz. by destruct (Z.ltb_spec 0 lv). }
    rewrite (Hup Hlt). cbn [of_opt res_bind]. fold (block_at s i).
    rewrite Nat2N.id, Nat.leb_refl. cbn [res_bind]. rewrite IH by lia. cbn [res_bind].
    by rewrite take_ge by lia.
Qed.

Lemma saveIndex_ok : saveIndex s = Ok (file_of s).
Proof.
  unfold saveIndex, file_of. destruct (save_level0_ok (N.to_nat (cur_element_count s)) 0) as [-> _]; [lia|].
  simpl. rewrite save_lists_ok by lia. done.
Qed.

Lemma header_length : length (save_header s) = 96%nat.
Proof. unfold save_header. rewrite !length_app, !le_length. done. Qed.

Lemma file_lists_size_ok n : ∀ i size, i + N.of_nat n ≤ cur_element_count s →
  file_lists_size n s i size = Ok (size + N.of_nat (length (list_bytes n s i))).
Proof.
  induction n as [|n IH]; intros i size Hi; cbn [file_lists_size list_bytes]; [simpl; f_equal; lia|].
  destruct (lists_fit i) as (lv & Hlv & _ & _ & _ & _ & Hsz); [lia|].
  unfold get_level. unfold level_of in Hlv. rewrite Hlv. cbn [of_opt res_bind]. rewrite IH by lia.
  f_equal. rewrite <- Hsz, !length_app, le_length. lia.
Qed.

Lemma indexFileSize_ok : indexFileSize s = Ok (N.of_nat (length (file_of s))).
Proof.
  unfold indexFileSize. rewrite file_lists_size_ok by lia. f_equal. unfold file_of.
  rewrite !length_app, header_length. destruct (save_level0_ok (N.to_nat (cur_element_count s)) 0) as [_ ->]; lia.
Qed.

(** ** Loading *)
Definition header_of : header :=
  mkHeader (offsetLevel0_ (cfg s)) (max_elements_ (cfg s)) (cur_element_count s) (size_data_per_element_ (cfg s))
    (label_offset_ (cfg s)) (offsetData_ (cfg s)) (of_int (maxlevel_ s)) (enterpoint_node_ s) (maxM_ (cfg s))
    (maxM0_ (cfg s)) (M_ (cfg s)) (mult_ (cfg s)) (ef_construction_ (cfg s)).

Lemma read_header_ok s0 rest :
  ∃ st, read_header s0 (mkStream (save_header s ++ rest) 0 false) = (header_of, st) ∧ stands st (save_header s) rest.
Proof.
  pose proof header_fits as Hh. rewrite !Forall_cons in Hh.
  destruct Hh as (B1 & B2 & B3 & B4 & B5 & B6 & B7 & B8 & B9 & B10 & B11 & _).
  destruct (to_of_int _ (proj2 entry_fits)) as [_ B12]. pose proof (proj1 entry_fits) as B13.
  unfold read_header, save_header. rewrite <- !app_assoc.
  match goal with |- context [read_pod 8 _ (mkStream ?bs 0 false)] => pose proof (stands_start bs) as H0 end.
  repeat match goal with
  | H : stands ?st _ (le ?n ?v ++ _) |- context [read_pod ?n ?old ?st] =>
      let st' := fresh "st" in let Hr := fresh "Hr" in let H' := fresh "H" in
      destruct (read_pod_app st _ _ n v old H) as (st' & Hr & H'); [done|]; rewrite Hr; clear Hr H
  end.
  eexists. split; [done|]. rewrite <- ?app_assoc in *. done.
Qed.

Lemma check_lists_ok n : ∀ i st pre rest,
  i + N.of_nat n ≤ cur_element_count s → stands st pre (list_bytes n s i ++ rest) →
  ∃ st', check_lists n st = Ok st' ∧ stands st' (pre ++ list_bytes n s i) rest.
Proof.
  induction n as [|n IH]; intros i st pre rest Hi H; cbn [check_lists list_bytes] in *.
  { exists st. rewrite (right_id_L [] (++)). done. }
  rewrite <- !app_assoc in H. pose proof (list_size_fits i ltac:(lia)) as Hsz.
  destruct (read_pod_app st _ _ 4 (N.of_nat (length (block_at s i))) 0 H) as (st1 & Hr & H1); [done|].
  assert ((tellg st <? 0)%Z || (total_filesize st <=? tellg st)%Z = false) as ->.
  { rewrite H. unfold tellg, total_filesize. simpl. rewrite !length_app. simpl.
    apply orb_false_iff. rewrite Z.ltb_ge, Z.leb_gt. lia. }
  rewrite Hr. set (st2 := if _ =? 0 then _ else _).
  assert (stands st2 ((pre ++ le 4 (N.of_nat (length (block_at s i)))) ++ block_at s i) (list_bytes n s (i + 1) ++ rest)) as H2.
  { pose proof (stands_seek st1 _ _ _ H1) as Hs. unfold st2. destruct (N.eqb_spec (N.of_nat (length (block_at s i))) 0) as [Hz|].
    - destruct (block_at s i); [|simpl in Hz; lia]. by rewrite (right_id_L [] (++)).
    - by rewrite nat_N_Z. }
  destruct (IH (i + 1) st2 _ rest ltac:(lia) H2) as (st' & Hrun & H'). exists st'. split; [done|].
  by rewrite !(assoc_L (++)) in *.
Qed.

(** A walk over a file that ends too early does not reach its end. *)
Lemma check_bad n st : bad st = true →
  check_lists n st = Throw corrupted ∨ ∃ st', check_lists n st = Ok st' ∧ tellg st' ≠ total_filesize st'.
Proof.
  intros Hb. unfold total_filesize. destruct n as [|n]; cbn [check_lists].
  - right. exists st. split; [done|]. unfold tellg. rewrite Hb. lia.
  - left. unfold tellg. by rewrite Hb.
Qed.

Lemma check_lists_cut k F n : ∀ i pre,
  F = pre ++ list_bytes n s i → i + N.of_nat n ≤ cur_element_count s → (k < length F)%nat →
  let st := mkStream (take k F) (Z.of_nat (length pre)) false in
  check_lists n st = Throw corrupted ∨ ∃ st', check_lists n st = Ok st' ∧ tellg st' ≠ total_filesize st'.
Proof.
  induction n as [|n IH]; intros i pre HF Hi Hk st; cbn [list_bytes] in HF.
  { right. exists st. split; [done|]. rewrite (right_id_L [] (++)) in HF. subst F.
    unfold tellg, total_filesize. simpl. rewrite length_take. lia. }
  cbn [check_lists]. destruct ((tellg st <? 0)%Z || (total_filesize st <=? tellg st)%Z) eqn:Hend; [by left|].
  apply orb_false_iff in Hend as [_ Hend%Z.leb_gt]. unfold tellg, total_filesize in Hend. simpl in Hend.
  rewrite length_take in Hend. pose proof (list_size_fits i ltac:(lia)) as Hsz.
  set (len := le 4 (N.of_nat (length (block_at s i)))) in *.
  destruct (decide (length pre + 4 ≤ k)%nat) as [Hfit|Hshort].
  - assert (stands st pre (len ++ take (k - length pre - 4) (block_at s i ++ list_bytes n s (i + 1)))) as H.
    { unfold stands, st. f_equal. rewrite HF, take_app, (take_ge pre) by lia. f_equal.
      rewrite take_app, (take_ge len) by (unfold len; rewrite le_length; lia).
      unfold len. by rewrite le_length. }
    destruct (read_pod_app st _ _ 4 _ 0 H) as (st1 & Hr & H1); [done|]. rewrite Hr. fold len in H1.
    set (st2 := if _ =? 0 then _ else _).
    assert (st2 = mkStream (take k F) (Z.of_nat (length ((pre ++ len) ++ block_at s i))) false) as ->.
    { assert (file st1 = take k F) as Hfile.
      { rewrite H1. cbn [file]. rewrite <- app_assoc. unfold stands, st in H. by injection H as ->. }
      rewrite H1 in Hfile. cbn [file] in Hfile. unfold st2. rewrite H1. rewrite (length_app (pre ++ len)).
      destruct (N.eqb_spec (N.of_nat (length (block_at s i))) 0) as [Hz|Hz]; unfold seekg; cbn [file pos bad].
      - rewrite Hfile. f_equal. lia.
      - decide_cmp. rewrite Hfile. f_equal. lia. }
    apply (IH (i + 1)); [|lia|done]. by rewrite HF, <- !app_assoc.
  - assert (bad (read_pod 4 0 st).2 = true) as Hb.
    { unfold read_pod, sread, st. cbn [bad file pos]. rewrite length_drop, length_take.
      by decide_cmp. }
    destruct (read_pod 4 0 st) as [v st1]. simpl in Hb. apply check_bad.
    destruct (v =? 0); [done|]. unfold seekg. by rewrite Hb.
Qed.

Lemma to_off_small n : n < 9223372036854775808 → to_off n = Z.of_N n.
Proof. intros Hn. unfold to_off. rewrite N.mod_small by lia. by rewrite (proj2 (N.ltb_lt _ _)). Qed.

Lemma load_level0_lookup c : (∀ bs, dec_el c bs = dec_el (cfg s) bs) →
  size_data_per_element_ c = size_data_per_element_ (cfg s) →
  ∀ n i rest m j, i + N.of_nat n ≤ cur_element_count s →
  load_level0 n c i (level0_bytes n s i ++ rest) m !! j = if decide (i ≤ j < i + N.of_nat n) then Some (el_at s j) else m !! j.
Proof.
  intros Hdec Hsz n. induction n as [|n IH]; intros i rest m j Hi; cbn [load_level0 level0_bytes].
  { by rewrite decide_False by lia. }
  destruct (at_fits i) as (_ & _ & Hfit); [lia|]. rewrite <- app_assoc, Hsz.
  pose proof (enc_el_length _ _ (go_layout _ Hg) Hfit) as Hlen.
  rewrite drop_app_length', take_app_length' by done. rewrite Hdec, dec_enc_el by (done || apply Hg).
  rewrite IH by lia. destruct (decide (j = i)) as [->|Hne].
  - rewrite decide_False by lia. rewrite decide_True by lia. by rewrite lookup_insert_eq.
  - rewrite lookup_insert_ne by done. by destruct (decide (i + 1 ≤ j < i + 1 + N.of_nat n)),
      (decide (i ≤ j < i + N.of_nat (S n))); try lia.
Qed.

(** [s1] holds the level-0 memory of [s] in arrays that are large enough. *)
Record level0_loaded s1 : Prop := {
  ll_el j : j < cur_element_count s → level0 s1 !! j = Some (el_at s j);
  ll_max : cur_element_count s ≤ max_elements_ (cfg s1);
  ll_levels : length (element_levels_ s1) = N.to_nat (max_elements_ (cfg s1));
  ll_maxM : maxM_ (cfg s1) = maxM_ (cfg s);
  ll_slpe : size_links_per_element_ (cfg s1) = maxM_ (cfg s) * 4 + 4
}.
Lemma loaded_get s1 j : level0_loaded s1 → j < cur_element_count s → get_el s1 j = Ok (el_at s j).
Proof.
  intros H1 Hj. pose proof (ll_max _ H1). unfold get_el. decide_cmp.
  by rewrite (ll_el _ H1).
Qed.

(** The members that the loop over the lists fills, for the elements of [i, i + n). *)
Record lists_loaded s1 s2 i (n : N) : Prop := {
  ld_state : ∃ L U V, s2 = set_lookup L (set_upper U (set_levels V s1));
  ld_length : length (element_levels_ s2) = length (element_levels_ s1);
  ld_lookup lab : label_lookup_ s2 !! lab =
    match label_lookup_ s !! lab with
    | Some j => if decide (i ≤ j < i + n) then Some j else label_lookup_ s1 !! lab
    | None => label_lookup_ s1 !! lab
    end;
  ld_upper j : i ≤ j < i + n → lists_at s j ≠ [] → upper s2 !! j = Some (lists_at s j);
  ld_upper_out j : ¬ i ≤ j < i + n → upper s2 !! j = upper s1 !! j;
  ld_level j : element_levels_ s2 !! N.to_nat j =
    if decide (i ≤ j < i + n) then level_of s j else element_levels_ s1 !! N.to_nat j
}.

Lemma lists_loaded_step s1 s2 s3 i n L U lv :
  i + 1 + n ≤ cur_element_count s → level_of s i = Some lv →
  (N.to_nat i < length (element_levels_ s1))%nat →
  L = <[label_of s i := i]> (label_lookup_ s1) →
  (lists_at s i ≠ [] → U !! i = Some (lists_at s i)) → (∀ j, j ≠ i → U !! j = upper s1 !! j) →
  s2 = set_lookup L (set_upper U (set_levels (<[N.to_nat i := lv]> (element_levels_ s1)) s1)) →
  lists_loaded s2 s3 (i + 1) n → lists_loaded s1 s3 i (1 + n).
Proof.
  intros Hi Hlv Hlen HL HU1 HU2 -> [(L' & U' & V' & E) D2 D3 D4 D5 D6].
  destruct (ix_labels _ Hix) as [L1 L2]. simpl in *. split.
  - by exists L', U', V'.
  - by rewrite D2, length_insert.
  - intros lab. rewrite D3, HL. destruct (label_lookup_ s !! lab) as [j|] eqn:Hj.
    + destruct (L1 _ _ Hj) as [Hlt Hlab]. destruct (decide (i + 1 ≤ j < i + 1 + n)).
      { by rewrite decide_True by lia. }
      destruct (decide (j = i)) as [->|Hne].
      { rewrite decide_True by lia. rewrite Hlab. by rewrite lookup_insert_eq. }
      rewrite decide_False by lia. rewrite lookup_insert_ne; [done|]. intros E'.
      rewrite <- E', L2 in Hj by lia. congruence.
    + rewrite lookup_insert_ne; [done|]. intros <-. rewrite L2 in Hj by lia. done.
  - intros j Hj Hne. destruct (decide (j = i)) as [->|].
    + rewrite D5 by lia. by apply HU1.
    + apply D4; [lia|done].
  - intros j Hj. rewrite D5 by lia. apply HU2. lia.
  - intros j. rewrite D6. destruct (decide (i + 1 ≤ j < i + 1 + n)).
    { by rewrite decide_True by lia. }
    destruct (decide (j = i)) as [->|].
    + rewrite decide_True by lia. rewrite list_lookup_insert_eq by done. done.
    + rewrite decide_False by lia. by rewrite list_lookup_insert_ne by lia.
Qed.

Lemma load_lists_ok n : ∀ i st pre rest s1,
  i + N.of_nat n ≤ cur_element_count s → stands st pre (list_bytes n s i ++ rest) → level0_loaded s1 →
  eff_wp (load_lists n i st) (λ s2 _, lists_loaded s1 s2 i (N.of_nat n)) s1.
Proof.
  induction n as [|n IH]; intros i st pre rest s1 Hi H H1; cbn [load_lists list_bytes] in *.
  { apply wp_ret. split.
    - exists (label_lookup_ s1), (upper s1), (element_levels_ s1). by destruct s1.
    - done.
    - intros lab. destruct (label_lookup_ s !! lab); [|done]. by rewrite decide_False by lia.
    - lia.
    - done.
    - intros j. by rewrite decide_False by lia. }
  rewrite <- !app_assoc in H. pose proof (list_size_fits i ltac:(lia)) as Hsz.
  destruct (at_fits i) as (_ & Hel & _); [lia|].
  assert (el_label (el_at s i) = label_of s i) as Hlab by (unfold label_of; by rewrite Hel).
  eapply wp_bind_lift.
  { unfold getExternalLabel. rewrite loaded_get by (done || lia). cbn [res_bind]. by rewrite Hlab. }
  apply wp_bind, wp_mod.
  destruct (read_pod_app st _ _ 4 (N.of_nat (length (block_at s i))) 0 H) as (st1 & -> & H2); [done|].
  destruct (lists_fit i) as (lv & Hlv & Hpos & Hfit & Hlen & _ & Hsize); [lia|].
  assert (length (block_at s i) = (N.to_nat (maxM_ (cfg s) * 4 + 4) * Z.to_nat lv)%nat) as Hbl.
  { unfold block_at. by rewrite (enc_lists_length _ _ Hfit), Hlen. }
  assert (N.to_nat i < length (element_levels_ s1))%nat as Hin.
  { rewrite (ll_levels _ H1). pose proof (ll_max _ H1). lia. }
  assert (N.of_nat (S n) = 1 + N.of_nat n) as -> by lia.
  destruct (N.eqb_spec (N.of_nat (length (block_at s i))) 0) as [Hz|Hz].
  - assert (lv = 0%Z) as -> by lia. assert (lists_at s i = []) as Hnil by by apply nil_length_inv.
    apply wp_bind, wp_mod. eapply wp_mono; [eapply (IH (i + 1) st1 _ rest); [lia| |]|].
    + destruct (block_at s i); [exact H2|simpl in Hz; lia].
    + destruct H1. split; simpl; rewrite ?length_insert; done.
    + intros s3 _u Hl. eapply lists_loaded_step; [| |done|done| | | |exact Hl]; [lia|done| | |].
      * by rewrite Hnil.
      * by intros.
      * by destruct s1.
  - destruct (sread_app st1 _ (block_at s i) (list_bytes n s (i + 1) ++ rest) (N.of_nat (length (block_at s i))) H2)
      as (st2 & -> & H3); [done|].
    assert (N.of_nat (length (block_at s i)) / (maxM_ (cfg s) * 4 + 4) = Z.to_N lv) as Hdiv.
    { rewrite Hbl. replace (N.of_nat _) with (Z.to_N lv * (maxM_ (cfg s) * 4 + 4)) by lia. apply N.div_mul. lia. }
    apply wp_bind, wp_mod. eapply wp_mono; [eapply (IH (i + 1) st2 _ rest); [lia|exact H3|]|].
    + destruct H1. split; simpl; rewrite ?length_insert; done.
    + intros s3 _u Hl. eapply (lists_loaded_step s1 _ s3 i (N.of_nat n) _ (<[i := lists_at s i]> (upper s1)) lv);
        [| |done|done| | | |exact Hl]; [lia|done| | |].
      * intros _. by rewrite lookup_insert_eq.
      * intros j Hj. by rewrite lookup_insert_ne.
      * simpl. rewrite (ll_slpe _ H1), (ll_maxM _ H1), Hdiv.
        replace (N.to_nat (Z.to_N lv)) with (length (lists_at s i)) by lia.
        pose proof (dec_enc_lists _ _ [] Hfit) as Hdec. rewrite (right_id_L [] (++)) in Hdec.
        unfold block_at. rewrite Hdec, Z2N.id by done. by destruct s1.
Qed.

Lemma load_deleted_saved s2 :
  (∀ j, j < cur_element_count s → get_el s2 j = Ok (el_at s j)) →
  eff_wp (load_deleted (N.to_nat (cur_element_count s)) 0)
    (λ s3 _, s3 = set_deleted (num_deleted_ s2 + N.of_nat (length (deleted_ids s)))
      (if allow_replace_deleted_ (cfg s2) then list_to_set (deleted_ids s) ∪ deleted_elements s2
       else deleted_elements s2) s2) s2.
Proof.
  intros H2. apply (load_deleted_ok s (N.to_nat (cur_element_count s)) 0); [lia|].
  intros j Hj. destruct (at_fits j Hj) as (_ & Hel & _). exists (el_at s j). auto.
Qed.

(** [s'] is [s], read back: all but [ef_], the generators, the pool and the metrics. *)
Record reloaded s' (space_size mx : N) : Prop := {
  re_cfg : cfg s' = finish_config (load_config (cfg s') header_of space_size mx);
  re_count : cur_element_count s' = cur_element_count s;
  re_maxlevel : maxlevel_ s' = maxlevel_ s;
  re_enterpoint : enterpoint_node_ s' = enterpoint_node_ s;
  re_el j : j < cur_element_count s → level0 s' !! j = level0 s !! j;
  re_level j : j < cur_element_count s → level_of s' j = level_of s j;
  re_upper j lv : j < cur_element_count s → level_of s j = Some lv → (0 < lv)%Z → upper s' !! j = upper s !! j;
  re_lookup : label_lookup_ s' = label_lookup_ s;
  re_num_deleted : num_deleted_ s' = num_deleted_ s;
  re_deleted : deleted_elements s' = if allow_replace_deleted_ (cfg s') then list_to_set (deleted_ids s) else ∅;
  re_levels : length (element_levels_ s') = N.to_nat (max_elements_ (cfg s'));
  re_pool : visited_list_pool_ s' = VisitedListPool_new 1 (max_elements_ (cfg s'))
}.

Lemma load_body_ok s0 mx st rest :
  cur_element_count s ≤ load_max header_of mx →
  load_max header_of mx * size_data_per_element_ (cfg s) < 9223372036854775808 →
  label_lookup_ s0 = ∅ → num_deleted_ s0 = 0 → deleted_elements s0 = ∅ → upper s0 = ∅ →
  stands st (save_header s) (level0_bytes (N.to_nat (cur_element_count s)) s 0 ++
    list_bytes (N.to_nat (cur_element_count s)) s 0 ++ rest) →
  eff_wp (load_body st) (λ s' _, reloaded s' (data_size_ (cfg s)) mx ∧
    allow_replace_deleted_ (cfg s') = allow_replace_deleted_ (cfg s0))
    (set_header header_of (data_size_ (cfg s)) mx s0).
Proof.
  intros Hmax Hbytes E1 E2 E3 E4 H. unfold load_body. apply wp_bind, wp_get. apply wp_bind, wp_get.
  set (n := N.to_nat (cur_element_count s)) in *. set (c := cfg (set_header _ _ _ s0)).
  set (mxl := load_max header_of mx) in *. change (max_elements_ c) with mxl.
  change (cur_element_count (set_header _ _ _ s0)) with (cur_element_count s).
  change (size_data_per_element_ c) with (size_data_per_element_ (cfg s)).
  rewrite (proj2 (N.ltb_ge _ _)), !(proj2 (N.leb_gt _ _)) by lia.
  assert (layout_ok (finish_config c) = true) as ->.
  { pose proof (go_layout _ Hg) as HL. apply layout_ok_iff. unfold cfg_layout in *. simpl. tauto. }
  cbn [negb]. destruct (save_level0_ok n 0) as [_ Hlen]; [lia|].
  destruct (sread_app st _ _ _ (cur_element_count s * size_data_per_element_ (cfg s)) H) as (st1 & -> & H1); [lia|].
  apply wp_bind, wp_mod. set (s1 := set_level0 _ _).
  assert (level0_loaded s1) as Hs1.
  { split; simpl; try done; [|apply length_replicate].
    intros j Hj. fold n. pose proof (load_level0_lookup c) as Hl. specialize (Hl (λ _, eq_refl) eq_refl n 0 [] ∅ j).
    rewrite (right_id_L [] (++)) in Hl. rewrite Hl by lia. by rewrite decide_True by lia. }
  eapply wp_seq; [eapply load_lists_ok; [|exact H1|exact Hs1]; lia|].
  intros s2 _u D. cbv beta in D. destruct (ld_state _ _ _ _ D) as (L & U & V & E).
  assert (∀ j, j < cur_element_count s → get_el s2 j = Ok (el_at s j)) as Hget.
  { intros j Hj. rewrite E. by apply (loaded_get s1). }
  eapply wp_mono; [apply load_deleted_saved; done|]. intros s3 _v ->.
  destruct (ix_labels _ Hix) as [L1 _]. destruct (ix_marks _ Hix) as [M1 _].
  assert (cfg s2 = finish_config c) as Hc by by rewrite E.
  split; [|by rewrite E]. split; cbn [cfg set_deleted cur_element_count maxlevel_ enterpoint_node_ level0 upper
    label_lookup_ num_deleted_ deleted_elements element_levels_ visited_list_pool_]; rewrite ?Hc; try by rewrite E.
  - done.
  - rewrite E. cbn. by destruct (to_of_int _ (proj2 entry_fits)).
  - intros j Hj. rewrite E. cbn [level0 set_lookup set_upper set_levels]. rewrite (ll_el _ Hs1 j Hj).
    by destruct (at_fits j Hj) as (_ & -> & _).
  - intros j Hj. unfold level_of at 1. cbn [element_levels_ set_deleted]. rewrite (ld_level _ _ _ _ D).
    by rewrite decide_True by lia.
  - intros j lv Hj Hlv Hpos. destruct (lists_fit j Hj) as (lv' & Hlv' & _ & _ & Hlen' & Hup & _).
    assert (lv' = lv) as -> by congruence. rewrite (Hup Hpos). apply (ld_upper _ _ _ _ D); [lia|].
    intros Hnil. rewrite Hnil in Hlen'. simpl in Hlen'. lia.
  - apply map_eq. intros lab. rewrite (ld_lookup _ _ _ _ D).
    destruct (label_lookup_ s !! lab) as [j|] eqn:Hj.
    + destruct (L1 _ _ Hj). by rewrite decide_True by lia.
    + simpl. rewrite E1. apply lookup_empty.
  - rewrite E. cbn. rewrite E2, M1. lia.
  - rewrite E. cbn. rewrite E3. rewrite (right_id_L ∅ (∪)). done.
  - rewrite (ld_length _ _ _ _ D). simpl. apply length_replicate.
Qed.

Lemma offset_level0 st rest :
  stands st (save_header s) (level0_bytes (N.to_nat (cur_element_count s)) s 0 ++ rest) →
  stands (seekg (pos st + to_off (h_count header_of * h_size header_of)) st)
    (save_header s ++ level0_bytes (N.to_nat (cur_element_count s)) s 0) rest.
Proof.
  intros H. destruct (save_level0_ok (N.to_nat (cur_element_count s)) 0) as [_ Hlen]; [lia|].
  simpl. rewrite to_off_small by apply Hst. pose proof (stands_seek st _ _ _ H) as Hs. rewrite Hlen in Hs.
  replace (Z.of_N _) with (Z.of_nat (N.to_nat (cur_element_count s) * N.to_nat (size_data_per_element_ (cfg s)))) by lia.
  done.
Qed.

Lemma load_file_ok allow mx :
  load_max header_of mx * size_data_per_element_ (cfg s) < 9223372036854775808 →
  ∃ s', HierarchicalNSW_load (data_size_ (cfg s)) (Some (file_of s)) mx allow = (s', Ok tt) ∧
    reloaded s' (data_size_ (cfg s)) mx ∧ allow_replace_deleted_ (cfg s') = allow.
Proof.
  intros Hbytes. unfold HierarchicalNSW_load, loadIndex. erewrite eff_bind_ok by done.
  set (s0 := set_pool _ _). unfold load_checked, file_of. set (n := N.to_nat (cur_element_count s)).
  destruct (read_header_ok s0 (level0_bytes n s 0 ++ list_bytes n s 0)) as (st & -> & H).
  pose proof (offset_level0 st _ H) as H1. fold n in H1.
  destruct (check_lists_ok n 0 _ _ [] ltac:(lia) ltac:(rewrite (right_id_L [] (++)); exact H1)) as (st' & Hck & H2).
  change (N.to_nat (h_count header_of)) with n. rewrite Hck.
  assert ((tellg st' =? total_filesize st')%Z = true) as ->.
  { rewrite H2. unfold tellg, total_filesize. cbn [file pos bad]. rewrite (right_id_L [] (++)). apply Z.eqb_refl. }
  assert (seekg (pos st) (clear_flags st') = st) as ->.
  { rewrite H, H2. unfold seekg, clear_flags. cbn [file pos bad]. decide_cmp.
    by rewrite (right_id_L [] (++)), <- !app_assoc. }
  destruct (load_body_ok s0 mx st []) as (s' & [] & Hrun & Hre & Ha); try done.
  - unfold load_max. simpl. destruct (N.ltb_spec mx (cur_element_count s)); [apply (go_count _ Hg)|done].
  - by rewrite (right_id_L [] (++)).
  - by exists s'.
Qed.

(** ** A reloaded index *)
Lemma reloaded_copied s' mx :
  reloaded s' (data_size_ (cfg s)) mx → load_max header_of mx ≤ 2147483648 → copied s s'.
Proof.
  intros Hr Hmx. pose proof (re_cfg _ _ _ Hr) as Hc.
  assert (max_elements_ (cfg s') = load_max header_of mx) as Hmax by by rewrite Hc.
  destruct Hr as [_ R2 R3 R4 R5 R6 R7 R8 R9 R10 R11 R12]. split; try done.
  - by rewrite Hc.
  - by rewrite Hc.
  - rewrite Hmax. split; [|done]. unfold load_max. simpl.
    destruct (N.ltb_spec mx (cur_element_count s)); [apply (go_count _ Hg)|done].
  - rewrite Hc. pose proof (go_layout _ Hg) as HL. unfold cfg_layout in *. simpl. tauto.
Qed.
Lemma reloaded_index s' mx :
  reloaded s' (data_size_ (cfg s)) mx → load_max header_of mx ≤ 2147483648 →
  index_ok s' ∧ (∀ lab, view s' lab = view s lab) ∧
  ∀ j l, at_level s j l → (0 ≤ l)%Z → nbs_at s' l j = nbs_at s l j.
Proof. intros Hr Hmx. apply copied_index; [done|]. by eapply reloaded_copied. Qed.

(** ** Damaged files *)
Lemma short_header s0 f : (length f < 96)%nat → bad (read_header s0 (mkStream f 0 false)).2 = true.
Proof.
  intros Hf. assert (advanced f (mkStream f 0 false) 0) as H by (right; split; [done|lia]).
  assert (advanced f (read_header s0 (mkStream f 0 false)).2 96) as [?|[_ ?]]; [|done|lia].
  unfold read_header.
  repeat match goal with
  | H : advanced f ?st ?k |- context [read_pod ?n ?old ?st] =>
      let H' := fresh "H" in pose proof (advanced_read f st k n old H) as H'; clear H;
      destruct (read_pod n old st) as [? ?]; cbn [snd] in H'
  end.
  done.
Qed.

Lemma load_checked_stops f sz mx s0 :
  (let '(h, st) := read_header s0 (mkStream f 0 false) in
   let st1 := seekg (pos st + to_off (h_count h * h_size h)) st in
   check_lists (N.to_nat (h_count h)) st1 = Throw corrupted ∨
   ∃ st', check_lists (N.to_nat (h_count h)) st1 = Ok st' ∧ tellg st' ≠ total_filesize st') →
  (load_checked f sz mx s0).2 = Throw corrupted.
Proof.
  unfold load_checked. destruct (read_header s0 _) as [h st]. intros [->|(st' & -> & Hne)]; [done|].
  by rewrite (proj2 (Z.eqb_neq _ _)).
Qed.

Lemma load_cut k sz mx s0 : (k < length (file_of s))%nat →
  (load_checked (take k (file_of s)) sz mx s0).2 = Throw corrupted.
Proof.
  intros Hk. apply load_checked_stops.
  destruct (decide (k < 96)%nat) as [Hs|Hs].
  { pose proof (short_header s0 (take k (file_of s))) as Hb. destruct (read_header s0 _) as [h st]. simpl in Hb.
    apply check_bad. unfold seekg. rewrite Hb; [|rewrite length_take; lia]. apply Hb. rewrite length_take. lia. }
  set (n := N.to_nat (cur_element_count s)).
  assert (take k (file_of s) = save_header s ++ take (k - 96) (level0_bytes n s 0 ++ list_bytes n s 0)) as Ht.
  { unfold file_of. by rewrite take_app, header_length, take_ge by (rewrite header_length; lia). }
  rewrite Ht. destruct (read_header_ok s0 (take (k - 96) (level0_bytes n s 0 ++ list_bytes n s 0))) as (st & -> & H).
  cbv beta iota zeta.
  destruct (save_level0_ok n 0) as [_ Hlen]; [lia|].
  set (st1 := seekg _ st).
  assert (st1 = mkStream (take k (file_of s)) (Z.of_nat (length (save_header s ++ level0_bytes n s 0))) false) as ->.
  { unfold st1. rewrite H. unfold seekg. cbn [file pos bad h_count h_size header_of]. rewrite <- Ht.
    rewrite to_off_small by apply Hst. decide_cmp.
    rewrite length_app, Hlen. f_equal. lia. }
  apply (check_lists_cut k (file_of s) n 0); [|lia|done].
  unfold file_of. by rewrite <- app_assoc.
Qed.

Lemma load_extended junk sz mx s0 : junk ≠ [] →
  (load_checked (file_of s ++ junk) sz mx s0).2 = Throw corrupted.
Proof.
  intros Hj. apply load_checked_stops. unfold file_of. set (n := N.to_nat (cur_element_count s)).
  rewrite <- !app_assoc.
  destruct (read_header_ok s0 (level0_bytes n s 0 ++ list_bytes n s 0 ++ junk)) as (st & -> & H).
  cbv beta iota zeta. pose proof (offset_level0 st _ H) as H1. fold n in H1.
  destruct (check_lists_ok n 0 _ _ junk ltac:(lia) H1) as (st' & Hck & H2). right. exists st'. split; [exact Hck|].
  rewrite H2. unfold tellg, total_filesize. cbn [file pos bad]. rewrite !length_app.
  destruct junk; [done|]. cbn [length]. lia.
Qed.
End saved.
End persist.
