(* ===== verification/HnswChecks.v ===== *)
(** * Reading an index back

    [getDataByLabel], the inverse pair [markDelete]/[unmarkDelete], and what
    [checkIntegrity] decides. *)

From Stdlib Require Import ZArith Lia.
From stdpp Require Import base numbers list gmap strings sorting relations.
From S2P Require Import Prelude Heap VisitedList Arith BeamSearch Hnsw HnswWf HnswKnn HnswAddLaws HnswIndexLaws.
#[local] Open Scope N_scope.

Section checks.
Context `{RE : RandomEngine} `{AL : Alloc}.
Implicit Types (s : hnsw) (i j : tableint) (l : Z).

(** ** getDataByLabel *)
Lemma getDataByLabel_view s label dim :
  index_ok s → data_size_ (cfg s) = 4 * dim →
  getDataByLabel dim s label = match view s label with Some (p, true) => Ok p | _ => Throw "Label not found" end.
Proof.
  intros Hix Hsz. pose proof (ix_graph _ Hix) as Hg. destruct (ix_labels _ Hix) as [L1 _].
  unfold getDataByLabel, view. destruct (label_lookup_ s !! label) as [i|] eqn:Hl; simpl; [|done].
  destruct (L1 _ _ Hl) as [Hi _]. destruct (ok_reads s i Hg Hi) as (-> & _ & ->). simpl.
  destruct (live s i); simpl; [|done]. destruct (go_node _ Hg i Hi) as (e & lv & Hn).
  assert (length (data_of s i) = (4 * N.to_nat dim)%nat) as Hlen.
  { unfold data_of. rewrite (no_el _ _ _ _ Hn). simpl. rewrite (no_size _ _ _ _ Hn). lia. }
  rewrite Hlen, Nat.leb_refl. by rewrite take_ge by lia.
Qed.

(** ** markDelete, then unmarkDelete *)
Lemma unmark_after_mark s label i :
  index_ok s → label_lookup_ s !! label = Some i → live s i = true →
  ∃ s', markDelete label s = (s', Ok tt) ∧ unmarkDelete label s' = (s, Ok tt).
Proof.
  intros Hix Hl Hlive. pose proof (ix_graph _ Hix) as Hg.
  destruct (ix_labels _ Hix) as [L1 _]. destruct (L1 _ _ Hl) as [Hi _].
  destruct (live_el s i Hg Hi) as (e & He & Hle). rewrite Hlive in Hle. symmetry in Hle.
  apply negb_true_iff in Hle. destruct (ok_reads s i Hg Hi) as (_ & _ & Hdel).
  assert (num_deleted_ s < 18446744073709551615) as Hnum.
  { destruct (ix_marks _ Hix) as [-> _]. pose proof (go_count _ Hg).
    destruct (go_cfg _ Hg) as (_ & _ & _ & _ & _ & _ & ? & _).
    assert (length (deleted_ids s) ≤ N.to_nat (cur_element_count s))%nat; [|lia].
    unfold deleted_ids. etrans; [apply length_filter|]. by rewrite length_fmap, length_seq. }
  assert (allow_replace_deleted_ (cfg s) = true → i ∉ deleted_elements s) as Hni.
  { intros Ha. destruct (ix_marks _ Hix) as [_ ->]. rewrite Ha, elem_of_list_to_set, elem_deleted_ids, Hlive.
    by intros [_ ?]. }
  eexists. split.
  { unfold markDelete, markDeletedInternal. by rewrite Hl, (proj2 (N.leb_gt _ _)), Hdel, Hlive by done. }
  unfold unmarkDelete, unmarkDeletedInternal. cbn [label_lookup_ set_deleted].
  unfold put_mark. rewrite He. cbn [label_lookup_ put_el set_level0]. rewrite Hl. cbn [cur_element_count].
  rewrite (proj2 (N.leb_gt _ _)) by done. unfold isMarkedDeleted, get_linklist0, get_el. simpl.
  pose proof (go_count _ Hg). decide_cmp. rewrite lookup_insert_eq. simpl.
  rewrite deleted_mark. simpl. f_equal. unfold put_el, set_level0, set_deleted. simpl.
  rewrite insert_insert_eq, (unmark_mark _ Hle).
  replace {| el_ll := el_ll e; el_data := el_data e; el_label := el_label e |} with e by by destruct e.
  rewrite insert_id by done.
  replace ((num_deleted_ s + 1 + 18446744073709551615) mod 18446744073709551616) with (num_deleted_ s).
  2:{ replace (num_deleted_ s + 1 + 18446744073709551615) with (num_deleted_ s + 1 * 18446744073709551616) by lia.
      by rewrite N.Div0.mod_add, N.mod_small by lia. }
  destruct s as [c n nd ml ep m0 up lv lk de vp lg ug md mh]. simpl in *. f_equal.
  destruct (allow_replace_deleted_ c); [|done]. specialize (Hni eq_refl).
  apply leibniz_equiv. intros x. rewrite elem_of_difference, elem_of_union, elem_of_singleton.
  split; [tauto|]. intros Hx. split; [by right|]. by intros ->.
Qed.

(** ** checkIntegrity *)

(** The counter of [j] is positive. *)
Definition counted (inbound : list N) (j : tableint) : Prop := ∃ n, inbound !! N.to_nat j = Some n ∧ 0 < n.

(** From the counters [inb] the loop ends in [inb'], which counts the targets [P] too. *)
Definition counts (inb inb' : list N) (P : tableint → Prop) : Prop :=
  length inb' = length inb ∧ ∀ j, (N.to_nat j < length inb)%nat → counted inb' j ↔ counted inb j ∨ P j.
Lemma counts_trans inb1 inb2 inb3 P Q : counts inb1 inb2 P → counts inb2 inb3 Q →
  counts inb1 inb3 (λ j, P j ∨ Q j).
Proof.
  intros [H1 H2] [H3 H4]. split; [congruence|]. intros j Hj. rewrite H4 by congruence. rewrite H2 by done. tauto.
Qed.
Lemma counts_iff inb inb' P Q : (∀ j, P j ↔ Q j) → counts inb inb' P → counts inb inb' Q.
Proof. intros HPQ [H1 H2]. split; [done|]. intros j Hj. by rewrite H2, HPQ. Qed.
Lemma counts_nil inb : counts inb inb (λ _, False).
Proof. split; [done|]. tauto. Qed.

Lemma ci_targets_ok count i data : ∀ inb,
  Forall (λ t, t < count ∧ t ≠ i) data →
  ∃ inb', ci_targets count i data inb = Ok inb' ∧ counts inb inb' (λ j, j ∈ data).
Proof.
  induction data as [|t data IH]; intros inb Hd; simpl.
  - exists inb. split; [done|]. eapply counts_iff; [|apply counts_nil]. intros j. by rewrite elem_of_nil.
  - apply Forall_cons in Hd as [[H1 H2] Hd]. rewrite (proj2 (N.ltb_lt _ _)), (proj2 (N.eqb_neq _ _)) by done.
    destruct (IH (alter N.succ (N.to_nat t) inb) Hd) as (inb' & -> & Hc). exists inb'. split; [done|].
    apply (counts_iff _ _ (λ j, j = t ∨ j ∈ data)); [intros j; by rewrite elem_of_cons|].
    apply counts_trans with (alter N.succ (N.to_nat t) inb); [|exact Hc].
    split; [apply length_alter|]. intros j Hj. unfold counted.
    destruct (decide (j = t)) as [->|Hne].
    + rewrite list_lookup_alter_eq. destruct (lookup_lt_is_Some_2 _ _ Hj) as [n ->]. simpl.
      split; [by right|]. intros _. exists (N.succ n). split; [done|lia].
    + rewrite list_lookup_alter_ne by (intros E; apply Hne; lia). tauto.
Qed.

Lemma ci_levels_ok n s i : ∀ l inb checked,
  graph_ok s → (0 ≤ l)%Z → at_level s i (l + Z.of_nat n - 1) →
  ∃ inb' c, ci_levels n s i l inb checked = Ok (inb', c) ∧
    counts inb inb' (λ j, ∃ l', (l ≤ l' < l + Z.of_nat n)%Z ∧ j ∈ nbs_at s l' i).
Proof.
  induction n as [|n IH]; intros l inb checked Hg Hl Hat; cbn [ci_levels].
  - eexists _, _. split; [done|]. eapply counts_iff; [|apply counts_nil]. intros j. split; [done|].
    intros (l' & ? & _). lia.
  - assert (at_level s i l) as Hat' by (eapply at_level_le; [exact Hat|lia]).
    destruct (ok_links s i l Hg Hl Hat') as (ll & Hget & (O1 & O2 & O3 & O4 & _) & Hlinks).
    assert (nbs_at s l i = ll_ids ll) as Hnb by (unfold nbs_at; by rewrite Hget).
    rewrite Hget. cbn [res_bind]. rewrite Hlinks. cbn [res_bind].
    destruct (ci_targets_ok (cur_element_count s) i (nbs_at s l i) inb) as (inb1 & -> & Hc1).
    { rewrite Hnb. eapply Forall_impl; [exact O4|]. intros j [? [? _]]. done. }
    cbn [res_bind]. rewrite bool_decide_eq_true_2 by (apply size_list_to_set; by rewrite Hnb).
    destruct (IH (l + 1)%Z inb1 (checked + N.of_nat (length (nbs_at s l i)))) as (inb' & c & Hrun & Hc2); [done|lia| |].
    { eapply at_level_le; [exact Hat|lia]. }
    exists inb', c. split; [done|]. eapply counts_iff; [|by eapply counts_trans]. intros j. simpl. split.
    + intros [Hj|(l' & ? & Hj)]; [exists l|exists l']; split; try done; lia.
    + intros (l' & Hl' & Hj). destruct (decide (l' = l)) as [->|]; [by left|right]. exists l'. split; [lia|done].
Qed.

(** [j] is the target of a link of one of the elements below [n]. *)
Definition linked_from s (lo hi : tableint) j : Prop :=
  ∃ i l, lo ≤ i < hi ∧ (0 ≤ l)%Z ∧ at_level s i l ∧ j ∈ nbs_at s l i.

Lemma ci_elements_ok n s : ∀ i inb checked,
  graph_ok s → i + N.of_nat n ≤ cur_element_count s →
  ∃ inb' c, ci_elements n s i inb checked = Ok (inb', c) ∧ counts inb inb' (linked_from s i (i + N.of_nat n)).
Proof.
  induction n as [|n IH]; intros i inb checked Hg Hi; cbn [ci_elements].
  - eexists _, _. split; [done|]. eapply counts_iff; [|apply counts_nil]. intros j. split; [done|].
    intros (i' & l & ? & _). lia.
  - destruct (go_node _ Hg i) as (e & lv & Hn); [lia|].
    pose proof (no_level _ _ _ _ Hn) as Hlv. pose proof (no_pos _ _ _ _ Hn) as Hpos. unfold level_of in Hlv.
    unfold get_level. rewrite Hlv. cbn [of_opt res_bind].
    destruct (ci_levels_ok (Z.to_nat (lv + 1)) s i 0 inb checked) as (inb1 & c1 & -> & Hc1); [done|lia| |].
    { split; [lia|]. exists lv. split; [done|lia]. }
    cbn [res_bind fst snd]. destruct (IH (i + 1) inb1 c1) as (inb' & c & Hrun & Hc2); [done|lia|].
    exists inb', c. split; [done|]. eapply counts_iff; [|by eapply counts_trans]. intros j. simpl. split.
    + intros [(l & Hl & Hj)|(i' & l & Hi' & Hl & Hat & Hj)].
      * exists i, l. split_and!; [lia|lia|lia| |done]. split; [lia|]. exists lv. split; [done|lia].
      * exists i', l. split_and!; try done; lia.
    + intros (i' & l & Hi' & Hl & Hat & Hj). destruct (decide (i' = i)) as [->|].
      * left. exists l. split; [|done]. destruct Hat as (_ & lv' & Hlv' & ?). unfold level_of in Hlv'.
        assert (lv' = lv) as -> by congruence. lia.
      * right. exists i', l. split_and!; try done; lia.
Qed.

Lemma counted_replicate n j : ¬ counted (replicate n 0) j.
Proof. intros (m & [-> _]%lookup_replicate & ?). lia. Qed.

Lemma checkIntegrity_spec s :
  graph_ok s →
  ((1 < cur_element_count s → ∀ j, j < cur_element_count s → linked_from s 0 (cur_element_count s) j) ∧
   ∃ r, checkIntegrity s = Ok r) ∨
  ((1 < cur_element_count s ∧ ∃ j, j < cur_element_count s ∧ ¬ linked_from s 0 (cur_element_count s) j) ∧
   checkIntegrity s = Undef "assert(inbound_connections_num[i] > 0)").
Proof.
  intros Hg. unfold checkIntegrity. set (n := N.to_nat (cur_element_count s)).
  destruct (ci_elements_ok n s 0 (replicate n 0) 0 Hg) as (inb & c & -> & Hlen & Hc); [unfold n; lia|].
  rewrite length_replicate in *. cbn [res_bind fst].
  replace (0 + N.of_nat n) with (cur_element_count s) in Hc by (unfold n; lia).
  destruct (forallb (N.ltb 0) inb) eqn:Hall; cbn [negb].
  - rewrite andb_false_r. left. split; [|by eexists]. intros _ j Hj.
    destruct (Hc j) as [Hc1 _]; [unfold n; lia|]. destruct Hc1 as [H|H]; [|by apply counted_replicate in H|done].
    destruct (lookup_lt_is_Some_2 inb (N.to_nat j)) as [m Hm]; [rewrite Hlen; unfold n; lia|].
    exists m. split; [done|]. rewrite forallb_forall in Hall. apply N.ltb_lt, Hall.
    apply list_elem_of_In. by eapply list_elem_of_lookup_2.
  - rewrite andb_true_r. destruct (Nat.ltb_spec 1 n) as [Hn|Hn].
    + right. split; [|done]. split; [unfold n in Hn; lia|].
      assert (∃ k m, inb !! k = Some m ∧ m = 0) as (k & m & Hk & ->).
      { clear -Hall. induction inb as [|x inb IH]; simpl in Hall; [done|].
        apply andb_false_iff in Hall as [Hx|Hx].
        - exists 0%nat, x. split; [done|]. apply N.ltb_ge in Hx. lia.
        - destruct (IH Hx) as (k & m & ? & ?). by exists (S k), m. }
      pose proof (lookup_lt_Some _ _ _ Hk) as Hlt. rewrite Hlen in Hlt.
      exists (N.of_nat k). split; [unfold n in Hlt; lia|]. intros Hl.
      destruct (Hc (N.of_nat k)) as [_ Hc2]; [lia|]. destruct (Hc2 (or_intror Hl)) as (m & Hm & ?).
      rewrite Nat2N.id, Hk in Hm. injection Hm as <-. lia.
    + left. split; [|by eexists]. unfold n in Hn. lia.
Qed.
End checks.
