(* ===== verification/HnswSpec.v ===== *)
(** * What an index promises: a labelled collection

    The contract of hnswalg.h towards its callers, without graph, levels and
    slots: a capacity and a finite map from labels to vectors with a deletion
    flag.  [spec_step] gives, for each public operation that changes the
    contents, the new map and the answer, exceptions included; which deleted
    element [addPoint] reuses is left open.  The index implements it as long as
    [op_safe] holds: outside of it the code reaches [back()] of an empty vector
    or gives one label to two elements (HnswFindings.v). *)

From Stdlib Require Import ZArith Lia.
From stdpp Require Import base numbers list gmap strings sorting relations.
From S2P Require Import Prelude Heap VisitedList Arith BeamSearch Hnsw HnswSearch HnswInsert HnswWf.
From S2P Require Import HnswSearchLaws HnswKnn HeuristicLaws HnswConnectLaws HnswAddLaws HnswUpdateLaws HnswIndexLaws.
#[local] Open Scope N_scope.

(** ** The collection *)
Record spec := mkSpec {
  sp_cap : N;
  sp_size : N;
  sp_allow : bool;
  sp_items : gmap labeltype (point * bool)
}.
Definition with_items (m : gmap labeltype (point * bool)) (σ : spec) : spec :=
  mkSpec (sp_cap σ) (sp_size σ) (sp_allow σ) m.
Definition with_cap (n : N) (σ : spec) : spec := mkSpec n (sp_size σ) (sp_allow σ) (sp_items σ).

Inductive op :=
| OpAdd (data_point : point) (label : labeltype) (replace_deleted : bool)
| OpMark (label : labeltype)
| OpUnmark (label : labeltype)
| OpResize (new_max_elements : N).

Definition all_items_live (σ : spec) : Prop := map_Forall (λ _ x, x.2 = true) (sp_items σ).
#[global] Instance all_items_live_dec σ : Decision (all_items_live σ).
Proof. unfold all_items_live. apply _. Defined.

Definition put_item (σ : spec) (label : labeltype) (q : point) : spec :=
  with_items (<[label := (take (N.to_nat (sp_size σ)) q, true)]> (sp_items σ)) σ.

(** [addPoint(data_point, label, -1)] on the collection. *)
Definition spec_add (σ : spec) (q : point) (label : labeltype) : spec * res unit :=
  match sp_items σ !! label with
  | Some (_, false) =>
      if sp_allow σ
      then (σ, Throw "Can't use addPoint to update deleted elements if replacement of deleted elements is enabled.")
      else (put_item σ label q, Ok tt)
  | Some (_, true) => (put_item σ label q, Ok tt)
  | None =>
      if sp_cap σ <=? N.of_nat (size (sp_items σ))
      then (σ, Throw "The number of elements exceeds the specified limit")
      else (put_item σ label q, Ok tt)
  end.

Definition spec_mark (σ : spec) (label : labeltype) : spec * res unit :=
  match sp_items σ !! label with
  | None => (σ, Throw "Label not found")
  | Some (_, false) => (σ, Throw "The requested to delete element is already deleted")
  | Some (p, true) => (with_items (<[label := (p, false)]> (sp_items σ)) σ, Ok tt)
  end.
Definition spec_unmark (σ : spec) (label : labeltype) : spec * res unit :=
  match sp_items σ !! label with
  | None => (σ, Throw "Label not found")
  | Some (_, true) => (σ, Throw "The requested to undelete element is not deleted")
  | Some (p, false) => (with_items (<[label := (p, true)]> (sp_items σ)) σ, Ok tt)
  end.

Inductive spec_step (σ : spec) : op → spec → res unit → Prop :=
| SAdd q label : spec_step σ (OpAdd q label false) (spec_add σ q label).1 (spec_add σ q label).2
| SReplaceDisabled q label : sp_allow σ = false →
    spec_step σ (OpAdd q label true) σ (Throw "Replacement of deleted elements is disabled in constructor")
| SReplaceNone q label : sp_allow σ = true → all_items_live σ →
    spec_step σ (OpAdd q label true) (spec_add σ q label).1 (spec_add σ q label).2
| SReplace q label old p : sp_allow σ = true → sp_items σ !! old = Some (p, false) →
    spec_step σ (OpAdd q label true) (put_item (with_items (delete old (sp_items σ)) σ) label q) (Ok tt)
| SMark label : spec_step σ (OpMark label) (spec_mark σ label).1 (spec_mark σ label).2
| SUnmark label : spec_step σ (OpUnmark label) (spec_unmark σ label).1 (spec_unmark σ label).2
| SResize n : N.of_nat (size (sp_items σ)) ≤ n → spec_step σ (OpResize n) (with_cap n σ) (Ok tt)
| SResizeSmall n : n < N.of_nat (size (sp_items σ)) →
    spec_step σ (OpResize n) σ
      (Throw "Cannot resize, max element is less than the current number of elements").

(** The calls the index supports: full vectors; a new label only while nothing
    is deleted; reuse of a slot only for a label that is not in the index;
    fewer elements than [tableint] and the [int] loops can number. *)
Definition op_safe (σ : spec) (o : op) : Prop :=
  match o with
  | OpAdd q label false =>
      (N.to_nat (sp_size σ) ≤ length q)%nat ∧ (sp_items σ !! label = None → all_items_live σ)
  | OpAdd q label true =>
      (N.to_nat (sp_size σ) ≤ length q)%nat ∧ (sp_items σ !! label = None ∨ all_items_live σ)
  | OpResize n => n ≤ 2147483648
  | OpMark _ | OpUnmark _ => True
  end.
#[global] Instance op_safe_dec σ o : Decision (op_safe σ o).
Proof. destruct o as [q label []|?|?|?]; simpl; apply _. Defined.

(** Sequences of calls, safe whichever deleted elements are reused. *)
Fixpoint ops_safe (σ : spec) (os : list op) : Prop :=
  match os with
  | [] => True
  | o :: os => op_safe σ o ∧ ∀ σ' r, spec_step σ o σ' r → ops_safe σ' os
  end.
Inductive spec_steps : spec → list op → spec → list (res unit) → Prop :=
| SSNil σ : spec_steps σ [] σ []
| SSCons σ o σ1 r os σ2 rs :
    spec_step σ o σ1 r → spec_steps σ1 os σ2 rs → spec_steps σ (o :: os) σ2 (r :: rs).

(** ** The index as a collection *)
Section refine.
Context `{RE : RandomEngine} `{HI : HeapImpl} `{AL : Alloc} `{HS : HashOrder}.
Context {D : Type} `{HD : DistT D} `{HO : !DistOrder D}.
Variable fstdistfunc_ : point → point → D.
Implicit Types (s : hnsw) (i j : tableint).

Definition exec (o : op) : eff hnsw unit :=
  match o with
  | OpAdd q label r => addPoint fstdistfunc_ q label r
  | OpMark label => markDelete label
  | OpUnmark label => unmarkDelete label
  | OpResize n => resizeIndex n
  end.
Fixpoint execs (os : list op) s : hnsw * list (res unit) :=
  match os with
  | [] => (s, [])
  | o :: os => let '(s1, r) := exec o s in let '(s2, rs) := execs os s1 in (s2, r :: rs)
  end.

Definition contents s : gmap labeltype (point * bool) :=
  (λ i, (data_of s i, live s i)) <$> label_lookup_ s.
Definition abstraction s : spec :=
  mkSpec (max_elements_ (cfg s)) (data_size_ (cfg s)) (allow_replace_deleted_ (cfg s)) (contents s).

Lemma lookup_contents s lab : contents s !! lab = view s lab.
Proof. unfold contents, view. rewrite lookup_fmap. by destruct (label_lookup_ s !! lab). Qed.

(** As many labels as elements. *)
Lemma size_contents s : index_ok s → N.of_nat (size (contents s)) = cur_element_count s.
Proof.
  intros Hix. destruct (ix_labels _ Hix) as [L1 L2]. unfold contents. rewrite map_size_fmap.
  set (n := N.to_nat (cur_element_count s)).
  set (l := (λ k, (label_of s (N.of_nat k), N.of_nat k)) <$> seq 0 n).
  assert (NoDup l.*1) as Hnd.
  { unfold l. rewrite <- list_fmap_compose. apply NoDup_fmap_2_strong; [|apply NoDup_seq].
    intros x y Hx%elem_of_seq Hy%elem_of_seq E. simpl in E. unfold n in *.
    assert (Some (N.of_nat x) = Some (N.of_nat y)) as [= ?]; [|lia].
    rewrite <- !L2 by lia. by rewrite E. }
  assert (label_lookup_ s = list_to_map l) as ->.
  { symmetry. apply map_eq. intros lab. apply option_eq. intros i.
    rewrite <- elem_of_list_to_map by done. unfold l. rewrite list_elem_of_fmap. split.
    - intros (k & [= -> ->] & Hk%elem_of_seq). apply L2. unfold n in Hk. lia.
    - intros Hi. destruct (L1 _ _ Hi) as [? <-]. exists (N.to_nat i). rewrite N2Nat.id.
      split; [done|]. apply elem_of_seq. unfold n. lia. }
  rewrite map_size_list_to_map by done. unfold l. rewrite length_fmap, length_seq. unfold n. lia.
Qed.

(** The contents after a change of one label. *)
Lemma contents_insert s s' lab x :
  (∀ lab', view s' lab' = if decide (lab' = lab) then Some x else view s lab') →
  contents s' = <[lab := x]> (contents s).
Proof.
  intros H. apply map_eq. intros lab'. rewrite lookup_contents, H, lookup_insert. rewrite lookup_contents.
  destruct (decide (lab' = lab)), (decide (lab = lab')); congruence.
Qed.

Lemma items_live s : index_ok s → all_items_live (abstraction s) ↔ ∀ i, i < cur_element_count s → live s i = true.
Proof.
  intros Hix. destruct (ix_labels _ Hix) as [L1 L2]. unfold all_items_live. simpl. split.
  - intros H i Hi. apply (H (label_of s i) (data_of s i, live s i)).
    rewrite lookup_contents. unfold view. by rewrite L2.
  - intros H lab x. rewrite lookup_contents. unfold view. destruct (label_lookup_ s !! lab) as [i|] eqn:E; simpl; [|done].
    intros [= <-]. simpl. by apply H, (L1 lab).
Qed.

(** ** Runs of the operations *)
Lemma addPoint_unfold s q label :
  addPoint fstdistfunc_ q label false s =
  eff_bind (addPointLevel fstdistfunc_ q label (-1)) (λ _, eff_ret tt) s.
Proof.
  unfold addPoint. rewrite eff_bind_ok with (s' := s) (a := allow_replace_deleted_ (cfg s)) by done.
  by rewrite andb_false_r.
Qed.

Lemma addPoint_insert_run s q label curlevel :
  index_ok s → label_lookup_ s !! label = None → cur_element_count s < max_elements_ (cfg s) →
  (N.to_nat (data_size_ (cfg s)) ≤ length q)%nat →
  (random_level (mult_ (cfg s)) (level_generator_ s)).1 = Some curlevel →
  (live s (enterpoint_node_ s) = false ∨ ∀ i, i < cur_element_count s → live s i = true) →
  ∃ s', addPoint fstdistfunc_ q label false s = (s', Ok tt) ∧
    added s s' (cur_element_count s) label (take (N.to_nat (data_size_ (cfg s))) q) curlevel.
Proof.
  intros Hix Hl Hroom Hq Hr Hlive.
  destruct (addPoint_new_wp fstdistfunc_ s q label (-1) curlevel) as (s' & c & Hrun & Had); try done.
  { by rewrite Hr. }
  exists s'. rewrite <- (ad_id _ _ _ _ _ _ Had). split; [|done].
  by rewrite addPoint_unfold, (eff_bind_ok _ _ _ _ _ Hrun).
Qed.

(** What an operation on the element of [label] leaves. *)
Record label_set s s' (label : labeltype) (p : point) : Prop := {
  ls_index : index_ok s';
  ls_cfg : cfg s' = cfg s;
  ls_count : cur_element_count s' = cur_element_count s;
  ls_view lab : view s' lab = if decide (lab = label) then Some (p, true) else view s lab
}.

Lemma update_existing_wp s q label i :
  index_ok s → label_lookup_ s !! label = Some i → (N.to_nat (data_size_ (cfg s)) ≤ length q)%nat →
  (allow_replace_deleted_ (cfg s) = false ∨ live s i = true) →
  eff_wp (addPointLevel fstdistfunc_ q label (-1))
    (λ s' _, label_set s s' label (take (N.to_nat (data_size_ (cfg s))) q)) s.
Proof.
  intros Hix Hl Hq Hok. pose proof (ix_graph _ Hix) as Hg.
  destruct (ix_labels _ Hix) as [L1 _]. destruct (L1 _ _ Hl) as [Hi _].
  destruct (ok_reads s i Hg Hi) as (_ & _ & Hdel).
  unfold addPointLevel. apply wp_bind, wp_get. rewrite Hl. apply wp_bind, wp_get. wp_read Hdel.
  assert (allow_replace_deleted_ (cfg s) && negb (live s i) = false) as ->.
  { destruct Hok as [->| ->]; [done|]. apply andb_false_r. }
  eapply (wp_seq _ _ (λ s1 _, index_ok s1 ∧ cfg s1 = cfg s ∧ cur_element_count s1 = cur_element_count s ∧
    label_lookup_ s1 = label_lookup_ s ∧ live s1 i = true ∧ ∀ lab, lab ≠ label → view s1 lab = view s lab)).
  - destruct (live s i) eqn:Hlive; [by apply wp_ret|].
    destruct (unmarkDeletedInternal_ok s i Hix Hi Hlive) as (s1 & H0 & H1 & H2 & H3 & H4 & _ & H5 & _ & H6).
    exists s1, tt. split_and!; try done. intros lab Hne.
    rewrite (view_flag s s1 label i true Hix Hl) by done. by rewrite decide_False.
  - intros s1 _u (H1 & H2 & H3 & H4 & H5 & H6).
    eapply wp_seq; [apply (updatePoint_wp fstdistfunc_ s1 q i p_one); rewrite ?H2, ?H3; done|].
    intros s2 u Hu. apply wp_ret. split.
    + apply Hu.
    + by rewrite (up_cfg _ _ _ _ Hu).
    + by rewrite (up_count _ _ _ _ Hu).
    + rewrite <- H4 in Hl. intros lab. rewrite (updated_view s1 s2 i _ label H1 Hu Hl H5), H2.
      destruct (decide (lab = label)); [done|]. auto.
Qed.
Lemma addPoint_update_run s q label i :
  index_ok s → label_lookup_ s !! label = Some i → (N.to_nat (data_size_ (cfg s)) ≤ length q)%nat →
  (allow_replace_deleted_ (cfg s) = false ∨ live s i = true) →
  ∃ s', addPoint fstdistfunc_ q label false s = (s', Ok tt) ∧
    label_set s s' label (take (N.to_nat (data_size_ (cfg s))) q).
Proof.
  intros Hix Hl Hq Hok. destruct (update_existing_wp s q label i Hix Hl Hq Hok) as (s' & c & Hrun & Hpost).
  exists s'. split; [|done]. by rewrite addPoint_unfold, (eff_bind_ok _ _ _ _ _ Hrun).
Qed.

Lemma addPoint_replace_run s q label :
  let i := set_begin (deleted_elements s) in
  index_ok s → deleted_elements s ≠ ∅ → (N.to_nat (data_size_ (cfg s)) ≤ length q)%nat →
  (label_lookup_ s !! label = None ∨ label = label_of s i) →
  ∃ s', addPoint fstdistfunc_ q label true s = (s', Ok tt) ∧ index_ok s' ∧ cfg s' = cfg s ∧
    cur_element_count s' = cur_element_count s ∧
    ∀ lab, view s' lab = if decide (lab = label) then Some (take (N.to_nat (data_size_ (cfg s))) q, true)
                         else if decide (lab = label_of s i) then None else view s lab.
Proof.
  intros i Hix Hne Hq Hfree.
  destruct (set_begin_deleted s Hix Hne) as (Hallow & Hi & Hdel & e & He & Hlab). fold i in Hi, Hdel, He, Hlab.
  rewrite Hlab in *. pose proof (num_deleted_pos s i Hix Hi Hdel) as Hnum.
  pose proof (rep_run s i e label _ Hix Hi He Hdel Hfree Hallow Hnum eq_refl) as Hrun.
  set (s1 := set_deleted _ _ (set_lookup _ (put_el i _ s))) in Hrun.
  assert (index_ok s1) as Hix1 by by apply rep_index.
  assert (live s1 i = true) as Hlive1 by (unfold s1; by rewrite rep_live, decide_True).
  destruct (updatePoint_wp fstdistfunc_ s1 q i p_one) as (s2 & u & Hup & Hu); [done..|].
  exists s2. split_and!.
  - unfold addPoint. rewrite eff_bind_ok with (s' := s) (a := true) by by rewrite <- Hallow.
    cbn [negb andb]. erewrite eff_bind_ok by done. rewrite bool_decide_eq_false_2 by done. fold i.
    by rewrite (eff_bind_ok _ _ _ _ _ Hrun), Hup; destruct u.
  - apply Hu.
  - by rewrite (up_cfg _ _ _ _ Hu).
  - by rewrite (up_count _ _ _ _ Hu).
  - intros lab. rewrite (updated_view s1 s2 i _ label Hix1 Hu); [|apply rep_label|done].
    destruct (decide (lab = label)); [done|]. unfold s1. by apply rep_view.
Qed.

(** ** Simulation *)

(** A draw of 0 has no level; the theorems are about the runs without it. *)
Hypothesis level_total : ∀ M g, 2 ≤ M → (random_level (inv_log M) g).1 ≠ None.

(** [s'] is what the collection [σ'] stands for. *)
Definition implements s' (σ' : spec) : Prop := index_ok s' ∧ 2 ≤ M_ (cfg s') ∧ abstraction s' = σ'.

Lemma implements_intro s s' m :
  index_ok s' → cfg s' = cfg s → 2 ≤ M_ (cfg s) → contents s' = m → implements s' (with_items m (abstraction s)).
Proof. intros ? Hc ? <-. unfold implements, abstraction, with_items. rewrite Hc. done. Qed.
Lemma implements_refl s : index_ok s → 2 ≤ M_ (cfg s) → implements s (abstraction s).
Proof. by split. Qed.

Lemma new_implements size n M efc seed allow : 2 ≤ M → n ≤ 2147483648 →
  implements (HierarchicalNSW_new size n M efc seed allow) (mkSpec n size allow ∅).
Proof.
  intros HM Hn. split_and!; [apply new_index_ok; lia| |].
  - simpl. destruct (N.leb_spec M 10000); lia.
  - unfold abstraction, contents. simpl. by rewrite fmap_empty.
Qed.

Lemma sim_addLevel s q label :
  implements s (abstraction s) → (N.to_nat (data_size_ (cfg s)) ≤ length q)%nat →
  (contents s !! label = None → all_items_live (abstraction s)) →
  ∃ s', addPoint fstdistfunc_ q label false s = (s', (spec_add (abstraction s) q label).2) ∧
    implements s' (spec_add (abstraction s) q label).1.
Proof.
  intros (Hix & HM & _) Hq Hnew. unfold spec_add. simpl. rewrite lookup_contents in *.
  destruct (ix_labels _ Hix) as [L1 _]. unfold view in *.
  destruct (label_lookup_ s !! label) as [i|] eqn:Hl; simpl in *.
  - destruct (ok_reads s i (ix_graph _ Hix)) as (_ & _ & Hdel); [by eapply L1|].
    assert (allow_replace_deleted_ (cfg s) = false ∨ live s i = true →
      ∃ s', addPoint fstdistfunc_ q label false s = (s', Ok tt) ∧ implements s' (put_item (abstraction s) label q)) as Hup.
    { intros Hok. destruct (addPoint_update_run s q label i) as (s' & Hrun & [U1 U2 _ U4]); [done..|].
      exists s'. split; [done|]. apply implements_intro; try done. by apply contents_insert. }
    destruct (live s i) eqn:Hlive; [by apply Hup; right|].
    destruct (allow_replace_deleted_ (cfg s)) eqn:Hal; [|by apply Hup; left].
    exists s. split; [|by split]. rewrite addPoint_unfold. unfold addPointLevel, eff_bind, eff_get, eff_lift.
    by rewrite Hl, Hal, Hdel.
  - rewrite size_contents by done. destruct (N.leb_spec (max_elements_ (cfg s)) (cur_element_count s)) as [Hfull|Hroom].
    + exists s. split; [|by split]. rewrite addPoint_unfold. unfold addPointLevel, eff_bind, eff_get.
      rewrite Hl. by rewrite (proj2 (N.leb_le _ _)).
    + destruct ((random_level (mult_ (cfg s)) (level_generator_ s)).1) as [lv|] eqn:Hr.
      2:{ destruct (go_cfg _ (ix_graph _ Hix)) as (_ & _ & _ & _ & _ & _ & _ & Hm). rewrite Hm in Hr.
          by apply level_total in Hr. }
      destruct (addPoint_insert_run s q label lv) as (s' & Hrun & Had); try done.
      { right. by apply items_live, Hnew. }
      exists s'. split; [done|]. apply implements_intro; [apply Had|apply Had|done|].
      apply contents_insert. intros lab. apply (ad_view _ _ _ _ _ _ Had).
Qed.

Lemma no_deleted_items s : index_ok s → allow_replace_deleted_ (cfg s) = true →
  deleted_elements s = ∅ ↔ all_items_live (abstraction s).
Proof.
  intros Hix Hal. rewrite items_live by done. destruct (ix_marks _ Hix) as [_ M2]. rewrite Hal in M2. rewrite M2.
  split.
  - intros He i Hi. destruct (live s i) eqn:Hl; [done|].
    assert (i ∈ (list_to_set (deleted_ids s) : gset tableint)) as Hin.
    { apply elem_of_list_to_set. by apply elem_deleted_ids. }
    rewrite He in Hin. by apply elem_of_empty in Hin.
  - intros Hlive. apply leibniz_equiv, elem_of_equiv_empty. intros i Hin.
    apply elem_of_list_to_set, elem_deleted_ids in Hin as [Hi Hd]. rewrite Hlive in Hd; done.
Qed.

Lemma sim_add s q label r :
  implements s (abstraction s) → op_safe (abstraction s) (OpAdd q label r) →
  ∃ s' σ' x, addPoint fstdistfunc_ q label r s = (s', x) ∧ implements s' σ' ∧
    spec_step (abstraction s) (OpAdd q label r) σ' x.
Proof.
  intros Hs Hsafe. pose proof Hs as (Hix & HM & _). destruct r; simpl in Hsafe; destruct Hsafe as [Hq Hnew].
  2:{ destruct (sim_addLevel s q label Hs Hq Hnew) as (s' & Hrun & Hs'). eexists s', _, _.
      split_and!; [done|done|constructor]. }
  destruct (allow_replace_deleted_ (cfg s)) eqn:Hal.
  2:{ eexists s, _, _. split_and!; [|done|by constructor]. unfold addPoint, eff_bind, eff_get. by rewrite Hal. }
  destruct (decide (deleted_elements s = ∅)) as [Hno|Hyes].
  - assert (all_items_live (abstraction s)) as Hlive by by apply no_deleted_items.
    destruct (sim_addLevel s q label Hs Hq (λ _, Hlive)) as (s' & Hrun & Hs'). eexists s', _, _.
    split_and!; [|done|by constructor]. rewrite <- Hrun, addPoint_unfold.
    unfold addPoint. erewrite eff_bind_ok by done. rewrite Hal. cbn [negb andb].
    erewrite eff_bind_ok by done. by rewrite bool_decide_eq_true_2.
  - destruct Hnew as [Hnew|Hnew]; [|by apply no_deleted_items in Hnew].
    rewrite lookup_contents in Hnew. unfold view in Hnew.
    destruct (set_begin_deleted s Hix Hyes) as (_ & Hi & Hd & _).
    set (i := set_begin (deleted_elements s)) in *.
    destruct (addPoint_replace_run s q label Hix Hyes Hq) as (s' & Hrun & Hix' & Hc & _ & Hv).
    { left. by destruct (label_lookup_ s !! label). }
    eexists s', _, _. split_and!; [exact Hrun| |].
    2:{ apply (SReplace _ _ _ (label_of s i) (data_of s i)); [done|]. simpl. rewrite lookup_contents.
        unfold view. destruct (ix_labels _ Hix) as [_ L2]. rewrite L2 by done. simpl. by rewrite Hd. }
    apply implements_intro; try done. apply map_eq. intros lab. simpl.
    rewrite lookup_contents, Hv, lookup_insert, lookup_delete, lookup_contents. fold i.
    destruct (decide (lab = label)), (decide (label = lab)), (decide (lab = label_of s i)),
      (decide (label_of s i = lab)); congruence.
Qed.

Lemma sim_mark s label :
  implements s (abstraction s) →
  ∃ s', markDelete label s = (s', (spec_mark (abstraction s) label).2) ∧ implements s' (spec_mark (abstraction s) label).1.
Proof.
  intros Hs. pose proof Hs as (Hix & HM & _). unfold markDelete, spec_mark. simpl. rewrite lookup_contents.
  destruct (ix_labels _ Hix) as [L1 _]. unfold view.
  destruct (label_lookup_ s !! label) as [i|] eqn:Hl; simpl; [|by exists s].
  destruct (L1 _ _ Hl) as [Hi _]. destruct (live s i) eqn:Hlive.
  - destruct (markDeletedInternal_ok s i) as (s' & Hrun & Hix' & Hc & _ & _ & _ & Hv); [done..|].
    exists s'. split; [done|]. apply implements_intro; try done. apply contents_insert. intros lab.
    rewrite (view_flag s s' label i false Hix Hl Hv). destruct (decide (lab = label)) as [->|]; [|done].
    unfold view. by rewrite Hl.
  - destruct (ok_reads s i (ix_graph _ Hix) Hi) as (_ & _ & Hd). exists s. split; [|done].
    unfold markDeletedInternal. by rewrite (proj2 (N.leb_gt _ _)), Hd, Hlive by done.
Qed.
Lemma sim_unmark s label :
  implements s (abstraction s) →
  ∃ s', unmarkDelete label s = (s', (spec_unmark (abstraction s) label).2) ∧ implements s' (spec_unmark (abstraction s) label).1.
Proof.
  intros Hs. pose proof Hs as (Hix & HM & _). unfold unmarkDelete, spec_unmark. simpl. rewrite lookup_contents.
  destruct (ix_labels _ Hix) as [L1 _]. unfold view.
  destruct (label_lookup_ s !! label) as [i|] eqn:Hl; simpl; [|by exists s].
  destruct (L1 _ _ Hl) as [Hi _]. destruct (live s i) eqn:Hlive.
  - destruct (ok_reads s i (ix_graph _ Hix) Hi) as (_ & _ & Hd). exists s. split; [|done].
    unfold unmarkDeletedInternal. by rewrite (proj2 (N.leb_gt _ _)), Hd, Hlive by done.
  - destruct (unmarkDeletedInternal_ok s i) as (s' & Hrun & Hix' & Hc & _ & _ & _ & _ & _ & Hv); [done..|].
    exists s'. split; [done|]. apply implements_intro; try done. apply contents_insert. intros lab.
    rewrite (view_flag s s' label i true Hix Hl Hv). destruct (decide (lab = label)) as [->|]; [|done].
    unfold view. by rewrite Hl.
Qed.

Lemma sim_resize s n :
  implements s (abstraction s) → n ≤ 2147483648 →
  ∃ s' σ' x, resizeIndex n s = (s', x) ∧ implements s' σ' ∧ spec_step (abstraction s) (OpResize n) σ' x.
Proof.
  intros Hs Hn. pose proof Hs as (Hix & HM & _). pose proof (size_contents s Hix) as Hsz.
  destruct (N.lt_ge_cases n (cur_element_count s)) as [Hlt|Hge].
  - eexists s, _, _. split_and!; [|exact Hs|apply SResizeSmall; simpl; lia].
    unfold resizeIndex. by rewrite (proj2 (N.ltb_lt _ _)).
  - destruct (resize_index s n Hix Hge Hn) as [Hix' Hv].
    eexists (resizeIndex n s).1, (with_cap n (abstraction s)), (Ok tt).
    assert (resizeIndex n s = ((resizeIndex n s).1, Ok tt)) as Hrun.
    { unfold resizeIndex. by rewrite (proj2 (N.ltb_ge _ _)). }
    assert (cfg (resizeIndex n s).1 = set_max_elements n (cfg s)) as Hc.
    { unfold resizeIndex. by rewrite (proj2 (N.ltb_ge _ _)). }
    split_and!; [done| |apply SResize; simpl; lia]. split_and!; [done|by rewrite Hc|].
    unfold abstraction, with_cap. rewrite Hc. simpl. f_equal. apply map_eq. intros lab.
    by rewrite !lookup_contents, Hv.
Qed.

Lemma sim_op s σ o :
  implements s σ → op_safe σ o →
  ∃ s' σ' x, exec o s = (s', x) ∧ implements s' σ' ∧ spec_step σ o σ' x.
Proof.
  intros Hs. pose proof Hs as (_ & _ & <-). destruct o as [q label r|label|label|n]; simpl; intros Hsafe.
  - by apply sim_add.
  - destruct (sim_mark s label Hs) as (s' & ? & ?). eexists s', _, _. split_and!; [done..|constructor].
  - destruct (sim_unmark s label Hs) as (s' & ? & ?). eexists s', _, _. split_and!; [done..|constructor].
  - by apply sim_resize.
Qed.
Lemma sim_ops os : ∀ s σ, implements s σ → ops_safe σ os →
  ∃ s' σ' rs, execs os s = (s', rs) ∧ implements s' σ' ∧ spec_steps σ os σ' rs.
Proof.
  induction os as [|o os IH]; intros s σ Hs Hsafe; simpl.
  - exists s, σ, []. split_and!; [done..|constructor].
  - destruct Hsafe as [Ho Hos]. destruct (sim_op s σ o Hs Ho) as (s1 & σ1 & x & Hrun & Hs1 & Hst).
    destruct (IH s1 σ1 Hs1 (Hos _ _ Hst)) as (s2 & σ2 & rs & Hruns & Hs2 & Hsts).
    exists s2, σ2, (x :: rs). rewrite Hrun, Hruns. split_and!; [done..|]. by econstructor.
Qed.

(** ** Queries on the collection *)

(** [r] answers a query: at most [k] items of the collection under distinct
    labels, none deleted, each allowed by the filter and with its distance. *)
Record answers (σ : spec) (q : point) (k : N) (flt : option (labeltype → bool)) (r : list (D * labeltype)) : Prop := {
  an_size : N.of_nat (length r) ≤ k;
  an_nodup : NoDup r.*2;
  an_item d lab : (d, lab) ∈ r → ∃ p, sp_items σ !! lab = Some (p, true) ∧ d = fstdistfunc_ q p ∧
    match flt with Some f => f lab = true | None => True end
}.

Lemma knn_answers s q k flt ep V r ids :
  index_ok s → knn_result fstdistfunc_ s q k flt ep V r ids → answers (abstraction s) q k flt r.
Proof.
  intros Hix [K1 K2 K3 K4 _ _ _ _ _]. destruct (ix_labels _ Hix) as [L1 L2]. split.
  - by rewrite K1, length_fmap.
  - rewrite K1, <- list_fmap_compose. apply NoDup_fmap_2_strong; [|done]. intros i j Hi Hj E. simpl in E.
    assert (Some i = Some j) as [= ->]; [|done].
    rewrite <- !L2 by (by apply K4). by rewrite E.
  - intros d lab. rewrite K1, list_elem_of_fmap. intros (i & [= -> ->] & Hi).
    destruct (K4 i Hi) as (Hlt & Hacc & _). unfold st_acc in Hacc. simpl in Hacc.
    apply andb_true_iff in Hacc as [Hlive Hflt]. exists (data_of s i). split_and!; [|done|by destruct flt].
    simpl. rewrite lookup_contents. unfold view. rewrite L2 by done. simpl. by rewrite Hlive.
Qed.

Lemma quiet_implements s s' σ : quiet s s' → implements s σ → implements s' σ.
Proof.
  intros Hq (Hix & HM & <-). pose proof (qu_frame _ _ Hq) as Hf. split_and!.
  - eapply frame_index; [done|apply Hq|done].
  - by rewrite (fr_cfg _ _ Hf).
  - unfold abstraction. rewrite (fr_cfg _ _ Hf). f_equal. apply map_eq. intros lab.
    by rewrite !lookup_contents, (frame_view s s').
Qed.

Lemma sim_search_heap s σ q k flt :
  implements s σ → 1 ≤ N.max (ef_ (cfg s)) k →
  ∃ s' r, searchKnn fstdistfunc_ q k flt s = (s', Ok r) ∧ implements s' σ ∧ cfg s' = cfg s ∧
    answers σ q k flt r ∧ is_heap res_less r.
Proof.
  intros Hs Hk. pose proof Hs as (Hix & _ & <-). destruct (decide (cur_element_count s = 0)) as [Hz|Hz].
  - exists s, []. split_and!; [|done|done| |].
    + unfold searchKnn. erewrite eff_bind_ok by done. by rewrite Hz.
    + split; simpl; [lia|constructor|]. by intros d lab H%elem_of_nil.
    + apply is_heap_nil.
  - destruct (searchKnn_wp fstdistfunc_ s q k flt) as (s' & r & Hrun & Hq & Hh & ep & V & ids & _ & Hr);
      [apply Hix..|done|lia|].
    exists s', r. split_and!; [done|by eapply quiet_implements|apply Hq|by eapply knn_answers|done].
Qed.
Lemma sim_search s σ q k flt :
  implements s σ → 1 ≤ N.max (ef_ (cfg s)) k →
  ∃ s' r, searchKnn fstdistfunc_ q k flt s = (s', Ok r) ∧ implements s' σ ∧ answers σ q k flt r.
Proof. intros Hs Hk. destruct (sim_search_heap s σ q k flt Hs Hk) as (s' & r & ? & ? & _ & ? & _). by exists s', r. Qed.

(** ** Building an index point by point *)
Definition all_live s : bool :=
  forallb (live s) (N.of_nat <$> seq 0 (N.to_nat (cur_element_count s))).
Lemma all_live_spec s : all_live s = true → ∀ i, i < cur_element_count s → live s i = true.
Proof.
  intros H i Hi. unfold all_live in H. rewrite forallb_forall in H. apply H.
  apply list_elem_of_In, list_elem_of_fmap. exists (N.to_nat i). split; [lia|]. apply elem_of_seq. lia.
Qed.
Lemma addPointLevel_ok s p label level curlevel :
  index_ok s → label_lookup_ s !! label = None → cur_element_count s < max_elements_ (cfg s) →
  (N.to_nat (data_size_ (cfg s)) ≤ length p)%nat →
  (random_level (mult_ (cfg s)) (level_generator_ s)).1 ≠ None → drawn_level s level = Some curlevel →
  all_live s = true → index_ok (addPointLevel fstdistfunc_ p label level s).1.
Proof.
  clear level_total. intros. destruct (addPoint_new_wp fstdistfunc_ s p label level curlevel) as (s' & c & -> & Had); try done.
  { right. by apply all_live_spec. }
  apply Had.
Qed.
End refine.
