(* ===== verification/InsertThreads.v ===== *)
(** * hnswalg.h: insertions by several threads

    [addPoint] as the code runs it from several threads at once: thread [t]
    calls [addPoint(data, label)] with the job [jobs !! t].  A program counter
    ([pc]) says where in the call a thread is and holds its local variables; a
    step of a thread either takes a mutex that is free or runs the code up to
    the next mutex operation.  Every order of steps is a run.

    The mutexes are those of the code: one of [label_op_locks_] for the whole
    call, [label_lookup_lock] around the table of labels, the lock of the new
    element for the whole insertion, [global] while the entry point may move,
    and the lock of one other element around each access to its links.  The
    pool of visited lists has its own lock (VisitedThreads), so that taking and
    returning a list are single steps here.  An exception releases what the
    thread holds.  A label that is already in the index leaves the model
    ([Existing]): the theorems are about insertions. *)

From Stdlib Require Import ZArith Lia.
From stdpp Require Import base numbers list gmap strings relations.
From S2P Require Import Prelude Heap VisitedList Arith BeamSearch Hnsw HnswSearch HnswInsert.
#[local] Open Scope N_scope.

Inductive mutex :=
| label_op_lock (lock_id : N)
| label_lookup_lock
| link_list_lock (id : tableint)
| global.
#[global] Instance mutex_eq_dec : EqDecision mutex.
Proof. solve_decision. Defined.
#[global] Instance mutex_countable : Countable mutex.
Proof.
  refine (inj_countable'
    (λ m, match m with
          | label_op_lock i => inl (inl i) | link_list_lock i => inl (inr i)
          | label_lookup_lock => inr true | global => inr false end)
    (λ x, match x with
          | inl (inl i) => label_op_lock i | inl (inr i) => link_list_lock i
          | inr true => label_lookup_lock | inr false => global end) _).
  by intros [].
Defined.

(** [getLabelOpMutex] *)
Definition getLabelOpMutex (label : labeltype) : mutex := label_op_lock (label_lock label).

(** The variables of an insertion that are set once. *)
Record inserting := mkIns {
  cur_c : tableint;
  curlevel : Z;
  maxlevelcopy : Z;
  enterpoint_copy : tableint
}.

(** Where a thread is in [addPoint]. *)
Inductive pc (D : Type) :=
| LockLabel
| LockLookup
| Lookup
| LockElement (c : tableint)
| DrawLevel (c : tableint)
| LockGlobal (c : tableint) (lv : Z)
| ReadMaxlevel (c : tableint) (lv : Z)
| ReadEntry (c : tableint) (lv maxl : Z)
| ReadEntryCopy (c : tableint) (lv maxl : Z) (currObj : tableint)
| InitElement (n : inserting) (currObj : tableint)
| StartDescent (n : inserting) (currObj : tableint)
| FirstEntry (n : inserting)
| GreedyLock (n : inserting) (level : Z) (currObj : tableint) (curdist : D)
| GreedyRead (n : inserting) (level : Z) (currObj : tableint) (curdist : D)
| ReadEpDeleted (n : inserting) (currObj : tableint)
| SearchInit (n : inserting) (epDeleted : bool) (level : Z) (currObj : tableint)
| SearchLoop (n : inserting) (epDeleted : bool) (level : Z) (v : lstate D)
| SearchRead (n : inserting) (epDeleted : bool) (level : Z) (curNodeNum : tableint) (v : lstate D)
| Select (n : inserting) (epDeleted : bool) (level : Z) (top : list (D * tableint))
| ConnectLock (n : inserting) (epDeleted : bool) (level : Z) (nb : tableint) (rest : list tableint) (next : tableint)
| ConnectBack (n : inserting) (epDeleted : bool) (level : Z) (nb : tableint) (rest : list tableint) (next : tableint)
| SetEntry (n : inserting)
| UnlockGlobal (n : inserting)
| UnlockElement (n : inserting)
| UnlockLabel (c : tableint)
| Done (c : tableint)
| Existing (c : tableint)
| Thrown (e : string)
| Stuck (why : string).
Arguments LockLabel {D}.
Arguments LockLookup {D}.
Arguments Lookup {D}.
Arguments LockElement {D} _.
Arguments DrawLevel {D} _.
Arguments LockGlobal {D} _ _.
Arguments ReadMaxlevel {D} _ _.
Arguments ReadEntry {D} _ _ _.
Arguments ReadEntryCopy {D} _ _ _ _.
Arguments InitElement {D} _ _.
Arguments StartDescent {D} _ _.
Arguments FirstEntry {D} _.
Arguments GreedyLock {D} _ _ _ _.
Arguments GreedyRead {D} _ _ _ _.
Arguments ReadEpDeleted {D} _ _.
Arguments SearchInit {D} _ _ _ _.
Arguments SearchLoop {D} _ _ _ _.
Arguments SearchRead {D} _ _ _ _ _.
Arguments Select {D} _ _ _ _.
Arguments ConnectLock {D} _ _ _ _ _ _.
Arguments ConnectBack {D} _ _ _ _ _ _.
Arguments SetEntry {D} _.
Arguments UnlockGlobal {D} _.
Arguments UnlockElement {D} _.
Arguments UnlockLabel {D} _.
Arguments Done {D} _.
Arguments Existing {D} _.
Arguments Thrown {D} _.
Arguments Stuck {D} _.

(** The index, the owners of the mutexes that are taken, the threads. *)
Record conf `{RandomEngine} (D : Type) := mkConf {
  shared : hnsw;
  locks : gmap mutex nat;
  pcs : list (pc D)
}.
Arguments mkConf {_ D} _ _ _.
Arguments shared {_ D} _.
Arguments locks {_ D} _.
Arguments pcs {_ D} _.

Definition limit_message : string := "The number of elements exceeds the specified limit".

Section threads.
Context `{RE : RandomEngine} `{HI : HeapImpl} `{AL : Alloc} `{HO : HashOrder} {D : Type} `{HD : DistT D}.
Variable fstdistfunc_ : point → point → D.
Variable jobs : list (point * labeltype).

(** ** The code between two mutex operations *)

(** Under [label_lookup_lock]: an existing id, or a new one. *)
Definition lookup_label (label : labeltype) : eff hnsw (tableint + tableint) :=
  let* search := eff_get (λ s, label_lookup_ s !! label) in
  match search with
  | Some existingInternalId =>
      let* allow := eff_get (λ s, allow_replace_deleted_ (cfg s)) in
      let* deleted := (if (allow : bool) then eff_lift (λ s, isMarkedDeleted s existingInternalId)
                       else eff_ret false) in
      if (deleted : bool) then
        eff_throw "Can't use addPoint to update deleted elements if replacement of deleted elements is enabled."
      else eff_ret (inl existingInternalId)
  | None =>
      let* full := eff_get (λ s, max_elements_ (cfg s) <=? cur_element_count s) in
      if (full : bool) then eff_throw limit_message
      else
        let* c := eff_get cur_element_count in
        let* _ := eff_mod (set_count (c + 1)) in
        let* _ := eff_mod (λ s, set_lookup (<[label := c]> (label_lookup_ s)) s) in
        eff_ret (inr c)
  end.

(** [curlevel = getRandomLevel(mult_)]; [level] is -1 here. *)
Definition draw_level (c : tableint) : eff hnsw Z :=
  let* lv := getRandomLevel in
  let* _ := eff_lift (λ s, get_level s c) in
  let* _ := eff_mod (λ s, set_levels (<[N.to_nat c := lv]> (element_levels_ s)) s) in
  eff_ret lv.

(** One round of [while (changed)], under the lock of [currObj]. *)
Definition greedy_round (query : point) (level : Z) (currObj : tableint) (curdist : D) :
    eff hnsw (tableint * D * bool) :=
  let* data := eff_lift (λ s, get_linklist s currObj level) in
  let* datal := eff_lift (λ _, links_of data) in
  greedy_for fstdistfunc_ true query datal currObj curdist false.

(** [searchBaseLayer] up to its loop. *)
Definition search_begin (query : point) (maxl level : Z) (currObj : tableint) : eff hnsw (lstate D) :=
  if (maxl <? level)%Z || (level <? 0)%Z then eff_throw "Level error"
  else
    let* vl := take_visited in
    eff_lift (λ s, sbl_init fstdistfunc_ s query currObj vl).

(** The test of the loop: the candidate to expand, and the state without it. *)
Definition search_next (ef : N) (v : lstate D) : option (tableint * lstate D) :=
  match pq_top (candidateSet v) with
  | None => None
  | Some (d, c) =>
      if dlt (lowerBound v) (dneg d) && (pq_size (top_candidates v) =? ef) then None
      else Some (c, mkLS (top_candidates v) (pq_pop cmp (candidateSet v)) (lowerBound v) (visited v))
  end.

(** The body of the loop, under the lock of [curNodeNum]. *)
Definition search_expand (query : point) (level : Z) (curNodeNum : tableint) (v : lstate D) :
    eff hnsw (lstate D) :=
  eff_lift (λ s,
    data <- get_linklist_at_level s curNodeNum level ;;
    datal <- links_of data ;;
    sbl_for fstdistfunc_ s query v datal).

(** The end of [searchBaseLayer] and the entry point among the candidates. *)
Definition search_end (query : point) (ep : tableint) (epDeleted : bool) (v : lstate D) :
    eff hnsw (list (D * tableint)) :=
  let* _ := give_visited (visited v) in
  let* p := eff_lift (λ s, getDataByInternalId s ep) in
  let* ef := eff_get (λ s, ef_construction_ (cfg s)) in
  eff_ret (push_entry epDeleted ef (top_candidates v) (fstdistfunc_ query p) ep).

(** [mutuallyConnectNewElement] up to its second loop. *)
Definition select_links (c : tableint) (top_candidates : list (D * tableint)) (level : Z) :
    eff hnsw (list tableint * tableint) :=
  let* M := eff_get (λ s, M_ (cfg s)) in
  let* top := eff_lift (λ s, getNeighborsByHeuristic2 fstdistfunc_ s top_candidates M) in
  if M <? pq_size top
  then eff_throw "Should be not be more than M_ candidates returned by the heuristic"
  else
    let selectedNeighbors := map snd (pq_drain cmp top) in
    let* next_closest_entry_point :=
      eff_lift (λ _, of_opt "back() of an empty vector" (last selectedNeighbors)) in
    let* ll_cur := eff_lift (λ s, get_linklist_at_level s c level) in
    if negb (ll_word ll_cur =? 0)
    then eff_throw "The newly inserted element should have blank link list"
    else
      let* _ := eff_mod (put_linklist c level
                  (setListCount ll_cur (N.of_nat (length selectedNeighbors)))) in
      let* _ := fill_links c level false 0 selectedNeighbors in
      eff_ret (selectedNeighbors, next_closest_entry_point).

(** ** Where a step leads *)

(** The next level of the greedy descent, or the start of the insertion. *)
Definition greedy_next (n : inserting) (level : Z) (currObj : tableint) (curdist : D) : pc D :=
  if (curlevel n <? level)%Z then GreedyLock n level currObj curdist else ReadEpDeleted n currObj.

(** The next neighbour to link back, the next level, or the end. *)
Definition connect_next (n : inserting) (epDeleted : bool) (level : Z) (sel : list tableint) (next : tableint) :
    pc D :=
  match sel with
  | nb :: rest => ConnectLock n epDeleted level nb rest next
  | [] => if (level <=? 0)%Z then SetEntry n else SearchInit n epDeleted (level - 1) next
  end.

(** [templock] is kept when the element is above the top level. *)
Definition keeps_global (n : inserting) : bool := (maxlevelcopy n <? curlevel n)%Z.

(** ** Steps *)
Definition acquire (t : nat) (m : mutex) (next : pc D) (c : conf D) : option (conf D) :=
  match locks c !! m with
  | None => Some (mkConf (shared c) (<[m := t]> (locks c)) (<[t := next]> (pcs c)))
  | Some _ => None
  end.

Definition release (rel : list mutex) (ls : gmap mutex nat) : gmap mutex nat := foldr delete ls rel.
(** An exception runs the destructors of the locks the thread holds. *)
Definition unwind (t : nat) (ls : gmap mutex nat) : gmap mutex nat :=
  filter (λ x : mutex * nat, x.2 ≠ t) ls.

(** Run [m], release, go on with [k]. *)
Definition perform {A} (t : nat) (m : eff hnsw A) (rel : A → list mutex) (k : A → pc D) (c : conf D) : conf D :=
  match m (shared c) with
  | (s, Ok a) => mkConf s (release (rel a) (locks c)) (<[t := k a]> (pcs c))
  | (s, Throw e) => mkConf s (unwind t (locks c)) (<[t := Thrown e]> (pcs c))
  | (s, Undef u) => mkConf s (locks c) (<[t := Stuck u]> (pcs c))
  | (s, Fuel) => mkConf s (locks c) (<[t := Stuck "fuel"]> (pcs c))
  end.

(** The step of thread [t] from [p] on; [None] when it waits or has ended. *)
Definition pc_step (t : nat) (q : point) (label : labeltype) (p : pc D) (c : conf D) : option (conf D) :=
  match p with
  | LockLabel => acquire t (getLabelOpMutex label) LockLookup c
  | LockLookup => acquire t label_lookup_lock Lookup c
  | Lookup =>
      Some (perform t (lookup_label label) (λ _, [label_lookup_lock])
              (λ r, match r with inl i => Existing i | inr i => LockElement i end) c)
  | LockElement i => acquire t (link_list_lock i) (DrawLevel i) c
  | DrawLevel i => Some (perform t (draw_level i) (λ _, []) (LockGlobal i) c)
  | LockGlobal i lv => acquire t global (ReadMaxlevel i lv) c
  | ReadMaxlevel i lv =>
      Some (perform t (eff_get maxlevel_) (λ maxl, if (lv <=? maxl)%Z then [global] else []) (ReadEntry i lv) c)
  | ReadEntry i lv maxl => Some (perform t (eff_get enterpoint_node_) (λ _, []) (ReadEntryCopy i lv maxl) c)
  | ReadEntryCopy i lv maxl o =>
      Some (perform t (eff_get enterpoint_node_) (λ _, []) (λ ep, InitElement (mkIns i lv maxl ep) o) c)
  | InitElement n o =>
      Some (perform t (init_element (cur_c n) q label (curlevel n)) (λ _, []) (λ _, StartDescent n o) c)
  | StartDescent n o =>
      Some (if o =? 4294967295 then perform t (eff_ret tt) (λ _, []) (λ _, FirstEntry n) c
            else if (curlevel n <? maxlevelcopy n)%Z
            then perform t (eff_lift (λ s, getDataByInternalId s o)) (λ _, [])
                   (λ p, greedy_next n (maxlevelcopy n) o (fstdistfunc_ q p)) c
            else perform t (eff_ret tt) (λ _, []) (λ _, ReadEpDeleted n o) c)
  | FirstEntry n => Some (perform t (eff_mod (set_entry 0 (curlevel n))) (λ _, []) (λ _, SetEntry n) c)
  | GreedyLock n level o d => acquire t (link_list_lock o) (GreedyRead n level o d) c
  | GreedyRead n level o d =>
      Some (perform t (greedy_round q level o d) (λ _, [link_list_lock o])
              (λ '(o', d', changed), if (changed : bool) then GreedyLock n level o' d'
                                     else greedy_next n (level - 1) o' d') c)
  | ReadEpDeleted n o =>
      Some (perform t (eff_lift (λ s, isMarkedDeleted s (enterpoint_copy n))) (λ _, [])
              (λ e, SearchInit n e (Z.min (curlevel n) (maxlevelcopy n)) o) c)
  | SearchInit n e level o =>
      Some (perform t (search_begin q (maxlevelcopy n) level o) (λ _, []) (SearchLoop n e level) c)
  | SearchLoop n e level v =>
      match search_next (ef_construction_ (cfg (shared c))) v with
      | Some (cand, v') => acquire t (link_list_lock cand) (SearchRead n e level cand v') c
      | None => Some (perform t (search_end q (enterpoint_copy n) e v) (λ _, []) (Select n e level) c)
      end
  | SearchRead n e level cand v =>
      Some (perform t (search_expand q level cand v) (λ _, [link_list_lock cand]) (SearchLoop n e level) c)
  | Select n e level top =>
      Some (perform t (select_links (cur_c n) top level) (λ _, [])
              (λ '(sel, next), connect_next n e level sel next) c)
  | ConnectLock n e level nb rest next =>
      acquire t (link_list_lock nb) (ConnectBack n e level nb rest next) c
  | ConnectBack n e level nb rest next =>
      Some (perform t (connect_back fstdistfunc_ (cur_c n) level false nb) (λ _, [link_list_lock nb])
              (λ _, connect_next n e level rest next) c)
  | SetEntry n =>
      Some (perform t (if keeps_global n then eff_mod (set_entry (cur_c n) (curlevel n)) else eff_ret tt)
              (λ _, []) (λ _, UnlockGlobal n) c)
  | UnlockGlobal n =>
      Some (perform t (eff_ret tt) (λ _, if keeps_global n then [global] else []) (λ _, UnlockElement n) c)
  | UnlockElement n =>
      Some (perform t (eff_ret tt) (λ _, [link_list_lock (cur_c n)]) (λ _, UnlockLabel (cur_c n)) c)
  | UnlockLabel i => Some (perform t (eff_ret tt) (λ _, [getLabelOpMutex label]) (λ _, Done i) c)
  | Done _ | Existing _ | Thrown _ | Stuck _ => None
  end.

Definition thread_step (t : nat) (c : conf D) : option (conf D) :=
  match jobs !! t, pcs c !! t with
  | Some (q, label), Some p => pc_step t q label p c
  | _, _ => None
  end.

(** Any thread that can go on may be the next. *)
Definition step (c c' : conf D) : Prop := ∃ t, thread_step t c = Some c'.

Definition threads_start (s : hnsw) : conf D := mkConf s ∅ (replicate (length jobs) LockLabel).

(** The call of every thread has returned or thrown. *)
Definition ended (p : pc D) : Prop :=
  match p with Done _ | Thrown _ => True | _ => False end.
Definition joined (c : conf D) : Prop := Forall ended (pcs c).

(** Run the threads in the order given. *)
Fixpoint run (schedule : list nat) (c : conf D) : option (conf D) :=
  match schedule with
  | [] => Some c
  | t :: rest => match thread_step t c with Some c' => run rest c' | None => None end
  end.
Lemma run_steps schedule c c' : run schedule c = Some c' → rtc step c c'.
Proof.
  revert c. induction schedule as [|t rest IH]; intros c; simpl; [by intros [= ->]|].
  destruct (thread_step t c) as [c1|] eqn:E; [|done]. intros H. eapply rtc_l; [by exists t|eauto].
Qed.
End threads.
