(* ===== verification/PendingElements.v ===== *)
(** * An index with elements that are not written yet

    Between taking an id and writing the element's memory ([memset] and
    [memcpy] in [addPoint]) an insertion leaves the index with an id below
    [cur_element_count] whose memory was never written.  [complete F s] is the
    index with a blank element of level 0 at every id of [F].  Code that stays
    away from [F] cannot tell the two apart: it commutes with [complete F], so
    that what HnswWf, HnswSearchLaws and HnswConnectLaws prove about well-formed
    indexes carries over to [s] when [complete F s] is well-formed. *)

From Stdlib Require Import ZArith Lia.
From stdpp Require Import base numbers list gmap strings.
From S2P Require Import Prelude Heap VisitedList Arith BeamSearch Hnsw HnswSearch HnswInsert HnswWf.
From S2P Require Import HeuristicLaws HnswConnectLaws HnswAddLaws.
#[local] Open Scope N_scope.

Section pending.
Context `{RE : RandomEngine} `{HI : HeapImpl} `{AL : Alloc} {D : Type} `{HD : DistT D} `{HO : !DistOrder D}.
Variable fstdistfunc_ : point → point → D.
Implicit Types (s : hnsw) (i j : tableint) (l : Z) (F : list tableint).

Definition blank_el (c : config) : element :=
  {| el_ll := blank_ll (maxM0_ c); el_data := replicate (N.to_nat (data_size_ c)) 0; el_label := 0 |}.

Definition complete F s : hnsw :=
  set_levels (foldr (λ i, <[N.to_nat i := 0%Z]>) (element_levels_ s) F)
    (set_level0 (foldr (λ i, <[i := blank_el (cfg s)]>) (level0 s) F) s).

(** ** Reading *)
Lemma complete_level0 F s i :
  level0 (complete F s) !! i = if decide (i ∈ F) then Some (blank_el (cfg s)) else level0 s !! i.
Proof.
  simpl. induction F as [|j F IH]; simpl; [done|].
  destruct (decide (j = i)) as [->|Hne].
  - rewrite lookup_insert_eq, decide_True; [done|left].
  - rewrite lookup_insert_ne by done. rewrite IH. apply decide_ext. rewrite elem_of_cons.
    split; [by right|]. by intros [->|?].
Qed.
Lemma complete_levels_length F s : length (element_levels_ (complete F s)) = length (element_levels_ s).
Proof. simpl. induction F as [|j F IH]; simpl; [done|]. by rewrite length_insert. Qed.
Lemma complete_level_of F s i :
  (N.to_nat i < length (element_levels_ s))%nat →
  level_of (complete F s) i = if decide (i ∈ F) then Some 0%Z else level_of s i.
Proof.
  unfold level_of. simpl. intros Hi. induction F as [|j F IH]; simpl; [done|].
  pose proof (complete_levels_length F s) as Hlen. simpl in Hlen.
  destruct (decide (j = i)) as [->|Hne].
  - rewrite list_lookup_insert_eq, decide_True; [done|left|]. by rewrite Hlen.
  - rewrite list_lookup_insert_ne by lia. rewrite IH. apply decide_ext. rewrite elem_of_cons.
    split; [by right|]. by intros [->|?].
Qed.
Lemma complete_level_of_out F s i : i ∉ F → level_of (complete F s) i = level_of s i.
Proof.
  unfold level_of. simpl. induction F as [|j F IH]; simpl; [done|]. intros [Hne Hin]%not_elem_of_cons.
  rewrite list_lookup_insert_ne by lia. auto.
Qed.
Lemma complete_get_el F s i : i ∉ F → get_el (complete F s) i = get_el s i.
Proof. intros Hi. unfold get_el. rewrite complete_level0, decide_False by done. done. Qed.
Lemma complete_reads F s i : i ∉ F →
  getDataByInternalId (complete F s) i = getDataByInternalId s i ∧
  isMarkedDeleted (complete F s) i = isMarkedDeleted s i ∧
  (∀ l, get_linklist_at_level (complete F s) i l = get_linklist_at_level s i l) ∧
  get_level (complete F s) i = get_level s i.
Proof.
  intros Hi. unfold getDataByInternalId, isMarkedDeleted, get_linklist_at_level, get_linklist0.
  rewrite (complete_get_el F s i Hi). split_and!; [done..|]. unfold get_level.
  pose proof (complete_level_of_out F s i Hi) as H. unfold level_of in H. by rewrite H.
Qed.
Lemma complete_total F s i : i ∉ F →
  data_of (complete F s) i = data_of s i ∧ live (complete F s) i = live s i ∧
  label_of (complete F s) i = label_of s i ∧ ∀ l, nbs_at (complete F s) l i = nbs_at s l i.
Proof.
  intros Hi. unfold data_of, live, label_of, nbs_at. rewrite complete_level0, decide_False by done.
  split_and!; [done..|]. intros l. by destruct (complete_reads F s i Hi) as (_ & _ & -> & _).
Qed.

Lemma complete_ext F F' s : (∀ i, i ∈ F ↔ i ∈ F') → complete F s = complete F' s.
Proof.
  intros HF. unfold complete. f_equal.
  - apply list_eq. intros k. pose proof (complete_levels_length F s) as H1.
    pose proof (complete_levels_length F' s) as H2. simpl in H1, H2.
    destruct (decide (k < length (element_levels_ s))%nat) as [Hk|Hk].
    + pose proof (complete_level_of F s (N.of_nat k)) as E1. pose proof (complete_level_of F' s (N.of_nat k)) as E2.
      unfold level_of in E1, E2. rewrite Nat2N.id in E1, E2. simpl in E1, E2. rewrite E1, E2 by done.
      by apply decide_ext.
    + rewrite !lookup_ge_None_2 by lia. done.
  - f_equal. apply map_eq. intros i.
    pose proof (complete_level0 F s i) as E1. pose proof (complete_level0 F' s i) as E2. simpl in E1, E2.
    rewrite E1, E2. by apply decide_ext.
Qed.
Lemma complete_nil s : complete [] s = s.
Proof. by destruct s. Qed.

(** ** Commuting with [complete] *)
Definition commutes {A} F (m : eff hnsw A) s : Prop := m (complete F s) = (complete F (m s).1, (m s).2).

Lemma co_ret {A} F (a : A) s : commutes F (eff_ret a) s.
Proof. done. Qed.
Lemma co_throw {A} F e s : commutes (A:=A) F (eff_throw e) s.
Proof. done. Qed.
Lemma co_undef {A} F e s : commutes (A:=A) F (eff_undef e) s.
Proof. done. Qed.
Lemma co_lift {A} F (f : hnsw → res A) s : f (complete F s) = f s → commutes F (eff_lift f) s.
Proof. intros H. unfold commutes, eff_lift. simpl. by rewrite H. Qed.
Lemma co_get {A} F (f : hnsw → A) s : f (complete F s) = f s → commutes F (eff_get f) s.
Proof. intros H. unfold commutes, eff_get. simpl. by rewrite H. Qed.
Lemma co_mod F (f : hnsw → hnsw) s : f (complete F s) = complete F (f s) → commutes F (eff_mod f) s.
Proof. intros H. unfold commutes, eff_mod. simpl. by rewrite H. Qed.
Lemma co_bind {A B} F (m : eff hnsw A) (f : A → eff hnsw B) s :
  commutes F m s → (∀ a, (m s).2 = Ok a → commutes F (f a) (m s).1) → commutes F (eff_bind m f) s.
Proof.
  unfold commutes, eff_bind. intros -> Hf. destruct (m s) as [s' []]; simpl in *; try done. by apply Hf.
Qed.

Lemma complete_wp {A} F (m : eff hnsw A) Q s :
  commutes F m s → eff_wp m Q (complete F s) → eff_wp m (λ s' a, Q (complete F s') a) s.
Proof.
  intros Hc (S' & a & Hrun & HQ). rewrite Hc in Hrun. destruct (m s) as [s' r] eqn:E. simpl in Hrun.
  injection Hrun as <- ->. exists s', a. done.
Qed.

(** ** What commutes *)
Lemma complete_pool F p s : set_pool p (complete F s) = complete F (set_pool p s).
Proof. done. Qed.
Lemma co_take F s : commutes F take_visited s.
Proof. unfold commutes, take_visited. simpl. by destruct (getFreeVisitedList _). Qed.
Lemma co_give F vl s : commutes F (give_visited vl) s.
Proof. by apply co_mod. Qed.

Lemma complete_put F s i l ll : i ∉ F → put_linklist i l ll (complete F s) = complete F (put_linklist i l ll s).
Proof.
  intros Hi. unfold put_linklist. destruct (l =? 0)%Z.
  - rewrite complete_level0, decide_False by done. destruct (level0 s !! i) as [e|]; [|done].
    unfold put_el, complete. simpl. unfold set_levels, set_level0. simpl. f_equal.
    induction F as [|j F IH]; simpl; [done|]. apply not_elem_of_cons in Hi as [Hne Hi].
    rewrite insert_insert_ne by done. by rewrite IH.
  - simpl. by destruct (upper s !! i).
Qed.
Lemma co_put F s i l ll : i ∉ F → commutes F (eff_mod (put_linklist i l ll)) s.
Proof. intros Hi. by apply co_mod, complete_put. Qed.

Lemma complete_sbl_visit F s q (v : lstate D) i :
  i ∉ F → sbl_visit fstdistfunc_ (complete F s) q v i = sbl_visit fstdistfunc_ s q v i.
Proof. intros Hi. unfold sbl_visit. by destruct (complete_reads F s i Hi) as (-> & -> & _). Qed.
Lemma complete_sbl_for F s q (v : lstate D) ids :
  Forall (λ i, i ∉ F) ids → sbl_for fstdistfunc_ (complete F s) q v ids = sbl_for fstdistfunc_ s q v ids.
Proof.
  intros Hf. revert v. induction Hf as [|i ids Hi Hf IH]; intros v; [done|]. simpl.
  rewrite complete_sbl_visit by done. destruct (sbl_visit fstdistfunc_ s q v i); simpl; [apply IH|done..].
Qed.
Lemma complete_sbl_init F s q i vl :
  i ∉ F → sbl_init fstdistfunc_ (complete F s) q i vl = sbl_init fstdistfunc_ s q i vl.
Proof. intros Hi. unfold sbl_init. by destruct (complete_reads F s i Hi) as (-> & -> & _). Qed.

Lemma co_greedy_for F ck q ids o (d : D) ch s :
  Forall (λ i, i ∉ F) ids → commutes F (greedy_for fstdistfunc_ ck q ids o d ch) s.
Proof.
  intros Hf. revert o d ch s. induction Hf as [|i ids Hi Hf IH]; intros o d ch s; [done|]. simpl.
  apply co_bind; [by apply co_get|]. intros [] _; [apply co_throw|].
  apply co_bind; [apply co_lift, complete_reads, Hi|]. intros p _. case_match; apply IH.
Qed.

Lemma complete_heur_good F s (rl : list (D * tableint)) i dq :
  Forall (λ x, x.2 ∉ F) rl → i ∉ F →
  heur_good fstdistfunc_ (complete F s) rl i dq = heur_good fstdistfunc_ s rl i dq.
Proof.
  intros Hf Hi. induction Hf as [|y rl Hy Hf IH]; [done|]. simpl.
  destruct (complete_reads F s y.2 Hy) as (-> & _). destruct (complete_reads F s i Hi) as (-> & _).
  by rewrite IH.
Qed.
Lemma complete_heur_while F fuel s M (qu rl : list (D * tableint)) :
  Forall (λ x, x.2 ∉ F) qu → Forall (λ x, x.2 ∉ F) rl →
  heur_while fstdistfunc_ fuel (complete F s) M qu rl = heur_while fstdistfunc_ fuel s M qu rl.
Proof.
  revert qu rl. induction fuel as [|fuel IH]; intros qu rl Hq Hr; simpl; [done|].
  destruct (pq_top qu) as [x|] eqn:Ht; [|done]. destruct (M <=? N.of_nat (length rl)); [done|].
  assert (Forall (λ x : D * tableint, x.2 ∉ F) (x :: pq_pop pair_less qu)) as [Hx Hp]%Forall_cons.
  { by rewrite <- (pq_pop_perm pair_less qu x Ht). }
  rewrite complete_heur_good by done. destruct (heur_good _ _ _ _ _) as [[]| | |]; simpl; try done; apply IH;
    try done. apply Forall_app. split; [done|]. by constructor.
Qed.
Lemma complete_heuristic F s (cands : list (D * tableint)) M :
  Forall (λ x, x.2 ∉ F) cands →
  getNeighborsByHeuristic2 fstdistfunc_ (complete F s) cands M = getNeighborsByHeuristic2 fstdistfunc_ s cands M.
Proof.
  intros Hf. unfold getNeighborsByHeuristic2. case_match; [done|]. rewrite complete_heur_while; [done| |constructor].
  rewrite pq_push_all_perm, (right_id_L [] (++)). apply Forall_map. by rewrite pq_drain_perm.
Qed.
Lemma complete_dists_to F s i ids :
  i ∉ F → Forall (λ j, j ∉ F) ids → dists_to fstdistfunc_ (complete F s) i ids = dists_to fstdistfunc_ s i ids.
Proof.
  intros Hi Hf. induction Hf as [|j ids Hj Hf IH]; [done|]. simpl.
  destruct (complete_reads F s j Hj) as (-> & _). destruct (complete_reads F s i Hi) as (-> & _). by rewrite IH.
Qed.

Lemma dists_to_ids s i ids (cs : list (D * tableint)) : dists_to fstdistfunc_ s i ids = Ok cs → cs.*2 = ids.
Proof.
  revert cs. induction ids as [|j ids IH]; intros cs; simpl; [by intros [= <-]|].
  destruct (getDataByInternalId s j); simpl; [|done..]. destruct (getDataByInternalId s i); simpl; [|done..].
  destruct (dists_to fstdistfunc_ s i ids) as [cs'| | |]; simpl; [|done..]. intros [= <-].
  rewrite fmap_cons. by rewrite (IH cs').
Qed.

Lemma co_fill_links F c l upd idx ids s :
  c ∉ F → Forall (λ i, i ∉ F) ids → commutes F (fill_links c l upd idx ids) s.
Proof.
  intros Hc Hf. revert idx s. induction Hf as [|i ids Hi Hf IH]; intros idx s; [done|]. simpl.
  apply co_bind; [apply co_lift, complete_reads, Hc|]. intros ll _. simpl.
  apply co_bind; [by apply co_lift|]. intros old _. case_match; [apply co_throw|].
  apply co_bind; [apply co_lift, complete_reads, Hi|]. intros lv _. case_match; [apply co_throw|].
  apply co_bind; [by apply co_put|]. intros [] _. apply IH.
Qed.

Lemma co_connect_back F c l upd nb s :
  c ∉ F → nb ∉ F → Forall (λ i, i ∉ F) (nbs_at s l nb) → commutes F (connect_back fstdistfunc_ c l upd nb) s.
Proof.
  intros Hc Hnb Hf. unfold connect_back. apply co_bind; [by apply co_get|]. intros M _. simpl.
  apply co_bind; [apply co_lift, complete_reads, Hnb|]. intros ll Hll. simpl in *.
  case_match; [apply co_throw|]. case_match; [apply co_throw|].
  apply co_bind; [apply co_lift, complete_reads, Hnb|]. intros lv _. simpl. case_match; [apply co_throw|].
  apply co_bind; [by apply co_lift|]. intros data Hdata. simpl in *.
  assert (data = nbs_at s l nb) as ->.
  { unfold nbs_at. rewrite Hll. unfold links_of in Hdata. case_match; [|done]. by injection Hdata. }
  case_match; [apply co_ret|]. case_match.
  - apply co_bind; [by apply co_lift|]. intros ll' _. by apply co_put.
  - assert (Forall (λ i, i ∉ F) (c :: nbs_at s l nb)) as Hf' by by constructor.
    apply co_bind; [by apply co_lift, (complete_dists_to F s nb (c :: nbs_at s l nb))|]. intros cs Hcs.
    change (dists_to fstdistfunc_ s nb (c :: nbs_at s l nb) = Ok cs) in Hcs.
    apply dists_to_ids in Hcs.
    cbn [fst eff_lift]. apply co_bind; [apply co_lift, complete_heuristic|].
    { rewrite pq_push_all_perm, (right_id_L [] (++)). rewrite <- Hcs, Forall_forall in Hf'.
      apply Forall_forall. intros x Hx. apply Hf', list_elem_of_fmap. eauto. }
    intros cands _. apply co_bind; [by apply co_lift|]. intros ll' _. by apply co_put.
Qed.

(** ** Elements that come and go from [F] *)

(** [S'] is [S] with the element [c] written again, still without links. *)
Record rewritten (S S' : hnsw) (c : tableint) (e : element) (lv : Z) : Prop := {
  rw_cfg : cfg S' = cfg S;
  rw_count : cur_element_count S' = cur_element_count S;
  rw_levels : element_levels_ S' = <[N.to_nat c := lv]> (element_levels_ S);
  rw_level0 : level0 S' = <[c := e]> (level0 S);
  rw_upper : upper S' = if (lv =? 0)%Z then upper S
             else <[c := replicate (Z.to_nat lv) (blank_ll (maxM_ (cfg S)))]> (upper S);
  rw_pool : visited_list_pool_ S' = visited_list_pool_ S;
  rw_blank : el_ll e = blank_ll (maxM0_ (cfg S));
  rw_size : length (el_data e) = N.to_nat (data_size_ (cfg S));
  rw_pos : (0 ≤ lv)%Z;
  rw_c : c < cur_element_count S;
  rw_old : level_of S c = Some 0%Z
}.

Section rewritten.
Context S S' c e lv (Hrw : rewritten S S' c e lv) (Hg : graph_ok S).

Lemma rw_room : c < max_elements_ (cfg S).
Proof. pose proof (rw_c _ _ _ _ _ Hrw). pose proof (go_count _ Hg). lia. Qed.
Lemma rw_level_ne i : i ≠ c → level_of S' i = level_of S i.
Proof. intros Hi. unfold level_of. rewrite (rw_levels _ _ _ _ _ Hrw). apply list_lookup_insert_ne. lia. Qed.
Lemma rw_level_eq : level_of S' c = Some lv.
Proof.
  unfold level_of. rewrite (rw_levels _ _ _ _ _ Hrw). apply list_lookup_insert_eq.
  rewrite (go_levels _ Hg). pose proof rw_room. lia.
Qed.
Lemma rw_at_level i l : at_level S i l → at_level S' i l.
Proof.
  intros (Hi & lv' & H1 & H2). split; [by rewrite (rw_count _ _ _ _ _ Hrw)|].
  destruct (decide (i = c)) as [->|].
  - exists lv. split; [apply rw_level_eq|]. rewrite (rw_old _ _ _ _ _ Hrw) in H1. injection H1 as <-.
    pose proof (rw_pos _ _ _ _ _ Hrw). lia.
  - exists lv'. by rewrite rw_level_ne.
Qed.
Lemma rw_Mmax l : Mmax S' l = Mmax S l.
Proof. unfold Mmax. by rewrite (rw_cfg _ _ _ _ _ Hrw). Qed.
Lemma rw_get_ne i l : i ≠ c → get_linklist_at_level S' i l = get_linklist_at_level S i l.
Proof.
  intros Hi. unfold get_linklist_at_level, get_linklist0, get_el, get_linklist.
  rewrite (rw_cfg _ _ _ _ _ Hrw), (rw_level0 _ _ _ _ _ Hrw), (rw_upper _ _ _ _ _ Hrw).
  rewrite lookup_insert_ne by done. destruct (lv =? 0)%Z; [done|]. by rewrite lookup_insert_ne.
Qed.
Lemma rw_get_eq l : (0 ≤ l ≤ lv)%Z → get_linklist_at_level S' c l = Ok (blank_ll (Mmax S' l)).
Proof.
  intros Hl. rewrite rw_Mmax. unfold Mmax. destruct (Z.eqb_spec l 0) as [->|Hne].
  - unfold get_linklist_at_level, get_linklist0, get_el. simpl.
    rewrite (rw_cfg _ _ _ _ _ Hrw), (rw_level0 _ _ _ _ _ Hrw), lookup_insert_eq.
    rewrite (proj2 (N.ltb_lt _ _)) by apply rw_room. simpl. by rewrite (rw_blank _ _ _ _ _ Hrw).
  - eapply get_linklist_upper_2; [lia| |].
    + rewrite (rw_upper _ _ _ _ _ Hrw). decide_cmp. apply lookup_insert_eq.
    + apply lookup_replicate. split; [done|lia].
Qed.

Lemma rw_graph : graph_ok S'.
Proof.
  split; rewrite ?(rw_cfg _ _ _ _ _ Hrw), ?(rw_pool _ _ _ _ _ Hrw), ?(rw_count _ _ _ _ _ Hrw); try apply Hg.
  - rewrite (rw_levels _ _ _ _ _ Hrw), length_insert. apply Hg.
  - intros i Hi. destruct (decide (i = c)) as [->|Hne].
    + exists e, lv. split; rewrite ?(rw_cfg _ _ _ _ _ Hrw); try apply Hrw.
      * rewrite (rw_level0 _ _ _ _ _ Hrw). apply lookup_insert_eq.
      * apply rw_level_eq.
      * intros Hpos. rewrite (rw_upper _ _ _ _ _ Hrw), (proj2 (Z.eqb_neq _ _)), lookup_insert_eq by lia.
        eexists. split; [done|]. apply length_replicate.
      * intros l Hl. exists (blank_ll (Mmax S' l)). split; [by apply rw_get_eq|apply blank_ok].
    + destruct (go_node _ Hg i Hi) as (e' & lv' & [N1 N2 N3 N4 N5 N6]). exists e', lv'.
      split; rewrite ?(rw_cfg _ _ _ _ _ Hrw); try done.
      * rewrite (rw_level0 _ _ _ _ _ Hrw). by rewrite lookup_insert_ne.
      * by rewrite rw_level_ne.
      * rewrite (rw_upper _ _ _ _ _ Hrw). destruct (lv =? 0)%Z; [done|]. by rewrite lookup_insert_ne.
      * intros l Hl. destruct (N6 l Hl) as (ll & Hget & L1 & L2 & L3 & L4 & L5). exists ll.
        rewrite rw_get_ne by done. split; [done|]. unfold ll_ok. rewrite rw_Mmax. split_and!; [done|done|done| |done].
        eapply Forall_impl; [exact L4|]. intros j [? ?]. split; [done|]. by apply rw_at_level.
Qed.
End rewritten.
End pending.
