(* ===== verification/InsertThreadsInv.v ===== *)
(** * What holds at every point of concurrent insertions

    An element is visible on a level once links may lead to it there: from the
    moment its thread starts to link it back on that level.  The invariant
    says that links lead to visible elements only, that every element but the
    pending ones is well-formed, that the lists a thread has still to fill are
    blank, what each thread's local variables are, and who holds which mutex. *)

From Stdlib Require Import ZArith Lia.
From stdpp Require Import base numbers list gmap strings relations.
From S2P Require Import Prelude Heap VisitedList Arith BeamSearch Hnsw HnswSearch HnswInsert HnswWf.
From S2P Require Import HnswSearchLaws HnswKnn HeuristicLaws HnswConnectLaws HnswAddLaws InsertThreads PendingElements.
#[local] Open Scope N_scope.

(** ** What a program counter says *)
Section pc.
Context {D : Type}.
Implicit Types p : pc D.

(** The id the thread has taken from [cur_element_count]. *)
Definition claimed p : option tableint :=
  match p with
  | LockElement c | DrawLevel c | LockGlobal c _ | ReadMaxlevel c _ | ReadEntry c _ _ | ReadEntryCopy c _ _ _
  | UnlockLabel c | Done c => Some c
  | InitElement n _ | StartDescent n _ | FirstEntry n | GreedyLock n _ _ _ | GreedyRead n _ _ _
  | ReadEpDeleted n _ | SearchInit n _ _ _ | SearchLoop n _ _ _ | SearchRead n _ _ _ _ | Select n _ _ _
  | ConnectLock n _ _ _ _ _ | ConnectBack n _ _ _ _ _ | SetEntry n | UnlockGlobal n | UnlockElement n =>
      Some (cur_c n)
  | _ => None
  end.

(** Its memory is not written yet. *)
Definition pending p : bool :=
  match p with
  | LockElement _ | DrawLevel _ | LockGlobal _ _ | ReadMaxlevel _ _ | ReadEntry _ _ _ | ReadEntryCopy _ _ _ _
  | InitElement _ _ => true
  | _ => false
  end.

(** The element may be found on level [l]. *)
Definition visb p (l : Z) : bool :=
  match p with
  | SearchInit _ _ level _ | SearchLoop _ _ level _ | SearchRead _ _ level _ _ | Select _ _ level _ => (level <? l)%Z
  | ConnectLock _ _ level _ _ _ | ConnectBack _ _ level _ _ _ => (level <=? l)%Z
  | SetEntry _ | UnlockGlobal _ | UnlockElement _ | UnlockLabel _ | Done _ => true
  | _ => false
  end.

(** The entry point may still move to the element. *)
Definition open_entry p : bool :=
  match p with UnlockGlobal _ | UnlockElement _ | UnlockLabel _ | Done _ => false | _ => true end.

(** The level and the neighbours left to link back. *)
Definition linking p : option (Z * list tableint) :=
  match p with
  | ConnectLock _ _ level nb rest _ | ConnectBack _ _ level nb rest _ => Some (level, nb :: rest)
  | _ => None
  end.

(** The mutexes held. *)
Definition held_el (label : labeltype) (c : tableint) (keep : bool) : list mutex :=
  (if keep then [global] else []) ++ [link_list_lock c; getLabelOpMutex label].
Definition held (label : labeltype) p : list mutex :=
  match p with
  | LockLookup | LockElement _ | UnlockLabel _ | Existing _ => [getLabelOpMutex label]
  | Lookup => [label_lookup_lock; getLabelOpMutex label]
  | DrawLevel c | LockGlobal c _ => held_el label c false
  | ReadMaxlevel c _ => held_el label c true
  | ReadEntry c lv maxl | ReadEntryCopy c lv maxl _ => held_el label c (maxl <? lv)%Z
  | InitElement n _ | StartDescent n _ | FirstEntry n | GreedyLock n _ _ _
  | ReadEpDeleted n _ | SearchInit n _ _ _ | SearchLoop n _ _ _ | Select n _ _ _
  | ConnectLock n _ _ _ _ _ | SetEntry n | UnlockGlobal n => held_el label (cur_c n) (keeps_global n)
  | GreedyRead n _ x _ | SearchRead n _ _ x _ | ConnectBack n _ _ x _ _ =>
      link_list_lock x :: held_el label (cur_c n) (keeps_global n)
  | UnlockElement n => held_el label (cur_c n) false
  | LockLabel | Done _ | Thrown _ | Stuck _ => []
  end.

Lemma visb_mono p l l' : visb p l = true → (l ≤ l')%Z → visb p l' = true.
Proof. destruct p; simpl; try done; intros H ?; rewrite ?Z.ltb_lt, ?Z.leb_le in *; lia. Qed.
Lemma pending_visb p l : pending p = true → visb p l = false.
Proof. by destruct p. Qed.
Lemma pending_claimed p : pending p = true → is_Some (claimed p).
Proof. destruct p; simpl; eauto; done. Qed.
Lemma visb_claimed p l : visb p l = true → is_Some (claimed p).
Proof. destruct p; simpl; eauto; done. Qed.

(** The ids whose memory is not written. *)
Definition pend (ps : list (pc D)) : list tableint := omap (λ p, if pending p then claimed p else None) ps.
Lemma elem_pend ps i :
  i ∈ pend ps ↔ ∃ t p, ps !! t = Some p ∧ pending p = true ∧ claimed p = Some i.
Proof.
  unfold pend. rewrite list_elem_of_omap. split.
  - intros (p & [t Ht]%list_elem_of_lookup & H). exists t, p. destruct (pending p); done.
  - intros (t & p & Ht & Hp & Hc). exists p. rewrite Hp. split; [|done]. by eapply list_elem_of_lookup_2.
Qed.
Lemma pend_insert ps t p p' i :
  ps !! t = Some p → claimed p' = claimed p → pending p' = pending p → i ∈ pend (<[t := p']> ps) ↔ i ∈ pend ps.
Proof.
  intros Ht Hc Hp. rewrite !elem_pend. split; intros (u & r & Hu & Hr & Hi).
  - apply list_lookup_insert_Some in Hu as [(<- & <- & _)|[_ Hu]]; [|by exists u, r].
    exists t, p. by rewrite <- Hp, <- Hc.
  - destruct (decide (u = t)) as [->|].
    + rewrite Ht in Hu. injection Hu as <-. exists t, p'. rewrite list_lookup_insert_eq by by eapply lookup_lt_Some.
      by rewrite Hp, Hc.
    + exists u, r. by rewrite list_lookup_insert_ne.
Qed.
End pc.

(** ** Mutexes *)
Section locks.
Context `{RE : RandomEngine} {D : Type}.
Variable jobs : list (point * labeltype).
Implicit Types c : conf D.

Definition heldat c (t : nat) : list mutex :=
  match jobs !! t, pcs c !! t with Some (_, label), Some p => held label p | _, _ => [] end.
Definition locks_ok c : Prop :=
  (∀ m t, locks c !! m = Some t ↔ m ∈ heldat c t) ∧ ∀ t, NoDup (heldat c t).

Lemma heldat_eq c t q label p : jobs !! t = Some (q, label) → pcs c !! t = Some p → heldat c t = held label p.
Proof. intros H1 H2. unfold heldat. by rewrite H1, H2. Qed.

Lemma locks_excl c m t u : locks_ok c → m ∈ heldat c t → m ∈ heldat c u → t = u.
Proof. intros [H _] Ht%H Hu%H. congruence. Qed.

Lemma locks_acquire c c' t m :
  locks_ok c → locks c !! m = None → locks c' = <[m := t]> (locks c) →
  heldat c' t = m :: heldat c t → (∀ u, u ≠ t → heldat c' u = heldat c u) → locks_ok c'.
Proof.
  intros [H1 H2] Hm Hl Ht Hu. assert (∀ u, m ∉ heldat c u) as Hn by (intros u Hin%H1; congruence). split.
  - intros m' u. rewrite Hl. destruct (decide (m' = m)) as [->|Hne].
    + rewrite lookup_insert_eq. split.
      * intros [= <-]. rewrite Ht. left.
      * intros Hin. destruct (decide (u = t)) as [->|Hut]; [done|]. rewrite Hu in Hin by done. by apply Hn in Hin.
    + rewrite lookup_insert_ne, H1 by done. destruct (decide (u = t)) as [->|]; [|by rewrite Hu].
      rewrite Ht, elem_of_cons. split; [by right|]. by intros [?|?].
  - intros u. destruct (decide (u = t)) as [->|]; [|by rewrite Hu]. rewrite Ht. by constructor.
Qed.

Lemma lookup_release rel (ls : gmap mutex nat) m :
  release rel ls !! m = if decide (m ∈ rel) then None else ls !! m.
Proof.
  induction rel as [|r rel IH]; simpl; [done|]. destruct (decide (r = m)) as [->|Hne].
  - rewrite lookup_delete_eq, decide_True; [done|left].
  - rewrite lookup_delete_ne by done. rewrite IH. apply decide_ext. rewrite elem_of_cons.
    split; [by right|]. by intros [->|?].
Qed.
Lemma locks_release c c' t rel :
  locks_ok c → locks c' = release rel (locks c) →
  heldat c t = rel ++ heldat c' t → (∀ u, u ≠ t → heldat c' u = heldat c u) → locks_ok c'.
Proof.
  intros [H1 H2] Hl Ht Hu. pose proof (H2 t) as Hnd. rewrite Ht in Hnd. apply NoDup_app in Hnd as (_ & Hdis & Hnd).
  split.
  - intros m u. rewrite Hl, lookup_release. destruct (decide (m ∈ rel)) as [Hin|Hnin].
    + split; [done|]. intros Hm. exfalso. destruct (decide (u = t)) as [->|]; [by eapply Hdis|].
      rewrite Hu in Hm by done. apply H1 in Hm. assert (locks c !! m = Some t) by (apply H1; rewrite Ht; apply elem_of_app; by left).
      congruence.
    + rewrite H1. destruct (decide (u = t)) as [->|]; [|by rewrite Hu]. rewrite Ht, elem_of_app. tauto.
  - intros u. destruct (decide (u = t)) as [->|]; [done|by rewrite Hu].
Qed.
Lemma locks_unwind c c' t :
  locks_ok c → locks c' = unwind t (locks c) → heldat c' t = [] → (∀ u, u ≠ t → heldat c' u = heldat c u) → locks_ok c'.
Proof.
  intros [H1 H2] Hl Ht Hu. split.
  - intros m u. rewrite Hl. unfold unwind. rewrite map_lookup_filter_Some, H1. simpl.
    destruct (decide (u = t)) as [->|]; [|rewrite Hu by done; tauto].
    rewrite Ht. split; [by intros [_ ?]|by intros ?%elem_of_nil].
  - intros u. destruct (decide (u = t)) as [->|]; [rewrite Ht; constructor|by rewrite Hu].
Qed.
End locks.

(** ** The invariant *)
Section inv.
Context `{RE : RandomEngine} `{HI : HeapImpl} `{AL : Alloc} {D : Type} `{HD : DistT D} `{HO : !DistOrder D}.
Variable fstdistfunc_ : point → point → D.
Variable jobs : list (point * labeltype).
Variable s0 : hnsw.
Implicit Types (c : conf D) (p : pc D) (i j : tableint) (l : Z) (t u : nat).

(** The index with a blank element for every pending one. *)
Definition whole c : hnsw := complete (pend (pcs c)) (shared c).

Definition visible c i l : Prop := ∀ t p, pcs c !! t = Some p → claimed p = Some i → visb p l = true.
Definition reached c l i : Prop := at_level (whole c) i l ∧ visible c i l.

(** An entry point as it was read, with the top level read before it. *)
Definition start_ok c (maxl : Z) (o : tableint) : Prop :=
  (maxl = (-1)%Z ∧ o = 4294967295) ∨ ((0 ≤ maxl)%Z ∧ at_level (whole c) o maxl ∧ visible c o 0).

Definition top_ok c (lv maxl : Z) : Prop :=
  (0 ≤ lv)%Z ∧ (-1 ≤ maxl ≤ maxlevel_ (shared c))%Z ∧ ((maxl < lv)%Z → maxlevel_ (shared c) = maxl).

(** The lists that the thread has still to fill. *)
Definition blank_ok c p (i : tableint) (lv : Z) : Prop :=
  level_of (whole c) i = Some lv ∧
  ∀ l, (0 ≤ l ≤ lv)%Z → visb p l = false →
    get_linklist_at_level (whole c) i l = Ok (blank_ll (Mmax (whole c) l)).

Definition ins_ok c p (n : inserting) : Prop :=
  top_ok c (curlevel n) (maxlevelcopy n) ∧ blank_ok c p (cur_c n) (curlevel n) ∧
  (0 ≤ maxlevelcopy n)%Z ∧ at_level (whole c) (enterpoint_copy n) (maxlevelcopy n) ∧ visible c (enterpoint_copy n) 0.
Definition level_ok (n : inserting) (epDeleted : bool) (l : Z) : Prop :=
  epDeleted = false ∧ (0 ≤ l ≤ Z.min (curlevel n) (maxlevelcopy n))%Z.

Definition searching c (q : point) l (v : lstate D) : Prop :=
  (∃ E, beam_inv (dist_to fstdistfunc_ (whole c) q) (live (whole c)) (ef_construction_ (cfg (shared c)))
          (reached c l) E (max_elements_ (cfg (shared c))) v) ∧
  top_candidates v ≠ [].
Definition selecting c l (top : list (D * tableint)) : Prop :=
  is_heap cmp top ∧ NoDup top.*2 ∧ top ≠ [] ∧ ∀ i, i ∈ top.*2 → reached c l i.
Definition connecting c (me : tableint) l (sel : list tableint) (next : tableint) : Prop :=
  NoDup sel ∧ N.of_nat (length sel) ≤ M_ (cfg (shared c)) ∧
  (∀ j, j ∈ sel → reached c l j ∧ j ≠ me ∧ me ∉ nbs_at (whole c) l j) ∧
  at_level (whole c) next l ∧ (visible c next 0 ∨ next ∈ sel).

Definition pc_ok c (q : point) p : Prop :=
  match p with
  | LockLabel | LockLookup | Lookup | LockElement _ | DrawLevel _ => True
  | LockGlobal i lv | ReadMaxlevel i lv => level_of (shared c) i = Some lv ∧ (0 ≤ lv)%Z
  | ReadEntry i lv maxl => level_of (shared c) i = Some lv ∧ top_ok c lv maxl
  | ReadEntryCopy i lv maxl o => level_of (shared c) i = Some lv ∧ top_ok c lv maxl ∧ start_ok c maxl o
  | InitElement n o =>
      level_of (shared c) (cur_c n) = Some (curlevel n) ∧ top_ok c (curlevel n) (maxlevelcopy n) ∧
      start_ok c (maxlevelcopy n) o ∧ start_ok c (maxlevelcopy n) (enterpoint_copy n)
  | StartDescent n o =>
      blank_ok c p (cur_c n) (curlevel n) ∧ top_ok c (curlevel n) (maxlevelcopy n) ∧
      start_ok c (maxlevelcopy n) o ∧ start_ok c (maxlevelcopy n) (enterpoint_copy n)
  | FirstEntry n =>
      blank_ok c p (cur_c n) (curlevel n) ∧ top_ok c (curlevel n) (maxlevelcopy n) ∧ maxlevelcopy n = (-1)%Z
  | GreedyLock n l o d | GreedyRead n l o d =>
      ins_ok c p n ∧ (curlevel n < l ≤ maxlevelcopy n)%Z ∧ reached c l o ∧ d = dist_to fstdistfunc_ (whole c) q o
  | ReadEpDeleted n o =>
      ins_ok c p n ∧ at_level (whole c) o (Z.min (curlevel n) (maxlevelcopy n)) ∧ visible c o 0
  | SearchInit n e l o => ins_ok c p n ∧ level_ok n e l ∧ at_level (whole c) o l ∧ visible c o 0
  | SearchLoop n e l v => ins_ok c p n ∧ level_ok n e l ∧ searching c q l v
  | SearchRead n e l x v => ins_ok c p n ∧ level_ok n e l ∧ searching c q l v ∧ reached c l x
  | Select n e l top => ins_ok c p n ∧ level_ok n e l ∧ selecting c l top
  | ConnectLock n e l nb rest next | ConnectBack n e l nb rest next =>
      ins_ok c p n ∧ level_ok n e l ∧ connecting c (cur_c n) l (nb :: rest) next
  | SetEntry n =>
      level_of (whole c) (cur_c n) = Some (curlevel n) ∧ (0 ≤ curlevel n)%Z ∧ (-1 ≤ maxlevelcopy n)%Z ∧
      if keeps_global n
      then maxlevel_ (shared c) = maxlevelcopy n ∨ maxlevelcopy n = (-1)%Z ∧ maxlevel_ (shared c) = curlevel n
      else (maxlevelcopy n ≤ maxlevel_ (shared c))%Z
  | UnlockGlobal _ | UnlockElement _ | UnlockLabel _ | Done _ => True
  | Thrown e => e = limit_message ∧ cur_element_count (shared c) = max_elements_ (cfg (shared c))
  | Existing _ | Stuck _ => False
  end.

(** The ids of the threads, their labels and their vectors. *)
Record claims_ok c : Prop := {
  cl_id t q label p i : jobs !! t = Some (q, label) → pcs c !! t = Some p → claimed p = Some i →
    cur_element_count s0 ≤ i < cur_element_count (shared c) ∧ label_lookup_ (shared c) !! label = Some i ∧
    (pending p = false → el_view <$> level0 (shared c) !! i = Some (take (N.to_nat (data_size_ (cfg s0))) q, label, false));
  cl_inj t u p p' i : pcs c !! t = Some p → pcs c !! u = Some p' → claimed p = Some i → claimed p' = Some i → t = u;
  cl_cover i : cur_element_count s0 ≤ i < cur_element_count (shared c) → ∃ t p, pcs c !! t = Some p ∧ claimed p = Some i;
  cl_count : cur_element_count s0 ≤ cur_element_count (shared c);
  cl_old i : i < cur_element_count s0 → el_view <$> level0 (shared c) !! i = el_view <$> level0 s0 !! i;
  cl_lookup label : (∀ t q p, jobs !! t = Some (q, label) → pcs c !! t = Some p → claimed p = None) →
    label_lookup_ (shared c) !! label = label_lookup_ s0 !! label
}.

(** A thread that has only set [enterpoint_node_ = 0] is about to set it right. *)
Definition reading_entry p : bool :=
  match p with ReadEntry _ _ _ | ReadEntryCopy _ _ _ _ => true | _ => false end.
Definition entry_inv c : Prop :=
  (maxlevel_ (shared c) = (-1)%Z ∧ enterpoint_node_ (shared c) = 4294967295) ∨
  (∃ t n, pcs c !! t = Some (SetEntry n) ∧ maxlevelcopy n = (-1)%Z ∧ (0 ≤ curlevel n)%Z ∧
     maxlevel_ (shared c) = curlevel n ∧ ∀ u p, pcs c !! u = Some p → reading_entry p = false) ∨
  ((0 ≤ maxlevel_ (shared c))%Z ∧ at_level (whole c) (enterpoint_node_ (shared c)) (maxlevel_ (shared c)) ∧
   visible c (enterpoint_node_ (shared c)) 0).

(** Threads that link on the same level are ordered by when they started to. *)
Definition ranked c : Prop :=
  ∃ rank : nat → nat, ∀ t u p p' l sel sel' j,
    pcs c !! t = Some p → linking p = Some (l, sel) → j ∈ sel →
    pcs c !! u = Some p' → claimed p' = Some j → linking p' = Some (l, sel') → (rank u < rank t)%nat.

Record inv c : Prop := {
  in_len : length (pcs c) = length jobs;
  in_graph : graph_ok (whole c);
  in_cfg : cfg (shared c) = cfg s0;
  in_marks : num_deleted_ (shared c) = num_deleted_ s0 ∧ deleted_elements (shared c) = deleted_elements s0;
  in_locks : locks_ok jobs c;
  in_claims : claims_ok c;
  in_links i j l : (0 ≤ l)%Z → at_level (whole c) i l → j ∈ nbs_at (whole c) l i → visible c j l;
  in_entry : entry_inv c;
  in_levels i lv : i < cur_element_count (shared c) → level_of (whole c) i = Some lv →
    (lv ≤ maxlevel_ (shared c))%Z ∨ ∃ t p, pcs c !! t = Some p ∧ claimed p = Some i ∧ open_entry p = true;
  in_rank : ranked c;
  in_pc t q label p : jobs !! t = Some (q, label) → pcs c !! t = Some p → pc_ok c q p
}.
End inv.
