(* ===== verification/InsertThreadsSteps.v ===== *)
(** * Every step of concurrent insertions keeps the invariant

    A step of one thread changes links, takes an id, writes an element or moves
    the entry point.  [grows] says what no step undoes, [spares] what a step of
    one thread leaves to another; together they keep every thread's local
    variables right. *)

From Stdlib Require Import ZArith Lia.
From stdpp Require Import base numbers list gmap strings relations.
From S2P Require Import Prelude Heap VisitedList Arith BeamSearch Hnsw HnswSearch HnswInsert HnswWf.
From S2P Require Import HnswSearchLaws HnswKnn HeuristicLaws HnswConnectLaws HnswAddLaws.
From S2P Require Import InsertThreads PendingElements InsertThreadsInv.
#[local] Open Scope N_scope.

(** The state of a layer search depends on distances and marks only at the
    nodes it may meet. *)
Lemma beam_inv_ext `{HI : HeapImpl} {D} `{HD : DistT D} (dist dist' : tableint → D) acc acc' ef
    (P P' E : tableint → Prop) n v :
  (∀ i, P i → dist' i = dist i ∧ acc' i = acc i ∧ P' i) →
  beam_inv dist acc ef P E n v → beam_inv dist' acc' ef P' E n v.
Proof.
  intros HP [H1 H2 H3 H4 H5 H6 H7 H8 H9 H10 H11 H12].
  assert (∀ i, visited_in (visited v) i → far dist ef v i → far dist' ef v i) as Hfar.
  { intros i Hv [? ?]. split; [done|]. by destruct (HP i (H10 i Hv)) as (-> & _). }
  split; try done.
  - intros d i Hin. destruct (H7 d i Hin) as (? & ? & Hv). destruct (HP i (H10 i Hv)) as (-> & -> & _). done.
  - intros d i Hin. destruct (H9 d i Hin) as (? & Hv). by destruct (HP i (H10 i Hv)) as (-> & _).
  - intros i Hv. by apply HP, H10.
  - intros i Hv. destruct (HP i (H10 i Hv)) as (_ & -> & _). intros Ha. destruct (H11 i Hv Ha); auto.
  - intros i Hv. destruct (H12 i Hv) as [?|[?|?]]; auto. destruct (HP i (H10 i Hv)) as (-> & _). auto.
Qed.

Section steps.
Context `{RE : RandomEngine} `{HI : HeapImpl} `{AL : Alloc} {D : Type} `{HD : DistT D} `{HO : !DistOrder D}.
Variable fstdistfunc_ : point → point → D.
Variable jobs : list (point * labeltype).
Variable s0 : hnsw.
Implicit Types (c : conf D) (p r : pc D) (i j : tableint) (l : Z) (t u : nat) (s : hnsw).
#[local] Abbreviation inv := (inv fstdistfunc_ jobs s0).
#[local] Abbreviation pc_ok := (pc_ok fstdistfunc_).

(** ** Visibility *)
Lemma visible_pend c i l : visible c i l → i ∉ pend (pcs c).
Proof.
  intros Hv (t & p & Ht & Hp & Hc)%elem_pend. pose proof (Hv t p Ht Hc) as H.
  by rewrite pending_visb in H.
Qed.
Lemma visible_mono c i l l' : visible c i l → (l ≤ l')%Z → visible c i l'.
Proof. intros Hv Hl t p Ht Hc. eapply visb_mono; eauto. Qed.
Lemma visible_not_own c i l t p : visible c i l → pcs c !! t = Some p → visb p l = false → claimed p ≠ Some i.
Proof. intros Hv Ht Hb Hc. by rewrite (Hv t p Ht Hc) in Hb. Qed.
Lemma reached_0 c o l : at_level (whole c) o l → visible c o 0 → (0 ≤ l)%Z → reached c l o.
Proof. intros ? ? ?. split; [done|]. by eapply visible_mono. Qed.

(** The pending elements of the whole index. *)
Lemma frame_complete F s s' : frame s s' → frame (complete F s) (complete F s').
Proof.
  intros [H1 H2 H3 H4 H5 H6 H7 H8 H9]. split; try done.
  - simpl. by rewrite H8.
  - intros i. rewrite !complete_level0, H1. by case_decide.
Qed.
Lemma whole_insert t p p' s' ls' (ps : list (pc D)) :
  ps !! t = Some p → claimed p' = claimed p → pending p' = pending p →
  whole (mkConf s' ls' (<[t := p']> ps)) = complete (pend ps) s'.
Proof. intros Ht Hc Hp. apply complete_ext. intros i. by apply pend_insert with p. Qed.

(** A step that writes no element and moves no entry point. *)
Section grows.
Record grows c c' : Prop := {
  gr_cfg : cfg (shared c') = cfg (shared c);
  gr_count : cur_element_count (shared c) ≤ cur_element_count (shared c');
  gr_at i l : at_level (whole c) i l → at_level (whole c') i l;
  gr_vis i l : i < cur_element_count (shared c) → visible c i l → visible c' i l;
  gr_view i l : i < cur_element_count (shared c) → visible c i l →
    el_view <$> level0 (whole c') !! i = el_view <$> level0 (whole c) !! i;
  gr_max : (maxlevel_ (shared c) ≤ maxlevel_ (shared c'))%Z
}.
Record spares c c' u p : Prop := {
  sp_lvl i : claimed p = Some i →
    level_of (shared c') i = level_of (shared c) i ∧ level_of (whole c') i = level_of (whole c) i;
  sp_max : global ∈ heldat jobs c u → maxlevel_ (shared c') = maxlevel_ (shared c);
  sp_own i l : claimed p = Some i → pending p = false → (0 ≤ l)%Z → visb p l = false →
    get_linklist_at_level (whole c') i l = get_linklist_at_level (whole c) i l;
  sp_linking i j l sel : linking p = Some (l, sel) → j ∈ sel → claimed p = Some i →
    i ∈ nbs_at (whole c') l j → i ∈ nbs_at (whole c) l j
}.

Context c c' (Hgr : grows c c').

Lemma gr_reached l i : reached c l i → reached c' l i.
Proof. intros [Ha Hv]. split; [by eapply gr_at|]. eapply gr_vis; [done| |done]. apply Ha. Qed.
Lemma gr_vis_at i l l' : at_level (whole c) i l' → visible c i l → visible c' i l.
Proof. intros [Hi _]. by eapply gr_vis. Qed.
Lemma gr_Mmax l : Mmax (whole c') l = Mmax (whole c) l.
Proof. unfold Mmax, whole. simpl. by rewrite (gr_cfg _ _ Hgr). Qed.
Lemma gr_node i l : i < cur_element_count (shared c) → visible c i l →
  data_of (whole c') i = data_of (whole c) i ∧ live (whole c') i = live (whole c) i.
Proof.
  intros Hi Hv. pose proof (gr_view _ _ Hgr i l Hi Hv) as H. unfold data_of, live.
  destruct (level0 (whole c') !! i) as [e'|], (level0 (whole c) !! i) as [e|]; simpl in *; try done.
  injection H as Hd _ Hl. by rewrite Hd, Hl.
Qed.
Lemma gr_dist q i l : i < cur_element_count (shared c) → visible c i l →
  dist_to fstdistfunc_ (whole c') q i = dist_to fstdistfunc_ (whole c) q i.
Proof. intros Hi Hv. unfold dist_to. by destruct (gr_node i l Hi Hv) as [-> _]. Qed.
Lemma gr_searching q l v : searching fstdistfunc_ c q l v → searching fstdistfunc_ c' q l v.
Proof.
  intros [[E Hb] Hne]. split; [|done]. exists E. rewrite (gr_cfg _ _ Hgr). eapply beam_inv_ext; [|exact Hb].
  intros i Hi. split_and!; [|apply (gr_node i l)|by apply gr_reached]; try apply Hi.
  apply (gr_dist q i l); apply Hi.
Qed.
Lemma gr_start maxl o : start_ok c maxl o → start_ok c' maxl o.
Proof.
  intros [?|(H1 & H2 & H3)]; [by left|right]. split_and!; [done|by eapply gr_at|by eapply gr_vis_at].
Qed.

Context u q label p (Hjob : jobs !! u = Some (q, label)) (Hp : pcs c !! u = Some p) (Hsp : spares c c' u p).

Lemma sp_blank i lv : claimed p = Some i → pending p = false → blank_ok c p i lv → blank_ok c' p i lv.
Proof.
  intros Hc Hpe [H1 H2]. split.
  - by destruct (sp_lvl _ _ _ _ Hsp i Hc) as [_ ->].
  - intros l Hl Hv. rewrite (sp_own _ _ _ _ Hsp i l Hc Hpe) by (lia || done). rewrite gr_Mmax. by apply H2.
Qed.
Lemma sp_top lv maxl :
  ((maxl < lv)%Z → global ∈ heldat jobs c u) → top_ok c lv maxl → top_ok c' lv maxl.
Proof.
  intros Hh (H1 & H2 & H3). pose proof (gr_max _ _ Hgr). split_and!; [done|lia|lia|].
  intros Hlt. rewrite (sp_max _ _ _ _ Hsp); auto.
Qed.
Lemma sp_ins n :
  claimed p = Some (cur_c n) → pending p = false → (keeps_global n = true → global ∈ held label p) →
  ins_ok c p n → ins_ok c' p n.
Proof.
  intros Hc Hpe Hh (H1 & H2 & H3 & H4 & H5). split_and!.
  - apply sp_top; [|done]. intros Hlt. rewrite (heldat_eq jobs c u q label p Hjob Hp). apply Hh. by apply Z.ltb_lt.
  - by apply sp_blank.
  - done.
  - by eapply gr_at.
  - by eapply gr_vis_at.
Qed.
Lemma sp_connecting me l sel next :
  claimed p = Some me → linking p = Some (l, sel) → connecting c me l sel next → connecting c' me l sel next.
Proof.
  intros Hc Hl (H1 & H2 & H3 & H4 & H5). split_and!; [done|by rewrite (gr_cfg _ _ Hgr)| | |].
  - intros j Hj. destruct (H3 j Hj) as (R1 & R2 & R3). split_and!; [by apply gr_reached|done|].
    intros Hin. by apply R3, (sp_linking _ _ _ _ Hsp me j l sel).
  - by eapply gr_at.
  - destruct H5; [left; by eapply gr_vis_at|by right].
Qed.

Lemma global_held b : b = true → global ∈ held_el label (default 0 (claimed p)) b.
Proof. intros ->. left. Qed.

(** Another thread's local variables stay right. *)
Lemma pc_ok_stable : graph_ok (whole c') → pc_ok c q p → pc_ok c' q p.
Proof.
  intros Hg. pose proof (sp_lvl _ _ _ _ Hsp) as Hlv. pose proof sp_blank as Hbl. pose proof sp_ins as Hin.
  pose proof sp_connecting as Hco. pose proof gr_start as Hst.
  assert (∀ lv maxl, ((maxl <? lv)%Z = true → global ∈ held label p) → top_ok c lv maxl → top_ok c' lv maxl) as Htop.
  { intros lv maxl Hh. apply sp_top. intros Hlt%Z.ltb_lt. rewrite (heldat_eq jobs c u q label p Hjob Hp). auto. }
  destruct p; simpl in *; try done.
  - intros [H1 H2]. by destruct (Hlv c0 eq_refl) as [-> _].
  - intros [H1 H2]. by destruct (Hlv c0 eq_refl) as [-> _].
  - intros [H1 H2]. destruct (Hlv c0 eq_refl) as [-> _]. split; [done|]. apply Htop; [|done]. intros ->. left.
  - intros (H1 & H2 & H3). destruct (Hlv c0 eq_refl) as [-> _]. split_and!; [done| |by apply Hst].
    apply Htop; [|done]. intros ->. left.
  - intros (H1 & H2 & H3 & H4). destruct (Hlv _ eq_refl) as [-> _]. split_and!; [done| |by apply Hst|by apply Hst].
    apply Htop; [|done]. unfold keeps_global. intros ->. left.
  - intros (H1 & H2 & H3 & H4). split_and!; [by apply Hbl| |by apply Hst|by apply Hst].
    apply Htop; [|done]. unfold keeps_global. intros ->. left.
  - intros (H1 & H2 & H3). split_and!; [by apply Hbl| |done].
    apply Htop; [|done]. unfold keeps_global. intros ->. left.
  - intros (H1 & H2 & H3 & H4). split_and!; [|lia|lia|by apply gr_reached|].
    + apply Hin; [done|done| |done]. intros ->. left.
    + rewrite H4. symmetry. eapply gr_dist; apply H3.
  - intros (H1 & H2 & H3 & H4). split_and!; [|lia|lia|by apply gr_reached|].
    + apply Hin; [done|done| |done]. intros ->. right. left.
    + rewrite H4. symmetry. eapply gr_dist; apply H3.
  - intros (H1 & H2 & H3). split_and!; [|by eapply gr_at|by eapply gr_vis_at].
    apply Hin; [done|done| |done]. intros ->. left.
  - intros (H1 & H2 & H3 & H4). split_and!; [|apply H2..|by eapply gr_at|by eapply gr_vis_at].
    apply Hin; [done|done| |done]. intros ->. left.
  - intros (H1 & H2 & H3). split_and!; [|apply H2..|by apply gr_searching].
    apply Hin; [done|done| |done]. intros ->. left.
  - intros (H1 & H2 & H3 & H4). split_and!; [|apply H2..|by apply gr_searching|by apply gr_reached].
    apply Hin; [done|done| |done]. intros ->. right. left.
  - intros (H1 & H2 & H3 & H4 & H5 & H6). split; [|split; [done|split_and!; [done..|]]].
    + apply Hin; [done|done| |done]. intros ->. left.
    + intros i Hi. by apply gr_reached, H6.
  - intros (H1 & H2 & H3). split_and!; [|apply H2..|by apply Hco].
    apply Hin; [done|done| |done]. intros ->. left.
  - intros (H1 & H2 & H3). split_and!; [|apply H2..|by apply Hco].
    apply Hin; [done|done| |done]. intros ->. right. left.
  - intros (H1 & H2 & H3 & H4). destruct (Hlv _ eq_refl) as [_ ->]. split_and!; [done..|].
    destruct (keeps_global n) eqn:Hk; [|pose proof (gr_max _ _ Hgr); lia].
    rewrite (sp_max _ _ _ _ Hsp); [done|]. rewrite (heldat_eq jobs c u q label _ Hjob Hp). simpl. rewrite Hk. left.
  - intros [H1 H2]. split; [done|]. pose proof (go_count _ Hg) as Hle. simpl in Hle.
    rewrite (gr_cfg _ _ Hgr) in *. pose proof (gr_count _ _ Hgr). lia.
Qed.
End grows.

(** ** Steps that leave the elements and the entry point alone *)
Section frame_step.
Context c t (q : point) (label : labeltype) p p' s' (ls' : gmap mutex nat).
Context (Hinv : inv c) (Hjob : jobs !! t = Some (q, label)) (Hp : pcs c !! t = Some p).
Context (Hcl : claimed p' = claimed p) (Hpe : pending p' = pending p).
Context (Hvis : ∀ l, visb p l = true → visb p' l = true).
Context (Hf : frame (shared c) s').
Let c' := mkConf s' ls' (<[t := p']> (pcs c)).

Lemma fs_pc_eq : pcs c' !! t = Some p'.
Proof. apply list_lookup_insert_eq. by eapply lookup_lt_Some. Qed.
Lemma fs_pc_ne u : u ≠ t → pcs c' !! u = pcs c !! u.
Proof. intros Hu. by apply list_lookup_insert_ne. Qed.
(** Every thread of [c'] is one of [c], as far as claims go. *)
Lemma fs_pc u r : pcs c' !! u = Some r →
  ∃ r0, pcs c !! u = Some r0 ∧ claimed r = claimed r0 ∧ pending r = pending r0 ∧ (u ≠ t → r = r0).
Proof.
  intros Hu. destruct (decide (u = t)) as [->|Hne].
  - rewrite fs_pc_eq in Hu. injection Hu as <-. by exists p.
  - rewrite fs_pc_ne in Hu by done. by exists r.
Qed.
Lemma fs_pc_back u r0 : pcs c !! u = Some r0 →
  ∃ r, pcs c' !! u = Some r ∧ claimed r = claimed r0 ∧ pending r = pending r0 ∧ (u ≠ t → r = r0).
Proof.
  intros Hu. destruct (decide (u = t)) as [->|Hne].
  - rewrite Hp in Hu. injection Hu as <-. exists p'. by rewrite fs_pc_eq.
  - exists r0. by rewrite fs_pc_ne.
Qed.
Lemma fs_frame : frame (whole c) (whole c').
Proof.
  unfold whole at 2. simpl. rewrite (complete_ext _ (pend (pcs c))).
  - by apply frame_complete.
  - intros i. by apply pend_insert with p.
Qed.

Lemma fs_visible i l : visible c i l → visible c' i l.
Proof.
  intros Hv u r Hu Hr. destruct (decide (u = t)) as [->|Hne].
  - rewrite fs_pc_eq in Hu. injection Hu as <-. rewrite Hcl in Hr. eauto.
  - rewrite fs_pc_ne in Hu by done. eauto.
Qed.
Lemma fs_grows : grows c c'.
Proof.
  pose proof fs_frame as HF. split.
  - apply Hf.
  - simpl. by rewrite (fr_count _ _ Hf).
  - intros i l. by apply frame_at_level.
  - intros i l _. apply fs_visible.
  - intros i l _ _. apply HF.
  - simpl. by rewrite (fr_maxlevel _ _ Hf).
Qed.

(** What the step may do to the lists. *)
Definition lists_spared : Prop :=
  ∀ u r i, u ≠ t → pcs c !! u = Some r → claimed r = Some i →
    (∀ l, pending r = false → (0 ≤ l)%Z → visb r l = false →
       get_linklist_at_level (whole c') i l = get_linklist_at_level (whole c) i l) ∧
    ∀ j l sel, linking r = Some (l, sel) → j ∈ sel → i ∈ nbs_at (whole c') l j → i ∈ nbs_at (whole c) l j.

Lemma fs_spares u r : lists_spared → u ≠ t → pcs c !! u = Some r → spares c c' u r.
Proof.
  intros Hl Hne Hu. split.
  - intros i Hi. split; [by apply frame_level_of|]. apply (frame_level_of _ _ _ fs_frame).
  - intros _. apply Hf.
  - intros i l Hi Hr Hl0 Hv. destruct (Hl u r i Hne Hu Hi) as [H _]. auto.
  - intros i j l sel H1 H2 Hi. destruct (Hl u r i Hne Hu Hi) as [_ H]. eauto.
Qed.

Lemma fs_claims : claims_ok jobs s0 c'.
Proof.
  destruct (in_claims _ _ _ _ Hinv) as [C1 C2 C3 C4 C5 C6]. split; simpl.
  - intros u q' lab r i Hj Hu Hi. rewrite (fr_count _ _ Hf), (fr_lookup _ _ Hf). destruct (fs_pc u r Hu) as (r0 & Hu0 & Hc0 & Hp0 & _).
    rewrite Hc0 in Hi. destruct (C1 u q' lab r0 i Hj Hu0 Hi) as (? & ? & ?). split_and!; [lia|lia|done|].
    rewrite Hp0, (fr_el _ _ Hf). done.
  - intros u v r r' i Hu Hv Hi Hi'. destruct (fs_pc u r Hu) as (r0 & Hu0 & Hc0 & _).
    destruct (fs_pc v r' Hv) as (r0' & Hv0 & Hc0' & _). rewrite Hc0 in Hi. rewrite Hc0' in Hi'. eauto.
  - intros i. rewrite (fr_count _ _ Hf). intros Hi. destruct (C3 i Hi) as (u & r0 & Hu & Hc0). destruct (fs_pc_back u r0 Hu) as (r & ? & H & _).
    exists u, r. by rewrite H.
  - by rewrite (fr_count _ _ Hf).
  - intros i Hi. rewrite (fr_el _ _ Hf). auto.
  - intros lab Hn. rewrite (fr_lookup _ _ Hf). apply C6. intros u q' r0 Hj Hu. destruct (fs_pc_back u r0 Hu) as (r & Hr & H & _).
    rewrite <- H. eauto.
Qed.

Lemma fs_entry :
  (∀ n, p = SetEntry n → keeps_global n = false) →
  (reading_entry p' = true → reading_entry p = true ∨ global ∈ heldat jobs c t) → entry_inv c'.
Proof.
  intros Hset Hread. unfold entry_inv. change (shared c') with s'.
  rewrite (fr_maxlevel _ _ Hf), (fr_entry _ _ Hf).
  destruct (in_entry _ _ _ _ Hinv) as [?|[(u & n & Hu & Hm & Hn & Hl & Hr)|(H1 & H2 & H3)]].
  - by left.
  - right. left. assert (keeps_global n = true) as Hk by (apply Z.ltb_lt; lia).
    assert (u ≠ t) as Hne. { intros ->. rewrite Hp in Hu. injection Hu as ->. rewrite (Hset n eq_refl) in Hk. done. }
    exists u, n. rewrite fs_pc_ne by done. split_and!; [done..|]. intros v r Hv.
    destruct (decide (v = t)) as [->|]; [|rewrite fs_pc_ne in Hv by done; eauto].
    rewrite fs_pc_eq in Hv. injection Hv as <-. destruct (reading_entry p') eqn:E; [|done].
    destruct (Hread eq_refl) as [H|H]; [by rewrite (Hr t p Hp) in H|]. exfalso. apply Hne.
    apply (locks_excl jobs c global); [apply Hinv| |done].
    destruct (lookup_lt_is_Some_2 jobs u) as [[q' lab'] Hj].
    { rewrite <- (in_len _ _ _ _ Hinv). by eapply lookup_lt_Some. }
    rewrite (heldat_eq jobs c u q' lab' _ Hj Hu). simpl. rewrite Hk. left.
  - right. right. split_and!; [done| |by apply fs_visible]. by apply (frame_at_level _ _ _ _ fs_frame).
Qed.

Lemma fs_inv :
  graph_ok (whole c') →
  (∀ i j l, (0 ≤ l)%Z → at_level (whole c) i l → j ∈ nbs_at (whole c') l i →
     j ∈ nbs_at (whole c) l i ∨ visible c' j l) →
  lists_spared →
  (∀ n, p = SetEntry n → keeps_global n = false) →
  (reading_entry p' = true → reading_entry p = true ∨ global ∈ heldat jobs c t) →
  (open_entry p = true → open_entry p' = true ∨
     ∀ i lv, claimed p = Some i → level_of (whole c) i = Some lv → (lv ≤ maxlevel_ (shared c))%Z) →
  locks_ok jobs c' → ranked c' → pc_ok c' q p' → inv c'.
Proof.
  intros Hg Hlinks Hsp Hset Hread Hopen Hlocks Hrank Hpc. split; try done.
  - simpl. rewrite length_insert. apply Hinv.
  - simpl. rewrite (fr_cfg _ _ Hf). apply Hinv.
  - simpl. rewrite (fr_num_deleted _ _ Hf), (fr_deleted _ _ Hf). apply Hinv.
  - apply fs_claims.
  - intros i j l Hl Hi Hj. apply (frame_at_level _ _ _ _ fs_frame) in Hi.
    destruct (Hlinks i j l Hl Hi Hj) as [H|H]; [|done]. by eapply fs_visible, in_links.
  - by apply fs_entry.
  - intros i lv. change (shared c') with s'.
    rewrite (fr_count _ _ Hf), (fr_maxlevel _ _ Hf), (frame_level_of _ _ _ fs_frame).
    intros Hi Hlv. destruct (in_levels _ _ _ _ Hinv i lv Hi Hlv) as [?|(u & r & Hu & Hr & Ho)]; [by left|].
    destruct (decide (u = t)) as [->|Hne].
    + rewrite Hp in Hu. injection Hu as <-. destruct (Hopen Ho) as [Ho'|Hm]; [|left; eauto].
      right. exists t, p'. by rewrite fs_pc_eq, Hcl.
    + right. exists u, r. by rewrite fs_pc_ne.
  - intros u q' lab r Hj Hu. destruct (decide (u = t)) as [->|Hne].
    + rewrite fs_pc_eq in Hu. injection Hu as <-. rewrite Hjob in Hj. by injection Hj as <- <-.
    + rewrite fs_pc_ne in Hu by done. eapply pc_ok_stable; [apply fs_grows|done|done|by apply fs_spares|done|].
      by eapply in_pc.
Qed.

(** The order of linking threads, when this one does not start to link. *)
Lemma fs_ranked :
  (∀ l sel', linking p' = Some (l, sel') → ∃ sel, linking p = Some (l, sel) ∧ sel' ⊆ sel) → ranked c'.
Proof.
  intros Hsub. destruct (in_rank _ _ _ _ Hinv) as [rank Hrank]. exists rank.
  assert (∀ u r l sel, pcs c' !! u = Some r → linking r = Some (l, sel) →
    ∃ r0 sel0, pcs c !! u = Some r0 ∧ linking r0 = Some (l, sel0) ∧ sel ⊆ sel0 ∧ claimed r0 = claimed r) as Hback.
  { intros u r l sel Hu Hl. destruct (decide (u = t)) as [->|Hne].
    - rewrite fs_pc_eq in Hu. injection Hu as <-. destruct (Hsub l sel Hl) as (sel0 & ? & ?). by exists p, sel0.
    - rewrite fs_pc_ne in Hu by done. by exists r, sel. }
  intros v u r r' l sel sel' j Hv Hr Hj Hu Hc Hr'.
  destruct (Hback v r l sel Hv Hr) as (r0 & sel0 & E1 & E2 & E3 & _).
  destruct (Hback u r' l sel' Hu Hr') as (r0' & sel0' & F1 & F2 & _ & F4).
  eapply (Hrank v u r0 r0'); eauto. by rewrite F4.
Qed.

(** ** Steps that change no link *)
Section quiet_step.
Context (Hq : quiet (whole c) (complete (pend (pcs c)) s')).

Lemma qs_whole : whole c' = complete (pend (pcs c)) s'.
Proof. by apply whole_insert with p. Qed.
Lemma qs_quiet : quiet (whole c) (whole c').
Proof. by rewrite qs_whole. Qed.

Lemma qs_top lv maxl : top_ok c lv maxl → top_ok c' lv maxl.
Proof. unfold top_ok. change (shared c') with s'. by rewrite (fr_maxlevel _ _ Hf). Qed.
Lemma qs_level_of i : level_of (whole c') i = level_of (whole c) i.
Proof. apply (frame_level_of _ _ _ fs_frame). Qed.
Lemma qs_blank i lv : blank_ok c p i lv → blank_ok c' p' i lv.
Proof.
  intros [H1 H2]. split; [by rewrite qs_level_of|]. intros l Hl Hv. rewrite (qu_links _ _ qs_quiet i l).
  rewrite (frame_Mmax _ _ _ fs_frame). apply H2; [done|]. destruct (visb p l) eqn:E; [|done].
  by rewrite (Hvis l E) in Hv.
Qed.
Lemma qs_ins n : ins_ok c p n → ins_ok c' p' n.
Proof.
  intros (H1 & H2 & H3 & H4 & H5). split_and!.
  - by apply qs_top.
  - by apply qs_blank.
  - done.
  - by eapply gr_at, H4; apply fs_grows.
  - by apply fs_visible.
Qed.
Lemma qs_connecting me l sel next : connecting c me l sel next → connecting c' me l sel next.
Proof.
  pose proof fs_grows as Hgr. intros (H1 & H2 & H3 & H4 & H5). split_and!; [done|by rewrite (gr_cfg _ _ Hgr)| | |].
  - intros j Hj. destruct (H3 j Hj) as (R1 & R2 & R3). rewrite (quiet_nbs _ _ _ _ qs_quiet).
    split_and!; [by eapply gr_reached|done|done].
  - by eapply gr_at.
  - destruct H5; [left; by apply fs_visible|by right].
Qed.

Lemma qs_inv :
  (∀ n, p = SetEntry n → keeps_global n = false) →
  (reading_entry p' = true → reading_entry p = true ∨ global ∈ heldat jobs c t) →
  (open_entry p = true → open_entry p' = true ∨
     ∀ i lv, claimed p = Some i → level_of (whole c) i = Some lv → (lv ≤ maxlevel_ (shared c))%Z) →
  (∀ l sel', linking p' = Some (l, sel') → ∃ sel, linking p = Some (l, sel) ∧ sel' ⊆ sel) →
  locks_ok jobs c' → pc_ok c' q p' → inv c'.
Proof.
  intros H1 H2 H3 H4 H5 H6. apply fs_inv; try done.
  - apply qs_quiet.
  - intros i j l _ _. rewrite (quiet_nbs _ _ _ _ qs_quiet). by left.
  - intros u r i Hne Hu Hi. split.
    + intros l _ _ _. apply (qu_links _ _ qs_quiet).
    + intros j l sel _ _. by rewrite (quiet_nbs _ _ _ _ qs_quiet).
  - by apply fs_ranked.
Qed.
End quiet_step.

(** Mutexes after the step. *)
Lemma fs_heldat u : heldat jobs c' u = if decide (u = t) then held label p' else heldat jobs c u.
Proof.
  case_decide as Hu; [subst u; by apply (heldat_eq jobs c' t q), fs_pc_eq|]. unfold heldat. by rewrite fs_pc_ne.
Qed.
Lemma fs_acquire m :
  locks c !! m = None → ls' = <[m := t]> (locks c) → held label p' = m :: held label p → locks_ok jobs c'.
Proof.
  intros H1 H2 H3. apply (locks_acquire jobs c c' t m); [apply Hinv|done|done| |].
  - by rewrite fs_heldat, decide_True, H3, (heldat_eq jobs c t q label p).
  - intros u Hu. by rewrite fs_heldat, decide_False.
Qed.
Lemma fs_release rel :
  ls' = release rel (locks c) → held label p = rel ++ held label p' → locks_ok jobs c'.
Proof.
  intros H1 H2. apply (locks_release jobs c c' t rel); [apply Hinv|done| |].
  - by rewrite fs_heldat, decide_True, (heldat_eq jobs c t q label p).
  - intros u Hu. by rewrite fs_heldat, decide_False.
Qed.
Lemma fs_unwind : ls' = unwind t (locks c) → held label p' = [] → locks_ok jobs c'.
Proof.
  intros H1 H2. apply (locks_unwind jobs c c' t); [apply Hinv|done| |].
  - by rewrite fs_heldat, decide_True.
  - intros u Hu. by rewrite fs_heldat, decide_False.
Qed.
End frame_step.

(** ** What a thread may rely on *)
Context (Hix : index_ok s0) (Hlive0 : ∀ i, i < cur_element_count s0 → live s0 i = true).

Lemma job_of c t p : inv c → pcs c !! t = Some p → ∃ q label, jobs !! t = Some (q, label).
Proof.
  intros Hinv Ht. destruct (lookup_lt_is_Some_2 jobs t) as [[q label] ?]; [|eauto].
  rewrite <- (in_len _ _ _ _ Hinv). by eapply lookup_lt_Some.
Qed.

(** An element whose lock another thread has obtained is no longer being built. *)
Lemma locked_settled c t q label p o l :
  inv c → jobs !! t = Some (q, label) → pcs c !! t = Some p → link_list_lock o ∈ held label p →
  claimed p ≠ Some o → visible c o l → visible c o 0.
Proof.
  intros Hinv Hj Ht Hm Hne Hv u r Hu Hr. pose proof (Hv u r Hu Hr) as Hb.
  assert (u ≠ t) as Hut by (intros ->; congruence).
  destruct (job_of c u r Hinv Hu) as (q' & lab' & Hj').
  assert (link_list_lock o ∉ held lab' r) as Hn.
  { intros Hin. apply Hut, (locks_excl jobs c (link_list_lock o)); [apply Hinv| |].
    - by rewrite (heldat_eq jobs c u q' lab' r).
    - by rewrite (heldat_eq jobs c t q label p). }
  assert (∀ b, link_list_lock o ∈ held_el lab' o b) as Hel.
  { intros b. unfold held_el. apply elem_of_app. right. left. }
  destruct r; simpl in *; try done; injection Hr as <-; exfalso; apply Hn; rewrite ?elem_of_cons; auto.
Qed.

Lemma whole_live c i : inv c → i < cur_element_count (shared c) → live (whole c) i = true.
Proof.
  intros Hinv Hi. destruct (decide (i ∈ pend (pcs c))) as [Hin|Hnin].
  { unfold live, whole. by rewrite complete_level0, decide_True. }
  destruct (complete_total (pend (pcs c)) (shared c) i Hnin) as (_ & Hl & _). unfold whole. rewrite Hl. unfold live.
  destruct (in_claims _ _ _ _ Hinv) as [C1 C2 C3 C4 C5 C6].
  destruct (N.lt_ge_cases i (cur_element_count s0)) as [Hlt|Hge].
  - specialize (C5 i Hlt). specialize (Hlive0 i Hlt). unfold live in Hlive0.
    destruct (level0 (shared c) !! i), (level0 s0 !! i); simpl in *; try done. injection C5 as _ _ ->. done.
  - destruct (C3 i) as (t & p & Ht & Hc); [lia|]. destruct (job_of c t p Hinv Ht) as (q & lab & Hj).
    destruct (C1 t q lab p i Hj Ht Hc) as (_ & _ & He).
    destruct (pending p) eqn:Hpe; [destruct Hnin; apply elem_pend; eauto|]. specialize (He eq_refl).
    destruct (level0 (shared c) !! i); simpl in *; [|done]. by injection He as _ _ ->.
Qed.

(** Links of a reached element lead to reached elements. *)
Lemma reached_nbs c o l j : inv c → (0 ≤ l)%Z → reached c l o → j ∈ nbs_at (whole c) l o → reached c l j ∧ j ≠ o.
Proof.
  intros Hinv Hl [Ho Hv] Hj. destruct (nbs_at_level (whole c) o j l (in_graph _ _ _ _ Hinv) Hl Ho Hj) as [Ha ?].
  split; [|done]. split; [done|]. by apply (in_links _ _ _ _ Hinv o).
Qed.
Lemma reached_pend c l i : reached c l i → i ∉ pend (pcs c).
Proof. intros [_ Hv]. by eapply visible_pend. Qed.
End steps.
