(* ===== verification/InsertThreadsMoves.v ===== *)
(** * The steps of an insertion, one by one

    Each lemma takes a thread at one program counter through its step and
    shows that the invariant holds after it; that the code between two mutex
    operations returns is part of it. *)

From Stdlib Require Import ZArith Lia.
From stdpp Require Import base numbers list gmap strings relations.
From S2P Require Import Prelude Heap VisitedList Arith BeamSearch Hnsw HnswSearch HnswInsert HnswWf.
From S2P Require Import HnswSearchLaws HnswKnn HeuristicLaws HnswConnectLaws HnswAddLaws.
From S2P Require Import InsertThreads PendingElements InsertThreadsInv InsertThreadsSteps.
#[local] Open Scope N_scope.

(** ** The layer search, entered and expanded step by step *)
Section beam_steps.
Context `{HI : HeapImpl} {D : Type} `{HD : DistT D} `{HO : !DistOrder D}.
Variables (dist : tableint → D) (acc : tableint → bool) (ef : N).
Hypothesis ef_pos : 1 ≤ ef.

Lemma g_init_inv (P : tableint → Prop) n ep vl :
  vl_ok vl → numelements vl = n → ep < n → P ep → acc ep = true → (∀ i, i < n → is_visited vl i = Some false) →
  beam_inv dist acc ef P (λ _, False) n (g_init dist acc ep vl).
Proof.
  intros Hvl Hn Hlt Hep Ha Hf.
  assert (∀ i, visited_in (mark_visited vl ep) i ↔ i = ep) as HV.
  { intros i. rewrite visited_in_mark by (done || congruence). split; [|by left]. intros [?|Hv]; [done|].
    pose proof (is_visited_lt _ _ _ Hvl Hv) as Hi. rewrite Hn in Hi.
    unfold visited_in in Hv. rewrite Hf in Hv by done. done. }
  unfold g_init. rewrite Ha. split; simpl; rewrite ?push_nil; try done.
  - by apply mark_visited_ok.
  - apply is_heap_singleton.
  - apply is_heap_singleton.
  - intros d i [= -> ->]%list_elem_of_singleton. by rewrite HV.
  - apply NoDup_singleton.
  - intros d i [= -> ->]%list_elem_of_singleton. by rewrite HV.
  - by intros i ->%HV.
  - intros i ->%HV _. left. left.
  - intros i ->%HV. right. left. left.
Qed.

Lemma g_for_nonempty (v : lstate D) ids : top_candidates v ≠ [] → top_candidates (g_for dist acc ef v ids) ≠ [].
Proof.
  revert v. induction ids as [|i ids IH]; intros v Hv; [done|]. simpl. apply IH. unfold g_visit.
  destruct (seen (visited v) i); [done|]. case_match; [|done]. simpl. unfold g_push.
  set (top := if acc i then _ else _). assert (top ≠ []) as Htop.
  { unfold top. destruct (acc i); [|done]. intros Hn. pose proof (pq_push_length cmp (top_candidates v) (dist i, i)) as Hl.
    by rewrite Hn in Hl. }
  destruct (N.ltb_spec ef (pq_size top)) as [Hlt|]; [|done]. intros Hn.
  pose proof (pq_pop_size cmp top) as Hs. rewrite Hn in Hs. unfold pq_size at 1 in Hs. simpl in Hs. lia.
Qed.
End beam_steps.

Section moves.
Context `{RE : RandomEngine} `{HI : HeapImpl} `{AL : Alloc} {D : Type} `{HD : DistT D} `{HO : !DistOrder D}.
Variable fstdistfunc_ : point → point → D.
Variable jobs : list (point * labeltype).
Variable s0 : hnsw.
Context (Hix : index_ok s0) (Hlive0 : ∀ i, i < cur_element_count s0 → live s0 i = true).
Implicit Types (c : conf D) (p r : pc D) (i j : tableint) (l : Z) (t u : nat) (s : hnsw).
#[local] Abbreviation inv := (inv fstdistfunc_ jobs s0).
#[local] Abbreviation pc_ok := (pc_ok fstdistfunc_).
#[local] Abbreviation dist := (dist_to fstdistfunc_).

(** ** Steps that change no link *)

(** [p'] follows [p] without taking an id, writing the element or linking. *)
Record calm (label : labeltype) p p' : Prop := {
  ca_claimed : claimed p' = claimed p;
  ca_pending : pending p' = pending p;
  ca_vis l : visb p l = true → visb p' l = true;
  ca_set n : p = SetEntry n → keeps_global n = false;
  ca_read : reading_entry p' = true → reading_entry p = true ∨ global ∈ held label p;
  ca_open : open_entry p = true → open_entry p' = true;
  ca_link l sel' : linking p' = Some (l, sel') → ∃ sel, linking p = Some (l, sel) ∧ sel' ⊆ sel
}.

(** What carries over from [c] to [c'] for the thread that steps. *)
Record carries c p c' p' : Prop := {
  cr_grows : grows c c';
  cr_quiet : quiet (whole c) (whole c');
  cr_vis i l : visible c i l → visible c' i l;
  cr_top lv maxl : top_ok c lv maxl → top_ok c' lv maxl;
  cr_blank i lv : blank_ok c p i lv → blank_ok c' p' i lv;
  cr_ins n : ins_ok c p n → ins_ok c' p' n;
  cr_conn me l sel next : connecting c me l sel next → connecting c' me l sel next;
  cr_level i : level_of (shared c') i = level_of (shared c) i
}.

Lemma step_calm c t q label p p' s' ls' :
  let c' := mkConf s' ls' (<[t := p']> (pcs c)) in
  inv c → jobs !! t = Some (q, label) → pcs c !! t = Some p → calm label p p' →
  frame (shared c) s' → quiet (whole c) (complete (pend (pcs c)) s') →
  locks_ok jobs c' → (carries c p c' p' → pc_ok c' q p') → inv c'.
Proof.
  intros c' Hinv Hj Hp [A1 A2 A3 A4 A5 A6 A7] Hf Hq Hl Hpc.
  eapply qs_inv; try done.
  - intros Hr. destruct (A5 Hr); [by left|right]. by rewrite (heldat_eq jobs c t q label p).
  - intros Ho. left. auto.
  - apply Hpc. split.
    + by eapply fs_grows.
    + by eapply qs_quiet.
    + intros i l. by apply (fs_visible _ _ p).
    + intros lv maxl. by apply qs_top.
    + intros i lv. by apply qs_blank.
    + intros n. by apply qs_ins.
    + intros me l sel next. by apply (qs_connecting _ _ p).
    + intros i. by apply frame_level_of.
Qed.

Lemma step_acquire c c' t q label p p' m :
  inv c → jobs !! t = Some (q, label) → pcs c !! t = Some p → acquire t m p' c = Some c' →
  calm label p p' → held label p' = m :: held label p →
  (carries c p c' p' → pc_ok c' q p') → inv c'.
Proof.
  intros Hinv Hj Hp Ha Hca Hh. unfold acquire in Ha. destruct (locks c !! m) eqn:Hm; [done|]. injection Ha as <-.
  apply step_calm with label; try done.
  - apply quiet_refl, Hinv.
  - by apply (fs_acquire fstdistfunc_ jobs s0 c t q label p p' (shared c) _ Hinv Hj Hp m).
Qed.

(** Code that runs and releases [rel a]. *)
Lemma step_perform {A} c t q label p (m : eff hnsw A) rel k s' a :
  inv c → jobs !! t = Some (q, label) → pcs c !! t = Some p → m (shared c) = (s', Ok a) →
  calm label p (k a) → held label p = rel a ++ held label (k a) →
  frame (shared c) s' → quiet (whole c) (complete (pend (pcs c)) s') →
  (carries c p (perform t m rel k c) (k a) → pc_ok (perform t m rel k c) q (k a)) → inv (perform t m rel k c).
Proof.
  intros Hinv Hj Hp Hrun Hca Hh Hf Hq. unfold perform. rewrite Hrun. apply step_calm with label; try done.
  by apply (fs_release fstdistfunc_ jobs s0 c t q label p (k a) s' _ Hinv Hj Hp (rel a)).
Qed.
(** The same when the index does not change. *)
Lemma step_read {A} c t q label p (m : eff hnsw A) rel k a :
  inv c → jobs !! t = Some (q, label) → pcs c !! t = Some p → m (shared c) = (shared c, Ok a) →
  calm label p (k a) → held label p = rel a ++ held label (k a) →
  (carries c p (perform t m rel k c) (k a) → pc_ok (perform t m rel k c) q (k a)) → inv (perform t m rel k c).
Proof.
  intros Hinv Hj Hp Hrun Hca Hh. apply (step_perform c t q label p m rel k (shared c)); try done.
  apply quiet_refl, Hinv.
Qed.

Ltac calm := split; simpl; try done; try (by left); try (by intros ? ? [= <- <-]; eexists).

Section at_pc.
Context c t (q : point) (label : labeltype).
Context (Hinv : inv c) (Hj : jobs !! t = Some (q, label)).

Lemma move_LockLabel c' : pcs c !! t = Some LockLabel →
  acquire t (getLabelOpMutex label) LockLookup c = Some c' → inv c'.
Proof. intros Hp Ha. by eapply step_acquire; [exact Hinv|exact Hj|exact Hp|exact Ha|calm|done|]. Qed.
Lemma move_LockLookup c' : pcs c !! t = Some LockLookup → acquire t label_lookup_lock Lookup c = Some c' → inv c'.
Proof. intros Hp Ha. by eapply step_acquire; [exact Hinv|exact Hj|exact Hp|exact Ha|calm|done|]. Qed.
Lemma move_LockElement c' i : pcs c !! t = Some (LockElement i) →
  acquire t (link_list_lock i) (DrawLevel i) c = Some c' → inv c'.
Proof. intros Hp Ha. by eapply step_acquire; [exact Hinv|exact Hj|exact Hp|exact Ha|calm|done|]. Qed.
Lemma move_LockGlobal c' i lv : pcs c !! t = Some (LockGlobal i lv) →
  acquire t global (ReadMaxlevel i lv) c = Some c' → inv c'.
Proof.
  intros Hp Ha. pose proof (in_pc _ _ _ _ Hinv t q label _ Hj Hp) as [H1 H2].
  eapply step_acquire; [exact Hinv|exact Hj|exact Hp|exact Ha|calm|done|]. intros Hc. simpl. by rewrite (cr_level _ _ _ _ Hc).
Qed.
Lemma move_GreedyLock c' n l o d : pcs c !! t = Some (GreedyLock n l o d) →
  acquire t (link_list_lock o) (GreedyRead n l o d) c = Some c' → inv c'.
Proof.
  intros Hp Ha. pose proof (in_pc _ _ _ _ Hinv t q label _ Hj Hp) as (H1 & H2 & H3 & H4).
  eapply step_acquire; [exact Hinv|exact Hj|exact Hp|exact Ha|calm|done|]. intros [Hgr Hq Hv _ _ Hi _ _]. simpl.
  split_and!; [by apply Hi|lia|lia|by eapply gr_reached|]. rewrite H4. symmetry. eapply gr_dist; [done|apply H3..].
Qed.
Lemma move_ConnectLock c' n e l nb rest next : pcs c !! t = Some (ConnectLock n e l nb rest next) →
  acquire t (link_list_lock nb) (ConnectBack n e l nb rest next) c = Some c' → inv c'.
Proof.
  intros Hp Ha. pose proof (in_pc _ _ _ _ Hinv t q label _ Hj Hp) as (H1 & H2 & H3).
  eapply step_acquire; [exact Hinv|exact Hj|exact Hp|exact Ha|calm|done|]. intros [Hgr Hq Hv _ _ Hi Hc _]. simpl.
  split_and!; [by apply Hi|apply H2..|by apply Hc].
Qed.

(** ** Reading the top level and the entry point *)
Lemma maxlevel_low : (-1 ≤ maxlevel_ (shared c))%Z.
Proof. destruct (in_entry _ _ _ _ Hinv) as [[-> _]|[(?&n&?&?&?&->&_)|[? _]]]; lia. Qed.

Lemma move_ReadMaxlevel i lv : pcs c !! t = Some (ReadMaxlevel i lv) →
  inv (perform t (eff_get maxlevel_) (λ maxl, if (lv <=? maxl)%Z then [global] else []) (ReadEntry i lv) c).
Proof.
  intros Hp. pose proof (in_pc _ _ _ _ Hinv t q label _ Hj Hp) as [H1 H2]. pose proof maxlevel_low.
  eapply step_read; [exact Hinv|exact Hj|exact Hp|done| | |].
  - calm. intros _. right. left.
  - simpl. rewrite Z.leb_antisym. by destruct (maxlevel_ (shared c) <? lv)%Z.
  - intros Hc. split; [by rewrite (cr_level _ _ _ _ Hc)|]. apply (cr_top _ _ _ _ Hc).
    split_and!; [done|lia|lia|done].
Qed.

(** The entry point that a reader finds. *)
Lemma entry_found i lv maxl p : pcs c !! t = Some p → reading_entry p = true → top_ok c lv maxl →
  start_ok c maxl (enterpoint_node_ (shared c)).
Proof.
  intros Hp Hr (H1 & H2 & H3).
  destruct (in_entry _ _ _ _ Hinv) as [[E1 E2]|[(u & n & _ & _ & _ & _ & Hn)|(E1 & E2 & E3)]].
  - left. split; [lia|done].
  - by rewrite (Hn t p Hp) in Hr.
  - right. assert (maxl ≠ (-1)%Z) by lia. split_and!; [lia|eapply at_level_le; [exact E2|lia]|done].
Qed.

Lemma move_ReadEntry i lv maxl : pcs c !! t = Some (ReadEntry i lv maxl) →
  inv (perform t (eff_get enterpoint_node_) (λ _, []) (ReadEntryCopy i lv maxl) c).
Proof.
  intros Hp. pose proof (in_pc _ _ _ _ Hinv t q label _ Hj Hp) as [H1 H2].
  eapply step_read; [exact Hinv|exact Hj|exact Hp|done|calm|done|].
  intros Hc. split_and!; [by rewrite (cr_level _ _ _ _ Hc)|by apply (cr_top _ _ _ _ Hc)|].
  eapply gr_start; [apply Hc|]. by eapply entry_found.
Qed.
Lemma move_ReadEntryCopy i lv maxl o : pcs c !! t = Some (ReadEntryCopy i lv maxl o) →
  inv (perform t (eff_get enterpoint_node_) (λ _, []) (λ ep, InitElement (mkIns i lv maxl ep) o) c).
Proof.
  intros Hp. pose proof (in_pc _ _ _ _ Hinv t q label _ Hj Hp) as (H1 & H2 & H3).
  eapply step_read; [exact Hinv|exact Hj|exact Hp|done|calm|done|].
  intros Hc. split_and!; [by rewrite (cr_level _ _ _ _ Hc)|by apply (cr_top _ _ _ _ Hc)| |];
    (eapply gr_start; [apply Hc|]); [done|by eapply entry_found].
Qed.

(** ** Reads that stay away from pending elements *)
Lemma shared_reads i l : reached c l i →
  getDataByInternalId (shared c) i = Ok (data_of (whole c) i) ∧ isMarkedDeleted (shared c) i = Ok false.
Proof.
  intros Hr. pose proof (reached_pend _ _ _ Hr) as Hn.
  destruct (complete_reads (pend (pcs c)) (shared c) i Hn) as (<- & <- & _). fold (whole c).
  assert (i < cur_element_count (whole c)) as Hi by apply Hr.
  destruct (ok_reads (whole c) i (in_graph _ _ _ _ Hinv) Hi) as (-> & _ & ->).
  by rewrite (whole_live fstdistfunc_ jobs s0 Hlive0 c i Hinv Hi).
Qed.
Lemma start_reached n o : start_ok c (maxlevelcopy n) o → (0 ≤ maxlevelcopy n)%Z →
  reached c (maxlevelcopy n) o ∧ o < 4294967295.
Proof.
  intros [[? _]|(H1 & H2 & H3)] Hle; [lia|]. split; [by apply reached_0|].
  pose proof (go_count _ (in_graph _ _ _ _ Hinv)). destruct (go_cfg _ (in_graph _ _ _ _ Hinv)) as (_&_&_&_&_&_&?&_).
  destruct H2 as [H2 _]. lia.
Qed.

Lemma move_StartDescent n o : pcs c !! t = Some (StartDescent n o) →
  inv (if o =? 4294967295 then perform t (eff_ret tt) (λ _, []) (λ _, FirstEntry n) c
       else if (curlevel n <? maxlevelcopy n)%Z
       then perform t (eff_lift (λ s, getDataByInternalId s o)) (λ _, [])
              (λ x, greedy_next n (maxlevelcopy n) o (fstdistfunc_ q x)) c
       else perform t (eff_ret tt) (λ _, []) (λ _, ReadEpDeleted n o) c).
Proof.
  intros Hp. pose proof (in_pc _ _ _ _ Hinv t q label _ Hj Hp) as (H1 & H2 & H3 & H4).
  destruct (N.eqb_spec o 4294967295) as [->|Hne].
  - eapply step_read; [exact Hinv|exact Hj|exact Hp|done|calm|done|]. intros Hc.
    split_and!; [by apply (cr_blank _ _ _ _ Hc)|by apply (cr_top _ _ _ _ Hc)|].
    destruct (decide (0 ≤ maxlevelcopy n)%Z) as [Hle|]; [|destruct H2 as (_ & ? & _); lia].
    destruct (start_reached n _ H3 Hle). lia.
  - assert (0 ≤ maxlevelcopy n)%Z as Hm by (destruct H3 as [[_ ?]|[? _]]; done).
    destruct (start_reached n o H3 Hm) as [Ro _]. destruct (start_reached n _ H4 Hm) as [Re _].
    assert (ins_ok c (StartDescent n o) n) as Hins.
    { split_and!; [done|done|done|apply Re|]. destruct H4 as [[? _]|(_ & _ & ?)]; [lia|done]. }
    assert (visible c o 0) as Hvo by (destruct H3 as [[? _]|(_ & _ & ?)]; [lia|done]).
    destruct (Z.ltb_spec (curlevel n) (maxlevelcopy n)) as [Hlt|Hge].
    + destruct (shared_reads o _ Ro) as [Hd _].
      eapply step_read; [exact Hinv|exact Hj|exact Hp|unfold eff_lift; by rewrite Hd| | |];
        unfold greedy_next; rewrite (proj2 (Z.ltb_lt _ _)) by done; [calm|done|].
      intros Hc. pose proof (cr_grows _ _ _ _ Hc) as Hgr.
      split_and!; [by apply (cr_ins _ _ _ _ Hc)|lia|lia|by eapply gr_reached|].
      fold (dist (whole c) q o). symmetry. by eapply gr_dist; [done|apply Ro|apply Hvo].
    + eapply step_read; [exact Hinv|exact Hj|exact Hp|done|calm|done|]. intros Hc.
      pose proof (cr_grows _ _ _ _ Hc) as Hgr.
      split_and!; [by apply (cr_ins _ _ _ _ Hc)| |by apply (cr_vis _ _ _ _ Hc)].
      eapply gr_at; [done|]. eapply at_level_le; [apply Ro|lia].
Qed.

Lemma move_ReadEpDeleted n o : pcs c !! t = Some (ReadEpDeleted n o) →
  inv (perform t (eff_lift (λ s, isMarkedDeleted s (enterpoint_copy n))) (λ _, [])
         (λ e, SearchInit n e (Z.min (curlevel n) (maxlevelcopy n)) o) c).
Proof.
  intros Hp. pose proof (in_pc _ _ _ _ Hinv t q label _ Hj Hp) as (H1 & H2 & H3).
  pose proof H1 as ((Hlv & _) & _ & Hm & He & Hv).
  destruct (shared_reads (enterpoint_copy n) (maxlevelcopy n)) as [_ Hd]; [by apply reached_0|].
  eapply step_read; [exact Hinv|exact Hj|exact Hp|unfold eff_lift; by rewrite Hd|calm|done|]. intros Hc.
  pose proof (cr_grows _ _ _ _ Hc) as Hgr.
  split_and!; [by apply (cr_ins _ _ _ _ Hc)|split; [done|lia]|by eapply gr_at|by apply (cr_vis _ _ _ _ Hc)].
Qed.

(** ** Unlocking *)
Lemma move_UnlockGlobal n : pcs c !! t = Some (UnlockGlobal n) →
  inv (perform t (eff_ret tt) (λ _, if keeps_global n then [global] else []) (λ _, UnlockElement n) c).
Proof.
  intros Hp. eapply step_read; [exact Hinv|exact Hj|exact Hp|done|calm| |done]. simpl. by destruct (keeps_global n).
Qed.
Lemma move_UnlockElement n : pcs c !! t = Some (UnlockElement n) →
  inv (perform t (eff_ret tt) (λ _, [link_list_lock (cur_c n)]) (λ _, UnlockLabel (cur_c n)) c).
Proof. intros Hp. by eapply step_read; [exact Hinv|exact Hj|exact Hp|done|calm| |]. Qed.
Lemma move_UnlockLabel i : pcs c !! t = Some (UnlockLabel i) →
  inv (perform t (eff_ret tt) (λ _, [getLabelOpMutex label]) (λ _, Done i) c).
Proof. intros Hp. by eapply step_read; [exact Hinv|exact Hj|exact Hp|done|calm| |]. Qed.

(** ** The greedy descent *)
Lemma greedy_for_state ck ids o d ch s : (greedy_for fstdistfunc_ ck q ids o d ch s).1 = s.
Proof.
  revert o d ch. induction ids as [|i ids IH]; intros o d ch; [done|]. cbn [greedy_for].
  unfold eff_bind at 1, eff_get. destruct (ck && _); [done|]. unfold eff_bind, eff_lift.
  destruct (getDataByInternalId s i); [|done..]. case_match; apply IH.
Qed.
(** The links of a reached element, read from the index as it is. *)
Lemma shared_links o l : (0 ≤ l)%Z → reached c l o →
  ∃ ll, get_linklist_at_level (shared c) o l = Ok ll ∧ links_of ll = Ok (nbs_at (whole c) l o) ∧
    Forall (λ j, j ∉ pend (pcs c)) (nbs_at (whole c) l o).
Proof.
  intros Hl Hr. pose proof (reached_pend _ _ _ Hr) as Hn.
  destruct (complete_reads (pend (pcs c)) (shared c) o Hn) as (_ & _ & E & _).
  destruct (ok_links (whole c) o l (in_graph _ _ _ _ Hinv) Hl (proj1 Hr)) as (ll & Hget & _ & Hlinks).
  exists ll. unfold whole in Hget. rewrite E in Hget. split_and!; [done|done|]. apply Forall_forall. intros j Hj'.
  eapply reached_pend. by eapply (reached_nbs fstdistfunc_ jobs s0 c o l).
Qed.

Lemma greedy_round_run l o : (0 < l)%Z → reached c l o →
  ∃ o' ch, greedy_round fstdistfunc_ q l o (dist (whole c) q o) (shared c) =
      (shared c, Ok (o', dist (whole c) q o', ch)) ∧
    (o' = o ∧ ch = false ∨ reached c l o' ∧ ch = true ∧ dlt (dist (whole c) q o') (dist (whole c) q o) = true).
Proof.
  intros Hl Hr. destruct (shared_links o l ltac:(lia) Hr) as (ll & Hget & Hll & Hout).
  destruct (greedy_for_ok fstdistfunc_ true q (whole c) (nbs_at (whole c) l o) o false) as (o' & ch & Hrun & Hcase & _).
  { apply Hinv. }
  { apply Forall_forall. intros j Hj'. by destruct (reached_nbs fstdistfunc_ jobs s0 c o l j Hinv ltac:(lia) Hr Hj') as [[[? _] _] _]. }
  exists o', ch. split.
  - unfold greedy_round. unfold get_linklist_at_level in Hget. rewrite (proj2 (Z.eqb_neq _ _)) in Hget by lia.
    rewrite (eff_bind_lift _ _ _ ll) by done. rewrite (eff_bind_lift (λ _, links_of ll) _ (shared c) _ Hll).
    pose proof (co_greedy_for fstdistfunc_ (pend (pcs c)) true q _ o (dist (whole c) q o) false (shared c) Hout) as Hco.
    unfold commutes in Hco. fold (whole c) in Hco. rewrite Hrun in Hco. apply (f_equal snd) in Hco as Hres. cbn [snd] in Hres.
    rewrite (surjective_pairing (greedy_for _ _ _ _ _ _ _ _)), greedy_for_state. by rewrite <- Hres.
  - destruct Hcase as [[-> ->]|(Hin & -> & Hlt)]; [by left|right]. split_and!; [|done|done].
    by apply (reached_nbs fstdistfunc_ jobs s0 c o l o' Hinv ltac:(lia) Hr Hin).
Qed.

Lemma move_GreedyRead n l o d : pcs c !! t = Some (GreedyRead n l o d) →
  inv (perform t (greedy_round fstdistfunc_ q l o d) (λ _, [link_list_lock o])
         (λ '(o', d', changed), if (changed : bool) then GreedyLock n l o' d'
                                else greedy_next n (l - 1) o' d') c).
Proof.
  intros Hp. pose proof (in_pc _ _ _ _ Hinv t q label _ Hj Hp) as (H1 & H2 & H3 & ->).
  pose proof H1 as ((Hlv & _) & _). destruct (greedy_round_run l o ltac:(lia) H3) as (o' & ch & Hrun & Hcase).
  assert (visible c o 0) as Hvo.
  { eapply (locked_settled fstdistfunc_ jobs s0); [exact Hinv|exact Hj|exact Hp|left| |apply H3].
    by eapply visible_not_own; [apply H3|exact Hp|]. }
  destruct Hcase as [[-> ->]|(Hr & -> & Hlt)].
  - eapply step_read; [exact Hinv|exact Hj|exact Hp|exact Hrun| | |]; cbn iota; unfold greedy_next;
      destruct (Z.ltb_spec (curlevel n) (l - 1)) as [Hlt|Hge]; [calm|calm|done|done| |]; intros [Hgr Hq Hv _ _ Hi _ _].
    + split_and!; [by apply Hi|lia|lia| |].
      * eapply gr_reached; [done|]. apply reached_0; [|done|lia]. eapply at_level_le; [apply H3|lia].
      * symmetry. by eapply gr_dist; [done|apply H3|exact Hvo].
    + split_and!; [by apply Hi| |by apply Hv]. eapply gr_at; [done|]. eapply at_level_le; [apply H3|lia].
  - eapply step_read; [exact Hinv|exact Hj|exact Hp|exact Hrun|calm|done|]. intros [Hgr Hq Hv _ _ Hi _ _].
    split_and!; [by apply Hi|lia|lia|by eapply gr_reached|]. symmetry. by eapply gr_dist; [done|apply Hr..].
Qed.

(** ** The layer search *)
Let F := pend (pcs c).
Lemma efc_pos_c : 1 ≤ ef_construction_ (cfg (shared c)).
Proof. exact (efc_pos (whole c) (in_graph _ _ _ _ Hinv)). Qed.
Lemma whole_frame s' : frame (shared c) s' → frame (whole c) (complete F s').
Proof. apply frame_complete. Qed.
Lemma reached_lt l i : reached c l i → i < max_elements_ (cfg (shared c)).
Proof. intros [[Hi _] _]. pose proof (go_count _ (in_graph _ _ _ _ Hinv)) as Hc. simpl in *. lia. Qed.

Lemma search_begin_run n l o : (0 ≤ l ≤ maxlevelcopy n)%Z → reached c l o →
  ∃ vl pl, search_begin fstdistfunc_ q (maxlevelcopy n) l o (shared c) =
      (set_pool pl (shared c), Ok (g_init (dist (whole c) q) (live (whole c)) o vl)) ∧
    vl_ok vl ∧ numelements vl = max_elements_ (cfg (shared c)) ∧
    (∀ i, i < max_elements_ (cfg (shared c)) → is_visited vl i = Some false) ∧
    quiet (whole c) (complete F (set_pool pl (shared c))).
Proof.
  intros Hl Hr. pose proof (in_graph _ _ _ _ Hinv) as Hg.
  destruct (search_setup (whole c) Hg) as (vl & pl & Htake & Hvl & Hn & Hf & Hq & _).
  set (s' := set_pool pl (shared c)). exists vl, pl. split; [|by split_and!].
  unfold search_begin. rewrite (proj2 (Z.ltb_ge _ _)), (proj2 (Z.ltb_ge _ _)) by lia. cbn [orb].
  assert (take_visited (shared c) = (s', Ok vl)) as Ht.
  { unfold take_visited in *. change (visited_list_pool_ (whole c)) with (visited_list_pool_ (shared c)) in Htake.
    destruct (getFreeVisitedList (visited_list_pool_ (shared c))) as [vl0 p0].
    by injection Htake as -> ->. }
  rewrite (eff_bind_ok _ _ _ _ _ Ht). unfold eff_lift. f_equal.
  rewrite <- (complete_sbl_init fstdistfunc_ F s' q o vl) by by eapply reached_pend.
  apply (sbl_init_refine fstdistfunc_ (complete F s') q l); try done; [apply (qu_graph _ _ Hq)|apply Hr].
Qed.
Lemma move_SearchInit n e l o : pcs c !! t = Some (SearchInit n e l o) →
  inv (perform t (search_begin fstdistfunc_ q (maxlevelcopy n) l o) (λ _, []) (SearchLoop n e l) c).
Proof.
  intros Hp. pose proof (in_pc _ _ _ _ Hinv t q label _ Hj Hp) as (H1 & H2 & H3 & H4). pose proof H2 as [_ Hl].
  pose proof (reached_0 c o l H3 H4 ltac:(lia)) as Hr.
  destruct (search_begin_run n l o ltac:(lia) Hr) as (vl & pl & Hrun & Hvl & Hn & Hf & Hq).
  eapply step_perform; [exact Hinv|exact Hj|exact Hp|exact Hrun|calm|done|done|exact Hq|].
  intros [Hgr Hqu Hv _ _ Hi _ _]. split_and!; [by apply Hi|done|].
  eapply gr_searching; [done|]. split.
  - exists (λ _, False). apply g_init_inv; try done.
    + apply efc_pos_c.
    + by eapply reached_lt.
    + eapply (whole_live fstdistfunc_ jobs s0); [done..|]. apply Hr.
  - unfold g_init. rewrite (whole_live fstdistfunc_ jobs s0 Hlive0 c o Hinv) by apply Hr. simpl. by rewrite push_nil.
Qed.

Lemma searching_next l v cand v' :
  searching fstdistfunc_ c q l v → search_next (ef_construction_ (cfg (shared c))) v = Some (cand, v') →
  searching fstdistfunc_ c q l v' ∧ reached c l cand.
Proof.
  intros [[E Hb] Hne] Hn. unfold search_next in Hn. destruct (pq_top (candidateSet v)) as [[d x]|] eqn:Ht; [|done].
  case_match; [done|]. injection Hn as -> <-. split.
  - split; [|done]. eexists. by eapply inv_pop.
  - apply (bi_valid _ _ _ _ _ _ _ Hb). by apply pq_top_elem, (bi_cand _ _ _ _ _ _ _ Hb) in Ht as [_ ?].
Qed.
Lemma move_SearchLoop c' n e l v cand v' : pcs c !! t = Some (SearchLoop n e l v) →
  search_next (ef_construction_ (cfg (shared c))) v = Some (cand, v') →
  acquire t (link_list_lock cand) (SearchRead n e l cand v') c = Some c' → inv c'.
Proof.
  intros Hp Hn Ha. pose proof (in_pc _ _ _ _ Hinv t q label _ Hj Hp) as (H1 & H2 & H3).
  destruct (searching_next l v cand v' H3 Hn) as [Hs Hr].
  eapply step_acquire; [exact Hinv|exact Hj|exact Hp|exact Ha|calm|done|]. intros [Hgr Hq Hv _ _ Hi _ _].
  split_and!; [by apply Hi|done|by eapply gr_searching|by eapply gr_reached].
Qed.

Lemma searching_selecting l v : searching fstdistfunc_ c q l v → selecting c l (top_candidates v).
Proof.
  intros [[E Hb] Hne]. split_and!; [apply Hb|apply Hb|done|].
  intros i ([d x] & -> & Hin)%list_elem_of_fmap.
  apply (bi_valid _ _ _ _ _ _ _ Hb). by apply (bi_top _ _ _ _ _ _ _ Hb) in Hin as (_ & _ & ?).
Qed.
Lemma gr_selecting c' l top : grows c c' → selecting c l top → selecting c' l top.
Proof.
  intros Hgr (H1 & H2 & H3 & H4). split_and!; [done..|]. intros i Hi. by eapply gr_reached, H4.
Qed.
Lemma move_SearchEnd n e l v : pcs c !! t = Some (SearchLoop n e l v) →
  inv (perform t (search_end fstdistfunc_ q (enterpoint_copy n) e v) (λ _, []) (Select n e l) c).
Proof.
  intros Hp. pose proof (in_pc _ _ _ _ Hinv t q label _ Hj Hp) as (H1 & H2 & H3). pose proof H2 as [-> Hl].
  pose proof H1 as (_ & _ & Hm & He & Hve). pose proof H3 as [[E Hb] _].
  pose proof (in_graph _ _ _ _ Hinv) as Hg.
  set (s' := set_pool (releaseVisitedList (visited_list_pool_ (shared c)) (visited v)) (shared c)).
  assert (quiet (whole c) (complete F s')) as Hq.
  { change (complete F s') with (set_pool (releaseVisitedList (visited_list_pool_ (whole c)) (visited v)) (whole c)).
    pose proof (go_pool_n _ Hg). apply quiet_pool; [done| |done].
    apply release_ok; [apply Hg|apply Hb|]. rewrite (bi_num _ _ _ _ _ _ _ Hb). done. }
  destruct (shared_reads (enterpoint_copy n) (maxlevelcopy n)) as [Hd _]; [by apply reached_0|].
  assert (search_end fstdistfunc_ q (enterpoint_copy n) false v (shared c) = (s', Ok (top_candidates v))) as Hrun.
  { unfold search_end. rewrite (eff_bind_ok _ _ _ s' tt) by done.
    rewrite (eff_bind_lift _ _ _ (data_of (whole c) (enterpoint_copy n))) by exact Hd. done. }
  eapply step_perform; [exact Hinv|exact Hj|exact Hp|exact Hrun|calm|done|done|exact Hq|].
  intros [Hgr Hqu Hv _ _ Hi _ _]. split_and!; [by apply Hi|done|].
  by eapply gr_selecting, searching_selecting.
Qed.

Lemma search_expand_run l x v : (0 ≤ l)%Z → searching fstdistfunc_ c q l v → reached c l x →
  ∃ v', search_expand fstdistfunc_ q l x v (shared c) = (shared c, Ok v') ∧
    searching fstdistfunc_ c q l v' ∧ (measure v' ≤ measure v)%nat.
Proof.
  intros Hl [[E Hb] Hne] H4. pose proof (in_graph _ _ _ _ Hinv) as Hg.
  destruct (shared_links x l Hl H4) as (ll & Hget & Hll & Hout).
  destruct (g_for_inv (nbs_at (whole c) l) _ _ _ efc_pos_c _ E _ v (nbs_at (whole c) l x) Hb) as (G1 & G2 & _).
  { apply Forall_forall. intros j Hin. destruct (reached_nbs fstdistfunc_ jobs s0 c x l j Hinv Hl H4 Hin) as [Hr _].
    split; [done|by eapply reached_lt]. }
  eexists. split_and!; [|split; [by exists E|by apply g_for_nonempty; [apply efc_pos_c|]]|done].
  unfold search_expand, eff_lift. f_equal. rewrite Hget. cbn [res_bind]. rewrite Hll. cbn [res_bind].
  rewrite <- (complete_sbl_for fstdistfunc_ F) by done.
  apply (sbl_for_refine fstdistfunc_ (whole c) q l Hg); [|by apply P_closed; [|lia|apply H4]].
  split_and!; try apply Hb. intros [d y] Hy. apply (bi_cand _ _ _ _ _ _ _ Hb) in Hy as [_ Hy].
  by apply (bi_valid _ _ _ _ _ _ _ Hb).
Qed.
Lemma move_SearchRead n e l x v : pcs c !! t = Some (SearchRead n e l x v) →
  inv (perform t (search_expand fstdistfunc_ q l x v) (λ _, [link_list_lock x]) (SearchLoop n e l) c).
Proof.
  intros Hp. pose proof (in_pc _ _ _ _ Hinv t q label _ Hj Hp) as (H1 & H2 & H3 & H4). pose proof H2 as [_ Hl].
  destruct (search_expand_run l x v ltac:(lia) H3 H4) as (v' & Hrun & Hs & _).
  eapply step_read; [exact Hinv|exact Hj|exact Hp|exact Hrun|calm|done|].
  intros [Hgr Hqu Hv _ _ Hi _ _]. split_and!; [by apply Hi|done|by eapply gr_searching].
Qed.
End at_pc.
End moves.
