(* ===== verification/InsertThreadsWrites.v ===== *)
(** * The steps of an insertion that write: links

    Filling the new element's list and linking a neighbour back touch one list
    each, of elements that are written; the other threads' lists, and the order
    in which threads started to link, stay as they are. *)

From Stdlib Require Import ZArith Lia.
From stdpp Require Import base numbers list gmap strings relations.
From S2P Require Import Prelude Heap VisitedList Arith BeamSearch Hnsw HnswSearch HnswInsert HnswWf.
From S2P Require Import HnswSearchLaws HnswKnn HeuristicLaws HnswConnectLaws HnswAddLaws.
From S2P Require Import InsertThreads PendingElements InsertThreadsInv InsertThreadsSteps InsertThreadsMoves.
#[local] Open Scope N_scope.

Section writes.
Context `{RE : RandomEngine} `{HI : HeapImpl} `{AL : Alloc} {D : Type} `{HD : DistT D} `{HO : !DistOrder D}.
Variable fstdistfunc_ : point → point → D.
Implicit Types (s : hnsw) (i j : tableint) (l : Z) (F : list tableint).

(** ** One list is written *)

(** The state is [s], or [s] with the list of [i] on level [l] replaced. *)
Definition puts i l s s' : Prop := s' = s ∨ ∃ ll, s' = put_linklist i l ll s.

Lemma puts_put i l ll s s' : puts i l (put_linklist i l ll s) s' → puts i l s s'.
Proof. intros [->|[ll' ->]]; right; eexists; [done|]. apply put_put. Qed.
Lemma puts_fill c l upd idx ids s : puts c l s (fill_links c l upd idx ids s).1.
Proof.
  revert idx s. induction ids as [|j ids IH]; intros idx s; [by left|]. cbn [fill_links].
  unfold eff_bind at 1, eff_lift at 1. destruct (get_linklist_at_level s c l) as [ll| | |]; [|by left..].
  unfold eff_bind at 1, eff_lift at 1. destruct (of_opt _ _); [|by left..]. case_match; [by left|].
  unfold eff_bind at 1, eff_lift at 1. destruct (get_level s j); [|by left..]. case_match; [by left|].
  unfold eff_bind at 1, eff_mod. eapply puts_put, IH.
Qed.
Lemma puts_connect_back c l upd nb s : puts nb l s (connect_back fstdistfunc_ c l upd nb s).1.
Proof.
  unfold connect_back. unfold eff_bind at 1, eff_get.
  unfold eff_bind at 1, eff_lift at 1. destruct (get_linklist_at_level s nb l); [|by left..].
  case_match; [by left|]. case_match; [by left|].
  unfold eff_bind at 1, eff_lift at 1. destruct (get_level s nb); [|by left..]. case_match; [by left|].
  unfold eff_bind at 1, eff_lift at 1. destruct (links_of _); [|by left..]. case_match; [by left|]. case_match.
  - unfold eff_bind at 1, eff_lift at 1. destruct (store_links _ _); [|by left..]. right. by eexists.
  - unfold eff_bind at 1, eff_lift at 1. destruct (dists_to _ _ _ _); [|by left..].
    unfold eff_bind at 1, eff_lift at 1. destruct (getNeighborsByHeuristic2 _ _ _ _); [|by left..].
    unfold eff_bind at 1, eff_lift at 1. destruct (store_links _ _); [|by left..]. right. by eexists.
Qed.
Lemma puts_select c cands l s : puts c l s (select_links fstdistfunc_ c cands l s).1.
Proof.
  unfold select_links. unfold eff_bind at 1, eff_get.
  unfold eff_bind at 1, eff_lift at 1. destruct (getNeighborsByHeuristic2 _ _ _ _); [|by left..]. case_match; [by left|].
  cbv zeta. unfold eff_bind at 1, eff_lift at 1. destruct (of_opt _ _); [|by left..].
  unfold eff_bind at 1, eff_lift at 1. destruct (get_linklist_at_level s c l); [|by left..]. case_match; [by left|].
  unfold eff_bind at 1, eff_mod. set (s1 := put_linklist _ _ _ s).
  pose proof (puts_fill c l false 0 (map snd (pq_drain cmp a)) s1) as Hp. unfold eff_bind.
  destruct (fill_links _ _ _ _ _ s1) as [s2 []]; simpl in *; by eapply puts_put.
Qed.

Lemma frame_uncomplete F i l s s' :
  i ∉ F → puts i l s s' → frame (complete F s) (complete F s') → frame s s'.
Proof.
  intros Hi [->|[ll ->]] Hf; [done|].
  assert (∀ j, j ≠ i → level0 (put_linklist i l ll s) !! j = level0 s !! j) as Hne.
  { intros j Hj. unfold put_linklist. destruct (l =? 0)%Z.
    - destruct (level0 s !! i); simpl; [|done]. by rewrite lookup_insert_ne.
    - by destruct (upper s !! i). }
  pose proof (fr_el _ _ Hf i) as Hel. rewrite !complete_level0, !decide_False in Hel by done.
  split; try (unfold put_linklist; by repeat case_match).
  intros j. destruct (decide (j = i)) as [->|Hj]; [done|]. by rewrite Hne.
Qed.

(** ** Selecting the neighbours *)
Lemma select_links_wp s c cands l :
  graph_ok s → (0 ≤ l)%Z → at_level s c l → is_heap cmp cands → NoDup cands.*2 → cands ≠ [] →
  (∀ j, j ∈ cands.*2 → j ≠ c ∧ at_level s j l) → get_linklist_at_level s c l = Ok (blank_ll (Mmax s l)) →
  eff_wp (select_links fstdistfunc_ c cands l) (λ s' r,
    graph_ok s' ∧ frame s s' ∧ links_frame s s' l (λ j, j = c) ∧ nbs_at s' l c = r.1 ∧ NoDup r.1 ∧
    N.of_nat (length r.1) ≤ M_ (cfg s) ∧ (∀ j, j ∈ r.1 → j ∈ cands.*2) ∧ r.2 ∈ r.1) s.
Proof.
  intros Hg Hl Hc Hh Hnd Hne Hcand Hblank. unfold select_links. apply wp_bind, wp_get.
  destruct (heuristic_ids fstdistfunc_ s (M_ (cfg s)) cands) as (top & Hrun & S1 & S2 & S3 & S4 & S5).
  { done. }
  { apply Forall_forall. intros x Hx. apply (Hcand x.2). apply list_elem_of_fmap. eauto. }
  { by destruct (go_cfg _ Hg) as (? & _). }
  { done. }
  { done. }
  wp_read Hrun. rewrite (proj2 (N.ltb_ge _ _)) by done. cbv zeta.
  set (sel := map snd (pq_drain cmp top)) in *. specialize (S5 Hne).
  destruct (last sel) as [next|] eqn:Hlast; [|by apply last_None in Hlast].
  eapply wp_bind_lift; [done|]. wp_read Hblank. cbn [ll_word blank_ll negb N.eqb].
  destruct (cfg_Mmax s l Hg) as (HM & _ & _).
  destruct (ok_links s c l Hg Hl Hc) as (ll & Hget & Hok & _). rewrite Hblank in Hget. injection Hget as <-.
  apply wp_assoc. eapply wp_seq; [apply (fill_new_wp s c l false (blank_ll (Mmax s l)) sel); try done|].
  - by right.
  - lia.
  - apply Forall_forall. intros j Hj. by apply Hcand, S2.
  - intros s1 u (F1 & F2 & F3 & F4). apply wp_ret. split_and!; try done. by apply last_Some_elem_of.
Qed.

Lemma co_select F c cands l s :
  c ∉ F → Forall (λ x : D * tableint, x.2 ∉ F) cands →
  (∀ top, getNeighborsByHeuristic2 fstdistfunc_ s cands (M_ (cfg s)) = Ok top →
    Forall (λ i, i ∉ F) (map snd (pq_drain cmp top))) →
  commutes F (select_links fstdistfunc_ c cands l) s.
Proof.
  intros Hc Hf Htop. unfold select_links. apply co_bind; [by apply co_get|]. intros M [= <-].
  apply co_bind; [by apply co_lift, complete_heuristic|]. intros top Hrun. simpl in *. specialize (Htop top Hrun).
  case_match; [apply co_throw|].
  apply co_bind; [by apply co_lift|]. intros next _. simpl.
  apply co_bind; [apply co_lift, complete_reads, Hc|]. intros ll _. simpl. case_match; [apply co_throw|].
  apply co_bind; [by apply co_put|]. intros [] _.
  apply co_bind; [by apply co_fill_links|]. intros [] _. apply co_ret.
Qed.
End writes.

Section link_moves.
Context `{RE : RandomEngine} `{HI : HeapImpl} `{AL : Alloc} {D : Type} `{HD : DistT D} `{HO : !DistOrder D}.
Variable fstdistfunc_ : point → point → D.
Variable jobs : list (point * labeltype).
Variable s0 : hnsw.
Implicit Types (c : conf D) (p r : pc D) (i j : tableint) (l : Z) (t u : nat) (s : hnsw).
#[local] Abbreviation inv := (inv fstdistfunc_ jobs s0).
#[local] Abbreviation pc_ok := (pc_ok fstdistfunc_).

(** ** A thread writes links of the list of [w] on level [l] *)
Section link_step.
Context c t (q : point) (label : labeltype) p p' s' (ls' : gmap mutex nat) (n : inserting) (w : tableint) (l : Z).
Context (Hinv : inv c) (Hj : jobs !! t = Some (q, label)) (Hp : pcs c !! t = Some p).
Context (Hme : claimed p = Some (cur_c n)) (Hcl : claimed p' = claimed p).
Context (Hpe : pending p = false) (Hpe' : pending p' = false).
Context (Hvis : ∀ l', visb p l' = true → visb p' l' = true) (Hl : (0 ≤ l)%Z) (Hvl : visb p' l = true).
Context (Hf : frame (shared c) s').
Let c' := mkConf s' ls' (<[t := p']> (pcs c)).
Context (Hg : graph_ok (whole c')) (Hlf : links_frame (whole c) (whole c') l (λ j, j = w)).

Lemma lk_frame : frame (whole c) (whole c').
Proof. eapply fs_frame; [done|done|congruence|done]. Qed.
Lemma lk_grows : grows c c'.
Proof. eapply fs_grows; [done|done|congruence|done|done]. Qed.
Lemma lk_visible i l' : visible c i l' → visible c' i l'.
Proof. by apply (fs_visible c t p). Qed.
Lemma lk_nbs i l' : (0 ≤ l')%Z → l' ≠ l ∨ i ≠ w → nbs_at (whole c') l' i = nbs_at (whole c) l' i.
Proof. intros ? ?. by apply (links_frame_nbs _ _ l (λ j, j = w)). Qed.
(** Nobody but thread [t] has claimed its element. *)
Lemma lk_own u r : u ≠ t → pcs c !! u = Some r → claimed r ≠ Some (cur_c n).
Proof. intros Hne Hu Hc. apply Hne. by eapply (cl_inj _ _ _ (in_claims _ _ _ _ Hinv)). Qed.
Lemma lk_visible_me l' : visb p' l' = true → visible c' (cur_c n) l'.
Proof.
  intros Hv u r Hu Hc. unfold c' in Hu. simpl in Hu. apply list_lookup_insert_Some in Hu as [(<- & <- & _)|[Hne Hu]]; [done|].
  by destruct (lk_own u r (not_eq_sym Hne) Hu).
Qed.

(** The part of the thread's variables that linking leaves alone. *)
Lemma lk_ins : (∀ l', visb p' l' = false → l' ≠ l ∨ w ≠ cur_c n) → ins_ok c p n → ins_ok c' p' n.
Proof.
  intros Hw (H1 & [H2 H2'] & H3 & H4 & H5). pose proof lk_frame as HF. split_and!.
  - unfold top_ok. change (shared c') with s'. by rewrite (fr_maxlevel _ _ Hf).
  - split; [by rewrite (frame_level_of _ _ _ HF)|]. intros l' Hl' Hv. rewrite Hlf, (frame_Mmax _ _ _ HF).
    + apply H2'; [done|]. destruct (visb p l') eqn:E; [|done]. by rewrite (Hvis _ E) in Hv.
    + lia.
    + destruct (Hw l' Hv); [by left|right]. congruence.
  - done.
  - by apply (frame_at_level _ _ _ _ HF).
  - by apply lk_visible.
Qed.

Lemma lk_inv :
  (∀ m, p ≠ SetEntry m) → (reading_entry p' = false) → open_entry p' = true →
  (∀ j, j ∈ nbs_at (whole c') l w → j ∈ nbs_at (whole c) l w ∨ visible c' j l) →
  (∀ u r i, u ≠ t → pcs c !! u = Some r → claimed r = Some i →
     (w = i → visb r l = true) ∧
     ∀ sel, linking r = Some (l, sel) → w ∈ sel → i ∈ nbs_at (whole c') l w → i ∈ nbs_at (whole c) l w) →
  locks_ok jobs c' → ranked c' → pc_ok c' q p' → inv c'.
Proof.
  intros Hset Hread Hopen Hlinks Hsp Hlocks Hrank Hpc.
  eapply fs_inv; try done.
  - congruence.
  - intros i j l' Hl' Hi. destruct (decide (l' = l ∧ i = w)) as [[-> ->]|Hne]; [apply Hlinks|].
    rewrite lk_nbs; [by left|done|]. destruct (decide (l' = l)) as [->|]; [right; intros ->; by apply Hne|by left].
  - intros u r i Hne Hu Hi. destruct (Hsp u r i Hne Hu Hi) as [S1 S2]. split.
    + intros l' _ Hl' Hv. apply Hlf; [done|]. destruct (decide (l' = l)) as [->|]; [|by left]. right.
      intros ->. by rewrite S1 in Hv.
    + intros j l' sel Hlk Hin. destruct (decide (l' = l ∧ j = w)) as [[-> ->]|Hjw]; [by eapply S2|].
      assert (0 ≤ l')%Z as Hl'.
      { destruct (job_of fstdistfunc_ jobs s0 c u r Hinv Hu) as (q' & lab' & Hj').
        pose proof (in_pc _ _ _ _ Hinv u q' lab' r Hj' Hu) as Hok.
        destruct r; simplify_eq/=; destruct Hok as (_ & [_ ?] & _); lia. }
      rewrite lk_nbs; [done|done|]. destruct (decide (l' = l)) as [->|]; [right; intros ->; by apply Hjw|by left].
  - intros m ->. by destruct (Hset m).
  - by rewrite Hread.
  - by left.
Qed.
End link_step.

Context (Hlive0 : ∀ i, i < cur_element_count s0 → live s0 i = true).
Context c t (q : point) (label : labeltype).
Context (Hinv : inv c) (Hj : jobs !! t = Some (q, label)).
Let F := pend (pcs c).

Lemma own_level p n : pcs c !! t = Some p → claimed p = Some (cur_c n) → pending p = false →
  blank_ok c p (cur_c n) (curlevel n) → ∀ l, (l ≤ curlevel n)%Z → at_level (whole c) (cur_c n) l ∧ cur_c n ∉ F.
Proof.
  intros Hp Hc Hpe [Hlv _] l Hl. split.
  - split; [|eauto]. by destruct (cl_id _ _ _ (in_claims _ _ _ _ Hinv) t q label p (cur_c n) Hj Hp Hc) as [[_ ?] _].
  - intros (u & r & Hu & Hr & Hcr)%elem_pend.
    assert (u = t) as -> by by eapply (cl_inj _ _ _ (in_claims _ _ _ _ Hinv)). congruence.
Qed.

(** A list that stays away from pending elements. *)
Lemma reached_out l ids : (∀ i, i ∈ ids → reached c l i) → Forall (λ i, i ∉ F) ids.
Proof. intros Hr. apply Forall_forall. intros i Hi. eapply reached_pend. eauto. Qed.

(** ** Filling the list of the new element *)
Lemma select_run n e l top : pcs c !! t = Some (Select n e l top) →
  ∃ s' sel next, select_links fstdistfunc_ (cur_c n) top l (shared c) = (s', Ok (sel, next)) ∧
    frame (shared c) s' ∧ graph_ok (complete F s') ∧ links_frame (whole c) (complete F s') l (λ j, j = cur_c n) ∧
    nbs_at (complete F s') l (cur_c n) = sel ∧ NoDup sel ∧ N.of_nat (length sel) ≤ M_ (cfg (shared c)) ∧
    (∀ j, j ∈ sel → reached c l j ∧ j ≠ cur_c n) ∧ next ∈ sel.
Proof.
  intros Hp. pose proof (in_pc _ _ _ _ Hinv t q label _ Hj Hp) as (H1 & [_ Hl] & S1 & S2 & S3 & S4).
  pose proof H1 as (_ & Hb & _). destruct (own_level _ n Hp eq_refl eq_refl Hb l) as [Hme Hout]; [lia|].
  assert (∀ j, j ∈ top.*2 → j ≠ cur_c n) as Hne.
  { intros j Hin ->. destruct (S4 _ Hin) as [_ Hv]. pose proof (Hv t _ Hp eq_refl) as E. simpl in E. lia. }
  pose proof (in_graph _ _ _ _ Hinv) as Hg.
  assert (Forall (λ x : D * tableint, x.2 ∉ F) top) as Hto.
  { apply Forall_forall. intros x Hx. eapply reached_pend, S4, list_elem_of_fmap. eauto. }
  assert (commutes F (select_links fstdistfunc_ (cur_c n) top l) (shared c)) as Hco.
  { apply co_select; [done|done|]. intros top' Hrun. apply (reached_out l).
    destruct (heuristic_ids fstdistfunc_ (whole c) (M_ (cfg (shared c))) top) as (top'' & Hrun' & _ & Hsub & _).
    - done.
    - apply Forall_forall. intros x Hx. destruct (S4 x.2) as [[? _] _]; [|done]. apply list_elem_of_fmap. eauto.
    - by destruct (go_cfg _ Hg) as (? & _).
    - done.
    - done.
    - unfold whole in Hrun'. rewrite (complete_heuristic fstdistfunc_ F) in Hrun' by done. rewrite Hrun in Hrun'.
      injection Hrun' as <-. intros i Hi. by apply S4, Hsub. }
  destruct (complete_wp F (select_links fstdistfunc_ (cur_c n) top l) _ (shared c) Hco
    (select_links_wp fstdistfunc_ (whole c) (cur_c n) top l Hg ltac:(lia) Hme S1 S2 S3
      (λ j Hin, conj (Hne j Hin) (proj1 (S4 j Hin))) (proj2 Hb l ltac:(lia) (Z.ltb_irrefl l))))
    as (s' & [sel next] & Hrun & R1 & R2 & R3 & R4 & R5 & R6 & R7 & R8).
  exists s', sel, next. split_and!; try done.
  - eapply frame_uncomplete; [exact Hout| |exact R2]. pose proof (puts_select fstdistfunc_ (cur_c n) top l (shared c)) as Hpu.
    by rewrite Hrun in Hpu.
  - intros j Hin. split; [by apply S4, R7|by apply Hne, R7].
Qed.

(** A thread that starts to link comes after all others. *)
Lemma ranked_start p p' l sel s' (ls' : gmap mutex nat) :
  let c' := mkConf s' ls' (<[t := p']> (pcs c)) in
  pcs c !! t = Some p → claimed p' = claimed p → linking p' = Some (l, sel) → visb p l = false →
  (∀ j, j ∈ sel → claimed p ≠ Some j) → ranked c'.
Proof.
  intros c' Hp Hcl Hlk Hv Hsel. destruct (in_rank _ _ _ _ Hinv) as [rank Hrank].
  set (top := S (max_list (rank <$> seq 0 (length (pcs c))))).
  assert (∀ u r, pcs c !! u = Some r → (rank u < top)%nat) as Htop.
  { intros u r Hu%lookup_lt_Some. unfold top. apply Nat.lt_succ_r.
    apply (max_list_elem_of_le (rank u)), list_elem_of_fmap. exists u. split; [done|]. apply elem_of_seq. lia. }
  exists (λ u, if decide (u = t) then top else rank u).
  intros v u r r' l' sel1 sel2 j Hv' Hr Hin Hu Hc Hr'. unfold c' in *. simpl in Hv', Hu.
  apply list_lookup_insert_Some in Hv' as [(<- & <- & _)|[Hvt Hv']];
  apply list_lookup_insert_Some in Hu as [(<- & <- & _)|[Hut Hu]].
  - rewrite Hlk in Hr. injection Hr as <- <-. rewrite Hcl in Hc. by apply Hsel in Hc.
  - rewrite decide_False, decide_True by done. eauto.
  - rewrite Hlk in Hr'. injection Hr' as <- <-. exfalso. rewrite Hcl in Hc.
    destruct (job_of fstdistfunc_ jobs s0 c v r Hinv Hv') as (q' & lab' & Hj').
    pose proof (in_pc _ _ _ _ Hinv v q' lab' r Hj' Hv') as Hok.
    assert (visible c j l) as Hvj.
    { destruct r; simplify_eq/=; destruct Hok as (_ & _ & _ & _ & Hcon & _); by destruct (Hcon j Hin) as ([_ ?] & _). }
    by rewrite (Hvj t p Hp Hc) in Hv.
  - rewrite !decide_False by done. eauto.
Qed.

Lemma move_Select n e l top : pcs c !! t = Some (Select n e l top) →
  inv (perform t (select_links fstdistfunc_ (cur_c n) top l) (λ _, [])
         (λ '(sel, next), connect_next n e l sel next) c).
Proof.
  intros Hp. pose proof (in_pc _ _ _ _ Hinv t q label _ Hj Hp) as (H1 & H2 & S1 & S2 & S3 & S4).
  pose proof H2 as [_ Hl].
  destruct (select_run n e l top Hp) as (s' & sel & next & Hrun & R1 & R2 & R3 & R4 & R5 & R6 & R7 & R8).
  unfold perform. rewrite Hrun. destruct sel as [|nb rest]; [by apply elem_of_nil in R8|].
  set (p' := connect_next n e l (nb :: rest) next).
  set (c' := mkConf s' (release [] (locks c)) (<[t := p']> (pcs c))).
  assert (whole c' = complete F s') as Hw by by eapply whole_insert.
  assert (∀ l', visb (Select n e l top) l' = true → visb p' l' = true) as Hvis by (simpl; lia).
  assert (visb p' l = true) as Hvl by (simpl; lia).
  assert (∀ j, j ∈ nb :: rest → cur_c n ∉ nbs_at (whole c') l j) as Hnot.
  { intros j Hin. rewrite Hw. destruct (R7 j Hin) as [[Ha _] Hne].
    rewrite (links_frame_nbs _ _ l _ j l R3) by (lia || by right). intros Hin'.
    pose proof (in_links _ _ _ _ Hinv j (cur_c n) l ltac:(lia) Ha Hin' t _ Hp eq_refl) as E. simpl in E. lia. }
  eapply (lk_inv c t q label (Select n e l top) p' s' _ n (cur_c n) l); try done; fold c'.
  - by rewrite Hw.
  - by rewrite Hw.
  - intros j. rewrite Hw, R4. intros Hin. right. destruct (R7 j Hin) as [[_ Hv] _]. by apply (fs_visible c t (Select n e l top)).
  - intros u r i Hne Hu Hi. pose proof (lk_own c t (Select n e l top) n Hinv Hp eq_refl u r Hne Hu) as Hown. split.
    + by intros <-.
    + intros sel Hlk Hin. exfalso. destruct (job_of fstdistfunc_ jobs s0 c u r Hinv Hu) as (q' & lab' & Hj').
      pose proof (in_pc _ _ _ _ Hinv u q' lab' r Hj' Hu) as Hok.
      assert (visible c (cur_c n) l) as Hv.
      { destruct r; simplify_eq/=; destruct Hok as (_ & _ & _ & _ & Hcon & _); by destruct (Hcon _ Hin) as ([_ ?] & _). }
      pose proof (Hv t _ Hp eq_refl) as E. simpl in E. lia.
  - by apply (fs_release fstdistfunc_ jobs s0 c t q label (Select n e l top) p' s' _ Hinv Hj Hp []).
  - eapply ranked_start; [done|done|done|simpl; lia|]. intros j Hin. simpl. destruct (R7 j Hin). congruence.
  - assert (grows c c') as Hgr by (by eapply fs_grows). split_and!.
    + eapply (lk_ins c t (Select n e l top)); try done; fold c'.
      * by rewrite Hw.
      * intros l' Hf'. left. simpl in Hf'. lia.
    + done.
    + split_and!; try done.
      * simpl. by rewrite (fr_cfg _ _ R1).
      * intros j Hin. destruct (R7 j Hin) as [Hr Hne]. split_and!; [by eapply gr_reached|done|by apply Hnot].
      * eapply gr_at; [done|]. destruct (R7 next R8) as [[? _] _]. done.
      * by right.
Qed.

(** ** Linking a neighbour back *)
Lemma back_run n e l nb rest next : pcs c !! t = Some (ConnectBack n e l nb rest next) →
  ∃ s', connect_back fstdistfunc_ (cur_c n) l false nb (shared c) = (s', Ok tt) ∧
    frame (shared c) s' ∧ graph_ok (complete F s') ∧ links_frame (whole c) (complete F s') l (λ j, j = nb) ∧
    (∀ x, x ∈ nbs_at (complete F s') l nb → x = cur_c n ∨ x ∈ nbs_at (whole c) l nb) ∧ visible c nb 0.
Proof.
  intros Hp. pose proof (in_pc _ _ _ _ Hinv t q label _ Hj Hp) as (H1 & [_ Hl] & C1 & C2 & C3 & C4 & C5).
  pose proof H1 as (_ & Hb & _). destruct (own_level _ n Hp eq_refl eq_refl Hb l) as [Hme Hout]; [lia|].
  destruct (C3 nb) as (Hr & Hne & Hnin); [left|]. pose proof (reached_pend _ _ _ Hr) as Hnb.
  pose proof (in_graph _ _ _ _ Hinv) as Hg.
  assert (commutes F (connect_back fstdistfunc_ (cur_c n) l false nb) (shared c)) as Hco.
  { apply co_connect_back; [done|done|]. destruct (complete_total F (shared c) nb Hnb) as (_ & _ & _ & <-).
    apply (reached_out l). intros j Hin. by eapply (reached_nbs fstdistfunc_ jobs s0 c nb l j Hinv ltac:(lia) Hr). }
  destruct (complete_wp F _ _ (shared c) Hco (connect_back_wp fstdistfunc_ (whole c) (cur_c n) l false nb Hg
    ltac:(lia) (proj1 Hr) Hme Hne (or_intror Hnin))) as (s' & [] & Hrun & R1 & R2 & R3 & R4).
  exists s'. split_and!; try done.
  - eapply frame_uncomplete; [exact Hnb| |exact R2].
    pose proof (puts_connect_back fstdistfunc_ (cur_c n) l false nb (shared c)) as Hpu. by rewrite Hrun in Hpu.
  - eapply (locked_settled fstdistfunc_ jobs s0); [exact Hinv|exact Hj|exact Hp|left| |apply Hr]. simpl. congruence.
Qed.

(** What the thread does next. *)
Lemma connect_next_facts n e l rest next :
  let p' : pc D := connect_next n e l rest next in
  claimed p' = Some (cur_c n) ∧ pending p' = false ∧ (∀ l', (l ≤ l')%Z → visb p' l' = true) ∧
  (∀ l', visb p' l' = false → (l' < l)%Z) ∧ reading_entry p' = false ∧ open_entry p' = true ∧
  held label p' = held_el label (cur_c n) (keeps_global n) ∧
  ∀ l' sel, linking p' = Some (l', sel) → l' = l ∧ sel = rest.
Proof.
  unfold connect_next. destruct rest as [|nb rest]; [destruct (Z.leb_spec l 0)|]; simpl; split_and!; try done;
    try (intros l' ?; lia). by intros l' sel [= <- <-].
Qed.

Lemma move_ConnectBack n e l nb rest next : pcs c !! t = Some (ConnectBack n e l nb rest next) →
  inv (perform t (connect_back fstdistfunc_ (cur_c n) l false nb) (λ _, [link_list_lock nb])
         (λ _, connect_next n e l rest next) c).
Proof.
  intros Hp. pose proof (in_pc _ _ _ _ Hinv t q label _ Hj Hp) as (H1 & H2 & C1 & C2 & C3 & C4 & C5).
  pose proof H2 as [_ Hl]. destruct (C3 nb) as (Hr & Hne & Hnin); [left|].
  destruct (back_run n e l nb rest next Hp) as (s' & Hrun & R1 & R2 & R3 & R4 & R5).
  unfold perform. rewrite Hrun. set (p := ConnectBack n e l nb rest next) in *.
  destruct (connect_next_facts n e l rest next) as (P1 & P2 & P3 & P4 & P5 & P6 & P7 & P8).
  set (p' := connect_next n e l rest next) in *.
  set (c' := mkConf s' (release [link_list_lock nb] (locks c)) (<[t := p']> (pcs c))).
  assert (whole c' = complete F s') as Hw by by eapply whole_insert.
  assert (∀ l', visb p l' = true → visb p' l' = true) as Hvis by (intros l' Hv; apply P3; simpl in Hv; lia).
  assert (grows c c') as Hgr by (by eapply fs_grows).
  assert (∀ u r, u ≠ t → pcs c !! u = Some r → claimed r ≠ Some (cur_c n)) as Hown by by eapply lk_own.
  eapply (lk_inv c t q label p p' s' _ n nb l); try done; fold c'.
  - by rewrite Hw.
  - by rewrite Hw.
  - intros j. rewrite Hw. intros [->|?]%R4; [|by left]. right. eapply (lk_visible_me c t p); try done. by apply P3.
  - intros u r i Hut Hu Hi. split.
    + intros <-. apply (visible_mono _ _ 0 l R5 ltac:(lia) u r Hu Hi).
    + intros sel _ _. rewrite Hw. intros [->|?]%R4; [by destruct (Hown u r Hut Hu)|done].
  - apply (fs_release fstdistfunc_ jobs s0 c t q label p p' s' _ Hinv Hj Hp [link_list_lock nb]); [done|].
    by rewrite P7.
  - eapply fs_ranked; [exact Hinv|exact Hp|done|]. intros l' sel Hlk. destruct (P8 l' sel Hlk) as [-> ->].
    exists (nb :: rest). split; [done|]. by right.
  - assert (ins_ok c' p' n) as Hins.
    { eapply (lk_ins c t p); try done; fold c'; [by rewrite Hw|]. intros l' Hf%P4. left. lia. }
    assert (∀ o, visible c o 0 ∨ o ∈ nb :: rest → visible c' o 0 ∨ o ∈ rest) as Hset.
    { intros o [Hv|[->|Hin]%elem_of_cons]; [left|left|by right]; by apply (fs_visible c t p). }
    apply NoDup_cons in C1 as [C1 C1']. unfold p', connect_next in *. destruct rest as [|nb' rest].
    + assert (visible c' next 0) as Hnext by (by destruct (Hset next C5) as [?|?%elem_of_nil]).
      destruct (Z.leb_spec l 0) as [Hle|Hgt].
      * destruct Hins as ((T1 & T2 & T3) & [B1 _] & _). split_and!; [done|done|lia|]. unfold keeps_global.
        destruct (Z.ltb_spec (maxlevelcopy n) (curlevel n)); [left; auto|lia].
      * split_and!; [done|split; [apply H2|lia]| |done]. eapply gr_at; [done|]. eapply at_level_le; [exact C4|lia].
    + split_and!; [done|done|]. split_and!; [done| | |by eapply gr_at|by apply Hset].
      * simpl in *. rewrite (fr_cfg _ _ R1). lia.
      * intros j Hin. destruct (C3 j) as (J1 & J2 & J3); [by right|]. split_and!; [by eapply gr_reached|done|].
        rewrite Hw, (links_frame_nbs _ _ l _ j l R3); [done|lia|]. right. by intros ->.
Qed.
End link_moves.
