(* ===== verification/InsertThreadsClaims.v ===== *)
(** * The steps of an insertion that write: ids, elements, the entry point

    Taking an id, drawing a level, writing the element and moving the entry
    point keep the invariant of concurrent insertions. *)

From Stdlib Require Import ZArith Lia.
From stdpp Require Import base numbers list gmap strings relations.
From S2P Require Import Prelude Heap VisitedList Arith BeamSearch Hnsw HnswSearch HnswInsert HnswWf.
From S2P Require Import HnswSearchLaws HnswKnn HeuristicLaws HnswConnectLaws HnswAddLaws.
From S2P Require Import InsertThreads PendingElements InsertThreadsInv InsertThreadsSteps InsertThreadsMoves.
#[local] Open Scope N_scope.

Section claims.
Context `{RE : RandomEngine} `{HI : HeapImpl} `{AL : Alloc} {D : Type} `{HD : DistT D} `{HO : !DistOrder D}.
Variable fstdistfunc_ : point → point → D.
Variable jobs : list (point * labeltype).
Variable s0 : hnsw.
Implicit Types (c : conf D) (p r : pc D) (i j : tableint) (l : Z) (t u : nat) (s : hnsw).
#[local] Abbreviation inv := (inv fstdistfunc_ jobs s0).
#[local] Abbreviation pc_ok := (pc_ok fstdistfunc_).

(** ** The invariant after a step, from its parts *)
Lemma inv_step c c' t q label p p' :
  inv c → jobs !! t = Some (q, label) → pcs c !! t = Some p → pcs c' = <[t := p']> (pcs c) →
  grows c c' → (∀ u r, u ≠ t → pcs c !! u = Some r → spares jobs c c' u r) →
  graph_ok (whole c') →
  num_deleted_ (shared c') = num_deleted_ (shared c) ∧ deleted_elements (shared c') = deleted_elements (shared c) →
  locks_ok jobs c' → claims_ok jobs s0 c' →
  (∀ i j l, (0 ≤ l)%Z → at_level (whole c') i l → j ∈ nbs_at (whole c') l i → visible c' j l) →
  entry_inv c' →
  (∀ i lv, i < cur_element_count (shared c') → level_of (whole c') i = Some lv →
    (lv ≤ maxlevel_ (shared c'))%Z ∨ ∃ u r, pcs c' !! u = Some r ∧ claimed r = Some i ∧ open_entry r = true) →
  ranked c' → pc_ok c' q p' → inv c'.
Proof.
  intros Hinv Hj Hp Hps Hgr Hsp Hg [Hm1 Hm2] Hlocks Hclaims Hlinks Hentry Hlevels Hrank Hpc. split; try done.
  - rewrite Hps, length_insert. apply Hinv.
  - rewrite (gr_cfg _ _ Hgr). apply Hinv.
  - rewrite Hm1, Hm2. apply Hinv.
  - intros u q' lab' r Hj' Hu. rewrite Hps in Hu. apply list_lookup_insert_Some in Hu as [(<- & <- & _)|[Hne Hu]].
    + rewrite Hj in Hj'. by injection Hj' as <- <-.
    + eapply pc_ok_stable; [done|done|done|by apply Hsp|done|]. by eapply in_pc.
Qed.

Section at_pc.
Context c t (q : point) (label : labeltype).
Context (Hinv : inv c) (Hj : jobs !! t = Some (q, label)).
Let F := pend (pcs c).

(** ** The entry point *)
Section entry.
Context p p' (ep : tableint) (lv : Z) (ls' : gmap mutex nat) (n : inserting).
Context (Hp : pcs c !! t = Some p) (Hme : claimed p = Some (cur_c n)) (Hcl : claimed p' = claimed p).
Context (Hpe : pending p = false) (Hpe' : pending p' = false).
Context (Hvis : ∀ l', visb p l' = true → visb p' l' = true).
Context (Hheld : global ∈ held label p) (Hmax : (maxlevel_ (shared c) ≤ lv)%Z) (Hlk : linking p' = None).
Let c' := mkConf (set_entry ep lv (shared c)) ls' (<[t := p']> (pcs c)).

Lemma en_whole : whole c' = set_entry ep lv (whole c).
Proof.
  transitivity (complete F (set_entry ep lv (shared c))); [|done].
  apply complete_ext. intros i. apply (pend_insert (pcs c) t p p'); congruence.
Qed.
Lemma en_grows : grows c c'.
Proof.
  split; try rewrite en_whole; try done. intros i l _. by apply (fs_visible c t p).
Qed.
Lemma en_alone u r : u ≠ t → pcs c !! u = Some r → global ∉ heldat jobs c u.
Proof.
  intros Hne Hu Hin. apply Hne, (locks_excl jobs c global); [apply Hinv|done|].
  by rewrite (heldat_eq jobs c t q label p).
Qed.
Lemma en_spares u r : u ≠ t → pcs c !! u = Some r → spares jobs c c' u r.
Proof.
  intros Hne Hu. split; try rewrite en_whole; try done. intros Hin. by destruct (en_alone u r Hne Hu).
Qed.
Lemma en_claims : claims_ok jobs s0 c'.
Proof.
  pose proof (fs_claims fstdistfunc_ jobs s0 c t p p' (shared c) ls' Hinv Hp Hcl ltac:(congruence) (reflexivity _)) as [].
  by split.
Qed.
Lemma en_inv :
  locks_ok jobs c' → entry_inv c' →
  (open_entry p' = true ∨ level_of (whole c) (cur_c n) = Some lv) → pc_ok c' q p' → inv c'.
Proof.
  intros Hlocks Hentry Hopen Hpc. pose proof en_whole as Hw.
  apply (inv_step c c' t q label p p'); try done.
  - apply en_grows.
  - apply en_spares.
  - rewrite Hw. apply graph_ok_entry, Hinv.
  - apply en_claims.
  - rewrite Hw. intros i j l Hl Hi Hin. apply (fs_visible c t p); [done..|]. by eapply in_links.
  - rewrite Hw. intros i lv' Hi Hlv. change (level_of (set_entry ep lv (whole c)) i) with (level_of (whole c) i) in Hlv.
    destruct (in_levels _ _ _ _ Hinv i lv' Hi Hlv) as [?|(u & r & Hu & Hr & Ho)]; [left; simpl; lia|].
    destruct (decide (u = t)) as [->|Hne].
    + rewrite Hp in Hu. injection Hu as <-. rewrite Hme in Hr. injection Hr as <-.
      destruct Hopen as [Ho'|Hlv']; [right|left; simpl; rewrite Hlv in Hlv'; injection Hlv'; lia].
      exists t, p'. unfold c'. simpl. rewrite list_lookup_insert_eq by by eapply lookup_lt_Some.
      by rewrite Hcl.
    + right. exists u, r. unfold c'. simpl. by rewrite list_lookup_insert_ne.
  - eapply (fs_ranked fstdistfunc_ jobs s0 c t p p' _ _ Hinv Hp Hcl). by rewrite Hlk.
Qed.
End entry.

Lemma move_FirstEntry n : pcs c !! t = Some (FirstEntry n) →
  inv (perform t (eff_mod (set_entry 0 (curlevel n))) (λ _, []) (λ _, SetEntry n) c).
Proof.
  intros Hp. pose proof (in_pc _ _ _ _ Hinv t q label _ Hj Hp) as ([B1 _] & (T1 & T2 & T3) & Hm).
  assert (keeps_global n = true) as Hk by (apply Z.ltb_lt; lia).
  assert (maxlevel_ (shared c) = (-1)%Z) as Hmax by (rewrite <- Hm; apply T3; lia).
  assert (global ∈ held label (FirstEntry (D:=D) n)) as Hheld by (simpl; rewrite Hk; left).
  change (perform _ _ _ _ c) with
    (mkConf (set_entry 0 (curlevel n) (shared c)) (release [] (locks c)) (<[t := SetEntry n]> (pcs c))).
  eapply (en_inv (FirstEntry n) (SetEntry n) 0 (curlevel n) _ n); try done.
  - lia.
  - by apply (fs_release fstdistfunc_ jobs s0 c t q label (FirstEntry n) (SetEntry n) _ _ Hinv Hj Hp []).
  - right. left. exists t, n. simpl. rewrite list_lookup_insert_eq by by eapply lookup_lt_Some.
    split_and!; [done..|]. intros u r Hu. apply list_lookup_insert_Some in Hu as [(_ & <- & _)|[Hne Hu]]; [done|].
    destruct (reading_entry r) eqn:Hr; [|done]. exfalso.
    destruct (job_of fstdistfunc_ jobs s0 c u r Hinv Hu) as (q' & lab' & Hj').
    pose proof (in_pc _ _ _ _ Hinv u q' lab' r Hj' Hu) as Hok.
    destruct (en_alone (FirstEntry n) Hp Hheld u r (not_eq_sym Hne) Hu).
    rewrite (heldat_eq jobs c u q' lab' r Hj' Hu).
    destruct r; simpl in *; try done; destruct Hok as (_ & (? & ? & _) & _) || destruct Hok as (_ & (? & ? & _));
      rewrite (proj2 (Z.ltb_lt _ _)) by lia; left.
  - by left.
  - split_and!.
    + rewrite (en_whole (FirstEntry n) (SetEntry n) 0 (curlevel n) _ Hp) by done. done.
    + done.
    + lia.
    + rewrite Hk. by right.
Qed.

Lemma move_SetEntry n : pcs c !! t = Some (SetEntry n) →
  inv (perform t (if keeps_global n then eff_mod (set_entry (cur_c n) (curlevel n)) else eff_ret tt)
         (λ _, []) (λ _, UnlockGlobal n) c).
Proof.
  intros Hp. pose proof (in_pc _ _ _ _ Hinv t q label _ Hj Hp) as (B1 & T1 & T2 & T3).
  destruct (keeps_global n) eqn:Hk.
  - assert (maxlevelcopy n < curlevel n)%Z as Hlt by by apply Z.ltb_lt.
    assert (global ∈ held label (SetEntry (D:=D) n)) as Hheld by (simpl; rewrite Hk; left).
    change (perform _ _ _ _ c) with
      (mkConf (set_entry (cur_c n) (curlevel n) (shared c)) (release [] (locks c)) (<[t := UnlockGlobal n]> (pcs c))).
    eapply (en_inv (SetEntry n) (UnlockGlobal n) (cur_c n) (curlevel n) _ n); try done.
    + destruct T3 as [->|[_ ->]]; lia.
    + by apply (fs_release fstdistfunc_ jobs s0 c t q label (SetEntry n) (UnlockGlobal n) _ _ Hinv Hj Hp []).
    + right. right. simpl. split_and!; [done| |].
      * rewrite (en_whole (SetEntry n) (UnlockGlobal n) (cur_c n) (curlevel n) _ Hp) by done.
        split; [|by exists (curlevel n)].
        by destruct (cl_id _ _ _ (in_claims _ _ _ _ Hinv) t q label _ (cur_c n) Hj Hp eq_refl) as [[_ ?] _].
      * intros u r Hu Hr. apply list_lookup_insert_Some in Hu as [(_ & <- & _)|[Hne Hu]]; [done|].
        destruct Hne. by eapply (cl_inj _ _ _ (in_claims _ _ _ _ Hinv)).
    + by right.
  - change (perform _ _ _ _ c) with (mkConf (shared c) (release [] (locks c)) (<[t := UnlockGlobal n]> (pcs c))).
    apply Z.ltb_ge in Hk as Hge.
    eapply (qs_inv fstdistfunc_ jobs s0 c t q label (SetEntry n) (UnlockGlobal n)); try done.
    + apply quiet_refl, Hinv.
    + by intros m [= <-].
    + intros _. right. intros i lv [= <-] Hlv. rewrite B1 in Hlv. injection Hlv as <-. lia.
    + by apply (fs_release fstdistfunc_ jobs s0 c t q label (SetEntry n) (UnlockGlobal n) _ _ Hinv Hj Hp []).
Qed.

(** ** Taking an id *)
Context (Hnd : NoDup jobs.*2) (Hfresh : ∀ lab, lab ∈ jobs.*2 → label_lookup_ s0 !! lab = None).

Lemma same_label u q' : jobs !! u = Some (q', label) → u = t.
Proof.
  intros Hu. apply (NoDup_lookup jobs.*2 u t label Hnd); by rewrite list_lookup_fmap, ?Hu, ?Hj.
Qed.
Lemma fresh_label p : pcs c !! t = Some p → claimed p = None → label_lookup_ (shared c) !! label = None.
Proof.
  intros Hp Hc. rewrite (cl_lookup _ _ _ (in_claims _ _ _ _ Hinv)).
  - apply Hfresh, list_elem_of_fmap. exists (q, label). split; [done|]. by eapply list_elem_of_lookup_2.
  - intros u q' r Hu Hr. rewrite (same_label u q' Hu), Hp in Hr. by injection Hr as <-.
Qed.

Section claim.
Context (Hp : pcs c !! t = Some Lookup) (Hroom : cur_element_count (shared c) < max_elements_ (cfg (shared c))).
Let i := cur_element_count (shared c).
Let s' := set_lookup (<[label := i]> (label_lookup_ (shared c))) (set_count (i + 1) (shared c)).
Let c' := mkConf s' (release [label_lookup_lock] (locks c)) (<[t := LockElement i]> (pcs c)).

Lemma cm_pend j : j ∈ pend (pcs c') ↔ j ∈ i :: F.
Proof.
  unfold F, c'. cbn [pcs]. rewrite elem_of_cons, !elem_pend. split.
  - intros (u & r & Hu & Hr & Hc). apply list_lookup_insert_Some in Hu as [(_ & <- & _)|[Hne Hu]]; [|eauto 6].
    left. by injection Hc.
  - intros [->|(u & r & Hu & Hr & Hc)].
    + exists t, (LockElement i). by rewrite list_lookup_insert_eq by by eapply lookup_lt_Some.
    + exists u, r. rewrite list_lookup_insert_ne; [done|]. intros <-. rewrite Hp in Hu. by injection Hu as <-.
Qed.
Lemma cm_whole : whole c' = complete (i :: F) s'.
Proof. apply complete_ext, cm_pend. Qed.
Lemma cm_extends : extends (whole c) (whole c') i (blank_el (cfg (shared c))) 0.
Proof.
  rewrite cm_whole. split; try done. simpl. apply length_replicate.
Qed.
Lemma cm_old j : j < i → j ≠ i.
Proof. lia. Qed.
Lemma cm_claimed u r j : pcs c !! u = Some r → claimed r = Some j → j ≠ i.
Proof.
  intros Hu Hr. destruct (job_of fstdistfunc_ jobs s0 c u r Hinv Hu) as (q' & lab' & Hj').
  destruct (cl_id _ _ _ (in_claims _ _ _ _ Hinv) u q' lab' r j Hj' Hu Hr) as [? _]. unfold i. lia.
Qed.
Lemma cm_visible j l : j ≠ i → visible c j l → visible c' j l.
Proof.
  intros Hne Hv u r Hu Hr. unfold c' in Hu. simpl in Hu.
  apply list_lookup_insert_Some in Hu as [(_ & <- & _)|[_ Hu]]; [|eauto]. simpl in Hr. congruence.
Qed.
Lemma cm_grows : grows c c'.
Proof.
  pose proof cm_extends as Hex. split; try done.
  - simpl. lia.
  - intros j l. by apply (ex_at_level _ _ _ _ _ Hex).
  - intros j l Hlt. apply cm_visible. unfold i. lia.
  - intros j l Hlt _. rewrite (ex_el_old _ _ _ _ _ Hex); [done|]. unfold i. lia.
Qed.
Lemma cm_spares u r : u ≠ t → pcs c !! u = Some r → spares jobs c c' u r.
Proof.
  intros Hne Hu. pose proof cm_extends as Hex. split; try done.
  - intros j Hr. split; [done|]. apply (ex_level_old _ _ _ _ _ Hex). by eapply cm_claimed.
  - intros j l Hr _ _ _. apply (ex_get_old _ _ _ _ _ Hex). by eapply cm_claimed.
  - intros me j l sel Hlk Hin Hr. unfold nbs_at. rewrite (ex_get_old _ _ _ _ _ Hex); [done|].
    destruct (job_of fstdistfunc_ jobs s0 c u r Hinv Hu) as (q' & lab' & Hj').
    pose proof (in_pc _ _ _ _ Hinv u q' lab' r Hj' Hu) as Hok.
    assert (at_level (whole c) j l) as [Hlt _].
    { destruct r; simplify_eq/=; destruct Hok as (_ & _ & _ & _ & Hcon & _); by destruct (Hcon j Hin) as ([? _] & _). }
    simpl in Hlt. unfold i. lia.
Qed.

Lemma cm_claims : claims_ok jobs s0 c'.
Proof.
  destruct (in_claims _ _ _ _ Hinv) as [C1 C2 C3 C4 C5 C6].
  assert (pcs c' !! t = Some (LockElement i)) as Ht by (apply list_lookup_insert_eq; by eapply lookup_lt_Some).
  assert (∀ u r, pcs c' !! u = Some r → u = t ∧ r = LockElement i ∨ u ≠ t ∧ pcs c !! u = Some r) as Hcase.
  { intros u r Hu. apply list_lookup_insert_Some in Hu as [(? & ? & _)|[? ?]]; auto. }
  change (shared c') with s'. split; simpl.
  - intros u q' lab' r j Hj' Hu Hr. destruct (Hcase u r Hu) as [[-> ->]|[Hne Hu']].
    + rewrite Hj in Hj'. injection Hj' as <- <-. injection Hr as <-. rewrite lookup_insert_eq. unfold i. split_and!; try lia; done.
    + destruct (C1 u q' lab' r j Hj' Hu' Hr) as (? & ? & ?). rewrite lookup_insert_ne; [split_and!; try lia; done|].
      intros <-. by apply Hne, (same_label u q').
  - intros u v r r' j Hu Hv Hr Hr'. destruct (Hcase u r Hu) as [[-> ->]|[Hne Hu']], (Hcase v r' Hv) as [[-> ->]|[Hne' Hv']].
    + done.
    + injection Hr as <-. by destruct (cm_claimed v r' i Hv' Hr').
    + injection Hr' as <-. by destruct (cm_claimed u r i Hu' Hr).
    + eauto.
  - intros j Hlt. destruct (decide (j = i)) as [->|Hne]; [eauto|].
    destruct (C3 j) as (u & r & Hu & Hr); [unfold i in *; lia|]. exists u, r. split; [|done].
    simpl. rewrite list_lookup_insert_ne; [done|]. intros <-. rewrite Hp in Hu. by injection Hu as <-.
  - unfold i. lia.
  - done.
  - intros lab Hn. rewrite lookup_insert_ne.
    + apply C6. intros u q' r Hu Hr. destruct (decide (u = t)) as [->|Hne].
      * rewrite Hp in Hr. by injection Hr as <-.
      * apply (Hn u q' r Hu). simpl. by rewrite list_lookup_insert_ne.
    + intros ->. by specialize (Hn t q (LockElement i) Hj Ht).
Qed.

Lemma cm_nbs j x l : (0 ≤ l)%Z → at_level (whole c') j l → x ∈ nbs_at (whole c') l j →
  at_level (whole c) j l ∧ x ∈ nbs_at (whole c) l j.
Proof.
  pose proof cm_extends as Hex. intros Hl (Hlt & lv & Hlv & Hle) Hin. destruct (decide (j = i)) as [->|Hne].
  - rewrite (ex_level_new _ _ _ _ _ Hex (in_graph _ _ _ _ Hinv)) in Hlv. injection Hlv as <-.
    rewrite (ex_nbs_new _ _ _ _ _ Hex) in Hin by lia. by apply elem_of_nil in Hin.
  - unfold nbs_at in Hin. rewrite (ex_get_old _ _ _ _ _ Hex) in Hin by done. split; [|done].
    split; [simpl in *; unfold i in *; lia|]. exists lv. by rewrite <- (ex_level_old _ _ _ _ _ Hex).
Qed.

Lemma cm_inv : inv c'.
Proof.
  pose proof cm_extends as Hex. pose proof (in_graph _ _ _ _ Hinv) as Hg.
  assert (pcs c' !! t = Some (LockElement i)) as Ht by (apply list_lookup_insert_eq; by eapply lookup_lt_Some).
  apply (inv_step c c' t q label Lookup (LockElement i)); try done.
  - apply cm_grows.
  - apply cm_spares.
  - by apply (ex_graph _ _ _ _ _ Hex).
  - by apply (fs_release fstdistfunc_ jobs s0 c t q label Lookup (LockElement i) _ _ Hinv Hj Hp [label_lookup_lock]).
  - apply cm_claims.
  - intros j x l Hl Hat Hin. destruct (cm_nbs j x l Hl Hat Hin) as [Hat' Hin']. apply cm_visible.
    + destruct (nbs_at_level (whole c) j x l Hg Hl Hat' Hin') as [[Hlt _] _]. simpl in Hlt. unfold i. lia.
    + by eapply in_links.
  - destruct (in_entry _ _ _ _ Hinv) as [?|[(u & n & Hu & E1 & E2 & E3 & E4)|(E1 & E2 & E3)]].
    + by left.
    + right. left. exists u, n. unfold c'. simpl. rewrite list_lookup_insert_ne by congruence. split_and!; try done.
      intros v r Hv. apply list_lookup_insert_Some in Hv as [(_ & <- & _)|[_ Hv]]; [done|eauto].
    + right. right. split_and!; [done|by apply (ex_at_level _ _ _ _ _ Hex)|]. apply cm_visible; [|done].
      destruct E2 as [Hlt _]. simpl in *. unfold i. lia.
  - intros j lv Hlt Hlv. destruct (decide (j = i)) as [->|Hne].
    + right. by exists t, (LockElement i).
    + rewrite (ex_level_old _ _ _ _ _ Hex) in Hlv by done.
      destruct (in_levels _ _ _ _ Hinv j lv) as [?|(u & r & Hu & Hr & Ho)]; [simpl in *; unfold i in *; lia|done|by left|].
      right. exists u, r. unfold c'. simpl. rewrite list_lookup_insert_ne; [done|]. intros <-. rewrite Hp in Hu. by injection Hu as <-.
  - destruct (in_rank _ _ _ _ Hinv) as [rank Hrank]. exists rank. intros v u r r' l sel sel' j Hv Hr Hin Hu Hc Hr'.
    unfold c' in Hv, Hu. simpl in Hv, Hu.
    apply list_lookup_insert_Some in Hv as [(_ & <- & _)|[_ Hv]]; [done|].
    apply list_lookup_insert_Some in Hu as [(_ & <- & _)|[_ Hu]]; [done|]. eauto.
Qed.
End claim.

Lemma move_Lookup : pcs c !! t = Some Lookup →
  inv (perform t (lookup_label label) (λ _, [label_lookup_lock])
         (λ x, match x with inl i => Existing i | inr i => LockElement i end) c).
Proof.
  intros Hp. pose proof (fresh_label _ Hp eq_refl) as Hn.
  unfold perform, lookup_label, eff_bind, eff_get. rewrite Hn.
  destruct (N.leb_spec (max_elements_ (cfg (shared c))) (cur_element_count (shared c))) as [Hfull|Hroom].
  - apply (step_calm fstdistfunc_ jobs s0 c t q label Lookup (Thrown limit_message)); try done.
    + apply quiet_refl, Hinv.
    + by eapply (fs_unwind fstdistfunc_ jobs s0 c t q label Lookup).
    + intros _. split; [done|]. pose proof (go_count _ (in_graph _ _ _ _ Hinv)) as Hc. simpl in *. lia.
  - by apply cm_inv.
Qed.

(** ** Drawing a level *)
Section draw.
Context (i : tableint) (lv : Z) (g : engine) (Hp : pcs c !! t = Some (DrawLevel i)) (Hlv : (0 ≤ lv)%Z).
Let s' := set_levels (<[N.to_nat i := lv]> (element_levels_ (shared c)))
            (set_gens g (update_probability_generator_ (shared c)) (shared c)).
Let c' := mkConf s' (locks c) (<[t := LockGlobal i lv]> (pcs c)).

Lemma dr_pend : i ∈ F.
Proof. apply elem_pend. by exists t, (DrawLevel i). Qed.
Lemma dr_whole : whole c' = set_gens g (update_probability_generator_ (shared c)) (whole c).
Proof.
  transitivity (complete F s').
  { apply complete_ext. intros j. by apply (pend_insert (pcs c) t (DrawLevel i)). }
  pose proof dr_pend as Hi. unfold whole, complete, s'. simpl. fold F.
  assert (foldr (λ j, <[N.to_nat j := 0%Z]>) (<[N.to_nat i := lv]> (element_levels_ (shared c))) F
          = foldr (λ j, <[N.to_nat j := 0%Z]>) (element_levels_ (shared c)) F) as ->; [|done].
  clear -Hi. induction F as [|j G IH]; [by apply elem_of_nil in Hi|]. simpl.
  destruct (decide (i = j)) as [->|Hne].
  - clear. generalize (element_levels_ (shared c)) as ls. induction G as [|k G IH]; intros ls; simpl.
    + by rewrite list_insert_insert_eq.
    + destruct (decide (j = k)) as [->|Hne].
      * rewrite !list_insert_insert_eq. apply IH.
      * rewrite !(list_insert_insert_ne _ (N.to_nat j) (N.to_nat k)) by lia. by rewrite IH.
  - rewrite IH; [done|]. by apply elem_of_cons in Hi as [?|?].
Qed.
Lemma dr_visible j l : visible c j l → visible c' j l.
Proof. by apply (fs_visible c t (DrawLevel i)). Qed.
Lemma dr_spares u r : u ≠ t → pcs c !! u = Some r → spares jobs c c' u r.
Proof.
  intros Hne Hu. split; try rewrite dr_whole; try done.
  intros j Hr. split; [|done]. apply list_lookup_insert_ne. intros ->%N2Nat.inj.
  by apply Hne, (cl_inj _ _ _ (in_claims _ _ _ _ Hinv) u t r (DrawLevel j) j).
Qed.
Lemma dr_inv : inv c'.
Proof.
  pose proof dr_whole as Hw. pose proof (in_graph _ _ _ _ Hinv) as Hg.
  apply (inv_step c c' t q label (DrawLevel i) (LockGlobal i lv)); try done.
  - split; try rewrite Hw; try done. intros j l _. apply dr_visible.
  - apply dr_spares.
  - rewrite Hw. by apply quiet_gens.
  - by apply (fs_release fstdistfunc_ jobs s0 c t q label (DrawLevel i) (LockGlobal i lv) _ _ Hinv Hj Hp []).
  - pose proof (fs_claims fstdistfunc_ jobs s0 c t (DrawLevel i) (LockGlobal i lv) (shared c) (locks c) Hinv Hp eq_refl eq_refl (reflexivity _)) as [].
    by split.
  - rewrite Hw. intros j k l Hl Hat Hin. apply dr_visible. by eapply in_links.
  - destruct (in_entry _ _ _ _ Hinv) as [?|[(u & n & Hu & E1 & E2 & E3 & E4)|(E1 & E2 & E3)]].
    + by left.
    + right. left. exists u, n. unfold c'. simpl. rewrite list_lookup_insert_ne by congruence. split_and!; try done.
      intros v r Hv. apply list_lookup_insert_Some in Hv as [(_ & <- & _)|[_ Hv]]; [done|eauto].
    + right. right. rewrite Hw. split_and!; [done..|by apply dr_visible].
  - rewrite Hw. intros j lv' Hlt Hlv'. destruct (in_levels _ _ _ _ Hinv j lv' Hlt Hlv') as [?|(u & r & Hu & Hr & Ho)]; [by left|right].
    destruct (decide (u = t)) as [->|Hne].
    + rewrite Hp in Hu. injection Hu as <-. exists t, (LockGlobal i lv). unfold c'. simpl.
      by rewrite list_lookup_insert_eq by by eapply lookup_lt_Some.
    + exists u, r. unfold c'. simpl. by rewrite list_lookup_insert_ne.
  - by eapply (fs_ranked fstdistfunc_ jobs s0 c t (DrawLevel i) (LockGlobal i lv) _ _ Hinv Hp).
  - split; [|done]. apply list_lookup_insert_eq.
    destruct (cl_id _ _ _ (in_claims _ _ _ _ Hinv) t q label _ i Hj Hp eq_refl) as [? _].
    pose proof (go_levels _ Hg) as Hlen. pose proof (go_count _ Hg) as Hc. unfold whole in Hlen, Hc.
    rewrite complete_levels_length in Hlen. simpl in *. lia.
Qed.
End draw.

Lemma move_DrawLevel i :
  2 ≤ M_ (cfg s0) → (∀ M g, 2 ≤ M → (random_level (inv_log M) g).1 ≠ None) → pcs c !! t = Some (DrawLevel i) →
  inv (perform t (draw_level i) (λ _, []) (LockGlobal i) c).
Proof.
  intros HM Htotal Hp. pose proof (in_graph _ _ _ _ Hinv) as Hg.
  destruct (go_cfg _ Hg) as (_ & _ & _ & _ & _ & _ & _ & Hmult). change (cfg (whole c)) with (cfg (shared c)) in Hmult.
  destruct (random_level (mult_ (cfg (shared c))) (level_generator_ (shared c))).1 as [lv|] eqn:Hr.
  2:{ rewrite Hmult, (in_cfg _ _ _ _ Hinv) in Hr. by apply Htotal in Hr. }
  assert (0 ≤ lv)%Z as Hpos.
  { apply (random_level_nonneg (M_ (cfg (shared c))) (level_generator_ (shared c))). by rewrite <- Hmult. }
  destruct (cl_id _ _ _ (in_claims _ _ _ _ Hinv) t q label _ i Hj Hp eq_refl) as [? _].
  destruct (lookup_lt_is_Some_2 (element_levels_ (shared c)) (N.to_nat i)) as [old Hold].
  { pose proof (go_levels _ Hg) as Hlen. pose proof (go_count _ Hg) as Hc. unfold whole in Hlen, Hc.
    rewrite complete_levels_length in Hlen. simpl in *. lia. }
  unfold perform, draw_level, eff_bind at 1. rewrite (getRandomLevel_ok _ _ Hr).
  unfold eff_bind, eff_lift, get_level, eff_mod. simpl. rewrite Hold. by apply dr_inv.
Qed.

(** ** Writing the element *)
Section init.
Context (n : inserting) (o : tableint) (Hp : pcs c !! t = Some (InitElement n o)).
Context (Hsize : (N.to_nat (data_size_ (cfg s0)) ≤ length q)%nat).
Let me := cur_c n.
Let lv := curlevel n.
Let e := {| el_ll := blank_ll (maxM0_ (cfg (shared c))); el_data := take (N.to_nat (data_size_ (cfg s0))) q; el_label := label |}.
Let s1 := set_level0 (<[me := e]> (level0 (shared c))) (shared c).
Let s' := if (lv =? 0)%Z then s1
          else set_upper (<[me := replicate (Z.to_nat lv) (blank_ll (maxM_ (cfg (shared c))))]> (upper (shared c))) s1.
Let c' := mkConf s' (locks c) (<[t := StartDescent n o]> (pcs c)).

Lemma ie_run : init_element me q label lv (shared c) = (s', Ok tt).
Proof.
  destruct (cl_id _ _ _ (in_claims _ _ _ _ Hinv) t q label _ me Hj Hp eq_refl) as [? _].
  pose proof (go_count _ (in_graph _ _ _ _ Hinv)) as Hc. simpl in Hc.
  unfold init_element, eff_bind, eff_get, eff_lift. rewrite (in_cfg _ _ _ _ Hinv) in *.
  rewrite copy_point_ok by done. rewrite (proj2 (N.ltb_lt _ _)) by lia. unfold s', s1, e. simpl.
  rewrite (in_cfg _ _ _ _ Hinv). destruct (lv =? 0)%Z; [done|]. unfold eff_mod. simpl. by rewrite (in_cfg _ _ _ _ Hinv).
Qed.
Lemma ie_parts : cfg s' = cfg (shared c) ∧ cur_element_count s' = cur_element_count (shared c) ∧
  element_levels_ s' = element_levels_ (shared c) ∧ level0 s' = <[me := e]> (level0 (shared c)) ∧
  label_lookup_ s' = label_lookup_ (shared c) ∧ maxlevel_ s' = maxlevel_ (shared c) ∧
  enterpoint_node_ s' = enterpoint_node_ (shared c) ∧ visited_list_pool_ s' = visited_list_pool_ (shared c) ∧
  num_deleted_ s' = num_deleted_ (shared c) ∧ deleted_elements s' = deleted_elements (shared c) ∧
  upper s' = if (lv =? 0)%Z then upper (shared c)
             else <[me := replicate (Z.to_nat lv) (blank_ll (maxM_ (cfg (shared c))))]> (upper (shared c)).
Proof. unfold s'. by destruct (lv =? 0)%Z. Qed.
Lemma ie_pend j : j ∈ pend (pcs c') ↔ j ∈ F ∧ j ≠ me.
Proof.
  unfold F, c'. cbn [pcs]. rewrite !elem_pend. split.
  - intros (u & r & Hu & Hr & Hc). apply list_lookup_insert_Some in Hu as [(_ & <- & _)|[Hne Hu]]; [done|].
    split; [eauto|]. intros ->. apply Hne. by apply (cl_inj _ _ _ (in_claims _ _ _ _ Hinv) t u (InitElement n o) r me).
  - intros [(u & r & Hu & Hr & Hc) Hne]. exists u, r. rewrite list_lookup_insert_ne; [done|].
    intros <-. rewrite Hp in Hu. injection Hu as <-. injection Hc as <-. done.
Qed.
Lemma ie_me : me ∈ F.
Proof. apply elem_pend. by exists t, (InitElement n o). Qed.
Lemma ie_lt : me < cur_element_count (shared c) ∧ (N.to_nat me < length (element_levels_ (shared c)))%nat.
Proof.
  destruct (cl_id _ _ _ (in_claims _ _ _ _ Hinv) t q label _ me Hj Hp eq_refl) as [? _].
  pose proof (go_levels _ (in_graph _ _ _ _ Hinv)) as Hlen. pose proof (go_count _ (in_graph _ _ _ _ Hinv)) as Hc.
  unfold whole in Hlen, Hc. rewrite complete_levels_length in Hlen. simpl in *. lia.
Qed.
Lemma ie_levels : element_levels_ (whole c') = <[N.to_nat me := lv]> (element_levels_ (whole c)).
Proof.
  destruct ie_parts as (_ & _ & P & _). pose proof ie_lt as [_ Hlt].
  pose proof (in_pc _ _ _ _ Hinv t q label _ Hj Hp) as (Hlv & _).
  pose proof (complete_levels_length (pend (pcs c')) s') as L1. pose proof (complete_levels_length F (shared c)) as L2.
  rewrite P in L1. apply list_eq. intros k. unfold whole. fold F. change (shared c') with s'.
  destruct (decide (k < length (element_levels_ (shared c)))%nat) as [Hk|Hk].
  2:{ rewrite !lookup_ge_None_2; [done| |]; rewrite ?length_insert; lia. }
  pose proof (complete_level_of (pend (pcs c')) s' (N.of_nat k)) as E1.
  pose proof (complete_level_of F (shared c) (N.of_nat k)) as E2.
  unfold level_of in E1, E2. rewrite Nat2N.id in E1, E2. rewrite E1 by by rewrite P. rewrite P.
  destruct (decide (N.of_nat k = me)) as [Heq|Hne].
  - rewrite decide_False by by rewrite ie_pend; intros [_ ?]. subst me. rewrite <- Heq, Nat2N.id.
    rewrite list_lookup_insert_eq by by rewrite L2. unfold lv. rewrite <- Hlv. unfold level_of. by rewrite <- Heq, Nat2N.id.
  - rewrite list_lookup_insert_ne by (intros <-; by rewrite N2Nat.id in Hne). rewrite E2 by done.
    apply decide_ext. rewrite ie_pend. tauto.
Qed.
Lemma ie_level0 : level0 (whole c') = <[me := e]> (level0 (whole c)).
Proof.
  destruct ie_parts as (P1 & _ & _ & P2 & _). apply map_eq. intros j. unfold whole. fold F. change (shared c') with s'.
  rewrite complete_level0, P2, P1. destruct (decide (j = me)) as [->|Hne].
  - rewrite decide_False by by rewrite ie_pend; intros [_ ?]. by rewrite !lookup_insert_eq.
  - rewrite !lookup_insert_ne, complete_level0 by done. apply decide_ext. rewrite ie_pend. tauto.
Qed.
Lemma ie_rewritten : rewritten (whole c) (whole c') me e lv.
Proof.
  destruct ie_parts as (P1 & P2 & _ & _ & _ & _ & _ & P3 & _ & _ & P4). pose proof ie_lt as [? ?].
  pose proof (in_pc _ _ _ _ Hinv t q label _ Hj Hp) as (_ & (Hpos & _) & _).
  split; [done|done|apply ie_levels|apply ie_level0|done|done|done| |done|done|].
  - simpl. rewrite length_take, (in_cfg _ _ _ _ Hinv). lia.
  - unfold whole. rewrite complete_level_of by done. rewrite decide_True; [done|apply ie_me].
Qed.
Lemma ie_visible j l : visible c j l → visible c' j l.
Proof. by apply (fs_visible c t (InitElement n o)). Qed.
Lemma ie_hidden j l : visible c j l → j ≠ me.
Proof. intros Hv ->. by specialize (Hv t (InitElement n o) Hp eq_refl). Qed.
Lemma ie_other u r j : u ≠ t → pcs c !! u = Some r → claimed r = Some j → j ≠ me.
Proof. intros Hne Hu Hr ->. by apply Hne, (cl_inj _ _ _ (in_claims _ _ _ _ Hinv) u t r (InitElement n o) me). Qed.
Lemma ie_grows : grows c c'.
Proof.
  destruct ie_parts as (P1 & P2 & _ & _ & _ & P3 & _). split.
  - done.
  - change (shared c') with s'. by rewrite P2.
  - intros j l. apply (rw_at_level _ _ _ _ _ ie_rewritten (in_graph _ _ _ _ Hinv)).
  - intros j l _. apply ie_visible.
  - intros j l _ Hv. rewrite ie_level0, lookup_insert_ne; [done|]. by apply not_eq_sym, (ie_hidden j l).
  - change (shared c') with s'. by rewrite P3.
Qed.
Lemma ie_spares u r : u ≠ t → pcs c !! u = Some r → spares jobs c c' u r.
Proof.
  intros Hne Hu. destruct ie_parts as (_ & _ & P1 & _ & _ & P2 & _). pose proof ie_rewritten as Hrw. split.
  - intros j Hr. split; [change (shared c') with s'; unfold level_of; by rewrite P1|].
    apply (rw_level_ne _ _ _ _ _ Hrw). by eapply ie_other.
  - intros _. by change (shared c') with s'.
  - intros j l Hr _ _ _. apply (rw_get_ne _ _ _ _ _ Hrw). by eapply ie_other.
  - intros j k l sel Hlk Hin Hr. unfold nbs_at. rewrite (rw_get_ne _ _ _ _ _ Hrw); [done|].
    destruct (job_of fstdistfunc_ jobs s0 c u r Hinv Hu) as (q' & lab' & Hj').
    pose proof (in_pc _ _ _ _ Hinv u q' lab' r Hj' Hu) as Hok. apply (ie_hidden k l).
    destruct r; simplify_eq/=; destruct Hok as (_ & _ & _ & _ & Hcon & _); by destruct (Hcon k Hin) as ([_ ?] & _).
Qed.
Lemma ie_claims : claims_ok jobs s0 c'.
Proof.
  destruct (in_claims _ _ _ _ Hinv) as [C1 C2 C3 C4 C5 C6].
  destruct ie_parts as (P1 & P2 & _ & P3 & P4 & _).
  assert (∀ u r, pcs c' !! u = Some r → ∃ r', pcs c !! u = Some r' ∧ claimed r' = claimed r ∧ (u ≠ t → r' = r)) as Hcase.
  { intros u r Hu. apply list_lookup_insert_Some in Hu as [(<- & <- & _)|[? ?]]; [by exists (InitElement n o)|eauto]. }
  assert (∀ u r, pcs c !! u = Some r → ∃ r', pcs c' !! u = Some r' ∧ claimed r' = claimed r) as Hback.
  { intros u r Hu. unfold c'. simpl. destruct (decide (u = t)) as [->|Hne].
    - rewrite Hp in Hu. injection Hu as <-. rewrite list_lookup_insert_eq by by eapply lookup_lt_Some. eauto.
    - rewrite list_lookup_insert_ne by done. eauto. }
  split; change (shared c') with s'; rewrite ?P2, ?P3, ?P4.
  - intros u q' lab' r j Hj' Hu Hr. destruct (Hcase u r Hu) as (r' & Hu' & Hc & Hrr).
    destruct (C1 u q' lab' r' j Hj' Hu') as (D1 & D2 & D3); [congruence|]. split; [done|]. split; [done|]. intros Hpe.
    destruct (decide (u = t)) as [->|Hne].
    + rewrite Hp in Hu'. injection Hu' as <-. rewrite Hr in Hc. injection Hc as <-.
      rewrite Hj in Hj'. injection Hj' as <- <-. fold me. by rewrite lookup_insert_eq.
    + rewrite (Hrr Hne) in Hu'. rewrite lookup_insert_ne by by apply not_eq_sym, (ie_other u r j).
      apply D3. by rewrite (Hrr Hne).
  - intros u v r r' j Hu Hv Hr Hr'. destruct (Hcase u r Hu) as (a & ? & ? & _), (Hcase v r' Hv) as (b & ? & ? & _).
    apply (C2 u v a b j); congruence.
  - intros j Hlt. destruct (C3 j Hlt) as (u & r & Hu & Hr). destruct (Hback u r Hu) as (r' & ? & ?).
    exists u, r'. split; [done|congruence].
  - done.
  - intros j Hlt. rewrite lookup_insert_ne; [by apply C5|]. intros <-.
    destruct (C1 t q label _ me Hj Hp eq_refl) as [? _]. lia.
  - intros lab Hn. apply C6. intros u q' r Hu Hr. destruct (Hback u r Hr) as (r' & ? & <-). by eapply Hn.
Qed.
Lemma ie_inv : inv c'.
Proof.
  destruct ie_parts as (P1 & P2 & P3 & _ & _ & P4 & P5 & _ & P6 & P7 & _).
  pose proof ie_rewritten as Hrw. pose proof (in_graph _ _ _ _ Hinv) as Hg.
  assert (pcs c' !! t = Some (StartDescent n o)) as Ht by (apply list_lookup_insert_eq; by eapply lookup_lt_Some).
  assert (∀ m, start_ok c m o ∧ start_ok c m (enterpoint_copy n) → start_ok c' m o ∧ start_ok c' m (enterpoint_copy n)) as Hst.
  { intros m [S1 S2]. split; [destruct S1 as [?|(? & ? & ?)]|destruct S2 as [?|(? & ? & ?)]]; try (by left); right;
      (split_and!; [done|by apply ie_grows|by apply ie_visible]). }
  apply (inv_step c c' t q label (InitElement n o) (StartDescent n o)); try done.
  - apply ie_grows.
  - apply ie_spares.
  - by apply (rw_graph _ _ _ _ _ Hrw).
  - by apply (fs_release fstdistfunc_ jobs s0 c t q label (InitElement n o) (StartDescent n o) _ _ Hinv Hj Hp []).
  - apply ie_claims.
  - intros j k l Hl (Hlt & lv' & Hlv & Hle) Hin. apply ie_visible. destruct (decide (j = me)) as [->|Hne].
    + rewrite (rw_level_eq _ _ _ _ _ Hrw Hg) in Hlv. injection Hlv as <-. unfold nbs_at in Hin.
      rewrite (rw_get_eq _ _ _ _ _ Hrw Hg) in Hin by lia. simpl in Hin. rewrite blank_ids in Hin. by apply elem_of_nil in Hin.
    + unfold nbs_at in Hin. rewrite (rw_get_ne _ _ _ _ _ Hrw) in Hin by done. rewrite (rw_level_ne _ _ _ _ _ Hrw) in Hlv by done.
      apply (in_links _ _ _ _ Hinv j k l); [done| |done]. split; [by rewrite (rw_count _ _ _ _ _ Hrw) in Hlt|]. by exists lv'.
  - unfold entry_inv. change (shared c') with s'. rewrite P4, P5.
    destruct (in_entry _ _ _ _ Hinv) as [?|[(u & m & Hu & E1 & E2 & E3 & E4)|(E1 & E2 & E3)]].
    + by left.
    + right. left. exists u, m. unfold c'. simpl. rewrite list_lookup_insert_ne by congruence. split_and!; try done.
      intros v r Hv. apply list_lookup_insert_Some in Hv as [(_ & <- & _)|[_ Hv]]; [done|eauto].
    + right. right. split_and!; [done|by apply ie_grows|by apply ie_visible].
  - change (shared c') with s'. rewrite P2, P4. intros j lv' Hlt Hlv. destruct (decide (j = me)) as [->|Hne].
    + right. by exists t, (StartDescent n o).
    + rewrite (rw_level_ne _ _ _ _ _ Hrw) in Hlv by done.
      destruct (in_levels _ _ _ _ Hinv j lv' Hlt Hlv) as [?|(u & r & Hu & Hr & Ho)]; [by left|right].
      exists u, r. unfold c'. simpl. rewrite list_lookup_insert_ne; [done|]. intros <-.
      rewrite Hp in Hu. injection Hu as <-. injection Hr as <-. done.
  - by eapply (fs_ranked fstdistfunc_ jobs s0 c t (InitElement n o) (StartDescent n o) _ _ Hinv Hp).
  - pose proof (in_pc _ _ _ _ Hinv t q label _ Hj Hp) as (_ & Htop & Hs). split_and!.
    + split; [by apply (rw_level_eq _ _ _ _ _ Hrw)|]. intros l Hl _. by apply (rw_get_eq _ _ _ _ _ Hrw).
    + unfold top_ok. change (shared c') with s'. by rewrite P4.
    + by apply Hst.
    + by apply Hst.
Qed.
End init.

Lemma move_InitElement n o : (N.to_nat (data_size_ (cfg s0)) ≤ length q)%nat → pcs c !! t = Some (InitElement n o) →
  inv (perform t (init_element (cur_c n) q label (curlevel n)) (λ _, []) (λ _, StartDescent n o) c).
Proof. intros Hsize Hp. unfold perform. rewrite (ie_run n o Hp Hsize). by apply ie_inv. Qed.
End at_pc.
End claims.
