(* ===== verification/InsertThreadsLaws.v ===== *)
(** * Concurrent insertions: every order of steps

    Every step keeps the invariant, so it holds at every point of every run.
    When all the calls have returned the index is well-formed and holds, next
    to what it held, the vector of every call that did not find the index full. *)

From Stdlib Require Import ZArith Lia.
From stdpp Require Import base numbers list gmap strings relations.
From S2P Require Import Prelude Heap VisitedList Arith BeamSearch Hnsw HnswSearch HnswInsert HnswWf.
From S2P Require Import HnswSearchLaws HnswKnn HeuristicLaws HnswConnectLaws HnswAddLaws.
From S2P Require Import InsertThreads PendingElements InsertThreadsInv InsertThreadsSteps InsertThreadsMoves.
From S2P Require Import InsertThreadsWrites InsertThreadsClaims.
#[local] Open Scope N_scope.

(** What the calls need of the index and of their arguments: new labels, no two
    calls with the same one, vectors that are long enough, no deleted element. *)
Record insertable `{RE : RandomEngine} (s0 : hnsw) (jobs : list (point * labeltype)) : Prop := {
  ia_index : index_ok s0;
  ia_live i : i < cur_element_count s0 → live s0 i = true;
  ia_M : 2 ≤ M_ (cfg s0);
  ia_labels : NoDup jobs.*2;
  ia_fresh label : label ∈ jobs.*2 → label_lookup_ s0 !! label = None;
  ia_size q label : (q, label) ∈ jobs → (N.to_nat (data_size_ (cfg s0)) ≤ length q)%nat
}.

Section laws.
Context `{RE : RandomEngine} `{HI : HeapImpl} `{AL : Alloc} {D : Type} `{HD : DistT D} `{HO : !DistOrder D}.
Variable fstdistfunc_ : point → point → D.
Variable jobs : list (point * labeltype).
Variable s0 : hnsw.
Hypothesis Hia : insertable s0 jobs.
Hypothesis level_total : ∀ M g, 2 ≤ M → (random_level (inv_log M) g).1 ≠ None.
Implicit Types (c : conf D) (p r : pc D) (i j : tableint) (l : Z) (t u : nat) (s : hnsw).
#[local] Abbreviation inv := (inv fstdistfunc_ jobs s0).
#[local] Abbreviation step := (step fstdistfunc_ jobs).
#[local] Abbreviation thread_step := (thread_step fstdistfunc_ jobs).

Lemma thread_step_inv t c c' : inv c → thread_step t c = Some c' → inv c'.
Proof.
  intros Hinv Hs. unfold InsertThreads.thread_step in Hs.
  destruct (jobs !! t) as [[q label]|] eqn:Hj; [|done]. destruct (pcs c !! t) as [p|] eqn:Hp; [|done].
  assert (N.to_nat (data_size_ (cfg s0)) ≤ length q)%nat as Hq by (eapply (ia_size _ _ Hia); by eapply list_elem_of_lookup_2).
  destruct Hia as [I1 I2 I3 I4 I5 _].
  destruct p; simpl in Hs; try done; try (injection Hs as <-).
  - by eapply move_LockLabel.
  - by eapply move_LockLookup.
  - by eapply move_Lookup.
  - by eapply move_LockElement.
  - by eapply move_DrawLevel.
  - by eapply move_LockGlobal.
  - by eapply move_ReadMaxlevel.
  - by eapply move_ReadEntry.
  - by eapply move_ReadEntryCopy.
  - by eapply move_InitElement.
  - by eapply move_StartDescent.
  - by eapply move_FirstEntry.
  - by eapply move_GreedyLock.
  - by eapply move_GreedyRead.
  - by eapply move_ReadEpDeleted.
  - by eapply move_SearchInit.
  - destruct (search_next _ v) as [[cand v']|] eqn:Hn.
    + by eapply move_SearchLoop.
    + injection Hs as <-. by eapply move_SearchEnd.
  - by eapply move_SearchRead.
  - by eapply move_Select.
  - by eapply move_ConnectLock.
  - by eapply move_ConnectBack.
  - by eapply move_SetEntry.
  - by eapply move_UnlockGlobal.
  - by eapply move_UnlockElement.
  - by eapply move_UnlockLabel.
Qed.

(** ** The start *)
Lemma start_pc t p : pcs (threads_start jobs s0) !! t = Some p → p = LockLabel (D:=D).
Proof. by intros [-> _]%lookup_replicate. Qed.
Lemma start_pend : pend (pcs (threads_start (D:=D) jobs s0)) = [].
Proof. unfold threads_start. simpl. induction (length jobs); done. Qed.
Lemma start_whole : whole (threads_start (D:=D) jobs s0) = s0.
Proof. unfold whole. rewrite start_pend. apply complete_nil. Qed.
Lemma start_visible i l : visible (threads_start (D:=D) jobs s0) i l.
Proof. by intros t p ->%start_pc. Qed.

Lemma inv_start : inv (threads_start jobs s0).
Proof.
  destruct Hia as [Hix _ _ _ _ _]. pose proof (ix_graph _ Hix) as Hg. split; rewrite ?start_whole; try done.
  - apply length_replicate.
  - split.
    + intros m t. simpl. split; [done|]. unfold heldat. destruct (jobs !! t) as [[q label]|]; [|by intros ?%elem_of_nil].
      destruct (pcs _ !! t) as [p|] eqn:Hp; [|by intros ?%elem_of_nil]. rewrite (start_pc _ _ Hp). by intros ?%elem_of_nil.
    + intros t. unfold heldat. destruct (jobs !! t) as [[q label]|]; [|constructor].
      destruct (pcs _ !! t) as [p|] eqn:Hp; [|constructor]. rewrite (start_pc _ _ Hp). constructor.
  - split; simpl; try done.
    + by intros t q label p i _ ->%start_pc.
    + by intros t u p p' i ->%start_pc.
    + lia.
  - intros. apply start_visible.
  - destruct (ix_entry _ Hix) as [(_ & ? & ?)|(E1 & E2 & E3)]; [by left|]. right. right. rewrite start_whole. simpl.
    destruct (go_node _ Hg _ E1) as (e & lv & Hn). pose proof (no_level _ _ _ _ Hn) as Hlv. rewrite E2 in Hlv.
    injection Hlv as <-. split_and!; [apply Hn|by split; [|eexists]|]. apply start_visible.
  - intros i lv Hi Hlv. left. destruct (ix_entry _ Hix) as [(E1 & _)|(E1 & E2 & E3)]; simpl in *; [lia|eauto].
  - exists (λ _, 0%nat). by intros t u p p' l sel sel' j ->%start_pc.
  - by intros t q label p _ ->%start_pc.
Qed.

Lemma inv_reachable c : rtc step (threads_start jobs s0) c → inv c.
Proof.
  intros Hr. assert (∀ a b, rtc step a b → inv a → inv b) as H.
  { induction 1 as [|a b d [t Hs] _ IH]; [done|]. intros Ha. apply IH. by eapply thread_step_inv. }
  eapply H; [done|apply inv_start].
Qed.
End laws.
