(* ===== verification/InsertThreadsProgress.v ===== *)
(** * Concurrent insertions do not deadlock

    A thread that waits for a mutex waits for a thread that can go on, or that
    waits closer to the bottom: the mutex of a label is taken before every
    other, [global] before the locks of other elements, a lock of an element on
    a level is waited for by threads that search or link above or on that
    level, and threads that link on the same level wait for those that started
    to link before them. *)

From Stdlib Require Import ZArith Lia.
From stdpp Require Import base numbers list gmap strings relations.
From S2P Require Import Prelude Heap VisitedList Arith BeamSearch Hnsw HnswSearch HnswInsert HnswWf.
From S2P Require Import InsertThreads PendingElements InsertThreadsInv InsertThreadsSteps InsertThreadsMoves.
#[local] Open Scope N_scope.

Section progress.
Context `{RE : RandomEngine} `{HI : HeapImpl} `{AL : Alloc} {D : Type} `{HD : DistT D} `{HO : !DistOrder D}.
Variable fstdistfunc_ : point → point → D.
Variable jobs : list (point * labeltype).
Variable s0 : hnsw.
Implicit Types (p r : pc D) (i j : tableint) (l : Z) (t u : nat) (m : mutex).
#[local] Abbreviation thread_step := (thread_step fstdistfunc_ jobs).

(** The mutex the thread is about to take. *)
Definition wants (ef : N) (label : labeltype) p : option mutex :=
  match p with
  | LockLabel => Some (getLabelOpMutex label)
  | LockLookup => Some label_lookup_lock
  | LockElement i => Some (link_list_lock i)
  | LockGlobal _ _ => Some global
  | GreedyLock _ _ o _ => Some (link_list_lock o)
  | SearchLoop _ _ _ v => (λ x, link_list_lock x.1) <$> search_next ef v
  | ConnectLock _ _ _ nb _ _ => Some (link_list_lock nb)
  | _ => None
  end.

(** How far from the bottom a thread waits that has the lock of its element. *)
Definition depth p : option nat :=
  match p with
  | GreedyLock _ l _ _ | SearchLoop _ _ l _ => Some (2 * Z.to_nat l + 1)%nat
  | ConnectLock _ _ l _ _ _ => Some (2 * Z.to_nat l)%nat
  | _ => None
  end.

Context (c : conf D) (Hinv : inv fstdistfunc_ jobs s0 c).
Let ef := ef_construction_ (cfg (shared c)).
Definition goes_on : Prop := ∃ t c', thread_step t c = Some c'.

Lemma step_or_wait t q label p :
  jobs !! t = Some (q, label) → pcs c !! t = Some p → ¬ ended p →
  goes_on ∨ ∃ m u, wants ef label p = Some m ∧ m ∈ heldat jobs c u.
Proof.
  intros Hj Hp He. pose proof (in_pc _ _ _ _ Hinv t q label p Hj Hp) as Hok.
  destruct (wants ef label p) as [m|] eqn:Hw.
  - destruct (locks c !! m) as [u|] eqn:Hm; [right; exists m, u; split; [done|by apply (in_locks _ _ _ _ Hinv)]|].
    left. exists t. unfold InsertThreads.thread_step. rewrite Hj, Hp.
    destruct p; simpl in Hw; try done; try (injection Hw as <-); simpl; unfold acquire; rewrite ?Hm; eauto.
    fold ef. destruct (search_next ef v) as [[cand v']|]; [|done]. simpl in Hw. injection Hw as <-. rewrite Hm. eauto.
  - left. exists t. unfold InsertThreads.thread_step. rewrite Hj, Hp. destruct p; simpl in Hw; try done; simpl in *; eauto; try tauto.
    fold ef. destruct (search_next ef v) as [[cand v']|]; [done|]. eauto.
Qed.

(** A thread that holds a mutex has not ended. *)
Lemma holder u m : m ∈ heldat jobs c u →
  ∃ q label r, jobs !! u = Some (q, label) ∧ pcs c !! u = Some r ∧ m ∈ held label r ∧ ¬ ended r.
Proof.
  unfold heldat. intros Hm. destruct (jobs !! u) as [[q label]|] eqn:Hj; [|by apply elem_of_nil in Hm].
  destruct (pcs c !! u) as [r|] eqn:Hr; [|by apply elem_of_nil in Hm]. exists q, label, r. split_and!; [done..|].
  intros He. destruct r; simpl in *; try done; by apply elem_of_nil in Hm.
Qed.

(** The lock of an element is held by the thread that inserts it, or for one access. *)
Lemma el_holder label r i : link_list_lock i ∈ held label r → claimed r = Some i ∨ ∀ lab, wants ef lab r = None.
Proof.
  assert (∀ lab j k, link_list_lock i ∈ held_el lab j k → j = i) as Hel.
  { intros lab j k. unfold held_el. rewrite elem_of_app, !elem_of_cons, elem_of_nil.
    intros [Hin|[[= ->]|[?|[]]]]; try done. destruct k; [|by apply elem_of_nil in Hin]. by apply list_elem_of_singleton in Hin. }
  assert (∀ lab, link_list_lock i ∉ [getLabelOpMutex lab]) as Hno by (by intros lab ?%list_elem_of_singleton).
  destruct r; simpl; intros Hm; try (by right); left; try (by rewrite (Hel _ _ _ Hm)); try (by apply elem_of_nil in Hm);
    try (by apply Hno in Hm).
Qed.

(** The element on level [l] that a thread with the lock of its own waits for. *)
Lemma wanted t q label p m k : jobs !! t = Some (q, label) → pcs c !! t = Some p →
  wants ef label p = Some m → depth p = Some k →
  ∃ x l, m = link_list_lock x ∧ reached c l x ∧ (0 ≤ l)%Z ∧
    (k = 2 * Z.to_nat l + 1 ∨ k = 2 * Z.to_nat l ∧ ∃ sel, linking p = Some (l, sel) ∧ x ∈ sel)%nat.
Proof.
  intros Hj Hp Hw Hd. pose proof (in_pc _ _ _ _ Hinv t q label p Hj Hp) as Hok.
  destruct p; simpl in Hd; try done; injection Hd as <-; simpl in Hw.
  - injection Hw as <-. destruct Hok as (((H0 & _) & _) & Hl & Hr & _). exists currObj, level.
    split_and!; [done|done|lia|by left].
  - destruct (search_next ef v) as [[cand v']|] eqn:Hs; [|done]. injection Hw as <-.
    destruct Hok as (_ & [_ Hl] & Hse). exists cand, level.
    split_and!; [done|by eapply (searching_next fstdistfunc_ c q)|lia|by left].
  - injection Hw as <-. destruct Hok as (_ & [_ Hl] & _ & _ & Hcon & _). exists nb, level.
    destruct (Hcon nb) as [Hr _]; [left|]. split_and!; [done|done|lia|]. right. split; [done|].
    exists (nb :: rest). split; [done|left].
Qed.

(** Below depth [k], and below [rk] among the threads that link on one level. *)
Lemma deep_goes_on (rank : nat → nat) :
  (∀ t u p p' l sel sel' j, pcs c !! t = Some p → linking p = Some (l, sel) → j ∈ sel →
     pcs c !! u = Some p' → claimed p' = Some j → linking p' = Some (l, sel') → (rank u < rank t)%nat) →
  ∀ k rk t q label p, jobs !! t = Some (q, label) → pcs c !! t = Some p → depth p = Some k → rank t = rk → goes_on.
Proof.
  intros Hrank k. induction k as [k IHk] using lt_wf_ind. intros rk. induction rk as [rk IHr] using lt_wf_ind.
  intros t q label p Hj Hp Hk Hrk.
  assert (¬ ended p) as Hne0 by (intros He; destruct p; simpl in *; done).
  destruct (step_or_wait t q label p Hj Hp Hne0) as [?|(m & u & Hw & Hm)]; [done|].
  destruct (wanted t q label p m k Hj Hp Hw Hk) as (x & l & -> & [Hat Hvis] & Hl & Hcase).
  destruct (holder u _ Hm) as (q' & lab' & r & Hj' & Hr & Hin & Hne).
  destruct (step_or_wait u q' lab' r Hj' Hr Hne) as [?|(m' & u' & Hw' & _)]; [done|].
  destruct (el_holder lab' r x Hin) as [Hcl|Hno]; [|by rewrite Hno in Hw'].
  pose proof (Hvis u r Hr Hcl) as Hv.
  destruct r; simpl in Hv, Hw'; try done.
  - apply Z.ltb_lt in Hv. eapply (IHk (2 * Z.to_nat level + 1)%nat); [|done..]. pose proof (in_pc _ _ _ _ Hinv u q' lab' _ Hj' Hr) as (_ & [_ ?] & _). lia.
  - apply Z.leb_le in Hv. pose proof (in_pc _ _ _ _ Hinv u q' lab' _ Hj' Hr) as (_ & [_ Hlv] & _).
    destruct Hcase as [->|[-> (sel & Hlk & Hx)]]; [eapply (IHk (2 * Z.to_nat level)%nat); [lia|done..]|].
    destruct (decide (level = l)) as [->|Hnl]; [|eapply (IHk (2 * Z.to_nat level)%nat); [lia|done..]].
    eapply (IHr (rank u)); [|done..]. subst rk. by eapply (Hrank t u p).
Qed.

Lemma link_goes_on t p k : pcs c !! t = Some p → depth p = Some k → goes_on.
Proof.
  intros Hp Hk. destruct (in_rank _ _ _ _ Hinv) as [rank Hrank].
  destruct (job_of fstdistfunc_ jobs s0 c t p Hinv Hp) as (q & label & Hj). by eapply (deep_goes_on rank).
Qed.

(** A thread that waits for [label_lookup_lock] or for its new element waits for one that can go on. *)
Lemma lookup_goes_on u : label_lookup_lock ∈ heldat jobs c u → goes_on.
Proof.
  intros Hm. destruct (holder u _ Hm) as (q & label & r & Hj & Hr & Hin & Hne).
  destruct (step_or_wait u q label r Hj Hr Hne) as [?|(m & v & Hw & _)]; [done|].
  destruct r; simpl in Hin, Hw; try done; exfalso; revert Hin; unfold held_el; repeat case_match;
    rewrite ?elem_of_app, ?elem_of_cons, ?elem_of_nil; intuition discriminate.
Qed.
Lemma element_goes_on t i u : pcs c !! t = Some (LockElement i) → link_list_lock i ∈ heldat jobs c u → goes_on.
Proof.
  intros Hp Hm. destruct (holder u _ Hm) as (q & label & r & Hj & Hr & Hin & Hne).
  destruct (step_or_wait u q label r Hj Hr Hne) as [?|(m & v & Hw & _)]; [done|].
  destruct (el_holder label r i Hin) as [Hcl|Hno]; [|by rewrite Hno in Hw].
  assert (u = t) as -> by by apply (cl_inj _ _ _ (in_claims _ _ _ _ Hinv) u t r (LockElement i) i).
  rewrite Hp in Hr. injection Hr as <-. by apply list_elem_of_singleton in Hin.
Qed.
Lemma global_goes_on u : global ∈ heldat jobs c u → goes_on.
Proof.
  intros Hm. destruct (holder u _ Hm) as (q & label & r & Hj & Hr & Hin & Hne).
  destruct (step_or_wait u q label r Hj Hr Hne) as [?|(m & v & Hw & _)]; [done|].
  destruct r; simpl in Hin, Hw; try done; try (by eapply link_goes_on); exfalso; revert Hin; unfold held_el;
    rewrite ?elem_of_app, ?elem_of_cons, ?elem_of_nil; intuition discriminate.
Qed.
Lemma started_goes_on t q label p : jobs !! t = Some (q, label) → pcs c !! t = Some p →
  ¬ ended p → p ≠ LockLabel → goes_on.
Proof.
  intros Hj Hp Hne Hl. destruct (step_or_wait t q label p Hj Hp Hne) as [?|(m & u & Hw & Hm)]; [done|].
  destruct p; simpl in Hw; try done; try (by eapply link_goes_on); injection Hw as <-.
  - by eapply lookup_goes_on.
  - by eapply element_goes_on.
  - by eapply global_goes_on.
Qed.

(** As long as a call has not ended some thread can go on. *)
Lemma not_joined_goes_on : ¬ joined c → goes_on.
Proof.
  intros Hn. assert (∃ t p, pcs c !! t = Some p ∧ ¬ ended p) as (t & p & Hp & Hne).
  { assert (∀ p, Decision (ended p)) as Hdec by (intros []; simpl; apply _).
    apply not_Forall_Exists in Hn; [|done].
    apply Exists_exists in Hn as (p & [t Ht]%list_elem_of_lookup & Hp). by exists t, p. }
  destruct (job_of fstdistfunc_ jobs s0 c t p Hinv Hp) as (q & label & Hj).
  destruct (step_or_wait t q label p Hj Hp Hne) as [?|(m & u & Hw & Hm)]; [done|].
  destruct (holder u _ Hm) as (q' & lab' & r & Hj' & Hr & Hin & Hne'). eapply started_goes_on; [done..|].
  intros ->. by apply elem_of_nil in Hin.
Qed.
End progress.
