(* ===== verification/InsertThreadsEnd.v ===== *)
(** * Concurrent insertions end

    Every step brings its thread closer to the end of its call and takes no
    other thread back.  Once the levels are drawn a call has so many levels to
    descend and to link; a round of the greedy descent moves to a closer
    element; every node enters a candidate set once.  So no run is infinite,
    whatever the order of the steps: no thread spins on another. *)

From Stdlib Require Import ZArith Lia.
From stdpp Require Import base numbers list gmap strings relations.
From S2P Require Import Prelude Heap VisitedList Arith BeamSearch Hnsw HnswSearch HnswInsert HnswWf.
From S2P Require Import HnswSearchLaws HnswKnn HeuristicLaws HnswConnectLaws HnswAddLaws.
From S2P Require Import InsertThreads PendingElements InsertThreadsInv InsertThreadsSteps InsertThreadsMoves InsertThreadsLaws.
#[local] Open Scope N_scope.

(** ** Sums and counts *)
Lemma sum_zip_lt {A B} (f f' : A → B → nat) (xs : list A) (ys : list B) t x y y' :
  (∀ a b, (f' a b ≤ f a b)%nat) → xs !! t = Some x → ys !! t = Some y → (f' x y' < f x y)%nat →
  (sum_list (zip_with f' xs (<[t := y']> ys)) < sum_list (zip_with f xs ys))%nat.
Proof.
  intros Hle. assert (∀ xs ys, (sum_list (zip_with f' xs ys) ≤ sum_list (zip_with f xs ys))%nat) as Hall.
  { clear -Hle. induction xs as [|a xs IH]; intros [|b ys]; simpl; try lia. specialize (IH ys). specialize (Hle a b). lia. }
  revert xs ys. induction t as [|t IH]; intros [|a xs] [|b ys] Hx Hy Hlt; simplify_eq/=.
  - specialize (Hall xs ys). lia.
  - specialize (IH xs ys Hx Hy Hlt). specialize (Hle a b). lia.
Qed.
Lemma sum_zip_eq {A B} (f : A → B → nat) (xs : list A) (ys : list B) t x y y' :
  xs !! t = Some x → ys !! t = Some y → f x y' = f x y →
  sum_list (zip_with f xs (<[t := y']> ys)) = sum_list (zip_with f xs ys).
Proof.
  revert xs ys. induction t as [|t IH]; intros [|a xs] [|b ys] Hx Hy Heq; simplify_eq/=; [by rewrite Heq|].
  by rewrite (IH xs ys).
Qed.
Definition count (f : nat → bool) (l : list nat) : nat := length (filter (λ k, f k = true) l).
Lemma count_le f g l : (∀ k, f k = true → g k = true) → (count f l ≤ count g l)%nat.
Proof.
  intros H. unfold count. induction l as [|k l IH]; [done|]. rewrite !filter_cons.
  destruct (decide (f k = true)) as [Hf|Hf]; [rewrite (decide_True _ _ (H k Hf)); simpl; lia|].
  case_decide; simpl; lia.
Qed.
Lemma count_lt f g l k : (∀ k, f k = true → g k = true) → k ∈ l → g k = true → f k = false → (count f l < count g l)%nat.
Proof.
  intros H Hin Hg Hf. induction l as [|j l IH]; [by apply elem_of_nil in Hin|]. pose proof (count_le f g l H) as Hle.
  unfold count in *. rewrite !filter_cons. apply elem_of_cons in Hin as [<-|Hin].
  - rewrite (decide_True _ _ Hg), decide_False by congruence. simpl. lia.
  - specialize (IH Hin). destruct (decide (f j = true)) as [Hj|Hj]; [rewrite (decide_True _ _ (H j Hj)); simpl; lia|].
    case_decide; simpl; lia.
Qed.
Lemma count_length f l : (count f l ≤ length l)%nat.
Proof. apply length_filter. Qed.

(** ** Code that leaves the levels and the number of elements alone *)
Section keeps.
Context `{RE : RandomEngine} `{HI : HeapImpl} `{AL : Alloc} {D : Type} `{HD : DistT D}.
Variable fstdistfunc_ : point → point → D.

Definition kept (s s' : hnsw) : Prop :=
  element_levels_ s' = element_levels_ s ∧ cur_element_count s' = cur_element_count s.
Definition keeps {A} (m : eff hnsw A) : Prop := ∀ s, kept s (m s).1.
Lemma keeps_ret {A} (a : A) : keeps (eff_ret a).
Proof. done. Qed.
Lemma keeps_throw {A} e : keeps (A:=A) (eff_throw e).
Proof. done. Qed.
Lemma keeps_undef {A} e : keeps (A:=A) (eff_undef e).
Proof. done. Qed.
Lemma keeps_lift {A} (f : hnsw → res A) : keeps (eff_lift f).
Proof. done. Qed.
Lemma keeps_get {A} (f : hnsw → A) : keeps (eff_get f).
Proof. done. Qed.
Lemma keeps_mod f : (∀ s, kept s (f s)) → keeps (eff_mod f).
Proof. done. Qed.
Lemma keeps_bind {A B} (m : eff hnsw A) (f : A → eff hnsw B) : keeps m → (∀ a, keeps (f a)) → keeps (eff_bind m f).
Proof.
  intros Hm Hf s. unfold eff_bind. specialize (Hm s). destruct (m s) as [s1 [a|e|w|]]; simpl in *; [|done..].
  destruct Hm as [H1 H2], (Hf a s1) as [H3 H4]. split; congruence.
Qed.
Lemma keeps_put c l ll : keeps (eff_mod (put_linklist c l ll)).
Proof. apply keeps_mod. intros s. unfold put_linklist. by repeat case_match. Qed.
Create HintDb keeps discriminated.
#[local] Hint Resolve keeps_ret keeps_throw keeps_undef keeps_lift keeps_get keeps_mod keeps_put : keeps.
#[local] Hint Extern 1 (kept _ _) => by split : keeps.
Ltac keeps := repeat first [apply keeps_bind; [|intros]| case_match]; auto with keeps.

Lemma keeps_take : keeps take_visited.
Proof. intros s. unfold take_visited. by destruct (getFreeVisitedList _). Qed.
Lemma keeps_greedy_for ck q ids o d ch : keeps (greedy_for fstdistfunc_ ck q ids o d ch).
Proof. revert o d ch. induction ids as [|i ids IH]; intros o d ch; cbn [greedy_for]; keeps. Qed.
Lemma keeps_fill c l b k sel : keeps (fill_links c l b k sel).
Proof. revert k. induction sel as [|i sel IH]; intros k; cbn [fill_links]; keeps. Qed.
#[local] Hint Resolve keeps_take keeps_greedy_for keeps_fill : keeps.
Lemma keeps_init c q label lv : keeps (init_element c q label lv).
Proof. unfold init_element. keeps. Qed.
Lemma keeps_greedy_round q l o d : keeps (greedy_round fstdistfunc_ q l o d).
Proof. unfold greedy_round. keeps. Qed.
Lemma keeps_begin q m l o : keeps (search_begin fstdistfunc_ q m l o).
Proof. unfold search_begin. keeps. Qed.
Lemma keeps_end q ep b v : keeps (search_end fstdistfunc_ q ep b v).
Proof. unfold search_end, give_visited. keeps. Qed.
Lemma keeps_select c top l : keeps (select_links fstdistfunc_ c top l).
Proof. unfold select_links. keeps. Qed.
Lemma keeps_connect_back c l b nb : keeps (connect_back fstdistfunc_ c l b nb).
Proof. unfold connect_back. keeps. Qed.

Lemma perform_keeps {A} t (m : eff hnsw A) rel k (c : conf D) : keeps m → kept (shared c) (shared (perform t m rel k c)).
Proof. intros Hm. specialize (Hm (shared c)). unfold perform. by destruct (m (shared c)) as [s []]. Qed.
Lemma perform_lookup t label rel k (c : conf D) :
  element_levels_ (shared (perform t (lookup_label label) rel k c)) = element_levels_ (shared c) ∧
  cur_element_count (shared c) ≤ cur_element_count (shared (perform t (lookup_label label) rel k c)).
Proof.
  unfold perform, lookup_label, eff_bind, eff_get, eff_lift, eff_ret, eff_throw, eff_mod.
  repeat (case_match; simplify_eq/=); split; simpl; try done; lia.
Qed.
Lemma perform_draw t i rel k (c : conf D) : cur_element_count (shared (perform t (draw_level i) rel k c)) = cur_element_count (shared c).
Proof.
  unfold perform, draw_level, getRandomLevel, eff_bind, eff_lift, eff_ret, eff_mod. by repeat (case_match; simplify_eq/=).
Qed.
Lemma step_keeps t q label p (c c' : conf D) :
  pc_step fstdistfunc_ t q label p c = Some c' →
  ((∀ i, p ≠ DrawLevel i) → element_levels_ (shared c') = element_levels_ (shared c)) ∧
  cur_element_count (shared c) ≤ cur_element_count (shared c').
Proof.
  assert (∀ m p', acquire t m p' c = Some c' → kept (shared c) (shared c')) as Ha.
  { intros m p'. unfold acquire. destruct (locks c !! m); [done|]. by intros [= <-]. }
  assert (kept (shared c) (shared c') → ((∀ i, p ≠ DrawLevel i) → element_levels_ (shared c') = element_levels_ (shared c)) ∧
    cur_element_count (shared c) ≤ cur_element_count (shared c')) as Hk by (intros [H1 H2]; split; [done|lia]).
  intros Hs. destruct p; simpl in Hs; try done; try (by eapply Hk, Ha); try (injection Hs as <-);
    try (by apply Hk, perform_keeps; auto using keeps_init, keeps_greedy_round,
      keeps_begin, keeps_select, keeps_connect_back, keeps_mod with keeps).
  - destruct (perform_lookup t label (λ _, [label_lookup_lock])
      (λ r, match r with inl i => Existing i | inr i => LockElement i end) c). done.
  - split; [intros Hd; by destruct (Hd c0)|]. rewrite perform_draw. lia.
  - apply Hk. repeat case_match; apply perform_keeps; auto with keeps.
  - apply Hk. destruct (search_next _ v) as [[x v']|]; [by eapply Ha|]. injection Hs as <-. apply perform_keeps, keeps_end.
  - apply Hk, perform_keeps. case_match; auto with keeps.
Qed.
End keeps.

(** ** What is left to do *)
Section cost.
Context `{RE : RandomEngine} `{HI : HeapImpl} `{AL : Alloc} {D : Type} `{HD : DistT D} `{HO : !DistOrder D}.
Variable fstdistfunc_ : point → point → D.
Variable jobs : list (point * labeltype).
Variable s0 : hnsw.
Implicit Types (c : conf D) (p r : pc D) (i j : tableint) (l : Z) (t u : nat) (q : point).
#[local] Abbreviation inv := (inv fstdistfunc_ jobs s0).
#[local] Abbreviation dist := (dist_to fstdistfunc_).
Let nmax := N.to_nat (max_elements_ (cfg s0)).
Let Mmost := N.to_nat (M_ (cfg s0)).

(** The highest level drawn. *)
Definition top c : nat := max_list (Z.to_nat <$> element_levels_ (shared c)).
(** The ids that are not written yet, or whose element is closer than [d]. *)
Definition active c i : bool := (i <? cur_element_count (shared c)) && bool_decide (i ∉ pend (pcs c)).
Definition ahead c q (d : D) (k : nat) : bool :=
  negb (active c (N.of_nat k)) || dlt (dist (whole c) q (N.of_nat k)) d.
Definition closer c q (d : D) : nat := count (ahead c q d) (seq 0 nmax).

(** Steps on a level of the insertion and on a level of the descent. *)
Definition level_cost : nat := 2 * nmax + 2 * Mmost + 12.
Definition descent_cost : nat := 2 * nmax + 4.
Definition insert_cost (lv : Z) : nat := 5 + (Z.to_nat lv + 1) * level_cost.
Definition start_cost (lv : Z) (m : nat) : nat := insert_cost lv + (m - Z.to_nat lv) * descent_cost + 2.

(** The steps a call has still to do at most, when the levels are drawn. *)
Definition cost c q p : nat :=
  match p with
  | LockLabel => 5
  | LockLookup => 4
  | Lookup => 3
  | LockElement _ => 2
  | DrawLevel _ => 1
  | LockGlobal _ lv => start_cost lv (top c) + 5
  | ReadMaxlevel _ lv => start_cost lv (top c) + 4
  | ReadEntry _ lv maxl => start_cost lv (Z.to_nat maxl) + 3
  | ReadEntryCopy _ lv maxl _ => start_cost lv (Z.to_nat maxl) + 2
  | InitElement n _ => start_cost (curlevel n) (Z.to_nat (maxlevelcopy n)) + 1
  | StartDescent n _ => start_cost (curlevel n) (Z.to_nat (maxlevelcopy n))
  | FirstEntry _ => 5
  | GreedyLock n l _ d =>
      insert_cost (curlevel n) + (Z.to_nat l - Z.to_nat (curlevel n) - 1) * descent_cost + 2 * closer c q d + 2
  | GreedyRead n l _ d =>
      insert_cost (curlevel n) + (Z.to_nat l - Z.to_nat (curlevel n) - 1) * descent_cost + 2 * closer c q d + 1
  | ReadEpDeleted n _ => insert_cost (curlevel n)
  | SearchInit _ _ l _ => 4 + (Z.to_nat l + 1) * level_cost
  | SearchLoop _ _ l v => 4 + Z.to_nat l * level_cost + 2 * measure v + 2 * Mmost + 5
  | SearchRead _ _ l _ v => 4 + Z.to_nat l * level_cost + 2 * measure v + 2 * Mmost + 6
  | Select _ _ l _ => 4 + Z.to_nat l * level_cost + 2 * Mmost + 4
  | ConnectLock _ _ l _ rest _ => 4 + Z.to_nat l * level_cost + 2 * length rest + 3
  | ConnectBack _ _ l _ rest _ => 4 + Z.to_nat l * level_cost + 2 * length rest + 2
  | SetEntry _ => 4
  | UnlockGlobal _ => 3
  | UnlockElement _ => 2
  | UnlockLabel _ => 1
  | Done _ | Existing _ | Thrown _ | Stuck _ => 0
  end.
(** The call has not drawn its level. *)
Definition undrawn p : bool :=
  match p with LockLabel | LockLookup | Lookup | LockElement _ | DrawLevel _ => true | _ => false end.

Lemma start_pos lv m : (6 < start_cost lv m)%nat.
Proof. unfold start_cost, insert_cost. nia. Qed.
Lemma start_mono lv m m' : (m ≤ m')%nat → (start_cost lv m ≤ start_cost lv m')%nat.
Proof. intros H. unfold start_cost. nia. Qed.
Lemma cost_pos c q p : match p with Done _ | Existing _ | Thrown _ | Stuck _ => False | _ => True end → (0 < cost c q p)%nat.
Proof. pose proof start_pos. destruct p; cbn [cost]; intros; unfold insert_cost; try lia; eauto using Nat.lt_lt_0, Nat.lt_trans; nia. Qed.
Lemma closer_max c q d : (closer c q d ≤ nmax)%nat.
Proof. unfold closer. etrans; [apply count_length|]. by rewrite length_seq. Qed.
Lemma closer_drops c q d o l : inv c → reached c l o → dlt (dist (whole c) q o) d = true →
  (closer c q (dist (whole c) q o) < closer c q d)%nat.
Proof.
  intros Hinv Hr Hd. pose proof (reached_lt fstdistfunc_ jobs s0 c Hinv l o Hr) as Hlt.
  rewrite (in_cfg _ _ _ _ Hinv) in Hlt.
  assert (active c o = true) as Ha.
  { unfold active. rewrite (proj2 (N.ltb_lt _ _)) by apply Hr. rewrite bool_decide_eq_true_2; [done|]. by eapply reached_pend. }
  apply (count_lt _ _ _ (N.to_nat o)); unfold ahead; rewrite ?N2Nat.id, ?Ha; cbn [negb orb]; try done.
  - intros k [->|Hk]%orb_true_iff; [done|]. apply orb_true_iff. right. by eapply sw_trans.
  - apply elem_of_seq. unfold nmax. lia.
  - apply sw_irrefl.
Qed.

(** ** A step brings its thread closer to the end *)
Definition lowers c q p p' : Prop :=
  (undrawn p = true ∧ undrawn p' = false ∨ undrawn p' = undrawn p ∧ (cost c q p' < cost c q p)%nat) ∧
  (pending p' = true → pending p = true ∨ claimed p = None).

Lemma perform_lowers {A} c t q p (m : eff hnsw A) rel k :
  (0 < cost c q p)%nat → (∀ s a, m (shared c) = (s, Ok a) → lowers c q p (k a)) →
  ∃ p', pcs (perform t m rel k c) = <[t := p']> (pcs c) ∧ lowers c q p p'.
Proof.
  intros Hpos Hok. assert (∀ p', undrawn p' = false → cost c q p' = 0%nat → pending p' = false → lowers c q p p') as Hbad.
  { intros p' H1 H2 H3. split; [|by rewrite H3]. rewrite H1, H2. destruct (undrawn p); [by left|by right]. }
  unfold perform. destruct (m (shared c)) as [s [a|e|w|]]; simpl; eexists; (split; [done|]); [by eapply Hok|by apply Hbad..].
Qed.
Lemma acquire_lowers c c' t q p m p' : acquire t m p' c = Some c' → lowers c q p p' →
  ∃ p', pcs c' = <[t := p']> (pcs c) ∧ lowers c q p p'.
Proof. unfold acquire. destruct (locks c !! m); [done|]. intros [= <-]. eauto. Qed.

Lemma levels_top c : inv c → (Z.to_nat (maxlevel_ (shared c)) ≤ top c)%nat.
Proof.
  intros Hinv. assert (∀ i lv, level_of (whole c) i = Some lv → (Z.to_nat lv ≤ top c)%nat) as Hall.
  { intros i lv Hlv. unfold whole in Hlv. destruct (decide (i ∈ pend (pcs c))) as [Hin|Hn].
    - assert (lv = 0%Z) as ->; [|simpl; lia]. apply lookup_lt_Some in Hlv as Hlt. rewrite complete_levels_length in Hlt.
      rewrite complete_level_of, decide_True in Hlv by done. by injection Hlv.
    - rewrite complete_level_of_out in Hlv by done. apply max_list_elem_of_le, list_elem_of_fmap.
      exists lv. split; [done|]. by eapply list_elem_of_lookup_2. }
  destruct (in_entry _ _ _ _ Hinv) as [[-> _]|[(t & n & Hp & _ & _ & -> & _)|(E1 & (_ & lv & Hlv & Hle) & _)]].
  - simpl. lia.
  - destruct (job_of fstdistfunc_ jobs s0 c t _ Hinv Hp) as (q & label & Hj).
    destruct (in_pc _ _ _ _ Hinv t q label _ Hj Hp) as [Hlv _]. by eapply Hall.
  - specialize (Hall _ _ Hlv). lia.
Qed.

Section own.
Context c t q (label : labeltype) (Hinv : inv c) (Hj : jobs !! t = Some (q, label)).
#[local] Abbreviation lowers := (lowers c q).

Ltac lower := split; [right; split; [done|simpl; unfold start_cost, insert_cost, level_cost, descent_cost; nia]|by intros ?; auto].

Lemma lowers_connect n e l sel next p :
  undrawn p = false → (0 ≤ l)%Z → (4 + Z.to_nat l * level_cost + 2 * length sel + 1 < cost c q p)%nat →
  lowers p (connect_next n e l sel next).
Proof.
  intros Hu Hl Hc. unfold connect_next. destruct sel as [|nb rest].
  - destruct (Z.leb_spec l 0); (split; [right; split; [done|simpl]|done]); simpl in Hc; [lia|].
    replace (Z.to_nat (l - 1) + 1)%nat with (Z.to_nat l) by lia. lia.
  - split; [right; split; [done|simpl in *; lia]|done].
Qed.
Lemma lowers_greedy n l o d p : undrawn p = false → (0 ≤ curlevel n)%Z →
  (insert_cost (curlevel n) + (Z.to_nat l - Z.to_nat (curlevel n)) * descent_cost < cost c q p)%nat →
  lowers p (greedy_next n l o d).
Proof.
  intros Hu Hn Hc. unfold greedy_next. pose proof (closer_max c q d) as Hm.
  destruct (Z.ltb_spec (curlevel n) l); (split; [right; split; [done|simpl]|done]); [|lia].
  replace (Z.to_nat l - Z.to_nat (curlevel n))%nat with (S (Z.to_nat l - Z.to_nat (curlevel n) - 1)) in Hc by lia.
  generalize dependent (Z.to_nat l - Z.to_nat (curlevel n) - 1)%nat. intros k Hc. unfold descent_cost, insert_cost in *. lia.
Qed.
Lemma select_length i top l s s' sel next : cfg s = cfg s0 →
  select_links fstdistfunc_ i top l s = (s', Ok (sel, next)) → (length sel ≤ Mmost)%nat.
Proof.
  intros Hcfg. unfold select_links, eff_bind, eff_get, eff_lift. rewrite Hcfg.
  destruct (getNeighborsByHeuristic2 _ _ _ _) as [top'| | |]; try done.
  destruct (N.ltb_spec (M_ (cfg s0)) (pq_size top')) as [?|Hle]; [done|].
  destruct (of_opt _ _); try done. destruct (get_linklist_at_level _ _ _); try done.
  destruct (negb _); [done|]. unfold eff_mod. destruct (fill_links _ _ _ _ _ _) as [? []]; try done.
  intros [= _ <- _]. rewrite length_map, pq_drain_perm. unfold pq_size in Hle. unfold Mmost. lia.
Qed.

Lemma lowers_GreedyRead n l o d s x : pcs c !! t = Some (GreedyRead n l o d) →
  greedy_round fstdistfunc_ q l o d (shared c) = (s, Ok x) →
  lowers (GreedyRead n l o d) (let '(o', d', changed) := x in
    if (changed : bool) then GreedyLock n l o' d' else greedy_next n (l - 1) o' d').
Proof.
  intros Hp Hrun. destruct (in_pc _ _ _ _ Hinv t q label _ Hj Hp) as (((H0 & _) & _) & H2 & H3 & ->).
  destruct (greedy_round_run fstdistfunc_ jobs s0 c q Hinv l o ltac:(lia) H3) as (o' & ch & Hr & Hcase).
  rewrite Hrun in Hr. injection Hr as _ ->. destruct Hcase as [[-> ->]|(Hr & -> & Hlt)].
  - apply lowers_greedy; [done|done|]. simpl. replace (Z.to_nat (l - 1)) with (Z.to_nat l - 1)%nat by lia.
    replace (Z.to_nat l - 1 - Z.to_nat (curlevel n))%nat with (Z.to_nat l - Z.to_nat (curlevel n) - 1)%nat by lia.
    unfold insert_cost. lia.
  - pose proof (closer_drops c q _ o' l Hinv Hr Hlt). split; [right; split; [done|simpl; lia]|done].
Qed.
Lemma lowers_SearchInit n e l o s v : pcs c !! t = Some (SearchInit n e l o) →
  search_begin fstdistfunc_ q (maxlevelcopy n) l o (shared c) = (s, Ok v) →
  lowers (SearchInit n e l o) (SearchLoop n e l v).
Proof.
  intros Hp Hrun. destruct (in_pc _ _ _ _ Hinv t q label _ Hj Hp) as (_ & [_ Hl] & H3 & H4).
  destruct (search_begin_run fstdistfunc_ jobs s0 c q Hinv n l o ltac:(lia)) as (vl & pl & Hr & Hvl & Hn & Hf & _).
  { apply reached_0; [done|done|lia]. }
  rewrite Hrun in Hr. injection Hr as _ ->. rewrite (in_cfg _ _ _ _ Hinv) in Hn, Hf.
  assert (o < max_elements_ (cfg s0)) as Ho.
  { rewrite <- (in_cfg _ _ _ _ Hinv). by eapply (reached_lt fstdistfunc_ jobs s0 c Hinv l), reached_0; [|done|lia]. }
  split; [right; split; [done|]|done]. cbn [cost].
  assert (measure (g_init (dist (whole c) q) (live (whole c)) o vl) ≤ nmax)%nat as Hm.
  { pose proof (unvisited_mark _ _ (Hf o Ho)). pose proof (unvisited_le _ Hvl) as Hle. rewrite Hn in Hle.
    unfold measure, g_init, nmax. destruct (live _ _); simpl; rewrite push_nil; simpl; lia. }
  unfold level_cost. lia.
Qed.
Lemma lowers_SearchLoop n e l v cand v' : search_next (ef_construction_ (cfg (shared c))) v = Some (cand, v') →
  lowers (SearchLoop n e l v) (SearchRead n e l cand v').
Proof.
  intros Hn. split; [right; split; [done|]|done]. cbn [cost]. unfold search_next in Hn.
  destruct (pq_top (candidateSet v)) as [[d x]|] eqn:Ht; [|done]. case_match; [done|]. injection Hn as _ <-.
  unfold measure. cbn [candidateSet visited]. rewrite pq_pop_length.
  assert (candidateSet v ≠ []) by (intros Hz; by rewrite Hz in Ht). destruct (candidateSet v); [done|]. simpl. lia.
Qed.
Lemma lowers_SearchRead n e l x v s v' : pcs c !! t = Some (SearchRead n e l x v) →
  search_expand fstdistfunc_ q l x v (shared c) = (s, Ok v') →
  lowers (SearchRead n e l x v) (SearchLoop n e l v').
Proof.
  intros Hp Hrun. destruct (in_pc _ _ _ _ Hinv t q label _ Hj Hp) as (_ & [_ Hl] & H3 & H4).
  destruct (search_expand_run fstdistfunc_ jobs s0 c q Hinv l x v ltac:(lia) H3 H4) as (v'' & Hr & _ & Hm).
  rewrite Hrun in Hr. injection Hr as _ <-. split; [right; split; [done|cbn [cost]; lia]|done].
Qed.
Lemma lowers_StartDescent n o c' : pcs c !! t = Some (StartDescent n o) →
  pc_step fstdistfunc_ t q label (StartDescent n o) c = Some c' →
  ∃ p', pcs c' = <[t := p']> (pcs c) ∧ lowers (StartDescent n o) p'.
Proof.
  intros Hp [= <-]. destruct (in_pc _ _ _ _ Hinv t q label _ Hj Hp) as (_ & (H0 & _) & _).
  pose proof (start_pos (curlevel n) (Z.to_nat (maxlevelcopy n))) as Hpos.
  destruct (o =? 4294967295); [|destruct (curlevel n <? maxlevelcopy n)%Z]; apply perform_lowers; try (simpl; lia); intros s a _.
  - lower.
  - apply lowers_greedy; [done|done|]. cbn [cost]. unfold start_cost. apply Nat.lt_add_pos_r. lia.
  - lower.
Qed.

Lemma own_lowers p c' : pcs c !! t = Some p → pc_step fstdistfunc_ t q label p c = Some c' →
  ∃ p', pcs c' = <[t := p']> (pcs c) ∧ lowers p p'.
Proof.
  intros Hp Hs. pose proof (in_pc _ _ _ _ Hinv t q label _ Hj Hp) as Hok.
  destruct p; try (by eapply lowers_StartDescent); simpl in Hs; try done;
    try (eapply acquire_lowers; [exact Hs|]; split; [right; split; [done|cbn [cost]; lia]|by intros ?; auto]);
    try (injection Hs as <-; apply perform_lowers; [by apply cost_pos|intros s a Hrun]).
  - destruct a; split; try done; [by left|right; split; [done|simpl; lia]|by right].
  - split; [by left|by left].
  - injection Hrun as _ <-. split; [right; split; [done|cbn [cost]]|by left].
    pose proof (start_mono lv _ _ (levels_top c Hinv)). lia.
  - split; [right; split; [done|cbn [cost]; lia]|by left].
  - split; [right; split; [done|cbn [cost curlevel maxlevelcopy]; lia]|by left].
  - split; [right; split; [done|cbn [cost]; lia]|done].
  - split; [right; split; [done|cbn [cost]; lia]|done].
  - by eapply lowers_GreedyRead.
  - split; [right; split; [done|cbn [cost]]|done]. unfold insert_cost.
    assert (Z.to_nat (Z.min (curlevel n) (maxlevelcopy n)) ≤ Z.to_nat (curlevel n))%nat by lia. nia.
  - by eapply lowers_SearchInit.
  - destruct (search_next _ v) as [[cand v']|] eqn:Hn.
    + eapply acquire_lowers; [exact Hs|]. by apply lowers_SearchLoop.
    + injection Hs as <-. apply perform_lowers; [cbn [cost]; lia|]. intros s a _. split; [right; split; [done|cbn [cost]; lia]|done].
  - by eapply lowers_SearchRead.
  - destruct Hok as (_ & [_ Hl] & _). destruct a as [sel next]. apply select_length in Hrun; [|apply Hinv].
    apply lowers_connect; [done|lia|cbn [cost]; lia].
  - destruct Hok as (_ & [_ Hl] & _). apply lowers_connect; [done|lia|cbn [cost]; lia].
  - split; [right; split; [done|simpl; lia]|done].
  - split; [right; split; [done|simpl; lia]|done].
  - split; [right; split; [done|simpl; lia]|done].
  - split; [right; split; [done|simpl; lia]|done].
Qed.
End own.

(** ** and takes no other back *)
Section others.
Context c c' t p p' (Hinv : inv c) (Hinv' : inv c').
Context (Hp : pcs c !! t = Some p) (Hps : pcs c' = <[t := p']> (pcs c)).
Context (Hpend : pending p' = true → pending p = true ∨ claimed p = None).
Context (Hlevels : element_levels_ (shared c') = element_levels_ (shared c)).
Context (Hcount : cur_element_count (shared c) ≤ cur_element_count (shared c')).

Lemma same_pc u : u ≠ t → pcs c' !! u = pcs c !! u.
Proof. intros Hne. rewrite Hps. by rewrite list_lookup_insert_ne. Qed.
(** The thread that has taken an id keeps it. *)
Lemma claim_kept u r i : pcs c !! u = Some r → claimed r = Some i → ∃ r', pcs c' !! u = Some r' ∧ claimed r' = Some i.
Proof.
  intros Hu Hr. destruct (job_of fstdistfunc_ jobs s0 c u r Hinv Hu) as (q & label & Hj).
  destruct (cl_id _ _ _ (in_claims _ _ _ _ Hinv) u q label r i Hj Hu Hr) as [Hi _].
  destruct (cl_cover _ _ _ (in_claims _ _ _ _ Hinv') i) as (v & r' & Hv & Hr'); [lia|].
  destruct (decide (v = u)) as [->|Hne]; [by exists r'|]. exfalso. apply Hne.
  destruct (decide (v = t)) as [->|Hvt].
  - rewrite <- (same_pc u) in Hu by done. by apply (cl_inj _ _ _ (in_claims _ _ _ _ Hinv') t u r' r i).
  - rewrite same_pc in Hv by done. by apply (cl_inj _ _ _ (in_claims _ _ _ _ Hinv) v u r' r i).
Qed.
Lemma active_kept i : active c i = true → active c' i = true.
Proof.
  unfold active. rewrite !andb_true_iff, !N.ltb_lt, !bool_decide_eq_true. intros [Hi Hn]. split; [lia|].
  rewrite elem_pend. intros (u & r & Hu & Hr & Hc). apply Hn, elem_pend.
  destruct (decide (u = t)) as [->|Hne]; [|exists u, r; by rewrite <- same_pc].
  rewrite Hps, list_lookup_insert_eq in Hu by by eapply lookup_lt_Some. injection Hu as <-.
  assert (∃ r', pcs c !! t = Some r' ∧ claimed r' = Some i) as (r' & Hr' & Hc').
  { destruct (job_of fstdistfunc_ jobs s0 c t p Hinv Hp) as (q & label & Hj).
    assert (pcs c' !! t = Some p') as Ht by (rewrite Hps; apply list_lookup_insert_eq; by eapply lookup_lt_Some).
    destruct (cl_id _ _ _ (in_claims _ _ _ _ Hinv') t q label p' i Hj Ht Hc) as [Hi' _].
    destruct (cl_cover _ _ _ (in_claims _ _ _ _ Hinv) i) as (v & r' & Hv & Hr'); [lia|].
    destruct (claim_kept v r' i Hv Hr') as (r2 & Hv2 & Hr2).
    rewrite (cl_inj _ _ _ (in_claims _ _ _ _ Hinv') t v p' r2 i) by done. by exists r'. }
  rewrite Hp in Hr'. injection Hr' as <-. destruct (Hpend Hr) as [?|Hno]; [by exists t, p|congruence].
Qed.
Lemma active_dist q i : active c i = true → dist (whole c') q i = dist (whole c) q i.
Proof.
  intros Ha. pose proof (active_kept i Ha) as Ha'. unfold active in Ha, Ha'.
  rewrite !andb_true_iff, N.ltb_lt, bool_decide_eq_true in Ha, Ha'. destruct Ha as [Hi Hn], Ha' as [_ Hn'].
  unfold dist_to, whole. destruct (complete_total _ (shared c) i Hn) as (-> & _).
  destruct (complete_total _ (shared c') i Hn') as (-> & _).
  assert (el_view <$> level0 (shared c') !! i = el_view <$> level0 (shared c) !! i) as Hv.
  2:{ unfold data_of. destruct (level0 (shared c') !! i), (level0 (shared c) !! i); simpl in *; try done.
      by injection Hv as ->. }
  destruct (N.lt_ge_cases i (cur_element_count s0)) as [Hlt|Hge].
  { by rewrite (cl_old _ _ _ (in_claims _ _ _ _ Hinv)), (cl_old _ _ _ (in_claims _ _ _ _ Hinv')). }
  destruct (cl_cover _ _ _ (in_claims _ _ _ _ Hinv) i) as (u & r & Hu & Hr); [done|].
  destruct (claim_kept u r i Hu Hr) as (r' & Hu' & Hr').
  destruct (job_of fstdistfunc_ jobs s0 c u r Hinv Hu) as (q' & label & Hj).
  destruct (cl_id _ _ _ (in_claims _ _ _ _ Hinv) u q' label r i Hj Hu Hr) as (_ & _ & V).
  destruct (cl_id _ _ _ (in_claims _ _ _ _ Hinv') u q' label r' i Hj Hu' Hr') as (_ & _ & V').
  rewrite V, V'; [done| |].
  - destruct (pending r') eqn:E; [|done]. destruct Hn'. apply elem_pend. eauto.
  - destruct (pending r) eqn:E; [|done]. destruct Hn. apply elem_pend. eauto.
Qed.
Lemma closer_kept q d : (closer c' q d ≤ closer c q d)%nat.
Proof.
  apply count_le. intros k. unfold ahead. destruct (active c (N.of_nat k)) eqn:Ha; [|done].
  by rewrite (active_kept _ Ha), (active_dist q _ Ha).
Qed.
Lemma cost_kept q r : (cost c' q r ≤ cost c q r)%nat.
Proof.
  assert (top c' = top c) as Ht by (unfold top; by rewrite Hlevels).
  destruct r; cbn [cost]; rewrite ?Ht; try done; pose proof (closer_kept q curdist); lia.
Qed.
End others.

(** ** No infinite run *)
Definition undrawn_calls c : nat := sum_list (zip_with (λ _ p, Nat.b2n (undrawn p)) jobs (pcs c)).
Definition cost_left c : nat := sum_list (zip_with (λ job p, cost c job.1 p) jobs (pcs c)).

Lemma step_lowers t c c' : inv c → inv c' → thread_step fstdistfunc_ jobs t c = Some c' →
  (undrawn_calls c' < undrawn_calls c)%nat ∨ undrawn_calls c' = undrawn_calls c ∧ (cost_left c' < cost_left c)%nat.
Proof.
  intros Hinv Hinv' Hs. unfold thread_step in Hs.
  destruct (jobs !! t) as [[q label]|] eqn:Hj; [|done]. destruct (pcs c !! t) as [p|] eqn:Hp; [|done].
  destruct (own_lowers c t q label Hinv Hj p c' Hp Hs) as (p' & Hps & Hlow & Hpend).
  unfold undrawn_calls, cost_left. rewrite Hps. destruct Hlow as [[H1 H2]|[Hu Hlt]].
  - left. apply (sum_zip_lt _ _ jobs (pcs c) t (q, label) p p'); [done..|]. rewrite H1, H2. simpl. lia.
  - right. split; [apply (sum_zip_eq _ jobs (pcs c) t (q, label) p p'); by rewrite ?Hu|].
    assert (∀ q r, (cost c' q r ≤ cost c q r)%nat) as Hk.
    { intros q' r. apply (cost_kept c c' t p p'); try done.
      - apply (step_keeps _ _ _ _ _ _ _ Hs). intros i ->. destruct p'; simpl in *; try done; lia.
      - apply (step_keeps _ _ _ _ _ _ _ Hs). }
    apply (sum_zip_lt _ _ jobs (pcs c) t (q, label) p p'); [intros [q' lab'] r; apply Hk|done|done|].
    eapply Nat.le_lt_trans; [apply Hk|done].
Qed.
End cost.
