(* ===== verification/InsertThreadsSpec.v ===== *)
(** * Concurrent insertions refine insertions in some order

    Calls of [addPoint] that run at the same time leave the index, when they
    have all ended, as the same calls one after the other on the abstract
    collection of HnswSpec would, with the same exceptions. *)

From Stdlib Require Import ZArith Lia.
From stdpp Require Import base numbers list gmap strings relations.
From S2P Require Import Prelude Heap VisitedList Arith BeamSearch Hnsw HnswSearch HnswInsert HnswWf.
From S2P Require Import HnswSearchLaws HnswKnn HeuristicLaws HnswConnectLaws HnswAddLaws HnswSpec.
From S2P Require Import InsertThreads PendingElements InsertThreadsInv InsertThreadsSteps InsertThreadsLaws.
From S2P Require Import InsertThreadsProgress InsertThreadsEnd.
#[local] Open Scope N_scope.

(** ** The calls one after the other, on the collection *)
Fixpoint spec_adds (σ : spec) (l : list (point * labeltype)) : spec * list (res unit) :=
  match l with
  | [] => (σ, [])
  | (q, label) :: l' =>
      let '(σ1, r) := spec_add σ q label in
      let '(σ2, rs) := spec_adds σ1 l' in (σ2, r :: rs)
  end.
Lemma spec_adds_app σ l1 l2 :
  spec_adds σ (l1 ++ l2) =
  ((spec_adds (spec_adds σ l1).1 l2).1, (spec_adds σ l1).2 ++ (spec_adds (spec_adds σ l1).1 l2).2).
Proof.
  revert σ. induction l1 as [|[q label] l1 IH]; intros σ; simpl; [by destruct (spec_adds σ l2)|].
  destruct (spec_add σ q label) as [σ1 r]. rewrite IH. by destruct (spec_adds σ1 l1).
Qed.

Definition new_items (size : N) (l : list (point * labeltype)) (m : gmap labeltype (point * bool)) :
    gmap labeltype (point * bool) :=
  foldl (λ m '(q, label), <[label := (take (N.to_nat size) q, true)]> m) m l.
Lemma new_items_out size l m label : label ∉ l.*2 → new_items size l m !! label = m !! label.
Proof.
  revert m. induction l as [|[q lab] l IH]; intros m; simpl; [done|]. intros [Hne Hn]%not_elem_of_cons.
  rewrite IH by done. by rewrite lookup_insert_ne.
Qed.
Lemma new_items_in size l m q label : NoDup l.*2 → (q, label) ∈ l →
  new_items size l m !! label = Some (take (N.to_nat size) q, true).
Proof.
  revert m. induction l as [|[q' lab] l IH]; intros m; simpl; [by intros _ ?%elem_of_nil|].
  intros [Hn Hnd]%NoDup_cons [[= <- <-]|Hin]%elem_of_cons; [|by apply IH].
  rewrite new_items_out by done. by rewrite lookup_insert_eq.
Qed.
Lemma new_items_size sz l m : NoDup l.*2 → (∀ label, label ∈ l.*2 → m !! label = None) →
  size (new_items sz l m) = (size m + length l)%nat.
Proof.
  revert m. induction l as [|[q lab] l IH]; intros m; simpl; [lia|]. intros [Hn Hnd]%NoDup_cons Hf.
  rewrite IH; [|done|].
  - rewrite map_size_insert_None by (apply Hf; left). lia.
  - intros lab' Hin. rewrite lookup_insert_ne by (intros ->; done). apply Hf. by right.
Qed.

(** While there is room every call succeeds, afterwards none does. *)
Lemma spec_adds_room σ l :
  NoDup l.*2 → (∀ label, label ∈ l.*2 → sp_items σ !! label = None) →
  N.of_nat (size (sp_items σ)) + N.of_nat (length l) ≤ sp_cap σ →
  spec_adds σ l = (with_items (new_items (sp_size σ) l (sp_items σ)) σ, replicate (length l) (Ok tt)).
Proof.
  revert σ. induction l as [|[q label] l IH]; intros σ; simpl; [by destruct σ|].
  intros [Hn Hnd]%NoDup_cons Hf Hc. unfold spec_add. rewrite Hf by left. rewrite (proj2 (N.leb_gt _ _)) by lia.
  rewrite IH; [done|done| |].
  - intros lab Hlab. simpl. rewrite lookup_insert_ne by (intros ->; done). apply Hf. by right.
  - simpl. rewrite map_size_insert_None by (apply Hf; left). lia.
Qed.
Lemma spec_adds_full σ l :
  (∀ label, label ∈ l.*2 → sp_items σ !! label = None) → sp_cap σ ≤ N.of_nat (size (sp_items σ)) →
  spec_adds σ l = (σ, replicate (length l) (Throw limit_message)).
Proof.
  induction l as [|[q label] l IH]; simpl; [done|]. intros Hf Hc.
  unfold spec_add. rewrite Hf by left. rewrite (proj2 (N.leb_le _ _)) by done.
  rewrite IH; [done| |done]. intros lab Hlab. apply Hf. by right.
Qed.

#[global] Instance ended_dec {D} (p : pc D) : Decision (ended p).
Proof. destruct p; simpl; apply _. Defined.
(** How the call of a thread ended. *)
Definition outcome {D} (p : pc D) : option (res unit) :=
  match p with Done _ => Some (Ok tt) | Thrown e => Some (Throw e) | _ => None end.
Definition is_done {D} (p : pc D) : bool := match p with Done _ => true | _ => false end.

(** ** When all the calls have ended *)
Section final.
Context `{RE : RandomEngine} `{HI : HeapImpl} `{AL : Alloc} {D : Type} `{HD : DistT D} `{HO : !DistOrder D}.
Variable fstdistfunc_ : point → point → D.
Variable jobs : list (point * labeltype).
Variable s0 : hnsw.
Hypothesis Hia : insertable s0 jobs.
Context (c : conf D) (Hinv : inv fstdistfunc_ jobs s0 c) (Hj : joined c).
Implicit Types (p r : pc D) (i j : tableint) (l : Z) (t u : nat).

Lemma joined_pc t p : pcs c !! t = Some p → ended p.
Proof. intros Hp. by apply (Forall_lookup_1 _ _ _ _ Hj Hp). Qed.
Lemma joined_claimed t p i : pcs c !! t = Some p → claimed p = Some i → p = Done i.
Proof. intros Hp Hc. pose proof (joined_pc t p Hp). destruct p; simplify_eq/=; done. Qed.
Lemma joined_whole : whole c = shared c.
Proof.
  unfold whole. rewrite (complete_ext _ []); [apply complete_nil|]. intros i. rewrite elem_pend. split.
  - intros (t & p & Hp & Hpe & Hc). by rewrite (joined_claimed t p i Hp Hc) in Hpe.
  - by intros ?%elem_of_nil.
Qed.
Lemma joined_graph : graph_ok (shared c).
Proof. rewrite <- joined_whole. apply Hinv. Qed.
Lemma joined_level i lv : i < cur_element_count (shared c) → level_of (shared c) i = Some lv → (lv ≤ maxlevel_ (shared c))%Z.
Proof.
  intros Hi Hlv. rewrite <- joined_whole in Hlv at 1.
  destruct (in_levels _ _ _ _ Hinv i lv Hi Hlv) as [?|(t & p & Hp & Hc & Ho)]; [done|].
  by rewrite (joined_claimed t p i Hp Hc) in Ho.
Qed.
Lemma joined_entry : entry_ok (shared c).
Proof.
  pose proof joined_graph as Hg. destruct (in_entry _ _ _ _ Hinv) as [[E1 E2]|[(t & n & Hp & _)|(E1 & E2 & E3)]].
  - left. split_and!; [|done..]. destruct (decide (cur_element_count (shared c) = 0)) as [|Hne]; [done|].
    destruct (go_node _ Hg 0) as (e & lv & Hn); [lia|]. pose proof (no_level _ _ _ _ Hn) as Hlv.
    pose proof (no_pos _ _ _ _ Hn). apply joined_level in Hlv; lia.
  - by apply joined_pc in Hp.
  - right. rewrite joined_whole in E2. destruct E2 as (Hlt & lv & Hlv & Hle). split; [done|].
    pose proof (joined_level _ _ Hlt Hlv). replace lv with (maxlevel_ (shared c)) in Hlv by lia.
    split; [done|]. apply joined_level.
Qed.

Lemma joined_el t q label i : jobs !! t = Some (q, label) → pcs c !! t = Some (Done i) →
  label_lookup_ (shared c) !! label = Some i ∧ label_of (shared c) i = label ∧
  data_of (shared c) i = take (N.to_nat (data_size_ (cfg s0))) q ∧ live (shared c) i = true.
Proof.
  intros Hjob Hp. destruct (cl_id _ _ _ (in_claims _ _ _ _ Hinv) t q label _ i Hjob Hp eq_refl) as (_ & Hl & Hv).
  specialize (Hv eq_refl). split; [done|]. unfold label_of, data_of, live.
  destruct (level0 (shared c) !! i) as [e|]; [|done]. simpl in *. injection Hv as -> -> Hd. by rewrite Hd.
Qed.
Lemma joined_old_el i : i < cur_element_count s0 →
  label_of (shared c) i = label_of s0 i ∧ data_of (shared c) i = data_of s0 i ∧ live (shared c) i = live s0 i.
Proof.
  intros Hi. pose proof (cl_old _ _ _ (in_claims _ _ _ _ Hinv) i Hi) as Hv. unfold label_of, data_of, live.
  destruct (level0 (shared c) !! i) as [e|], (level0 s0 !! i) as [e'|]; simpl in *; try done.
  injection Hv as -> -> Hd. by rewrite Hd.
Qed.
(** A label is that of a call that inserted it, or as it was. *)
Lemma joined_lookup label :
  (∃ t q i, jobs !! t = Some (q, label) ∧ pcs c !! t = Some (Done i)) ∨
  (∀ t q i, jobs !! t = Some (q, label) → pcs c !! t ≠ Some (Done i)) ∧
  label_lookup_ (shared c) !! label = label_lookup_ s0 !! label.
Proof.
  destruct (decide (label ∈ jobs.*2)) as [Hin|Hnin].
  - apply list_elem_of_fmap in Hin as ([q lab] & -> & [t Ht]%list_elem_of_lookup). simpl.
    destruct (lookup_lt_is_Some_2 (pcs c) t) as [p Hp].
    { rewrite (in_len _ _ _ _ Hinv). by eapply lookup_lt_Some. }
    assert (∀ u q', jobs !! u = Some (q', lab) → u = t) as Hu.
    { intros u q' Hu. apply (NoDup_lookup jobs.*2 u t lab); [apply Hia|..]; by rewrite list_lookup_fmap, ?Hu, ?Ht. }
    pose proof (joined_pc t p Hp) as He. destruct p; try done; [left; by exists t, q, c0|right]. split.
    + intros u q' i Hj'. rewrite (Hu u q' Hj'). congruence.
    + apply (cl_lookup _ _ _ (in_claims _ _ _ _ Hinv)). intros u q' p Hj' Hp'. rewrite (Hu u q' Hj'), Hp in Hp'.
      by injection Hp' as <-.
  - assert (∀ t q, jobs !! t ≠ Some (q, label)) as Hno.
    { intros t q Ht. apply Hnin, list_elem_of_fmap. exists (q, label). split; [done|]. by eapply list_elem_of_lookup_2. }
    right. split; [intros t q i Ht; by destruct (Hno t q)|].
    apply (cl_lookup _ _ _ (in_claims _ _ _ _ Hinv)). intros t q p Ht. by destruct (Hno t q).
Qed.
Lemma joined_labels : labels_ok (shared c).
Proof.
  destruct (ix_labels _ (ia_index _ _ Hia)) as [L1 L2]. pose proof (in_claims _ _ _ _ Hinv) as Hcl. split.
  - intros lab i Hl. destruct (joined_lookup lab) as [(t & q & j & Ht & Hp)|[_ Heq]].
    + destruct (joined_el t q lab j Ht Hp) as (Hl' & Hlab & _). rewrite Hl in Hl'. injection Hl' as <-. split; [|done].
      by destruct (cl_id _ _ _ Hcl t q lab _ i Ht Hp eq_refl) as [[_ ?] _].
    + rewrite Heq in Hl. destruct (L1 lab i Hl) as [Hi Hlab]. destruct (joined_old_el i Hi) as (-> & _). split; [|done].
      pose proof (cl_count _ _ _ Hcl). lia.
  - intros i Hi. destruct (N.lt_ge_cases i (cur_element_count s0)) as [Hlt|Hge].
    + destruct (joined_old_el i Hlt) as (-> & _). destruct (joined_lookup (label_of s0 i)) as [(t & q & j & Ht & _)|[_ ->]]; [|by apply L2].
      pose proof (L2 i Hlt) as Hs. rewrite (ia_fresh _ _ Hia) in Hs; [done|].
      apply list_elem_of_fmap. exists (q, label_of s0 i). split; [done|]. by eapply list_elem_of_lookup_2.
    + destruct (cl_cover _ _ _ Hcl i) as (t & p & Hp & Hc); [done|]. rewrite (joined_claimed t p i Hp Hc) in Hp.
      destruct (job_of fstdistfunc_ jobs s0 c t _ Hinv Hp) as (q & lab & Ht).
      by destruct (joined_el t q lab i Ht Hp) as (? & -> & _).
Qed.
Lemma joined_live i : i < cur_element_count (shared c) → live (shared c) i = true.
Proof. intros Hi. rewrite <- joined_whole. apply (whole_live fstdistfunc_ jobs s0); [apply Hia|done|done]. Qed.
Lemma all_live_deleted s : (∀ i, i < cur_element_count s → live s i = true) → deleted_ids s = [].
Proof.
  intros Hl. destruct (deleted_ids s) as [|i ds] eqn:E; [done|].
  assert (i ∈ deleted_ids s) as [Hi Hd]%elem_deleted_ids by (rewrite E; left). by rewrite Hl in Hd.
Qed.
Lemma joined_index : index_ok (shared c).
Proof.
  split; [apply joined_graph|apply joined_entry|apply joined_labels|].
  destruct (ix_marks _ (ia_index _ _ Hia)) as [M1 M2]. destruct (in_marks _ _ _ _ Hinv) as [N1 N2]. unfold marks_ok.
  rewrite N1, N2, (in_cfg _ _ _ _ Hinv), (all_live_deleted _ joined_live).
  by rewrite (all_live_deleted s0 (ia_live _ _ Hia)) in M1, M2.
Qed.

(** ** The collection *)
Definition finished : list nat := filter (λ t, (is_done <$> pcs c !! t) = Some true) (seq 0 (length jobs)).
Definition refused : list nat := filter (λ t, (is_done <$> pcs c !! t) ≠ Some true) (seq 0 (length jobs)).
Definition jobs_of (ts : list nat) : list (point * labeltype) := omap (λ t, jobs !! t) ts.

Lemma order_perm : finished ++ refused ≡ₚ seq 0 (length jobs).
Proof. apply filter_app_complement. Qed.
Lemma elem_finished t : t ∈ finished ↔ ∃ i, pcs c !! t = Some (Done i).
Proof.
  unfold finished. rewrite list_elem_of_filter, elem_of_seq. split.
  - intros [H _]. destruct (pcs c !! t) as [[]|]; simplify_eq/=; eauto.
  - intros [i Hp]. rewrite Hp. split; [done|]. rewrite <- (in_len _ _ _ _ Hinv). apply lookup_lt_Some in Hp. lia.
Qed.
Lemma elem_jobs_of ts q label : (q, label) ∈ jobs_of ts ↔ ∃ t, t ∈ ts ∧ jobs !! t = Some (q, label).
Proof. apply list_elem_of_omap. Qed.
Lemma jobs_of_app ts us : jobs_of (ts ++ us) = jobs_of ts ++ jobs_of us.
Proof. apply omap_app. Qed.
Lemma jobs_of_labels ts : NoDup ts → NoDup (jobs_of ts).*2.
Proof.
  unfold jobs_of. induction ts as [|t ts IH]; intros Hnd; [constructor|]. apply NoDup_cons in Hnd as [Hn Hnd]. simpl.
  destruct (jobs !! t) as [[q label]|] eqn:Ht; simpl; [|auto]. constructor; [|auto].
  intros ([q' lab] & -> & (u & Hu & Hju)%list_elem_of_omap)%list_elem_of_fmap. apply Hn.
  replace t with u; [done|]. apply (NoDup_lookup jobs.*2 u t lab); [apply Hia|..]; by rewrite list_lookup_fmap, ?Hju, ?Ht.
Qed.
Lemma jobs_of_fresh ts label : label ∈ (jobs_of ts).*2 → label_lookup_ s0 !! label = None.
Proof.
  intros ([q lab] & -> & (t & Ht & Hjt)%elem_jobs_of)%list_elem_of_fmap. apply (ia_fresh _ _ Hia).
  apply list_elem_of_fmap. exists (q, lab). split; [done|]. by eapply list_elem_of_lookup_2.
Qed.

Lemma jobs_of_length ts : (∀ t, t ∈ ts → (t < length jobs)%nat) → length (jobs_of ts) = length ts.
Proof.
  unfold jobs_of. induction ts as [|t ts IH]; intros Hlt; [done|]. simpl.
  destruct (lookup_lt_is_Some_2 jobs t) as [x ->]; [apply Hlt; left|]. cbn [length]. f_equal. apply IH.
  intros u Hu. apply Hlt. by right.
Qed.
Lemma contents_fresh ts label : label ∈ (jobs_of ts).*2 → contents s0 !! label = None.
Proof. intros Hf%jobs_of_fresh. rewrite lookup_contents. unfold view. by rewrite Hf. Qed.

Lemma joined_contents :
  contents (shared c) = new_items (data_size_ (cfg s0)) (jobs_of finished) (contents s0).
Proof.
  apply map_eq. intros lab. rewrite lookup_contents. unfold view.
  destruct (joined_lookup lab) as [(t & q & i & Ht & Hp)|[Hno Heq]].
  - destruct (joined_el t q lab i Ht Hp) as (-> & _ & Hd & Hl). simpl. rewrite Hd, Hl. symmetry. apply new_items_in.
    + apply jobs_of_labels, NoDup_filter, NoDup_seq.
    + apply elem_jobs_of. exists t. split; [|done]. apply elem_finished. by exists i.
  - rewrite new_items_out, lookup_contents.
    + unfold view. rewrite Heq. destruct (label_lookup_ s0 !! lab) as [i|] eqn:Hl; [|done]. simpl.
      destruct (ix_labels _ (ia_index _ _ Hia)) as [L1 _]. destruct (L1 lab i Hl) as [Hi _].
      by destruct (joined_old_el i Hi) as (_ & -> & ->).
    + intros ([q lab'] & -> & (t & (i & Hp)%elem_finished & Ht)%elem_jobs_of)%list_elem_of_fmap. by apply (Hno t q i).
Qed.
Lemma refused_thrown t : t ∈ refused →
  pcs c !! t = Some (Thrown limit_message) ∧ cur_element_count (shared c) = max_elements_ (cfg s0).
Proof.
  unfold refused. rewrite list_elem_of_filter, elem_of_seq. intros [Hd Ht].
  destruct (lookup_lt_is_Some_2 jobs t) as [[q label] Hjob]; [lia|].
  destruct (lookup_lt_is_Some_2 (pcs c) t) as [p Hp]; [rewrite (in_len _ _ _ _ Hinv); lia|].
  rewrite Hp in Hd |- *. pose proof (joined_pc t p Hp) as He. pose proof (in_pc _ _ _ _ Hinv t q label p Hjob Hp) as Hok.
  destruct p; try done. destruct Hok as [-> Hc]. by rewrite (in_cfg _ _ _ _ Hinv) in Hc.
Qed.
Lemma outcomes (ts : list nat) (x : res unit) : (∀ t, t ∈ ts → pcs c !! t ≫= outcome = Some x) →
  (λ t, pcs c !! t ≫= outcome) <$> ts = Some <$> replicate (length ts) x.
Proof.
  induction ts as [|t ts IH]; intros Hts; [done|]. rewrite fmap_cons. cbn [length replicate].
  rewrite fmap_cons. f_equal; [apply Hts; left|]. apply IH. intros u Hu. apply Hts. by right.
Qed.

Lemma joined_refines : ∃ order σ rs, order ≡ₚ seq 0 (length jobs) ∧
  spec_adds (abstraction s0) (jobs_of order) = (σ, rs) ∧ implements (shared c) σ ∧
  (λ t, pcs c !! t ≫= outcome) <$> order = Some <$> rs.
Proof.
  pose proof joined_contents as Hcon. pose proof order_perm as Hord.
  assert (NoDup (finished ++ refused)) as Hnd by (rewrite Hord; apply NoDup_seq).
  assert (∀ t, t ∈ finished ++ refused → (t < length jobs)%nat) as Hlt by (intros t; rewrite Hord, elem_of_seq; lia).
  pose proof (jobs_of_labels _ Hnd) as Hlab. rewrite jobs_of_app, fmap_app in Hlab.
  apply NoDup_app in Hlab as (Hl1 & Hdis & _).
  pose proof (new_items_size (data_size_ (cfg s0)) _ (contents s0) Hl1 (contents_fresh finished)) as Hsz.
  pose proof (size_contents _ joined_index) as Hs1. rewrite Hcon, Hsz in Hs1.
  pose proof (go_count _ joined_graph) as Hmax. rewrite (in_cfg _ _ _ _ Hinv) in Hmax.
  exists (finished ++ refused), (with_items (contents (shared c)) (abstraction s0)),
    (replicate (length finished) (Ok tt) ++ replicate (length refused) (Throw limit_message)).
  split; [done|]. split; [|split].
  - assert (spec_adds (abstraction s0) (jobs_of finished)
            = (with_items (contents (shared c)) (abstraction s0), replicate (length finished) (Ok tt))) as Hfin.
    { rewrite spec_adds_room; [|done|apply contents_fresh|simpl; lia]. rewrite Hcon. f_equal. f_equal.
      apply jobs_of_length. intros t Ht. apply Hlt, elem_of_app. by left. }
    assert (spec_adds (with_items (contents (shared c)) (abstraction s0)) (jobs_of refused)
            = (with_items (contents (shared c)) (abstraction s0), replicate (length refused) (Throw limit_message))) as Hre.
    { destruct refused as [|t0 ts] eqn:Hr; [done|].
      rewrite spec_adds_full; [f_equal; f_equal; by apply jobs_of_length; intros t Ht; apply Hlt, elem_of_app; auto| |].
      - intros lab Hin. simpl. rewrite Hcon, new_items_out; [by eapply contents_fresh|]. intros Hin'. by eapply Hdis.
      - simpl. rewrite Hcon, Hsz. destruct (refused_thrown t0) as [_ Hfull]; [rewrite Hr; left|]. lia. }
    by rewrite jobs_of_app, spec_adds_app, Hfin; cbn [fst snd]; rewrite Hre.
  - apply implements_intro; [apply joined_index|apply Hinv|apply Hia|done].
  - rewrite !fmap_app. f_equal; apply outcomes.
    + by intros t (i & ->)%elem_finished.
    + by intros t [-> _]%refused_thrown.
Qed.
End final.

(** ** Every run *)
Section runs.
Context `{RE : RandomEngine} `{HI : HeapImpl} `{AL : Alloc} {D : Type} `{HD : DistT D} `{HO : !DistOrder D}.
Variable fstdistfunc_ : point → point → D.
Variable jobs : list (point * labeltype).
Variable s0 : hnsw.
Hypothesis Hia : insertable s0 jobs.
Hypothesis level_total : ∀ M g, 2 ≤ M → (random_level (inv_log M) g).1 ≠ None.
Implicit Types (c : conf D) (p : pc D).
#[local] Abbreviation step := (step fstdistfunc_ jobs).
#[local] Abbreviation start := (threads_start jobs s0).

Lemma inv_ends c : inv fstdistfunc_ jobs s0 c → sn step c.
Proof using Hia level_total HO.
  remember (undrawn_calls jobs c) as a eqn:Ha. revert c Ha. induction a as [a IHa] using lt_wf_ind.
  intros c. remember (cost_left fstdistfunc_ jobs s0 c) as b eqn:Hb. revert c Hb. induction b as [b IHb] using lt_wf_ind.
  intros c -> -> Hinv. constructor. intros c' [t Hs].
  assert (inv fstdistfunc_ jobs s0 c') as Hinv' by by eapply thread_step_inv.
  destruct (step_lowers fstdistfunc_ jobs s0 t c c' Hinv Hinv' Hs) as [Hlt|[Heq Hlt]]; [by eapply IHa|].
  by eapply IHb.
Qed.

(** C5. Calls of [addPoint] from several threads, with new labels and no two the
    same, all end, whatever the order of their steps: no run is infinite, and as
    long as one of the calls has not ended some thread can take a step.  The
    locks of the code lead to no deadlock: [label_op_locks_], [label_lookup_lock],
    [global], the lock of the new element and those of the elements it is linked
    with. *)
Theorem concurrent_inserts_end c :
  rtc step start c → sn step c ∧ (joined c ∨ ∃ c', step c c').
Proof using Hia level_total HO.
  intros Hr. pose proof (inv_reachable fstdistfunc_ jobs s0 Hia level_total c Hr) as Hinv.
  split; [by apply inv_ends|].
  destruct (decide (joined c)) as [?|Hn]; [by left|right].
  destruct (not_joined_goes_on fstdistfunc_ jobs s0 c Hinv Hn) as (t & c' & Hs). exists c'. by exists t.
Qed.

(** C2. When the calls of all the threads have ended, the index is well-formed and
    holds what the same calls made one after the other, in some order, would
    leave in the collection: every call that returned has inserted its vector
    under its label, and a call has thrown only if the index was full. *)
Theorem concurrent_inserts_refine c :
  rtc step start c → joined c →
  ∃ order σ rs, order ≡ₚ seq 0 (length jobs) ∧ spec_adds (abstraction s0) (jobs_of jobs order) = (σ, rs) ∧
    implements (shared c) σ ∧ (λ t, pcs c !! t ≫= outcome) <$> order = Some <$> rs.
Proof using Hia level_total HO.
  intros Hr Hj. eapply joined_refines; [done|by apply (inv_reachable fstdistfunc_ jobs s0 Hia level_total)|done].
Qed.
End runs.
