(* ===== verification/InsertThreadsAlone.v ===== *)
(** * An insertion with no other thread

    A single call of the concurrent model and [addPoint] of HnswInsert do the
    same: what a thread has still to do, read as one piece of sequential code,
    does not change when the thread takes a step. *)

From Stdlib Require Import ZArith Lia.
From stdpp Require Import base numbers list gmap strings relations.
From S2P Require Import Prelude Heap VisitedList Arith BeamSearch Hnsw HnswSearch HnswInsert HnswWf.
From S2P Require Import HnswSearchLaws HnswKnn HeuristicLaws HnswConnectLaws HnswAddLaws HnswSpec.
From S2P Require Import InsertThreads PendingElements InsertThreadsInv InsertThreadsLaws InsertThreadsSpec.
#[local] Open Scope N_scope.

Section alone.
Context `{RE : RandomEngine} `{HI : HeapImpl} `{AL : Alloc} `{HH : HashOrder} {D : Type} `{HD : DistT D} `{HO : !DistOrder D}.
Variable fstdistfunc_ : point → point → D.
Variables (q : point) (label : labeltype).
Implicit Types (c : conf D) (p : pc D) (s : hnsw) (n : inserting).
#[local] Abbreviation greedy_while := (greedy_while fstdistfunc_ true false).
#[local] Abbreviation greedy_levels := (greedy_levels fstdistfunc_ true false).
#[local] Abbreviation insert_levels := (insert_levels fstdistfunc_).
#[local] Abbreviation connect_all := (connect_all fstdistfunc_).

(** ** The rest of the call as sequential code *)
Definition finish n : eff hnsw tableint :=
  let* _ := (if keeps_global n then eff_mod (set_entry (cur_c n) (curlevel n)) else eff_ret tt) in
  eff_ret (cur_c n).
(** The levels below [k]. *)
Definition insert_below n (e : bool) (k : nat) (o : tableint) : eff hnsw tableint :=
  let* _ := insert_levels k q (cur_c n) (enterpoint_copy n) e (maxlevelcopy n) o in finish n.
Definition after_descent n (o : tableint) : eff hnsw tableint :=
  let* e := eff_lift (λ s, isMarkedDeleted s (enterpoint_copy n)) in
  insert_below n e (Z.to_nat (Z.min (curlevel n) (maxlevelcopy n) + 1)) o.
Definition after_search n (e : bool) (l : Z) (v : lstate D) : eff hnsw tableint :=
  let* top := search_end fstdistfunc_ q (enterpoint_copy n) e v in
  let* next := mutuallyConnectNewElement fstdistfunc_ (cur_c n) top l false in
  insert_below n e (Z.to_nat l) next.
Definition after_init n (o : tableint) : eff hnsw tableint :=
  if o =? 4294967295 then let* _ := eff_mod (set_entry 0 (curlevel n)) in finish n
  else
    let* o' :=
      (if (curlevel n <? maxlevelcopy n)%Z then
         let* x := eff_lift (λ s, getDataByInternalId s o) in
         let* '(o', _) := greedy_levels (Z.to_nat (maxlevelcopy n - curlevel n)) (curlevel n) q o (fstdistfunc_ q x) in
         eff_ret o'
       else eff_ret o) in
    after_descent n o'.
Definition after_draw (i : tableint) (lv maxl : Z) : eff hnsw tableint :=
  let* ep := eff_get enterpoint_node_ in
  let n := mkIns i lv maxl ep in
  let* _ := init_element i q label lv in after_init n ep.
Definition after_lookup (i : tableint) : eff hnsw tableint :=
  let* lv := draw_level i in let* maxl := eff_get maxlevel_ in after_draw i lv maxl.
(** The descent from level [l] on. *)
Definition descend n (l : Z) (o : tableint) (d : D) : eff hnsw tableint :=
  let* '(o', _) := greedy_levels (Z.to_nat (l - curlevel n)) (curlevel n) q o d in after_descent n o'.

(** [f] is the fuel left in the loop the thread is in. *)
Definition resume (f : nat) p : eff hnsw tableint :=
  match p with
  | LockLabel | LockLookup | Lookup => addPointLevel fstdistfunc_ q label (-1)
  | LockElement i | DrawLevel i => after_lookup i
  | LockGlobal i lv | ReadMaxlevel i lv => let* maxl := eff_get maxlevel_ in after_draw i lv maxl
  | ReadEntry i lv maxl => after_draw i lv maxl
  | ReadEntryCopy i lv maxl o =>
      let* ep := eff_get enterpoint_node_ in
      let* _ := init_element i q label lv in after_init (mkIns i lv maxl ep) o
  | InitElement n o => let* _ := init_element (cur_c n) q label (curlevel n) in after_init n o
  | StartDescent n o => after_init n o
  | FirstEntry n => let* _ := eff_mod (set_entry 0 (curlevel n)) in finish n
  | GreedyLock n l o d | GreedyRead n l o d =>
      let* '(o', d') := greedy_while f q l o d in descend n (l - 1) o' d'
  | ReadEpDeleted n o => after_descent n o
  | SearchInit n e l o => insert_below n e (S (Z.to_nat l)) o
  | SearchLoop n e l v =>
      let* v' := eff_lift (λ s, sbl_while fstdistfunc_ f s q l v) in after_search n e l v'
  | SearchRead n e l x v =>
      let* v' := search_expand fstdistfunc_ q l x v in
      let* v'' := eff_lift (λ s, sbl_while fstdistfunc_ f s q l v') in after_search n e l v''
  | Select n e l top =>
      let* next := mutuallyConnectNewElement fstdistfunc_ (cur_c n) top l false in
      insert_below n e (Z.to_nat l) next
  | ConnectLock n e l nb rest next | ConnectBack n e l nb rest next =>
      let* _ := connect_all (cur_c n) l false (nb :: rest) in insert_below n e (Z.to_nat l) next
  | SetEntry n => finish n
  | UnlockGlobal n | UnlockElement n => eff_ret (cur_c n)
  | UnlockLabel i | Done i => eff_ret i
  | Existing _ => eff_undef "existing label"
  | Thrown e => eff_throw e
  | Stuck w => eff_undef w
  end.

(** ** A step leaves the rest as it is *)
Lemma eff_ext {A B} (m : eff hnsw A) (f g : A → eff hnsw B) s :
  (∀ s1 a, m s = (s1, Ok a) → f a s1 = g a s1) → eff_bind m f s = eff_bind m g s.
Proof. intros H. unfold eff_bind. destruct (m s) as [s1 []]; try done. by apply H. Qed.
Lemma eff_assoc {A B C} (m : eff hnsw A) (f : A → eff hnsw B) (g : B → eff hnsw C) s :
  eff_bind (eff_bind m f) g s = eff_bind m (λ a, eff_bind (f a) g) s.
Proof. unfold eff_bind. by destruct (m s) as [s1 []]. Qed.

Lemma resume_descend n l o d s : descend n l o d s = resume (search_fuel s) (greedy_next n l o d) s.
Proof.
  unfold descend, greedy_next. destruct (Z.ltb_spec (curlevel n) l) as [Hlt|Hge].
  - replace (Z.to_nat (l - curlevel n)) with (S (Z.to_nat (l - 1 - curlevel n))) by lia. cbn [HnswSearch.greedy_levels resume].
    replace (curlevel n + Z.of_nat (S (Z.to_nat (l - 1 - curlevel n))))%Z with l by lia.
    rewrite eff_assoc. unfold eff_bind at 1, eff_get. rewrite eff_assoc. apply eff_ext. by intros s1 [o' d'] _.
  - by replace (Z.to_nat (l - curlevel n)) with 0%nat by lia.
Qed.
Lemma resume_connect n e l sel next s :
  eff_bind (connect_all (cur_c n) l false sel) (λ _, insert_below n e (Z.to_nat l) next) s =
  resume 0 (connect_next n e l sel next) s.
Proof.
  unfold connect_next. destruct sel as [|nb rest]; [|done]. destruct (Z.leb_spec l 0).
  - by replace (Z.to_nat l) with 0%nat by lia.
  - cbn [resume]. by replace (S (Z.to_nat (l - 1))) with (Z.to_nat l) by lia.
Qed.
Lemma resume_select n e l top s :
  resume 0 (Select n e l top) s =
  eff_bind (select_links fstdistfunc_ (cur_c n) top l) (λ '(sel, next), resume 0 (connect_next n e l sel next)) s.
Proof.
  cbn [resume]. unfold mutuallyConnectNewElement, select_links. rewrite !eff_assoc. apply eff_ext. intros s1 M _.
  rewrite !eff_assoc. apply eff_ext. intros s2 top' _. destruct (M <? pq_size top'); [done|].
  rewrite !eff_assoc. apply eff_ext. intros s3 next _. rewrite !eff_assoc. apply eff_ext. intros s4 ll _.
  rewrite andb_true_r. destruct (negb (ll_word ll =? 0)); [done|]. rewrite !eff_assoc. apply eff_ext. intros s5 [] _.
  rewrite !eff_assoc. apply eff_ext. intros s6 [] _. rewrite eff_assoc. apply resume_connect.
Qed.
Lemma resume_init n e l o s : (0 ≤ l)%Z →
  resume 0 (SearchInit n e l o) s =
  eff_bind (search_begin fstdistfunc_ q (maxlevelcopy n) l o) (λ v s1, resume (search_fuel s1) (SearchLoop n e l v) s1) s.
Proof.
  intros Hl. cbn [resume]. unfold insert_below. cbn [HnswInsert.insert_levels]. unfold insert_level, search_begin.
  rewrite Z2Nat.id by done. destruct (_ || _); [done|]. unfold searchBaseLayer. rewrite !eff_assoc.
  apply eff_ext. intros s1 vl _. unfold after_search, search_end, insert_below, eff_bind, eff_lift, eff_get, eff_ret.
  destruct (sbl_init fstdistfunc_ s1 q o vl) as [v| | |]; cbn [res_bind]; [|done..].
  destruct (sbl_while _ _ _ _ _ _) as [v'| | |]; [|done..]. cbn [give_visited eff_mod].
  by destruct (getDataByInternalId _ _).
Qed.
Lemma resume_start n o s :
  resume 0 (StartDescent n o) s =
  (if o =? 4294967295 then resume 0 (FirstEntry n)
   else if (curlevel n <? maxlevelcopy n)%Z
   then eff_bind (eff_lift (λ s, getDataByInternalId s o))
          (λ x s1, resume (search_fuel s1) (greedy_next n (maxlevelcopy n) o (fstdistfunc_ q x)) s1)
   else resume 0 (ReadEpDeleted n o)) s.
Proof.
  cbn [resume]. unfold after_init. destruct (o =? 4294967295); [done|]. destruct (curlevel n <? maxlevelcopy n)%Z; [|done].
  rewrite !eff_assoc. apply eff_ext. intros s1 x _. rewrite <- resume_descend. unfold descend. rewrite eff_assoc.
  apply eff_ext. by intros s2 [o' d'] _.
Qed.
Lemma resume_greedy f n l o d s :
  resume (S f) (GreedyRead n l o d) s =
  eff_bind (greedy_round fstdistfunc_ q l o d) (λ x s1, let '(o', d', changed) := x in
    if (changed : bool) then resume f (GreedyLock n l o' d') s1
    else resume (search_fuel s1) (greedy_next n (l - 1) o' d') s1) s.
Proof.
  cbn [resume HnswSearch.greedy_while]. unfold greedy_round. rewrite !eff_assoc. apply eff_ext. intros s1 data _.
  rewrite !eff_assoc. unfold eff_bind at 1, eff_mod. rewrite !eff_assoc. apply eff_ext. intros s2 datal _.
  rewrite !eff_assoc. apply eff_ext. intros s3 [[o' d'] ch] _. destruct ch; [done|]. apply resume_descend.
Qed.
Lemma resume_lookup s : label_lookup_ s !! label = None →
  resume 0 Lookup s = eff_bind (lookup_label label)
    (λ x, resume 0 (match x with inl i => Existing i | inr i => LockElement i end)) s.
Proof.
  intros Hl. cbn [resume]. unfold addPointLevel, lookup_label. rewrite eff_assoc.
  assert (eff_get (λ s, label_lookup_ s !! label) s = (s, Ok None)) as Hg by (unfold eff_get; by rewrite Hl).
  rewrite !(eff_bind_ok _ _ s s None Hg). clear Hg Hl.
  rewrite !eff_assoc. apply eff_ext. intros s1 full _. destruct full; [done|].
  rewrite !eff_assoc. apply eff_ext. intros s2 i _. rewrite !eff_assoc. apply eff_ext. intros s3 [] _.
  rewrite !eff_assoc. apply eff_ext. intros s4 [] _. change (eff_bind (eff_ret (inr i)) _ s4) with (after_lookup i s4).
  unfold after_lookup, draw_level. rewrite eff_assoc. apply eff_ext. intros s5 lv _. change (0 <? -1)%Z with false. cbv iota.
  rewrite eff_assoc. apply eff_ext. intros s6 old _. rewrite eff_assoc. apply eff_ext. intros s7 [] _.
  change (eff_bind (eff_ret lv) ?f s7) with (f lv s7). apply eff_ext. intros s8 maxl _.
  unfold after_draw. apply eff_ext. intros s9 ep _. apply eff_ext. intros s10 [] _. unfold after_init.
  rewrite if_negb. destruct (ep =? 4294967295); [done|]. unfold connect_new. rewrite eff_assoc.
  apply eff_ext. intros s11 o _. unfold after_descent. rewrite eff_assoc. by apply eff_ext.
Qed.

(** ** The simulation *)
Section sim.
Context (s0 : hnsw) (R : hnsw * res tableint) (HR : R.2 ≠ Fuel).
Hypothesis Hfresh : label_lookup_ s0 !! label = None.

Definition early p : bool := match p with LockLabel | LockLookup | Lookup => true | _ => false end.
Definition sim c : Prop :=
  ∃ p f, pcs c = [p] ∧ resume f p (shared c) = R ∧ (early p = true → shared c = s0).

Lemma perform_sim {A} (m : eff hnsw A) rel k (g : A → hnsw → nat) c p :
  pcs c = [p] → (∀ a, early (k a) = false) → eff_bind m (λ a s1, resume (g a s1) (k a) s1) (shared c) = R →
  sim (perform 0 m rel k c).
Proof using HR.
  intros Hp He Hrun. unfold perform, eff_bind in *.
  destruct (m (shared c)) as [s1 [a|e|w|]]; rewrite Hp; simpl; unfold sim; simpl.
  - exists (k a), (g a s1). split_and!; [done|done|]. by rewrite He.
  - by exists (Thrown e), 0%nat.
  - by exists (Stuck w), 0%nat.
  - by rewrite <- Hrun in HR.
Qed.
Lemma acquire_sim m p p' f c c' : pcs c = [p] → acquire 0 m p' c = Some c' → resume f p' (shared c) = R →
  (early p' = true → shared c = s0) → sim c'.
Proof.
  intros Hp Ha Hr He. unfold acquire in Ha. destruct (locks c !! m); [done|]. injection Ha as <-.
  exists p', f. rewrite Hp. done.
Qed.
Lemma while_next f n e l v x v' s : search_next (ef_construction_ (cfg s)) v = Some (x, v') →
  resume (S f) (SearchLoop n e l v) s = resume f (SearchRead n e l x v') s.
Proof.
  intros Hn. cbn [resume sbl_while]. unfold search_next in Hn. unfold eff_bind at 1, eff_lift at 1.
  destruct (pq_top (candidateSet v)) as [[d y]|]; [|done]. destruct (_ && _); [done|]. injection Hn as -> <-.
  unfold search_expand, eff_bind, eff_lift. destruct (get_linklist_at_level s x l); cbn [res_bind]; [|done..].
  destruct (links_of _); cbn [res_bind]; [|done..]. by destruct (sbl_for _ _ _ _ _).
Qed.
Lemma while_end f n e l v s : search_next (ef_construction_ (cfg s)) v = None →
  resume (S f) (SearchLoop n e l v) s = after_search n e l v s.
Proof.
  intros Hn. cbn [resume sbl_while]. unfold search_next in Hn. unfold eff_bind at 1, eff_lift at 1.
  destruct (pq_top (candidateSet v)) as [[d y]|]; [|done]. by destruct (_ && _).
Qed.

Lemma step_sim c c' : inv fstdistfunc_ [(q, label)] s0 c → sim c → step fstdistfunc_ [(q, label)] c c' → sim c'.
Proof using HR Hfresh.
  intros Hinv (p & f & Hp & Hres & He) [t Hs]. unfold thread_step in Hs. rewrite Hp in Hs.
  destruct t as [|t]; [|by destruct t]. cbn in Hs.
  pose proof (in_pc _ _ _ _ Hinv 0 q label p eq_refl ltac:(by rewrite Hp)) as Hok.
  destruct p; simpl in Hs; try done;
    try (eapply (acquire_sim _ _ _ f); [exact Hp|exact Hs|exact Hres|by (simpl in *; auto)]);
    try (injection Hs as <-; eapply (perform_sim _ _ _ (λ _ _, 0%nat)); [exact Hp|done|exact Hres]).
  - injection Hs as <-. rewrite (He eq_refl) in Hres. eapply (perform_sim _ _ _ (λ _ _, 0%nat)); [exact Hp|by intros []|].
    rewrite (He eq_refl), <- Hres. symmetry. by apply resume_lookup.
  - injection Hs as <-. change (resume 0 (StartDescent n currObj) (shared c) = R) in Hres. rewrite resume_start in Hres.
    destruct (currObj =? 4294967295); [|destruct (curlevel n <? maxlevelcopy n)%Z];
      [eapply (perform_sim _ _ _ (λ _ _, 0%nat))|eapply (perform_sim _ _ _ (λ _ s1, search_fuel s1))|eapply (perform_sim _ _ _ (λ _ _, 0%nat))];
      try exact Hp; try exact Hres; try done. intros x. unfold greedy_next. by case_match.
  - injection Hs as <-. destruct f as [|f]; [by rewrite <- Hres in HR|]. rewrite resume_greedy in Hres.
    eapply (perform_sim _ _ _ (λ '(_, _, changed) s1, if (changed : bool) then f else search_fuel s1)); [exact Hp| |].
    + intros [[o' d'] []]; [done|]. unfold greedy_next. by case_match.
    + rewrite <- Hres. apply eff_ext. by intros s1 [[o' d'] []] _.
  - injection Hs as <-. destruct Hok as (((H0 & _) & _ & Hm & _) & _).
    eapply (perform_sim _ _ _ (λ _ _, 0%nat)); [exact Hp|done|]. rewrite <- Hres. cbn [resume]. unfold after_descent.
    by replace (Z.to_nat (Z.min (curlevel n) (maxlevelcopy n) + 1)) with (S (Z.to_nat (Z.min (curlevel n) (maxlevelcopy n)))) by lia.
  - injection Hs as <-. destruct Hok as (_ & [_ Hl] & _).
    eapply (perform_sim _ _ _ (λ _ s1, search_fuel s1)); [exact Hp|done|]. rewrite <- Hres. symmetry. apply resume_init. lia.
  - destruct f as [|f]; [by rewrite <- Hres in HR|]. destruct (search_next _ v) as [[x v']|] eqn:Hn.
    + rewrite (while_next f n epDeleted level v x v' (shared c) Hn) in Hres.
      eapply (acquire_sim _ _ _ f); [exact Hp|exact Hs|exact Hres|done].
    + injection Hs as <-. rewrite while_end in Hres by done.
      eapply (perform_sim _ _ _ (λ _ _, 0%nat)); [exact Hp|done|exact Hres].
  - injection Hs as <-. eapply (perform_sim _ _ _ (λ _ _, f)); [exact Hp|done|exact Hres].
  - injection Hs as <-. change (resume 0 (Select n epDeleted level top) (shared c) = R) in Hres. rewrite resume_select in Hres.
    eapply (perform_sim _ _ _ (λ _ _, 0%nat)); [exact Hp| |].
    + intros [sel next]. unfold connect_next. by repeat case_match.
    + rewrite <- Hres. apply eff_ext. by intros s1 [sel next] _.
  - injection Hs as <-. eapply (perform_sim _ _ _ (λ _ _, 0%nat)); [exact Hp| |].
    + intros _. unfold connect_next. by repeat case_match.
    + rewrite <- Hres. cbn [resume HnswInsert.connect_all]. rewrite eff_assoc. apply eff_ext. intros s1 _ _. symmetry. apply resume_connect.
Qed.
Lemma runs_sim c c' : inv fstdistfunc_ [(q, label)] s0 c → sim c → rtc (step fstdistfunc_ [(q, label)]) c c' →
  (∀ a b, inv fstdistfunc_ [(q, label)] s0 a → step fstdistfunc_ [(q, label)] a b → inv fstdistfunc_ [(q, label)] s0 b) → sim c'.
Proof using HR Hfresh.
  intros Hinv Hsim Hr Hstep. revert Hinv Hsim. induction Hr as [c|c d c' Hs _ IH]; intros Hinv Hsim; [done|].
  apply IH; [by eapply Hstep|by eapply step_sim].
Qed.
End sim.

(** C13. A single call, run step by step with its mutexes, leaves the index as
    [addPoint] without threads does and ends the same way: it returns, or it
    throws the same exception. *)
Theorem addPoint_alone s0 c :
  insertable s0 [(q, label)] → (∀ M g, 2 ≤ M → (random_level (inv_log M) g).1 ≠ None) →
  rtc (step fstdistfunc_ [(q, label)]) (threads_start [(q, label)] s0) c → joined c →
  ∃ p r, pcs c = [p] ∧ outcome p = Some r ∧ addPoint fstdistfunc_ q label false s0 = (shared c, r).
Proof using HO.
  intros Hia Htotal Hr Hj. pose proof Hia as [I1 I2 I3 I4 I5 I6].
  assert (label_lookup_ s0 !! label = None) as Hf by (apply I5; left).
  destruct (sim_addLevel fstdistfunc_ Htotal s0 q label) as (s' & Hrun & _).
  { by apply implements_refl. }
  { eapply I6. left. }
  { intros _. by apply items_live. }
  rewrite addPoint_unfold in Hrun |- *.
  destruct (runs_sim s0 (addPointLevel fstdistfunc_ q label (-1) s0)) with (threads_start (D:=D) [(q, label)] s0) c
    as (p & f & Hp & Hres & _); try done.
  - intros HF. unfold eff_bind in Hrun. destruct (addPointLevel _ _ _ _ s0) as [s1 []]; try done.
    injection Hrun as _ Hrun. unfold spec_add in Hrun. by repeat case_match.
  - by apply inv_start.
  - by exists LockLabel, 0%nat.
  - intros a b Ha [t Hs]. by eapply thread_step_inv.
  - unfold joined in Hj. rewrite Hp in Hj. apply Forall_cons in Hj as [Hj _]. exists p. unfold eff_bind. rewrite <- Hres.
    destruct p; try done; eexists; (split_and!; [exact Hp|reflexivity|reflexivity]).
Qed.
End alone.
