(* ===== verification/InsertThreadsTheorems.v ===== *)
(** * Concurrent insertions: what every state satisfies, races, examples

    No thread runs into undefined behaviour of the model, links lead to
    elements that are written, and the mutexes exclude conflicting accesses to
    links, elements and the top level.  Two accesses are not excluded: those to
    [level_generator_] and the reads of [enterpoint_node_] after [templock] is
    released.  Then the runs of an example. *)

From Stdlib Require Import ZArith Lia.
From stdpp Require Import base numbers list gmap strings relations.
From S2P Require Import Prelude Heap VisitedList Arith SpaceL2 BeamSearch Hnsw HnswSearch HnswInsert HnswWf.
From S2P Require Import HnswSearchLaws HnswKnn HeuristicLaws HnswConnectLaws HnswAddLaws HnswIndexLaws HnswSpec.
From S2P Require Import InsertThreads PendingElements InsertThreadsInv InsertThreadsSteps InsertThreadsMoves InsertThreadsLaws.
From S2P Require Import InsertThreadsSpec InsertThreadsAlone.
#[local] Open Scope N_scope.

(** ** The memory that the next step of a thread uses *)
Inductive location :=
| label_table
| element_memory (id : tableint)
| maxlevel_variable
| enterpoint_variable
| level_generator_state.
(** The location, and whether it is written.  The vector, the level and the
    delete mark of an element that links lead to do not change. *)
Definition accesses {D} (p : pc D) : list (location * bool) :=
  match p with
  | Lookup => [(label_table, true)]
  | DrawLevel _ => [(level_generator_state, true)]
  | ReadMaxlevel _ _ => [(maxlevel_variable, false)]
  | ReadEntry _ _ _ | ReadEntryCopy _ _ _ _ => [(enterpoint_variable, false)]
  | InitElement n _ => [(element_memory (cur_c n), true)]
  | FirstEntry _ => [(maxlevel_variable, true); (enterpoint_variable, true)]
  | GreedyRead _ _ o _ => [(element_memory o, false)]
  | SearchRead _ _ _ x _ => [(element_memory x, false)]
  | Select n _ _ _ => [(element_memory (cur_c n), true)]
  | ConnectBack _ _ _ nb _ _ => [(element_memory nb, true)]
  | SetEntry n =>
      if keeps_global n then [(maxlevel_variable, true); (enterpoint_variable, true)] else []
  | _ => []
  end.
(** Two threads are about to use the same location, and one writes it. *)
Definition races {D} `{RandomEngine} (c : conf D) (x : location) : Prop :=
  ∃ t u p r w, t ≠ u ∧ pcs c !! t = Some p ∧ pcs c !! u = Some r ∧ (x, true) ∈ accesses p ∧ (x, w) ∈ accesses r.

Section safety.
Context `{RE : RandomEngine} `{HI : HeapImpl} `{AL : Alloc} {D : Type} `{HD : DistT D} `{HO : !DistOrder D}.
Variable fstdistfunc_ : point → point → D.
Variable jobs : list (point * labeltype).
Variable s0 : hnsw.
Hypothesis Hia : insertable s0 jobs.
Hypothesis level_total : ∀ M g, 2 ≤ M → (random_level (inv_log M) g).1 ≠ None.
Implicit Types (c : conf D) (p : pc D).
#[local] Abbreviation step := (step fstdistfunc_ jobs).

(** The mutex that guards a location. *)
Definition guard (x : location) : option mutex :=
  match x with
  | label_table => Some label_lookup_lock
  | element_memory i => Some (link_list_lock i)
  | maxlevel_variable => Some global
  | _ => None
  end.
Lemma access_guarded c t q label p x w m : inv fstdistfunc_ jobs s0 c → jobs !! t = Some (q, label) →
  pcs c !! t = Some p → (x, w) ∈ accesses p → guard x = Some m → m ∈ held label p.
Proof.
  intros Hinv Hj Hp Ha Hm. pose proof (in_pc _ _ _ _ Hinv t q label p Hj Hp) as Hok.
  assert (∀ lab i k, link_list_lock i ∈ held_el lab i k) as Hown.
  { intros lab i k. unfold held_el. apply elem_of_app. right. left. }
  destruct p; simpl in Ha; try (by apply elem_of_nil in Ha).
  - apply list_elem_of_singleton in Ha as [= -> ->]. injection Hm as <-. left.
  - apply list_elem_of_singleton in Ha as [= -> ->]. done.
  - apply list_elem_of_singleton in Ha as [= -> ->]. injection Hm as <-. left.
  - apply list_elem_of_singleton in Ha as [= -> ->]. done.
  - apply list_elem_of_singleton in Ha as [= -> ->]. done.
  - apply list_elem_of_singleton in Ha as [= -> ->]. injection Hm as <-. apply Hown.
  - destruct Hok as (_ & (? & ? & _) & Hz). simpl. unfold held_el, keeps_global. rewrite (proj2 (Z.ltb_lt _ _)) by lia.
    apply elem_of_cons in Ha as [[= -> ->]|[= -> ->]%list_elem_of_singleton]; [injection Hm as <-; left|done].
  - apply list_elem_of_singleton in Ha as [= -> ->]. injection Hm as <-. left.
  - apply list_elem_of_singleton in Ha as [= -> ->]. injection Hm as <-. left.
  - apply list_elem_of_singleton in Ha as [= -> ->]. injection Hm as <-. apply Hown.
  - apply list_elem_of_singleton in Ha as [= -> ->]. injection Hm as <-. left.
  - destruct (keeps_global n) eqn:Hk; [|by apply elem_of_nil in Ha]. simpl. rewrite Hk.
    apply elem_of_cons in Ha as [[= -> ->]|[= -> ->]%list_elem_of_singleton]; [injection Hm as <-; left|done].
Qed.
Lemma guarded_no_race c x m : inv fstdistfunc_ jobs s0 c → guard x = Some m → ¬ races c x.
Proof.
  intros Hinv Hm (t & u & p & r & w & Hne & Hp & Hr & Ha & Ha'). apply Hne.
  destruct (job_of fstdistfunc_ jobs s0 c t p Hinv Hp) as (q & label & Hj).
  destruct (job_of fstdistfunc_ jobs s0 c u r Hinv Hr) as (q' & lab' & Hj').
  apply (locks_excl jobs c m); [apply Hinv|rewrite (heldat_eq jobs c t q label p)|rewrite (heldat_eq jobs c u q' lab' r)]; try done;
    by eapply access_guarded.
Qed.
Lemma link_target c i j l : inv fstdistfunc_ jobs s0 c → (0 ≤ l)%Z → at_level (whole c) i l → i ∉ pend (pcs c) →
  j ∈ nbs_at (shared c) l i →
  j < cur_element_count (shared c) ∧ (∃ lv, get_level (shared c) j = Ok lv ∧ (l ≤ lv)%Z) ∧
  ∃ d, getDataByInternalId (shared c) j = Ok d ∧ length d = N.to_nat (data_size_ (cfg s0)).
Proof.
  intros Hinv Hl Hat Hn Hin. pose proof (in_graph _ _ _ _ Hinv) as Hg.
  destruct (complete_total _ (shared c) i Hn) as (_ & _ & _ & Hnb). rewrite <- Hnb in Hin.
  destruct (nbs_at_level (whole c) i j l Hg Hl Hat Hin) as [Hj _].
  assert (j ∉ pend (pcs c)) as Hjn by (eapply (reached_pend c l); split; [done|]; exact (in_links _ _ _ _ Hinv i j l Hl Hat Hin)).
  destruct (complete_reads _ (shared c) j Hjn) as (E1 & _ & _ & E2). rewrite <- E1, <- E2.
  destruct Hj as (Hlt & lv & Hlv & Hle). split; [done|]. split.
  - exists lv. split; [|done]. unfold get_level. unfold level_of in Hlv. unfold whole in Hlv. by rewrite Hlv.
  - destruct (go_node _ Hg j Hlt) as (e & lv' & Hno). pose proof (ok_get_el _ _ _ _ Hg Hlt Hno) as He.
    exists (el_data e). unfold getDataByInternalId. change (complete _ _) with (whole c). rewrite He. split; [done|].
    rewrite (no_size _ _ _ _ Hno). simpl. by rewrite (in_cfg _ _ _ _ Hinv).
Qed.

(** C12. At every point of every run of concurrent insertions: no thread has run
    into undefined behaviour, an exception is the one for a full index, every
    link of an element that is written leads to an element that is written and
    present on that level, and no two threads are about to access the table of
    labels, the memory of one element or [maxlevel_] where one of them writes. *)
Theorem concurrent_inserts_safe c :
  rtc step (threads_start jobs s0) c →
  (∀ t p, pcs c !! t = Some p → (∀ why, p ≠ Stuck why) ∧
     ∀ e, p = Thrown e → e = limit_message ∧ cur_element_count (shared c) = max_elements_ (cfg s0)) ∧
  (∀ i j l, (0 ≤ l)%Z → at_level (whole c) i l → i ∉ pend (pcs c) → j ∈ nbs_at (shared c) l i →
     j < cur_element_count (shared c) ∧ (∃ lv, get_level (shared c) j = Ok lv ∧ (l ≤ lv)%Z) ∧
     ∃ d, getDataByInternalId (shared c) j = Ok d ∧ length d = N.to_nat (data_size_ (cfg s0))) ∧
  ¬ races c label_table ∧ (∀ i, ¬ races c (element_memory i)) ∧ ¬ races c maxlevel_variable.
Proof using Hia level_total HO.
  intros Hr. pose proof (inv_reachable fstdistfunc_ jobs s0 Hia level_total c Hr) as Hinv. split_and!.
  - intros t p Hp. destruct (job_of fstdistfunc_ jobs s0 c t p Hinv Hp) as (q & label & Hj).
    pose proof (in_pc _ _ _ _ Hinv t q label p Hj Hp) as Hok. split.
    + intros why ->. done.
    + intros e ->. destruct Hok as [-> Hc]. by rewrite <- (in_cfg _ _ _ _ Hinv).
  - intros i j l. by apply link_target.
  - by eapply guarded_no_race.
  - intros i. by eapply guarded_no_race.
  - by eapply guarded_no_race.
Qed.
End safety.

(** ** An example *)
Definition demo_dist2 (a b : point) : Z := default 0%Z (L2SqrI a b 2).
Definition jobs3 : list (point * labeltype) := [([0; 100], 11); ([100; 100], 12); ([100; 104], 13)].
(** An empty index with room for [n] elements; the levels drawn are 0, 0, 1. *)
Definition small_index (n : N) : hnsw := set_gens [0; 0; 1] [] (HierarchicalNSW_new 2 n 2 10 0 false).
Definition small_start (n : N) : conf Z := threads_start jobs3 (small_index n).

Lemma small_insertable n : n ≤ 2147483648 → insertable (small_index n) jobs3.
Proof.
  intros Hn. split; try done.
  - apply (frame_index (HierarchicalNSW_new 2 n 2 10 0 false)); [done| |by apply new_index_ok].
    apply quiet_gens. by apply new_index_ok.
  - simpl. lia.
  - apply (bool_decide_unpack _). vm_compute. done.
  - intros q label Hin. repeat (apply elem_of_cons in Hin as [[= -> ->]|Hin]; [simpl; lia|]). by apply elem_of_nil in Hin.
Qed.
Lemma scripted_total M g : 2 ≤ M → (random_level (RandomEngine:=scripted_engine) (inv_log M) g).1 ≠ None.
Proof. intros _. by destruct g. Qed.

(** Let the threads take turns, skipping those that wait. *)
Fixpoint round_robin (jobs : list (point * labeltype)) (fuel k : nat) (c : conf Z) : conf Z :=
  match fuel with
  | O => c
  | S fuel =>
      match thread_step demo_dist2 jobs (k mod length jobs) c with
      | Some c' => round_robin jobs fuel (S k) c'
      | None => round_robin jobs fuel (S k) c
      end
  end.
Lemma round_robin_run jobs fuel k c : rtc (step demo_dist2 jobs) c (round_robin jobs fuel k c).
Proof.
  revert k c. induction fuel as [|fuel IH]; intros k c; [done|]. cbn [round_robin].
  destruct (thread_step demo_dist2 jobs (k mod length jobs) c) as [c'|] eqn:Hs; [|apply IH].
  eapply rtc_l; [by exists (k mod length jobs)%nat|apply IH].
Qed.

(** After 50 turns thread 0 has returned, thread 1 expands a candidate and thread 2 is about to search. *)
Lemma concurrent_inserts_end_witness :
  sn (step demo_dist2 jobs3) (round_robin jobs3 50 0 (small_start 8)) ∧
  (joined (round_robin jobs3 50 0 (small_start 8)) ∨ ∃ c', step demo_dist2 jobs3 (round_robin jobs3 50 0 (small_start 8)) c').
Proof.
  apply (concurrent_inserts_end demo_dist2 jobs3 (small_index 8) (small_insertable 8 ltac:(done)) scripted_total).
  apply round_robin_run.
Defined.

(** With room for two elements one of the three calls throws. *)
Lemma concurrent_inserts_refine_witness :
  let c := round_robin jobs3 300 0 (small_start 2) in
  (pcs c ≫= λ p, option_list (outcome p)) = [Ok tt; Ok tt; Throw limit_message] ∧
  ∃ order σ rs, order ≡ₚ seq 0 3 ∧ spec_adds (abstraction (small_index 2)) (jobs_of jobs3 order) = (σ, rs) ∧
    implements (shared c) σ ∧ (λ t, pcs c !! t ≫= outcome) <$> order = Some <$> rs.
Proof.
  split; [vm_compute; reflexivity|].
  apply (concurrent_inserts_refine demo_dist2 jobs3 (small_index 2) (small_insertable 2 ltac:(done)) scripted_total).
  - apply round_robin_run.
  - apply (bool_decide_unpack _). vm_compute. done.
Defined.

Lemma concurrent_inserts_safe_witness :
  let c := round_robin jobs3 50 0 (small_start 8) in
  ¬ races c label_table ∧ (∀ i, ¬ races c (element_memory i)) ∧ ¬ races c maxlevel_variable.
Proof.
  exact (proj2 (proj2 (concurrent_inserts_safe demo_dist2 jobs3 (small_index 8) (small_insertable 8 ltac:(done))
    scripted_total _ (round_robin_run jobs3 50 0 (small_start 8))))).
Defined.

(** ** The accesses that no mutex guards *)
Definition after (schedule : list nat) : conf Z :=
  default (small_start 8) (run demo_dist2 jobs3 schedule (small_start 8)).
Lemma after_run schedule : rtc (step demo_dist2 jobs3) (small_start 8) (after schedule).
Proof.
  unfold after. destruct (run demo_dist2 jobs3 schedule (small_start 8)) as [c|] eqn:Hr; [|done]. by eapply run_steps.
Qed.

(** C36. The locks of [addPoint] leave two accesses unprotected: two threads can be
    about to draw from [level_generator_], which changes it, at the same time, and
    a thread that has released [global] can be about to read [enterpoint_node_]
    while another is about to write it. *)
Theorem insert_races :
  ∃ c1 c2, rtc (step demo_dist2 jobs3) (small_start 8) c1 ∧ races c1 level_generator_state ∧
    rtc (step demo_dist2 jobs3) (small_start 8) c2 ∧ races c2 enterpoint_variable.
Proof.
  exists (after (replicate 4 0 ++ replicate 4 1))%nat, (after (replicate 16 0 ++ replicate 7 1 ++ replicate 19 2))%nat.
  split_and!; [apply after_run| |apply after_run|].
  - exists 0%nat, 1%nat, (DrawLevel 0), (DrawLevel 1), true. split_and!; [done|vm_compute; reflexivity..|left|left].
  - exists 2%nat, 1%nat. eexists _, _, false. split_and!; [done|vm_compute; reflexivity..|right; left|left].
Qed.

(** ** One more insertion, alone *)
Definition grown : conf Z := round_robin jobs3 300 0 (small_start 8).
Definition job14 : list (point * labeltype) := [([50; 90], 14)].
Lemma grown_insertable : insertable (shared grown) job14.
Proof.
  assert (joined grown) as Hj by (apply (bool_decide_unpack _); vm_compute; done).
  pose proof (small_insertable 8 ltac:(done)) as Hia.
  pose proof (inv_reachable demo_dist2 jobs3 (small_index 8) Hia scripted_total grown (round_robin_run jobs3 300 0 _)) as Hinv.
  split.
  - by apply (joined_index demo_dist2 jobs3 (small_index 8)).
  - by apply (joined_live demo_dist2 jobs3 (small_index 8)).
  - vm_compute. done.
  - apply (bool_decide_unpack _). vm_compute. done.
  - intros lab ->%list_elem_of_singleton. vm_compute. done.
  - intros q label [= -> ->]%list_elem_of_singleton. vm_compute. lia.
Qed.
Lemma addPoint_alone_witness :
  ∃ p r, pcs (round_robin job14 100 0 (threads_start job14 (shared grown))) = [p] ∧ outcome p = Some r ∧
    addPoint demo_dist2 [50; 90] 14 false (shared grown) =
      (shared (round_robin job14 100 0 (threads_start job14 (shared grown))), r).
Proof.
  apply (addPoint_alone demo_dist2 [50; 90] 14 (shared grown)).
  - apply grown_insertable.
  - apply scripted_total.
  - apply round_robin_run.
  - apply (bool_decide_unpack _). vm_compute. done.
Defined.
