(* ===== verification/Driver.v ===== *)
(** * src/hnsw_search.cpp: the search benchmark

    [main] reads a dataset file, builds an index of its train vectors with
    [create_index] and searches the test vectors with [do_search];
    [calculate_recall] counts how many of the found labels are among the
    neighbours of the file.  Timing is left out; DriverLog has the output.  The theorems
    compose the dataset tools with the index: on a file that [create_dataset]
    wrote the program runs to its end. *)

From Stdlib Require Import ZArith Lia.
From stdpp Require Import base numbers list gmap strings sorting.
From S2P Require Import Prelude Heap VisitedList Binary Arith Bruteforce BrutePersist Dataset Args Tools ToolsLaws.
From S2P Require Import BeamSearch Hnsw HnswSearch HnswInsert HnswWf HnswAddLaws HnswIndexLaws HnswSpec.
#[local] Open Scope Z_scope.

Section driver.
Context `{RM : RawMemory} `{RE : RandomEngine} `{HI : HeapImpl} `{AL : Alloc} `{HS : HashOrder}.
Context {D : Type} `{HD : DistT D}.
Variable l2_dist : N → point → point → D.

Fixpoint add_points (n : nat) (i : Z) (data : list N) (dim : Z) : eff hnsw unit :=
  match n with
  | O => eff_ret tt
  | S n =>
      let* _ := addPoint (l2_dist (to_size_t dim)) (float_ptr data (i * dim)) (to_size_t i) false in
      add_points n (i + 1) data dim
  end.
(** The default seed is 100 and deleted elements are not replaced. *)
Definition create_index (dim train_elements M ef_construction : Z) (data : list N) : hnsw * res unit :=
  add_points (Z.to_nat train_elements) 0 data dim
    (HierarchicalNSW_new (l2_data_size dim) (to_size_t train_elements) (to_size_t M) (to_size_t ef_construction) 100 false).

Fixpoint search_rows (n : nat) (i : Z) (data : list N) (dim topk : Z) : eff hnsw unit :=
  match n with
  | O => eff_ret tt
  | S n =>
      let* _ := searchKnn (l2_dist (to_size_t dim)) (float_ptr data (i * dim)) (to_size_t topk) None in
      search_rows n (i + 1) data dim topk
  end.
Definition do_search (data : list N) (query_elements dim topk : Z) : eff hnsw unit :=
  search_rows (Z.to_nat query_elements) 0 data dim topk.

(** The expected labels of query [i]; [None] is a null [neighbors]. *)
Definition expected (neighbors : option (list N)) (i topk dataset_topk : Z) : res (list Z) :=
  match neighbors with
  | Some nb => read_labels (Z.to_nat topk) (i * dataset_topk) nb
  | None => if topk =? 1 then Ok [i] else if topk <=? 0 then Ok [] else Throw "exit(1)"
  end.
Fixpoint recall_rows (n : nat) (i : Z) (query_data : list N) (neighbors : option (list N))
    (dim topk dataset_topk total_correct : Z) : eff hnsw Z :=
  match n with
  | O => eff_ret total_correct
  | S n =>
      let* result := searchKnn (l2_dist (to_size_t dim)) (float_ptr query_data (i * dim)) (to_size_t topk) None in
      let* truth := eff_lift (λ _, expected neighbors i topk dataset_topk) in
      recall_rows n (i + 1) query_data neighbors dim topk dataset_topk
        (total_correct + count_found ((pq_drain res_less result).*2) truth)
  end.
(** Correct labels and comparisons; the value the code returns is their [recall]. *)
Definition calculate_recall (query_data : list N) (neighbors : option (list N))
    (num_queries dim topk dataset_topk : Z) : eff hnsw (Z * Z) :=
  let* total_comparisons := eff_lift (λ _, int_mul num_queries topk) in
  let* total_correct := recall_rows (Z.to_nat num_queries) 0 query_data neighbors dim topk dataset_topk 0 in
  eff_ret (total_correct, total_comparisons).

(** [main] after the options are read; the index is returned with the code. *)
Definition hnsw_search (file : option (list N)) (topk M ef_construction : Z) : res (Z * option hnsw) :=
  d <- read_bin file 0 0 0 0 ;;
  if dataset_topk d <? topk then Ok (1, None)
  else
    let '(s, r) := create_index (dim d) (train_elements d) M ef_construction (train_data d) in
    _ <- r ;;
    let '(s, r) := do_search (test_data d) (test_elements d) (dim d) topk s in
    _ <- r ;; Ok (0, Some s).
Definition hnsw_search_main (files : string → option (list N)) (args : list string) : res (Z * option hnsw) :=
  p <- SearchArgs.parse_arguments args (SearchArgs.mkOptions 1 8 200 "./data/random-xs-32-euclidean.bin") ;;
  let '(SearchArgs.mkOptions topk M ef_construction dataset_name, code) := p in
  if code =? 0 then hnsw_search (files dataset_name) topk M ef_construction else Ok (1, None).
End driver.

(** ** The collection of the train vectors *)
Definition row_item (data : list N) (dim : Z) (j : N) : point * bool :=
  (take (Z.to_nat (4 * dim)) (float_ptr data (Z.of_N j * dim)), true).
Fixpoint row_items (n : nat) (data : list N) (dim : Z) : gmap labeltype (point * bool) :=
  match n with
  | O => ∅
  | S n => <[N.of_nat n := row_item data dim (N.of_nat n)]> (row_items n data dim)
  end.
Definition row_spec (cap : N) (n : nat) (data : list N) (dim : Z) : spec :=
  mkSpec cap (Z.to_N (4 * dim)) false (row_items n data dim).

Lemma row_items_lookup n data dim l :
  row_items n data dim !! l = if decide (l < N.of_nat n)%N then Some (row_item data dim l) else None.
Proof.
  induction n as [|n IH]; cbn [row_items]; [rewrite lookup_empty, decide_False by lia; done|].
  destruct (decide (l = N.of_nat n)) as [->|Hne].
  - rewrite lookup_insert_eq, decide_True by lia. done.
  - rewrite lookup_insert_ne, IH by done.
    destruct (decide (l < N.of_nat n)%N), (decide (l < N.of_nat (S n))%N); try done; lia.
Qed.
Lemma row_items_size n data dim : size (row_items n data dim) = n.
Proof.
  induction n as [|n IH]; simpl; [by rewrite map_size_empty|].
  rewrite map_size_insert_None, IH; [done|]. rewrite row_items_lookup, decide_False by lia. done.
Qed.
Lemma row_spec_live cap n data dim : all_items_live (row_spec cap n data dim).
Proof.
  intros l x. simpl. rewrite row_items_lookup. case_decide; [|done]. by intros [= <-].
Qed.
Lemma row_spec_add cap n data dim : (N.of_nat n < cap)%N →
  spec_add (row_spec cap n data dim) (float_ptr data (Z.of_nat n * dim)) (N.of_nat n) =
    (row_spec cap (S n) data dim, Ok tt).
Proof.
  intros Hc. unfold spec_add. cbn [row_spec sp_items sp_cap].
  rewrite row_items_lookup, decide_False, row_items_size by lia.
  rewrite (proj2 (N.leb_gt _ _)) by done. unfold put_item, with_items, row_spec. simpl. do 4 f_equal.
  unfold row_item. rewrite Z_N_nat. by replace (Z.of_N (N.of_nat n)) with (Z.of_nat n) by lia.
Qed.

Section laws.
Context `{RM : RawMemory} `{RE : RandomEngine} `{HI : HeapImpl} `{AL : Alloc} `{HS : HashOrder}.
Context {D : Type} `{HD : DistT D} `{HO : !DistOrder D}.
Variable l2_dist : N → point → point → D.
Hypothesis level_total : ∀ M g, (2 ≤ M)%N → (random_level (inv_log M) g).1 ≠ None.

Lemma add_points_ok data dim cap n : ∀ i s, 0 ≤ dim →
  implements s (row_spec cap i data dim) → (N.of_nat (i + n) ≤ cap)%N → Z.of_nat (i + n) ≤ 2147483647 →
  4 * (Z.of_nat (i + n) * dim) ≤ Z.of_nat (length data) →
  ∃ s', add_points l2_dist n (Z.of_nat i) data dim s = (s', Ok tt) ∧ implements s' (row_spec cap (i + n) data dim).
Proof.
  induction n as [|n IH]; intros i s Hd Hs Hcap Hint Hlen.
  { exists s. rewrite Nat.add_0_r. done. }
  destruct (sim_op (l2_dist (to_size_t dim)) level_total s _
    (OpAdd (float_ptr data (Z.of_nat i * dim)) (to_size_t (Z.of_nat i)) false) Hs) as (s1 & σ1 & x & Hrun & Hs1 & Hst).
  { split; [|intros _; apply row_spec_live]. simpl. unfold float_ptr. rewrite length_drop. nia. }
  assert (to_size_t (Z.of_nat i) = N.of_nat i) as Hi by (rewrite to_size_t_nonneg; lia).
  rewrite Hi in Hrun, Hst. inversion Hst as [q l E1 E2| | | | | | |]; subst; clear Hst.
  rewrite row_spec_add in Hrun, Hs1 by lia. cbn [fst snd] in Hrun, Hs1.
  cbn [add_points]. rewrite Hi. cbn [exec] in Hrun. rewrite (eff_bind_ok _ _ _ _ _ Hrun).
  replace (Z.of_nat i + 1) with (Z.of_nat (S i)) by lia.
  replace (i + S n)%nat with (S i + n)%nat in * by lia. by apply IH.
Qed.

Lemma create_index_ok dim train M efc data : 0 ≤ dim ≤ 2147483647 → 0 ≤ train ≤ 2147483647 →
  2 ≤ M ≤ 2147483647 → Z.of_nat (length data) = 4 * (dim * train) →
  ∃ s, create_index l2_dist dim train M efc data = (s, Ok tt) ∧
    implements s (row_spec (Z.to_N train) (Z.to_nat train) data dim).
Proof.
  intros Hd Hn HM Hlen. unfold create_index, l2_data_size.
  rewrite (to_size_t_nonneg dim), (to_size_t_nonneg train), (to_size_t_nonneg M), N.mod_small by lia.
  replace (Z.to_N dim * 4)%N with (Z.to_N (4 * dim)) by lia.
  apply (add_points_ok data dim (Z.to_N train) (Z.to_nat train) 0); [lia|apply new_implements; lia|lia..].
Qed.

Lemma search_rows_ok σ data dim topk n : 1 ≤ topk ≤ 2147483647 → ∀ i s, implements s σ →
  ∃ s', search_rows l2_dist n i data dim topk s = (s', Ok tt) ∧ implements s' σ.
Proof.
  intros Hk. induction n as [|n IH]; intros i s Hs; [by exists s|].
  destruct (sim_search (l2_dist (to_size_t dim)) s σ (float_ptr data (i * dim)) (to_size_t topk) None Hs)
    as (s1 & r & Hrun & Hs1 & _); [rewrite to_size_t_nonneg by lia; lia|].
  cbn [search_rows]. rewrite (eff_bind_ok _ _ _ _ _ Hrun). by apply IH.
Qed.

(** The expected labels can be read, whatever the rest of the file. *)
Lemma expected_row j K topk (row : list (D * labeltype)) rest pre nb :
  nb = pre ++ label_words (row ++ rest) → Z.of_nat (length pre) = 4 * (j * K) →
  0 ≤ topk ≤ Z.of_nat (length row) → Forall (λ x, x.2 < 16777216)%N row →
  ∃ truth, expected (Some nb) j topk K = Ok truth.
Proof.
  intros -> Hp Hk Hl. exists (Z.of_N <$> (take (Z.to_nat topk) row).*2). unfold expected.
  rewrite <- (take_drop (Z.to_nat topk) row) at 1. rewrite <- app_assoc, label_words_app.
  set (labels := (take (Z.to_nat topk) row).*2).
  assert (label_words (take (Z.to_nat topk) row) = words (float_of_N <$> labels)) as ->.
  { unfold label_words, labels. by rewrite <- list_fmap_compose. }
  replace (Z.to_nat topk) with (length labels) at 1 by (unfold labels; rewrite length_fmap, length_take; lia).
  apply read_labels_ok; [done|]. apply Forall_fmap, (Forall_take _ _ _ Hl).
Qed.
Lemma count_found_bound ls truth : 0 ≤ count_found ls truth ≤ Z.of_nat (length ls).
Proof. unfold count_found. pose proof (length_filter (λ l, l ∈ to_size_t <$> truth) ls). lia. Qed.

Lemma recall_rows_ok σ bfi train test dim K topk m nb : rows_ok bfi train dim m → (m ≤ 16777216)%N →
  1 ≤ topk ≤ K → K ≤ 2147483647 → (Z.to_N K ≤ m)%N →
  ∀ i rows, found l2_dist bfi test dim (Z.to_N K) i rows → ∀ pre total s, implements s σ → 0 ≤ i →
  nb = pre ++ label_words (concat rows) → Z.of_nat (length pre) = 4 * (i * K) →
  ∃ s' c, recall_rows l2_dist (length rows) i test (Some nb) dim topk K total s = (s', Ok (total + c)) ∧
    0 ≤ c ≤ Z.of_nat (length rows) * topk.
Proof.
  intros Hb Hm Hk HK HKm. induction 1 as [i|i r rows Hrun Hlen Hf IH]; intros pre total s Hs Hi Hnb Hpre.
  { exists s, 0. simpl. rewrite Z.add_0_r. split; [done|lia]. }
  set (q := float_ptr test (i * dim)) in *.
  destruct (sim_search (l2_dist (to_size_t dim)) s σ q (to_size_t topk) None Hs)
    as (s1 & r1 & Hrun1 & Hs1 & Hans); [rewrite to_size_t_nonneg by lia; lia|].
  destruct (expected_row i K topk (nearest_first r) (concat rows) pre nb) as [truth Htruth]; [done|done| | |].
  { rewrite nearest_first_length. lia. }
  { apply Forall_forall. intros x Hx. pose proof (query_labels _ _ _ _ _ _ _ _ _ Hb HKm Hrun Hx). lia. }
  pose proof (count_found_bound ((pq_drain res_less r1).*2) truth) as Hc.
  assert (length ((pq_drain res_less r1).*2) = length r1) as Hlr by by rewrite length_fmap, pq_drain_perm.
  rewrite Hlr in Hc. pose proof (an_size _ _ _ _ _ _ Hans) as Hsz.
  rewrite to_size_t_nonneg in Hsz by lia.
  set (c1 := count_found ((pq_drain res_less r1).*2) truth) in *.
  destruct (IH (pre ++ label_words (nearest_first r)) (total + c1) s1) as (s' & c & Hrec & Hc'); [done|lia| | |].
  { rewrite Hnb. cbn [concat]. by rewrite label_words_app, app_assoc. }
  { rewrite length_app, label_words_length, nearest_first_length. lia. }
  exists s', (c1 + c). cbn [length recall_rows]. fold q. rewrite (eff_bind_ok _ _ _ _ _ Hrun1).
  rewrite (eff_bind_lift (λ _, expected (Some nb) i topk K) _ s1 truth Htruth). fold c1. rewrite Hrec.
  split; [by rewrite Z.add_assoc|nia].
Qed.
End laws.

(** ** Theorems *)
Section programs.
Context `{RM : RawMemory} `{RG : DataRng} `{RE : RandomEngine} `{HI : HeapImpl} `{AL : Alloc} `{HS : HashOrder}.
Context {D : Type} `{HD : DistT D} `{HO : !DistOrder D}.
Variable l2_dist : N → point → point → D.
Variable dist_bits : D → N.

(** [create_index] builds a well-formed index that holds exactly the train
    vectors, row [i] under label [i]. *)
Theorem create_index_correct (dim train M efc : Z) (data : list N) :
  (∀ M g, (2 ≤ M)%N → (random_level (inv_log M) g).1 ≠ None) →
  0 ≤ dim ≤ 2147483647 → 0 ≤ train ≤ 2147483647 → 2 ≤ M ≤ 2147483647 →
  Z.of_nat (length data) = 4 * (dim * train) →
  ∃ s, create_index l2_dist dim train M efc data = (s, Ok tt) ∧ index_ok s ∧
    ∀ l, view s l = if decide (l < Z.to_N train)%N then Some (row_item data dim l) else None.
Proof.
  intros Hlev Hd Hn HM Hlen.
  destruct (create_index_ok l2_dist Hlev dim train M efc data Hd Hn HM Hlen) as (s & Hrun & Hix & _ & Ha).
  exists s. split_and!; [done|done|]. intros l. apply (f_equal sp_items) in Ha. simpl in Ha.
  rewrite <- lookup_contents, Ha, row_items_lookup. by replace (N.of_nat (Z.to_nat train)) with (Z.to_N train) by lia.
Qed.

(** C18. The programs work together: on a file that [create_dataset] wrote, with
    [M] at least 2 and at most as many neighbours as the file holds,
    [hnsw_search] runs to its end and returns 0 (no exception, no access
    outside an array, no endless loop), and [calculate_recall] on the index it
    leaves counts at most one correct label per comparison. *)
Theorem hnsw_search_completes (topk train test dim topk' M efc : Z) :
  (∀ M g, (2 ≤ M)%N → (random_level (inv_log M) g).1 ≠ None) →
  sizes_ok topk train test dim → enough_memory → 1 ≤ topk' ≤ topk → 2 ≤ M ≤ 2147483647 →
  ∃ bytes s d, create_dataset l2_dist dist_bits topk train test dim = Ok bytes ∧
    hnsw_search l2_dist (Some bytes) topk' M efc = Ok (0, Some s) ∧ index_ok s ∧
    read_bin (Some bytes) 0 0 0 0 = Ok d ∧
    ∃ s' c, calculate_recall l2_dist (test_data d) (Some (neighbors d)) test dim topk' topk s =
        (s', Ok (c, test * topk')) ∧ 0 ≤ c ≤ test * topk'.
Proof.
  intros Hlev Hsz Hmem Hk' HM. pose proof Hsz as [Hd He Hk Hn (P1 & P2 & P3)].
  destruct (create_dataset_ok l2_dist dist_bits topk train test dim Hsz Hmem)
    as (bytes & d & bfi & rows & Hrun & Hread & Hok & E1 & E2 & E3 & E4 & _ & Hrows & Hf & Hl & Hnb).
  pose proof (do_train _ Hok) as Htr. rewrite E1, E2 in Htr.
  destruct (create_index_ok l2_dist Hlev dim train M efc (train_data d)) as (s0 & Hci & Hs0); [lia..|done|].
  destruct (search_rows_ok l2_dist _ (test_data d) dim topk' (Z.to_nat test) ltac:(lia) 0 s0 Hs0) as (s & Hds & Hs).
  destruct (recall_rows_ok l2_dist _ bfi (train_data d) (test_data d) dim topk topk' (Z.to_N train) (neighbors d)
    Hrows ltac:(lia) ltac:(lia) ltac:(lia) ltac:(lia) 0 rows Hf [] 0 s Hs) as (s' & c & Hr & Hc); [done|done|done|].
  exists bytes, s, d. split_and!; [done| |apply Hs|apply Hread|].
  - unfold hnsw_search. rewrite Hread. cbn [res_bind]. rewrite E4, (proj2 (Z.ltb_ge _ _)) by lia.
    rewrite E1, E2, E3, Hci. cbn [res_bind]. unfold do_search. by rewrite Hds.
  - exists s', c. unfold calculate_recall.
    rewrite (eff_bind_lift (λ _, int_mul test topk') _ s (test * topk')) by (apply int_mul_ok; nia).
    rewrite Hl in Hr. rewrite (eff_bind_ok _ _ _ _ _ Hr). split; [done|]. lia.
Qed.
End programs.

#[local] Instance step_rng : DataRng := { rng := N; rng_seed := Z.to_N; rng_next n := (n, n + 3)%N }.
Lemma create_index_correct_witness :
  ∃ s, create_index byte_l2 1 2 2 10 [0; 0; 128; 63; 0; 0; 0; 64]%N = (s, Ok tt) ∧ index_ok s ∧
    ∀ l, view s l = if decide (l < 2)%N then Some (row_item [0; 0; 128; 63; 0; 0; 0; 64]%N 1 l) else None.
Proof.
  apply (create_index_correct byte_l2 1 2 2 10 [0; 0; 128; 63; 0; 0; 0; 64]%N); [|lia|lia|lia|done].
  intros M g _. by destruct g.
Defined.
Lemma hnsw_search_completes_witness :
  ∃ bytes s d, create_dataset byte_l2 Z.to_N 2 3 2 1 = Ok bytes ∧
    hnsw_search byte_l2 (Some bytes) 1 2 10 = Ok (0, Some s) ∧ index_ok s ∧
    read_bin (Some bytes) 0 0 0 0 = Ok d ∧
    ∃ s' c, calculate_recall byte_l2 (test_data d) (Some (neighbors d)) 2 1 1 2 s = (s', Ok (c, 2)) ∧ 0 ≤ c ≤ 2.
Proof.
  apply (hnsw_search_completes byte_l2 Z.to_N 2 3 2 1 1 2 10); [|split; lia|by intros n|lia|lia].
  intros M g _. by destruct g.
Defined.
