(* ===== verification/PyText.v ===== *)
(** * Python text, as the evaluation scripts use it

    ASCII strings as lists of characters: [in], [startswith], [endswith],
    [split], [strip], [int] and [float]; dictionaries in insertion order; and
    regular expressions, matched the way [re] does: by backtracking, each
    choice tried in the order of the pattern, repetitions longest first, the
    groups of the first success returned.

    Floats are the binary64 values of [SpecFloat].  [float] rounds the decimal
    it reads once, to nearest; [fmt3] is the format [.3f]. *)

From Stdlib Require Import ZArith Lia Ascii.
From Stdlib Require Import Floats.SpecFloat.
From stdpp Require Import base numbers list strings pretty.
From S2P Require Import Prelude Args.
#[local] Open Scope N_scope.

Definition text : Type := list ascii.
Definition t (s : string) : text := String.list_ascii_of_string s.
Definition nl : ascii := ascii_of_N 10.

(** ** Characters *)
Definition is_digit (c : ascii) : bool := let n := N_of_ascii c in (48 <=? n) && (n <=? 57).
Definition is_word (c : ascii) : bool :=
  let n := N_of_ascii c in
  is_digit c || ((65 <=? n) && (n <=? 90)) || ((97 <=? n) && (n <=? 122)) || (n =? 95).
(** White space of [str.split] and [str.strip]: that of C and the four
    separators 28 to 31. *)
Definition py_space (c : ascii) : bool := let n := N_of_ascii c in is_space c || ((28 <=? n) && (n <=? 31)).
Definition lower (c : ascii) : ascii :=
  let n := N_of_ascii c in if (65 <=? n) && (n <=? 90) then ascii_of_N (n + 32) else c.

(** ** Substrings *)
Fixpoint startswith (s p : text) : bool :=
  match p, s with
  | [], _ => true
  | a :: p, b :: s => Ascii.eqb a b && startswith s p
  | _ :: _, [] => false
  end.
Definition endswith (s p : text) : bool := startswith (rev s) (rev p).
(** [p in s] *)
Fixpoint py_in (p s : text) : bool :=
  startswith s p || match s with [] => false | _ :: s => py_in p s end.

(** ** Splitting *)
Fixpoint span (f : ascii → bool) (s : text) : text * text :=
  match s with
  | a :: s' => if f a then let '(l, r) := span f s' in (a :: l, r) else ([], s)
  | [] => ([], [])
  end.
(** [s.split(c)] *)
Fixpoint split_on (c : ascii) (s : text) : list text :=
  match s with
  | [] => [[]]
  | a :: s =>
      let r := split_on c s in
      if Ascii.eqb a c then [] :: r else match r with w :: ws => (a :: w) :: ws | [] => [[a]] end
  end.
(** [s.split()]: the maximal words. *)
Fixpoint split_words (s : text) : list text :=
  match s with
  | [] => []
  | a :: s' =>
      if py_space a then split_words s'
      else match s' with
           | b :: _ => if py_space b then [a] :: split_words s'
                       else match split_words s' with w :: ws => (a :: w) :: ws | [] => [[a]] end
           | [] => [[a]]
           end
  end.
Definition lstrip (s : text) : text := (span py_space s).2.
Definition strip (s : text) : text := rev (lstrip (rev (lstrip s))).
(** [for line in file]: each line keeps its newline. *)
Fixpoint file_lines (s : text) : list text :=
  match s with
  | [] => []
  | a :: s' =>
      if Ascii.eqb a nl then [a] :: file_lines s'
      else match s' with
           | [] => [[a]]
           | _ => match file_lines s' with l :: ls => (a :: l) :: ls | [] => [[a]] end
           end
  end.

(** [os.path.basename] *)
Definition basename (p : text) : text := List.last (split_on "/" p) [].
(** [p.rstrip('/')] *)
Definition rstrip_slash (p : text) : text := rev (span (Ascii.eqb "/") (rev p)).2.

(** ** Dictionaries, in insertion order *)
Section dict.
Context {K A : Type} `{EqDecision K}.
Definition dict : Type := list (K * A).
Fixpoint dict_get (d : dict) (k : K) : option A :=
  match d with [] => None | (k', v) :: d => if decide (k = k') then Some v else dict_get d k end.
Fixpoint dict_set (d : dict) (k : K) (v : A) : dict :=
  match d with
  | [] => [(k, v)]
  | (k', v') :: d => if decide (k = k') then (k', v) :: d else (k', v') :: dict_set d k v
  end.
(** [{**d, **e}] *)
Definition dict_update (d e : dict) : dict := foldl (λ d kv, dict_set d kv.1 kv.2) d e.

Lemma dict_get_set d k v k' : dict_get (dict_set d k v) k' = if decide (k' = k) then Some v else dict_get d k'.
Proof.
  induction d as [|[k0 v0] d IH]; simpl; [by destruct (decide (k' = k))|].
  destruct (decide (k = k0)) as [->|Hk]; simpl.
  - by destruct (decide (k' = k0)).
  - rewrite IH. destruct (decide (k' = k0)) as [->|]; [|done]. by rewrite decide_False.
Qed.
Lemma dict_set_keys d k v : (dict_set d k v).*1 = if decide (k ∈ d.*1) then d.*1 else d.*1 ++ [k].
Proof.
  induction d as [|[k0 v0] d IH].
  { simpl. destruct (decide (k ∈ [])) as [Hk|]; [by apply elem_of_nil in Hk|done]. }
  cbn [dict_set fmap list_fmap]. destruct (decide (k = k0)) as [->|Hk]; cbn [fmap list_fmap fst].
  - destruct (decide (k0 ∈ k0 :: d.*1)) as [|Hn]; [done|]. by destruct Hn; left.
  - change (list_fmap _ _ fst (dict_set d k v)) with ((dict_set d k v).*1). rewrite IH.
    destruct (decide (k ∈ d.*1)) as [Hd|Hd], (decide (k ∈ k0 :: d.*1)) as [Hd'|Hd']; try done.
    + by destruct Hd'; right.
    + by apply elem_of_cons in Hd' as [?|?].
Qed.
Lemma dict_set_NoDup d k v : NoDup d.*1 → NoDup (dict_set d k v).*1.
Proof.
  intros Hd. rewrite dict_set_keys. destruct (decide (k ∈ d.*1)) as [|Hk]; [done|].
  apply NoDup_app. split_and!; [done| |apply NoDup_singleton]. by intros x Hx ->%list_elem_of_singleton.
Qed.
Lemma dict_get_elem d k v : NoDup d.*1 → dict_get d k = Some v ↔ (k, v) ∈ d.
Proof.
  induction d as [|[k0 v0] d IH]; simpl; intros Hd; [split; [done|by intros ?%not_elem_of_nil]|].
  apply NoDup_cons in Hd as [Hk Hd]. rewrite elem_of_cons. destruct (decide (k = k0)) as [->|Hne].
  - split; [intros [= ->]; by left|]. intros [[= ->]|Hin]; [done|]. destruct Hk.
    apply list_elem_of_fmap. by exists (k0, v).
  - rewrite IH by done. split; [by right|]. by intros [[= ? ?]|?].
Qed.
End dict.
Arguments dict : clear implicits.

(** ** Regular expressions *)
Inductive re :=
| Lit (l : text)
| One (f : ascii → bool)
| Plus (f : ascii → bool)
| Cat (r1 r2 : re)
| Or (r1 r2 : re)
| Opt (r : re)
| Group (r : re)
| Eol.

Fixpoint ngroups (r : re) : nat :=
  match r with
  | Lit _ | One _ | Plus _ | Eol => 0
  | Cat r1 r2 | Or r1 r2 => ngroups r1 + ngroups r2
  | Opt r => ngroups r
  | Group r => S (ngroups r)
  end.

(** Captures: one entry per group, [None] for a group that took no part. *)
Definition caps : Type := list (option text).

Fixpoint star {B} (f : ascii → bool) (k : text → option B) (s : text) : option B :=
  match s with
  | a :: s' => if f a then match star f k s' with Some x => Some x | None => k s end else k s
  | [] => k []
  end.
Fixpoint run {B} (r : re) (k : text → caps → option B) (s : text) : option B :=
  match r with
  | Lit l => if startswith s l then k (drop (length l) s) [] else None
  | One f => match s with a :: s' => if f a then k s' [] else None | [] => None end
  | Plus f => match s with a :: s' => if f a then star f (λ s, k s []) s' else None | [] => None end
  | Cat r1 r2 => run r1 (λ s1 c1, run r2 (λ s2 c2, k s2 (c1 ++ c2)) s1) s
  | Or r1 r2 =>
      match run r1 (λ s c, k s (c ++ replicate (ngroups r2) None)) s with
      | Some x => Some x
      | None => run r2 (λ s c, k s (replicate (ngroups r1) None ++ c)) s
      end
  | Opt r => match run r k s with Some x => Some x | None => k s (replicate (ngroups r) None) end
  | Group r => run r (λ s' c, k s' (Some (take (length s - length s') s) :: c)) s
  | Eol => if bool_decide (s = [] ∨ s = [nl]) then k s [] else None
  end.
Definition re_match (r : re) (s : text) : option caps := run r (λ _ c, Some c) s.
Fixpoint re_search (r : re) (s : text) : option caps :=
  match re_match r s with
  | Some c => Some c
  | None => match s with [] => None | _ :: s => re_search r s end
  end.
Definition group (c : caps) (i : nat) : text := default [] (mjoin (c !! (i - 1)%nat)).

#[global] Arguments run {B} !r / k s.

(** ** Numbers *)
Definition digit (c : ascii) : N := N_of_ascii c - 48.
Definition digits_value (acc : N) (s : text) : N := foldl (λ n c, 10 * n + digit c) acc s.
(** [int] of a string of digits; all uses are groups of [\d+]. *)
Definition py_int (s : text) : N := digits_value 0 s.
Definition dec (n : N) : text := t (pretty n).

#[local] Abbreviation prec := 53%Z.
#[local] Abbreviation emax := 1024%Z.
Definition float64 : Type := spec_float.

(** [m * 10 ^ e], rounded once; both operands of the division are exact. *)
Definition of_decimal (neg : bool) (m : N) (e : Z) : float64 :=
  match m with
  | 0 => S754_zero neg
  | N.pos m =>
      if (0 <=? e)%Z then
        binary_normalize prec emax (cond_Zopp neg (Z.pos m * 10 ^ e)) 0 neg
      else SFdiv prec emax (S754_finite neg m 0) (S754_finite false (Pos.pow 10 (Z.to_pos (- e))) 0)
  end.

(** Digits, with single underscores between them. *)
Fixpoint digit_part (s : text) : text * text :=
  match s with
  | a :: s' =>
      if is_digit a then
        let '(ds, r) :=
          match s' with
          | b :: s2 =>
              if Ascii.eqb b "_" then
                match s2 with c :: _ => if is_digit c then digit_part s2 else ([], s') | [] => ([], s') end
              else digit_part s'
          | [] => ([], [])
          end in (a :: ds, r)
      else ([], s)
  | [] => ([], [])
  end.
Definition sign_part (s : text) : bool * text :=
  match s with
  | a :: s' => if Ascii.eqb a "-" then (true, s') else if Ascii.eqb a "+" then (false, s') else (false, s)
  | [] => (false, s)
  end.
Definition exponent_part (s : text) : option Z :=
  match s with
  | [] => Some 0%Z
  | c :: s =>
      if Ascii.eqb (lower c) "e" then
        let '(neg, s) := sign_part s in
        let '(ds, r) := digit_part s in
        match ds, r with
        | _ :: _, [] => Some (if neg then - Z.of_N (py_int ds) else Z.of_N (py_int ds))%Z
        | _, _ => None
        end
      else None
  end.
(** [float(s)]; [None] is a [ValueError]. *)
Definition py_float (s : text) : option float64 :=
  let '(neg, s) := sign_part (strip s) in
  let word := map lower s in
  if bool_decide (word = t "inf" ∨ word = t "infinity") then Some (S754_infinity neg)
  else if bool_decide (word = t "nan") then Some S754_nan
  else
    let '(ip, r) := digit_part s in
    let '(fp, r) := match r with "."%char :: r => digit_part r | _ => ([], r) end in
    match ip ++ fp with
    | [] => None
    | ds => e ← exponent_part r; Some (of_decimal neg (py_int ds) (e - Z.of_nat (length fp)))
    end.

(** [x / n] for a list length [n]; [n] is converted exactly. *)
Definition fdiv_len (x : float64) (n : nat) : float64 := SFdiv prec emax x (binary_normalize prec emax (Z.of_nat n) 0 false).

(** [f"{x:.3f}"]: the exact value, rounded to nearest even in the third decimal. *)
Definition round_half_even (n d : N) : N :=
  let q := n / d in
  match (2 * (n mod d) ?= d) with Lt => q | Gt => q + 1 | Eq => if N.even q then q else q + 1 end.
Definition thousandths (m : positive) (e : Z) : N :=
  if (0 <=? e)%Z then N.pos m * 1000 * 2 ^ Z.to_N e else round_half_even (N.pos m * 1000) (2 ^ Z.to_N (- e)).
Definition pad3 (n : N) : text := [ascii_of_N (48 + n / 100); ascii_of_N (48 + n / 10 mod 10); ascii_of_N (48 + n mod 10)].
Definition fixed3 (neg : bool) (n : N) : text :=
  (if neg then t "-" else []) ++ dec (n / 1000) ++ t "." ++ pad3 (n mod 1000).
Definition fmt3 (x : float64) : text :=
  match x with
  | S754_zero neg => fixed3 neg 0
  | S754_infinity neg => if neg then t "-inf" else t "inf"
  | S754_nan => t "nan"
  | S754_finite neg m e => fixed3 neg (thousandths m e)
  end.

(** [sum] of a list of floats.  Its rounding depends on the version of Python
    (since 3.12 the sum is compensated); that of one number is that number. *)
Class PySum := {
  py_sum : list float64 → float64;
  py_sum_one x : x ≠ S754_zero true → py_sum [x] = x
}.
(** Left to right, from the integer 0. *)
Definition fadd (x y : float64) : float64 := SFadd prec emax x y.
#[export, program] Instance naive_sum : PySum := {
  py_sum l := match l with [] => S754_zero false | x :: l => foldl fadd x l end
}.
Next Obligation. done. Qed.

(** ** Laws: substrings *)
Lemma startswith_app p s : startswith (p ++ s) p = true.
Proof. induction p as [|a p IH]; [by destruct s|]. simpl. by rewrite Ascii.eqb_refl. Qed.
Lemma startswith_spec s p : startswith s p = true ↔ ∃ r, s = p ++ r.
Proof.
  split; [|intros [r ->]; apply startswith_app]. revert s. induction p as [|a p IH]; intros s; [by exists s|].
  destruct s as [|b s]; [done|]. simpl. intros [->%Ascii.eqb_eq [r ->]%IH]%andb_true_iff. by exists r.
Qed.
Lemma py_in_spec p s : py_in p s = true ↔ ∃ a b, s = a ++ p ++ b.
Proof.
  induction s as [|c s IH]; cbn [py_in].
  - rewrite orb_false_r, startswith_spec. split; [intros [r Hr]; by exists [], r|].
    intros (a & b & Hs). symmetry in Hs. apply app_nil in Hs as [-> Hs]. by exists b.
  - rewrite orb_true_iff, startswith_spec, IH. split.
    + intros [[r Hr]|(a & b & ->)]; [by exists [], r|by exists (c :: a), b].
    + intros ([|c' a] & b & Hs); [by left; exists b|right]. injection Hs as <- ->. by exists a, b.
Qed.

(** ** Laws: words and fields *)
Definition stops (f : ascii → bool) (s : text) : Prop := match s with a :: _ => f a = false | [] => True end.

Lemma split_words_word w s :
  w ≠ [] → forallb (λ c, negb (py_space c)) w = true → stops (λ c, negb (py_space c)) s →
  split_words (w ++ s) = w :: split_words s.
Proof.
  induction w as [|a w IH]; [done|]. intros _ [Ha Hw]%andb_true_iff Hs. cbn [app split_words].
  apply negb_true_iff in Ha. rewrite Ha. destruct w as [|b w].
  - simpl. destruct s as [|c s]; [done|]. simpl in Hs. apply negb_false_iff in Hs. by rewrite Hs.
  - specialize (IH ltac:(done) Hw Hs). cbn [app] in *. rewrite IH.
    simpl in Hw. apply andb_true_iff in Hw as [Hb _]. apply negb_true_iff in Hb. by rewrite Hb.
Qed.
Lemma split_words_space s r : forallb py_space s = true → split_words (s ++ r) = split_words r.
Proof. induction s as [|a s IH]; [done|]. intros [Ha Hs]%andb_true_iff. cbn [app split_words]. rewrite Ha. auto. Qed.

Lemma split_on_field c w s : forallb (λ a, negb (Ascii.eqb a c)) w = true →
  split_on c (w ++ c :: s) = w :: split_on c s.
Proof.
  induction w as [|a w IH]; [cbn; by rewrite Ascii.eqb_refl|]. intros [Ha Hw]%andb_true_iff. cbn [app split_on].
  apply negb_true_iff in Ha. by rewrite Ha, IH.
Qed.
Lemma split_on_last c w : forallb (λ a, negb (Ascii.eqb a c)) w = true → split_on c w = [w].
Proof.
  induction w as [|a w IH]; [done|]. intros [Ha Hw]%andb_true_iff. cbn [split_on].
  apply negb_true_iff in Ha. by rewrite Ha, IH.
Qed.
Lemma split_on_nonempty c s : split_on c s ≠ [].
Proof. destruct s as [|a s]; simpl; [done|]. destruct (Ascii.eqb a c), (split_on c s); done. Qed.
(** A string with a separator has a second field. *)
Lemma split_on_second c a b : ∃ w, split_on c (a ++ c :: b) !! 1%nat = Some w.
Proof.
  induction a as [|x a (w & IH)]; cbn [app split_on].
  - rewrite Ascii.eqb_refl. pose proof (split_on_nonempty c b). destruct (split_on c b) as [|w ws]; [done|]. by exists w.
  - destruct (split_on c (a ++ c :: b)) as [|w1 [|w2 ws]]; [done|done|]. destruct (Ascii.eqb x c); eauto.
Qed.

(** ** Laws: matching *)
Section run.
Context {B : Type}.
Implicit Types (k : text → caps → option B) (s : text).

Lemma run_lit l k s : run (Lit l) k (l ++ s) = k s [].
Proof. simpl. by rewrite startswith_app, drop_app_length. Qed.
Lemma run_lit_ne b l k a s : b ≠ a → run (Lit (b :: l)) k (a :: s) = None.
Proof. intros Hne. cbn [run startswith]. by rewrite (proj2 (Ascii.eqb_neq _ _) Hne). Qed.
Lemma run_or_none r1 r2 k s : run r1 (λ s c, k s (c ++ replicate (ngroups r2) None)) s = None →
  run r2 (λ s c, k s (replicate (ngroups r1) None ++ c)) s = None → run (Or r1 r2) k s = None.
Proof. simpl. by intros -> ->. Qed.
Lemma run_cat r1 r2 k s : run (Cat r1 r2) k s = run r1 (λ s1 c1, run r2 (λ s2 c2, k s2 (c1 ++ c2)) s1) s.
Proof. done. Qed.

Lemma star_stops f (k : text → option B) w s : forallb f w = true → stops f s → is_Some (k s) → star f k (w ++ s) = k s.
Proof.
  intros Hw Hs [x Hx]. revert Hw. induction w as [|a w IH]; simpl.
  - intros _. destruct s as [|a s]; [done|]. simpl in *. by rewrite Hs.
  - intros [Ha Hw]%andb_true_iff. by rewrite Ha, IH, Hx.
Qed.
(** A repetition takes the whole word when the rest of the pattern then succeeds. *)
Lemma run_plus f k w s : w ≠ [] → forallb f w = true → stops f s → is_Some (k s []) →
  run (Plus f) k (w ++ s) = k s [].
Proof.
  destruct w as [|a w]; [done|]. simpl. intros _ [-> Hw]%andb_true_iff Hs Hk.
  exact (star_stops f (λ s, k s []) w s Hw Hs Hk).
Qed.
Lemma run_group_plus f k w s : w ≠ [] → forallb f w = true → stops f s → is_Some (k s [Some w]) →
  run (Group (Plus f)) k (w ++ s) = k s [Some w].
Proof.
  intros Hne Hw Hs Hk.
  assert (take (length (w ++ s) - length s) (w ++ s) = w) as Ht.
  { rewrite length_app. replace (length w + length s - length s)%nat with (length w) by lia. apply take_app_length. }
  change (run (Group (Plus f)) k (w ++ s)) with
    (run (Plus f) (λ s' c, k s' (Some (take (length (w ++ s) - length s') (w ++ s)) :: c)) (w ++ s)).
  rewrite run_plus; rewrite ?Ht; done.
Qed.
End run.

(** A search that cannot start inside a prefix. *)
Lemma re_search_skip r p s :
  (∀ a b, p = a ++ b → b ≠ [] → re_match r (b ++ s) = None) → re_search r (p ++ s) = re_search r s.
Proof.
  induction p as [|c p IH]; [done|]. intros Hp. cbn [app re_search].
  pose proof (Hp [] (c :: p) eq_refl ltac:(done)) as H0. cbn [app] in H0. rewrite H0.
  apply IH. intros a b -> Hb. by apply (Hp (c :: a) b).
Qed.
Lemma re_search_match r s c : re_match r s = Some c → re_search r s = Some c.
Proof. intros H. destruct s; cbn [re_search]; by rewrite H. Qed.

(** ** Laws: decimals *)
Lemma dec_digits n : forallb is_digit (dec n) = true.
Proof.
  assert (∀ d, d < 10 → is_digit (pretty_N_char d) = true) as Hc.
  { intros d Hd. assert (d = 0 ∨ d = 1 ∨ d = 2 ∨ d = 3 ∨ d = 4 ∨ d = 5 ∨ d = 6 ∨ d = 7 ∨ d = 8 ∨ d = 9) as Hd' by lia.
    by repeat (destruct Hd' as [->|Hd']); [..|subst]. }
  unfold dec, pretty, pretty_N. case_decide as Hn; [done|].
  assert (∀ s, forallb is_digit (t s) = true → forallb is_digit (t (pretty_N_go n s)) = true) as H; [|by apply H].
  clear Hn. induction (N.lt_wf_0 n) as [x _ IH]. intros s Hs. destruct (decide (0 < x)) as [Hx|Hx].
  - rewrite pretty_N_go_step by done. apply IH; [by apply N.div_lt|]. simpl. by rewrite Hc by by apply N.mod_lt.
  - assert (x = 0) as -> by lia. by rewrite pretty_N_go_0.
Qed.
Lemma dec_nonempty n : dec n ≠ [].
Proof. pose proof (pretty_digit n) as H. unfold dec. by destruct (pretty n). Qed.
Lemma digits_value_atoi s : ∀ acc, forallb is_digit (t s) = true →
  Z.of_N (digits_value acc (t s)) = atoi_digits (Z.of_N acc) s.
Proof.
  induction s as [|c s IH]; intros acc; [done|]. intros [Hc Hs]%andb_true_iff.
  change (digits_value acc (t (String c s))) with (digits_value (10 * acc + digit c) (t s)). rewrite IH by done.
  unfold is_digit in Hc. cbn [atoi_digits]. unfold digit_value. rewrite Hc. f_equal. unfold digit.
  apply andb_true_iff in Hc as [?%N.leb_le ?%N.leb_le]. lia.
Qed.
Lemma py_int_dec n : py_int (dec n) = n.
Proof.
  apply N2Z.inj. unfold py_int, dec. rewrite digits_value_atoi by apply dec_digits. apply atoi_pretty_N.
Qed.

(** A literal and a captured repetition, then the rest of the pattern. *)
Section steps.
Context {B : Type}.
Implicit Types (k : text → caps → option B) (s w : text) (x : B).

Lemma step_group_last f k w s x : w ≠ [] → forallb f w = true → stops f s → k s [Some w] = Some x →
  run (Group (Plus f)) k (w ++ s) = Some x.
Proof. intros ? ? ? Hk. by rewrite run_group_plus; rewrite ?Hk. Qed.
Lemma step_plus f k w s x : w ≠ [] → forallb f w = true → stops f s → k s [] = Some x → run (Plus f) k (w ++ s) = Some x.
Proof. intros ? ? ? Hk. by rewrite run_plus; rewrite ?Hk. Qed.
Lemma step_group f r k w s x : w ≠ [] → forallb f w = true → stops f s →
  run r (λ s2 c2, k s2 (Some w :: c2)) s = Some x → run (Cat (Group (Plus f)) r) k (w ++ s) = Some x.
Proof. intros ? ? ? Hk. rewrite run_cat. by apply step_group_last. Qed.
Lemma step_or_l r1 r2 k s x : run r1 (λ s c, k s (c ++ replicate (ngroups r2) None)) s = Some x → run (Or r1 r2) k s = Some x.
Proof. simpl. by intros ->. Qed.
Lemma step_or_r r1 r2 k s x : run r1 (λ s c, k s (c ++ replicate (ngroups r2) None)) s = None →
  run r2 (λ s c, k s (replicate (ngroups r1) None ++ c)) s = Some x → run (Or r1 r2) k s = Some x.
Proof. simpl. by intros ->. Qed.
Lemma step_opt r k s x : run r k s = Some x → run (Opt r) k s = Some x.
Proof. simpl. by intros ->. Qed.
Lemma step_skip r k s x : run r k s = None → k s (replicate (ngroups r) None) = Some x → run (Opt r) k s = Some x.
Proof. simpl. by intros ->. Qed.
Lemma step_lit l r k s x : run r k s = Some x → run (Cat (Lit l) r) k (l ++ s) = Some x.
Proof. intros Hr. rewrite run_cat, run_lit. exact Hr. Qed.
End steps.
