(* ===== verification/M5Stats.v ===== *)
(** * script/: the statistics of the simulator

    gem5_metrics.py names the statistics of interest; grep_stats.py,
    merge_stats.py, parse-m5out-rvv.py and parse-m5out-hifive.py read them out
    of the [stats.txt] files of a run and write tables.

    A file is its text.  A directory listing is a list of names in the order
    the system returns them, each with the text of its [stats.txt] when there
    is one.  A table is the list of the rows given to the CSV writer.  The
    exceptions of Python are [Throw]; output to the terminal is left out. *)

From Stdlib Require Import ZArith Lia Ascii.
From stdpp Require Import base numbers list strings pretty.
From S2P Require Import Prelude Args PyText.

Abbreviation sdict := (dict text text).
Definition table : Type := list (list text).

(** ** gem5_metrics.py *)
Definition metrics : sdict :=
  [(t "simSeconds", t "SimSecond");
   (t "simTicks", t "SimTick");
   (t "simInsts", t "SimIns");
   (t "simOps", t "SimOp");
   (t "hostInstRate", t "HstInsRate");
   (t "hostOpRate", t "HstOpRate");
   (t "board.processor.cores.core.cpi", t "CPU_CPI");
   (t "board.processor.cores.core.ipc", t "CPU_IPC");
   (t "board.cache_hierarchy.l1icaches.overallHits::total", t "L1i_TotHits");
   (t "board.cache_hierarchy.l1icaches.overallMisses::total", t "L1i_TotMisses");
   (t "board.cache_hierarchy.l1icaches.overallMissRate::total", t "L1i_TotMissRate");
   (t "board.cache_hierarchy.l1icaches.overallAvgMissLatency::total", t "L1i_TotAvgMissLat");
   (t "board.cache_hierarchy.l1dcaches.overallHits::total", t "L1d_TotHits");
   (t "board.cache_hierarchy.l1dcaches.overallMisses::total", t "L1d_TotMisses");
   (t "board.cache_hierarchy.l1dcaches.overallMissRate::total", t "L1d_TotMissRate");
   (t "board.cache_hierarchy.l1dcaches.overallAvgMissLatency::total", t "L1d_TotAvgMissLat");
   (t "board.cache_hierarchy.l1dcaches.ReadReq.hits::total", t "L1d_ReadReqHits");
   (t "board.cache_hierarchy.l1dcaches.ReadReq.misses::total", t "L1d_ReadReqMisses");
   (t "board.cache_hierarchy.l1dcaches.ReadReq.missRate::total", t "L1d_ReadReqMissRate");
   (t "board.cache_hierarchy.l1dcaches.ReadReq.avgMissLatency::total", t "L1d_ReadReqAvgMissLat");
   (t "board.cache_hierarchy.l1dcaches.WriteReq.hits::total", t "L1d_WriteReqHits");
   (t "board.cache_hierarchy.l1dcaches.WriteReq.misses::total", t "L1d_WriteReqMisses");
   (t "board.cache_hierarchy.l1dcaches.WriteReq.missRate::total", t "L1d_WriteReqMissRate");
   (t "board.cache_hierarchy.l1dcaches.WriteReq.avgMissLatency::total", t "L1d_WriteReqAvgMissLat");
   (t "board.cache_hierarchy.l2cache.overallHits::total", t "L2_TotHits");
   (t "board.cache_hierarchy.l2cache.overallMisses::total", t "L2_TotMisses");
   (t "board.cache_hierarchy.l2cache.overallMissRate::total", t "L2_TotMissRate");
   (t "board.cache_hierarchy.l2cache.overallAvgMissLatency::total", t "L2_TotAvgMissLat")].
Definition metrics_name (key : text) : text := default [] (dict_get metrics key).

(** ** The loop all scripts but the last share *)
Definition scan_key (label : text → text) (line key : text) (data : sdict) : res sdict :=
  if py_in key line then
    match split_words line !! 1%nat with
    | Some value => Ok (dict_set data (label key) value)
    | None => Throw "IndexError"
    end
  else Ok data.
Fixpoint scan_keys (label : text → text) (line : text) (keys : list text) (data : sdict) : res sdict :=
  match keys with
  | [] => Ok data
  | key :: keys => data <- scan_key label line key data ;; scan_keys label line keys data
  end.
Fixpoint scan_lines (label : text → text) (lines : list text) (data : sdict) : res sdict :=
  match lines with
  | [] => Ok data
  | line :: lines => data <- scan_keys label line metrics.*1 data ;; scan_lines label lines data
  end.

(** ** grep_stats.py *)
Module GrepStats.
Definition extract_metrics (stats_file : text) : res sdict := scan_lines id (file_lines stats_file) [].
Definition write_to_csv (data : sdict) : table :=
  [t "metric"; t "value"] :: map (λ kv, [metrics_name kv.1; kv.2]) data.
Definition main (stats_file : text) : res table := data <- extract_metrics stats_file ;; Ok (write_to_csv data).
End GrepStats.

(** ** merge_stats.py *)
Module MergeStats.
Definition extract_metrics (stats_file : text) : res sdict := scan_lines id (file_lines stats_file) [].
Definition write_to_csv (data : dict text sdict) : table :=
  (t "metric" :: data.*1) ::
  map (λ metric, metrics_name metric :: map (λ d, default (t "N/A") (dict_get d.2 metric)) data) metrics.*1.
Fixpoint merge_dir (subs : list (text * option text)) (merged_data : dict text sdict) : res (dict text sdict) :=
  match subs with
  | [] => Ok merged_data
  | (sub_dir_name, None) :: subs => merge_dir subs merged_data
  | (sub_dir_name, Some stats) :: subs =>
      metrics_data <- extract_metrics stats ;;
      merge_dir subs (dict_set merged_data sub_dir_name metrics_data)
  end.
(** The state is the tables written so far, by directory. *)
Fixpoint merge_results (dirs : list (text * list (text * option text))) : eff (list (text * table)) unit :=
  match dirs with
  | [] => eff_ret tt
  | (dir_name, subs) :: dirs =>
      let* merged_data := eff_lift (λ _, merge_dir subs []) in
      let* _ := eff_mod (λ written, written ++ [(dir_name, write_to_csv merged_data)]) in
      merge_results dirs
  end.
End MergeStats.

(** ** What the two m5out scripts share *)
Definition config_fields : list text :=
  [t "workload_type"; t "dataset_type"; t "distance_type"; t "dimension"; t "num_points"; t "num_queries"; t "top_k"].
Fixpoint validate_data (data : sdict) (required_fields : list text) : res sdict :=
  match required_fields with
  | [] => Ok []
  | field :: fields =>
      match dict_get data field with
      | None => Throw "ValueError: Missing required field"
      | Some v => rest <- validate_data data fields ;; Ok ((field, v) :: rest)
      end
  end.
(** [DictWriter.writerow]: the values in the order of [fieldnames]. *)
Definition csv_row (fieldnames : list text) (data : sdict) : list text := map (λ f, default [] (dict_get data f)) fieldnames.
Definition csv_table (fieldnames : list text) (all_results : list sdict) : option table :=
  match all_results with [] => None | _ => Some (fieldnames :: map (csv_row fieldnames) all_results) end.
Definition digits1 : re := Group (Plus is_digit).
Definition word1 : re := Group (Plus is_word).
(** [-(\w+)-(\w+)-(\d+)-(\d+)-(\d+)-top(\d+)] *)
Definition config_pattern : re :=
  Cat (Lit (t "-")) (Cat word1 (Cat (Lit (t "-")) (Cat word1 (Cat (Lit (t "-")) (Cat digits1
    (Cat (Lit (t "-")) (Cat digits1 (Cat (Lit (t "-")) (Cat digits1 (Cat (Lit (t "-top")) digits1)))))))))).

(** ** parse-m5out-rvv.py *)
Module M5outRvv.
(** [(?:rv|rvv)?-?output-vlen(\d+)-elen(\d+)] *)
Definition parent_pattern : re :=
  Cat (Opt (Or (Lit (t "rv")) (Lit (t "rvv")))) (Cat (Opt (Lit (t "-")))
    (Cat (Lit (t "output-vlen")) (Cat digits1 (Cat (Lit (t "-elen")) digits1)))).
Definition parse_parent_directory_name (dir_name : text) : option sdict :=
  c ← re_match parent_pattern dir_name; Some [(t "vlen", group c 1); (t "elen", group c 2)].

(** [m5out-(rv|rvv|hifive)] and the configuration *)
Definition pattern : re :=
  Cat (Lit (t "m5out-")) (Cat (Group (Or (Lit (t "rv")) (Or (Lit (t "rvv")) (Lit (t "hifive"))))) config_pattern).
Definition parse_directory_name (dir_name : text) : option sdict :=
  c ← re_match pattern dir_name;
  Some [(t "workload_type", group c 1); (t "dataset_type", group c 2); (t "distance_type", group c 3);
        (t "dimension", group c 4); (t "num_points", group c 5); (t "num_queries", group c 6); (t "top_k", group c 7)].

Definition extract_metrics (stats_file : text) : res sdict := scan_lines metrics_name (file_lines stats_file) [].
Definition get_required_fields : list text := [t "vlen"; t "elen"] ++ config_fields ++ metrics.*2.

Fixpoint process_dirs (parent_config : sdict) (dirs : list (text * option text)) (all_results : list sdict) :
    res (list sdict) :=
  match dirs with
  | [] => Ok all_results
  | (dir_name, stats) :: dirs =>
      if startswith dir_name (t "m5out-") then
        match parse_directory_name dir_name, stats with
        | Some config, Some stats_file =>
            metrics_data <- extract_metrics stats_file ;;
            let combined_data := dict_update (dict_update parent_config config) metrics_data in
            validated_data <- validate_data combined_data get_required_fields ;;
            process_dirs parent_config dirs (all_results ++ [validated_data])
        | _, _ => process_dirs parent_config dirs all_results
        end
      else process_dirs parent_config dirs all_results
  end.
(** [os.walk]: the base names of the directories, each with its subdirectories. *)
Fixpoint process_walk (walk : list (text * list (text * option text))) (all_results : list sdict) : res (list sdict) :=
  match walk with
  | [] => Ok all_results
  | (parent_dir, dirs) :: walk =>
      match parse_parent_directory_name parent_dir with
      | Some parent_config => all_results <- process_dirs parent_config dirs all_results ;; process_walk walk all_results
      | None => process_walk walk all_results
      end
  end.
(** The table written, if any. *)
Definition process_results (walk : list (text * list (text * option text))) : res (option table) :=
  all_results <- process_walk walk [] ;; Ok (csv_table get_required_fields all_results).
End M5outRvv.

(** ** parse-m5out-hifive.py *)
Module M5outHifive.
Definition pattern : re := Cat (Lit (t "m5out-hifive")) config_pattern.
Definition parse_directory_name (dir_name : text) : option sdict :=
  c ← re_match pattern dir_name;
  Some [(t "workload_type", t "hifive"); (t "dataset_type", group c 1); (t "distance_type", group c 2);
        (t "dimension", group c 3); (t "num_points", group c 4); (t "num_queries", group c 5); (t "top_k", group c 6)].

(** [^-?\d+(\.\d+)?(e[+-]?\d+)?$], ignoring case *)
Definition number_pattern : re :=
  Cat (Opt (Lit (t "-"))) (Cat (Plus is_digit) (Cat (Opt (Group (Cat (Lit (t ".")) (Plus is_digit))))
    (Cat (Opt (Group (Cat (One (λ c, Ascii.eqb (lower c) "e"))
       (Cat (Opt (One (λ c, Ascii.eqb c "+" || Ascii.eqb c "-"))) (Plus is_digit))))) Eol))).
Definition is_number (value : text) : bool :=
  bool_decide (is_Some (re_match number_pattern value)) ||
  bool_decide (map lower value ∈ [t "nan"; t "inf"; t "-inf"]).
(** [parts.index(key)] *)
Fixpoint index_of (key : text) (parts : list text) : option nat :=
  match parts with [] => None | w :: parts => if decide (w = key) then Some 0%nat else S <$> index_of key parts end.

Definition extract_key (line key : text) (extracted_data : sdict) : sdict :=
  if startswith line (key ++ t " ") || py_in (t " " ++ key ++ t " ") line then
    let parts := split_words line in
    match index_of key parts with
    | Some idx =>
        match parts !! (idx + 1)%nat with
        | Some value => if is_number value then dict_set extracted_data (metrics_name key) value else extracted_data
        | None => extracted_data
        end
    | None => extracted_data
    end
  else extracted_data.
Definition extract_line (extracted_data : sdict) (line : text) : sdict :=
  foldl (λ d key, extract_key line key d) extracted_data metrics.*1.
Definition extract_metrics (stats_file : text) : sdict := foldl extract_line [] (file_lines stats_file).
Definition get_required_fields : list text := config_fields ++ metrics.*2.

(** [os.listdir]: per name, [None] is no directory. *)
Fixpoint process_items (items : list (text * option (option text))) (all_results : list sdict) : list sdict :=
  match items with
  | [] => all_results
  | (item, Some (Some stats_file)) :: items =>
      if startswith item (t "m5out-hifive-") then
        match parse_directory_name item with
        | Some config =>
            match validate_data (dict_update config (extract_metrics stats_file)) get_required_fields with
            | Ok validated_data => process_items items (all_results ++ [validated_data])
            | _ => process_items items all_results
            end
        | None => process_items items all_results
        end
      else process_items items all_results
  | _ :: items => process_items items all_results
  end.
Definition process_results (items : list (text * option (option text))) : option table :=
  csv_table get_required_fields (process_items items []).
End M5outHifive.
