(* ===== verification/M5StatsLaws.v ===== *)
(** * What the statistics scripts compute

    [last_value] is the meaning of a metric in a [stats.txt]: the second word of
    the last line that contains its name.  The extraction loops compute it, and
    the tables are its values, row by row. *)

From Stdlib Require Import ZArith Lia Ascii.
From stdpp Require Import base numbers list strings pretty.
From S2P Require Import Prelude Args PyText M5Stats.

(** ** Metrics and fields *)
Lemma metrics_labels : metrics.*2 = map metrics_name metrics.*1.
Proof. vm_compute. done. Qed.
Lemma labels_NoDup : NoDup metrics.*2.
Proof. apply (bool_decide_unpack _). vm_compute. done. Qed.
Lemma label_inj k1 k2 : k1 ∈ metrics.*1 → k2 ∈ metrics.*1 → metrics_name k1 = metrics_name k2 → k1 = k2.
Proof.
  assert (Forall (λ k1, Forall (λ k2, metrics_name k1 = metrics_name k2 → k1 = k2) metrics.*1) metrics.*1) as H.
  { apply (bool_decide_unpack _). vm_compute. done. }
  rewrite Forall_forall in H. intros H1 H2. specialize (H k1 H1). rewrite Forall_forall in H. by apply H.
Qed.

(** ** The extraction loops *)
Definition has_key (line : text) : bool := existsb (λ key, py_in key line) metrics.*1.
Definition readable (lines : list text) : bool :=
  forallb (λ line, negb (has_key line) || (2 <=? length (split_words line))%nat) lines.
Definition line_value (key line : text) : option text := if py_in key line then split_words line !! 1%nat else None.
Definition last_value (key : text) (lines : list text) : option text := last (omap (line_value key) lines).

Lemma last_value_cons key line lines :
  last_value key (line :: lines) =
  match last_value key lines with Some v => Some v | None => line_value key line end.
Proof.
  unfold last_value. cbn [omap list_omap]. destruct (line_value key line) as [v|]; [|by destruct (last _)].
  rewrite last_cons. done.
Qed.

Section scan.
Variable label : text → text.

Lemma scan_keys_ok line keys data :
  (∀ key, key ∈ keys → py_in key line = true → is_Some (split_words line !! 1%nat)) →
  ∃ d, scan_keys label line keys data = Ok d ∧ (NoDup data.*1 → NoDup d.*1) ∧
    ∀ f, dict_get d f =
      if bool_decide (Exists (λ key, label key = f ∧ py_in key line = true) keys) then split_words line !! 1%nat
      else dict_get data f.
Proof.
  revert data. induction keys as [|key keys IH]; intros data Hw; cbn [scan_keys].
  { exists data. split_and!; [done|done|]. intros f. by rewrite bool_decide_eq_false_2 by by intros ?%Exists_nil. }
  unfold scan_key. destruct (py_in key line) eqn:Hin.
  - destruct (Hw key) as [v Hv]; [by left|done|]. rewrite Hv. cbn [res_bind].
    destruct (IH (dict_set data (label key) v)) as (d & -> & Hnd & Hd).
    { intros k Hk. apply Hw. by right. }
    exists d. split_and!; [done|intros ?; by apply Hnd, dict_set_NoDup|]. intros f. rewrite Hd, dict_get_set.
    destruct (bool_decide (Exists _ keys)) eqn:Hex.
    + apply bool_decide_eq_true in Hex. by rewrite bool_decide_eq_true_2 by by right.
    + apply bool_decide_eq_false in Hex. destruct (decide (f = label key)) as [->|Hf].
      * rewrite bool_decide_eq_true_2 by by left. done.
      * rewrite bool_decide_eq_false_2; [done|]. rewrite Exists_cons. by intros [[? _]|?].
  - cbn [res_bind]. destruct (IH data) as (d & -> & Hnd & Hd).
    { intros k Hk. apply Hw. by right. }
    exists d. split_and!; [done|done|]. intros f. rewrite Hd.
    erewrite bool_decide_ext; [done|]. rewrite Exists_cons, Hin. split; [by right|]. by intros [[_ ?]|?].
Qed.
Lemma scan_keys_throw line keys data :
  split_words line !! 1%nat = None → existsb (λ key, py_in key line) keys = true →
  scan_keys label line keys data = Throw "IndexError".
Proof.
  intros Hw. induction keys as [|key keys IH]; [done|]. cbn [existsb scan_keys]. unfold scan_key.
  destruct (py_in key line); [by rewrite Hw|]. exact IH.
Qed.

Lemma has_key_spec line : has_key line = true ↔ ∃ key, key ∈ metrics.*1 ∧ py_in key line = true.
Proof. unfold has_key. rewrite existsb_exists. by setoid_rewrite <- list_elem_of_In. Qed.
Lemma words_second line : (2 <=? length (split_words line))%nat = true ↔ is_Some (split_words line !! 1%nat).
Proof. rewrite Nat.leb_le, lookup_lt_is_Some. lia. Qed.
Lemma line_readable line key :
  negb (has_key line) || (2 <=? length (split_words line))%nat = true → key ∈ metrics.*1 → py_in key line = true →
  is_Some (split_words line !! 1%nat).
Proof.
  intros [Hn|?]%orb_true_iff Hk Hin; [|by apply words_second].
  apply negb_true_iff in Hn. assert (has_key line = true) as E by (apply has_key_spec; eauto). congruence.
Qed.

Section ok.
Hypothesis label_inj : ∀ k1 k2, k1 ∈ metrics.*1 → k2 ∈ metrics.*1 → label k1 = label k2 → k1 = k2.

Lemma scan_lines_ok lines data : readable lines = true →
  ∃ d, scan_lines label lines data = Ok d ∧ (NoDup data.*1 → NoDup d.*1) ∧
    (∀ key, key ∈ metrics.*1 → dict_get d (label key) =
      match last_value key lines with Some v => Some v | None => dict_get data (label key) end) ∧
    ∀ f, f ∉ map label metrics.*1 → dict_get d f = dict_get data f.
Proof.
  revert data. induction lines as [|line lines IH]; intros data; cbn [scan_lines]; [by exists data|].
  intros [Hl Hr]%andb_true_iff.
  destruct (scan_keys_ok line metrics.*1 data) as (d1 & E1 & N1 & Hd1).
  { intros key. by apply line_readable. }
  rewrite E1. cbn [res_bind]. destruct (IH d1 Hr) as (d & -> & N2 & Hd & Ho).
  exists d. split_and!; [done|auto| |].
  - intros key Hk. rewrite (Hd key Hk), last_value_cons. destruct (last_value key lines); [done|].
    rewrite Hd1. unfold line_value. destruct (py_in key line) eqn:Hin.
    + rewrite bool_decide_eq_true_2 by (apply list.Exists_exists; eauto).
      by destruct (line_readable line key Hl Hk Hin) as [v ->].
    + rewrite bool_decide_eq_false_2; [done|]. intros (k & Hk' & Hlab & Hin')%list.Exists_exists.
      rewrite (label_inj k key) in Hin' by done. congruence.
  - intros f Hf. rewrite (Ho f Hf), Hd1. rewrite bool_decide_eq_false_2; [done|].
    intros (k & Hk & <- & _)%list.Exists_exists. destruct Hf. by apply list_elem_of_fmap_2.
Qed.
End ok.

Lemma scan_lines_throw lines data : readable lines = false → scan_lines label lines data = Throw "IndexError".
Proof.
  revert data. induction lines as [|line lines IH]; intros data; [done|]. cbn [readable forallb scan_lines].
  destruct (negb (has_key line) || (2 <=? length (split_words line))%nat) eqn:Hl; cbn [andb].
  - intros Hr. destruct (scan_keys_ok line metrics.*1 data) as (d1 & -> & _); [|by apply IH].
    intros key. by apply line_readable.
  - intros _. apply orb_false_iff in Hl as [Hk%negb_false_iff Hw]. rewrite scan_keys_throw; [done| |done].
    destruct (split_words line !! 1%nat) eqn:E; [|done].
    assert ((2 <=? length (split_words line))%nat = true) as E2 by (apply words_second; eauto). congruence.
Qed.
End scan.

(** ** Rows *)
Section dicts.
Context {K A : Type} `{EqDecision K}.
Implicit Types (d e : dict K A) (k : K).

Lemma dict_get_keys d k : dict_get d k = None ↔ k ∉ d.*1.
Proof.
  induction d as [|[k0 v0] d IH]; cbn [dict_get fmap list_fmap fst].
  - split; [intros _; apply not_elem_of_nil|done].
  - rewrite not_elem_of_cons. destruct (decide (k = k0)) as [->|Hne]; [split; [done|by intros []]|].
    rewrite IH. tauto.
Qed.
Lemma dict_get_update e d k : NoDup e.*1 →
  dict_get (dict_update d e) k = match dict_get e k with Some v => Some v | None => dict_get d k end.
Proof.
  revert d. induction e as [|[k0 v0] e IH]; intros d; [done|].
  change (((k0, v0) :: e).*1) with (k0 :: e.*1). intros [Hk Hnd]%NoDup_cons.
  change (dict_update d ((k0, v0) :: e)) with (dict_update (dict_set d k0 v0) e). rewrite IH, dict_get_set by done.
  cbn [dict_get]. destruct (decide (k = k0)) as [->|]; [|done]. by rewrite (proj2 (dict_get_keys e k0)).
Qed.
End dicts.

Lemma mapM_option_app {A B} (f : A → option B) l1 l2 :
  mapM f (l1 ++ l2) = match mapM f l1 with Some r1 => app r1 <$> mapM f l2 | None => None end.
Proof.
  induction l1 as [|x l1 IH]; cbn [app mapM]; [by destruct (mapM f l2)|].
  rewrite IH. destruct (f x); [|done]. cbn. destruct (mapM f l1); [|done]. cbn. by destruct (mapM f l2).
Qed.
Lemma validate_data_get data fields :
  validate_data data fields =
  match mapM (dict_get data) fields with
  | Some vs => Ok (zip fields vs)
  | None => Throw "ValueError: Missing required field"
  end.
Proof.
  induction fields as [|f fields IH]; [done|]. cbn [validate_data mapM]. rewrite IH.
  destruct (dict_get data f) as [v|]; [|done]. cbn. by destruct (mapM (dict_get data) fields).
Qed.
Lemma csv_row_zip fields vs : NoDup fields → length vs = length fields → csv_row fields (zip fields vs) = vs.
Proof.
  unfold csv_row. intros Hnd Hlen. apply list_eq. intros i. rewrite list_lookup_fmap.
  destruct (fields !! i) as [f|] eqn:Hf; cbn [fmap option_fmap option_map].
  - destruct (lookup_lt_is_Some_2 vs i) as [v Hv]; [rewrite Hlen; by eapply lookup_lt_Some|]. rewrite Hv. f_equal.
    assert (dict_get (zip fields vs) f = Some v) as ->; [|done].
    apply dict_get_elem; [rewrite fst_zip by lia; done|].
    apply list_elem_of_lookup. exists i. by rewrite lookup_zip_with, Hf, Hv.
  - symmetry. apply lookup_ge_None. rewrite Hlen. by apply lookup_ge_None.
Qed.

(** A configuration and the metrics, in the order of the fields. *)
Lemma validated_row (config data : sdict) (lv : text → option text) (fields : list text) :
  fields = config.*1 ++ metrics.*2 → NoDup fields → NoDup data.*1 →
  (∀ f, f ∉ metrics.*2 → dict_get data f = None) →
  (∀ key, key ∈ metrics.*1 → dict_get data (metrics_name key) = lv key) →
  match mapM lv metrics.*1 with
  | Some vs => ∃ d, validate_data (dict_update config data) fields = Ok d ∧ csv_row fields d = config.*2 ++ vs
  | None => validate_data (dict_update config data) fields = Throw "ValueError: Missing required field"
  end.
Proof.
  intros -> Hnd Hdd Hout Hlv. pose proof Hnd as (Hc & Hdisj & _)%NoDup_app.
  assert (mapM (dict_get (dict_update config data)) config.*1 = Some config.*2) as E1.
  { apply mapM_Some. apply Forall2_fmap. apply Forall_Forall2_diag. apply Forall_forall. intros [k v] Hkv. simpl.
    rewrite dict_get_update, Hout by (done || apply Hdisj; apply list_elem_of_fmap; by exists (k, v)).
    by apply dict_get_elem. }
  assert (mapM (dict_get (dict_update config data)) metrics.*2 = mapM lv metrics.*1) as E2.
  { rewrite metrics_labels. generalize (λ key H, Hlv key H).
    assert (∀ key, key ∈ metrics.*1 → dict_get config (metrics_name key) = None) as Hno.
    { intros key Hk. apply dict_get_keys. intros Hin. apply (Hdisj _ Hin). rewrite metrics_labels.
      by apply list_elem_of_fmap_2. }
    revert Hno. induction metrics.*1 as [|key keys IH]; [done|]. intros Hno Hk. cbn [map mapM].
    rewrite dict_get_update by done. rewrite (Hk key) by by left. rewrite (Hno key) by by left.
    rewrite IH by (intros ? ?; (apply Hno || apply Hk); by right). by destruct (lv key). }
  rewrite validate_data_get, mapM_option_app, E1, E2. destruct (mapM lv metrics.*1) as [vs|] eqn:Hvs; [|done]. cbn [fmap option_fmap option_map].
  eexists. split; [done|]. apply csv_row_zip; [done|]. rewrite !length_app, !length_fmap. f_equal.
  rewrite <- (length_mapM _ _ _ Hvs), !length_fmap. done.
Qed.

Definition as_table (fields : list text) (rows : list (list text)) : option table :=
  match rows with [] => None | _ => Some (fields :: rows) end.
Lemma csv_table_rows fields all_results : csv_table fields all_results = as_table fields (map (csv_row fields) all_results).
Proof. by destruct all_results. Qed.

Lemma match_lit l r s c : re_match (Cat (Lit l) r) s = Some c → startswith s l = true.
Proof. unfold re_match. cbn [run]. by destruct (startswith s l). Qed.
Lemma match_lit2 l1 l2 r s c : re_match (Cat (Lit l1) (Cat (Lit l2) r)) s = Some c → startswith s (l1 ++ l2) = true.
Proof.
  unfold re_match. cbn [run]. destruct (startswith s l1) eqn:E1; [|done].
  destruct (startswith (drop _ s) l2) eqn:E2; [|done]. intros _.
  apply startswith_spec in E1 as [r1 ->]. rewrite drop_app_length in E2. apply startswith_spec in E2 as [r2 ->].
  rewrite (assoc_L (++)). apply startswith_app.
Qed.

(** ** parse-m5out-rvv.py against its specification *)
Module RvvSpec.
Import M5outRvv.

(** The row of one run, and the runs a directory tree holds. *)
Definition row (run : sdict * text) : res (list text) :=
  let lines := file_lines run.2 in
  if readable lines then
    match mapM (λ key, last_value key lines) metrics.*1 with
    | Some vs => Ok (run.1.*2 ++ vs)
    | None => Throw "ValueError: Missing required field"
    end
  else Throw "IndexError".
Definition run_of (parent : sdict) (dir : text * option text) : option (sdict * text) :=
  config ← parse_directory_name dir.1; stats ← dir.2; Some (parent ++ config, stats).
Definition runs (walk : list (text * list (text * option text))) : list (sdict * text) :=
  concat (map (λ d, match parse_parent_directory_name d.1 with
                    | Some parent => omap (run_of parent) d.2
                    | None => []
                    end) walk).
Fixpoint rows (l : list (sdict * text)) : res (list (list text)) :=
  match l with [] => Ok [] | x :: l => r <- row x ;; rs <- rows l ;; Ok (r :: rs) end.

Lemma process_row parent_dir dir parent config stats :
  parse_parent_directory_name parent_dir = Some parent → parse_directory_name dir = Some config →
  match row (parent ++ config, stats) with
  | Ok r => ∃ m d, extract_metrics stats = Ok m ∧
      validate_data (dict_update (dict_update parent config) m) get_required_fields = Ok d ∧
      csv_row get_required_fields d = r
  | Throw e => (m <- extract_metrics stats ;;
      validate_data (dict_update (dict_update parent config) m) get_required_fields) = Throw e
  | _ => False
  end.
Proof.
  intros Hp Hc. unfold parse_parent_directory_name in Hp. apply bind_Some in Hp as (c1 & _ & [= <-]).
  unfold parse_directory_name in Hc. apply bind_Some in Hc as (c2 & _ & [= <-]).
  unfold row, extract_metrics. cbn [fst snd]. destruct (readable (file_lines stats)) eqn:Hr.
  - destruct (scan_lines_ok metrics_name label_inj _ [] Hr) as (m & -> & Hnd & Hget & Hout). cbn [res_bind].
    specialize (Hnd (NoDup_nil_2)). rewrite <- metrics_labels in Hout.
    match goal with |- context [dict_update ?a ?b] => set (cfg := dict_update a b) end.
    match goal with |- context [(?a ++ ?b).*2] => change (a ++ b) with cfg end.
    opose proof* (validated_row cfg m (λ key, last_value key (file_lines stats)) get_required_fields) as H'; [reflexivity| |done|done| |].
    + apply (bool_decide_unpack _). vm_compute. done.
    + intros key Hk. rewrite (Hget key Hk). by destruct (last_value key (file_lines stats)).
    + destruct (mapM _ metrics.*1) as [vs|]; [|done]. destruct H' as (d & H1 & H2). by exists m, d.
  - by rewrite scan_lines_throw.
Qed.

Lemma process_dirs_rows parent_dir parent dirs acc :
  parse_parent_directory_name parent_dir = Some parent →
  (d <- process_dirs parent dirs acc ;; Ok (map (csv_row get_required_fields) d)) =
  (rs <- rows (omap (run_of parent) dirs) ;; Ok (map (csv_row get_required_fields) acc ++ rs)).
Proof.
  intros Hp. revert acc. induction dirs as [|[dir stats] dirs IH]; intros acc; cbn [process_dirs omap list_omap rows].
  { cbn. by rewrite (right_id_L [] (++)). }
  destruct (parse_directory_name dir) as [config|] eqn:Hc.
  2: { unfold run_of at 1. cbn [fst]. rewrite Hc. cbn. destruct (startswith dir _); apply IH. }
  assert (startswith dir (t "m5out-") = true) as ->.
  { unfold parse_directory_name in Hc. apply bind_Some in Hc as (c & Hm & _). by eapply match_lit. }
  unfold run_of at 1. cbn [fst snd]. rewrite Hc. destruct stats as [stats|]; [|apply IH].
  cbn [mbind option_bind rows]. pose proof (process_row parent_dir dir parent config stats Hp Hc) as Hrow.
  destruct (row (parent ++ config, stats)) as [r|e| |]; [| |done|done].
  - destruct Hrow as (m & d & -> & H1 & <-). cbn [res_bind]. rewrite H1. cbn [res_bind]. rewrite IH, map_app.
    destruct (rows _); [|done..]. cbn. by rewrite <- app_assoc.
  - destruct (extract_metrics stats) as [m|e'| |]; cbn [res_bind] in *; try done.
    + by rewrite Hrow.
    + by injection Hrow as ->.
Qed.
Lemma rows_app l1 l2 : rows (l1 ++ l2) = (r1 <- rows l1 ;; r2 <- rows l2 ;; Ok (r1 ++ r2)).
Proof.
  induction l1 as [|x l1 IH]; cbn [app rows]; [by destruct (rows l2)|].
  destruct (row x); try done. cbn. rewrite IH. destruct (rows l1); try done. cbn. by destruct (rows l2).
Qed.
Lemma process_walk_rows walk acc :
  (d <- process_walk walk acc ;; Ok (map (csv_row get_required_fields) d)) =
  (rs <- rows (runs walk) ;; Ok (map (csv_row get_required_fields) acc ++ rs)).
Proof.
  revert acc. induction walk as [|[dir dirs] walk IH]; intros acc; cbn [process_walk].
  { cbn. by rewrite (right_id_L [] (++)). }
  unfold runs. cbn [map concat fst snd]. fold (runs walk).
  destruct (parse_parent_directory_name dir) as [parent|] eqn:Hp; [|apply IH].
  pose proof (process_dirs_rows dir parent dirs acc Hp) as Hd. rewrite rows_app.
  destruct (rows (omap (run_of parent) dirs)) as [r1|e| |]; destruct (process_dirs parent dirs acc) as [d|e'| |];
    cbn [res_bind] in Hd |- *; try done.
  rewrite IH. injection Hd as ->. destruct (rows (runs walk)); try done. cbn [res_bind]. by rewrite <- app_assoc.
Qed.
End RvvSpec.

(** ** parse-m5out-hifive.py against its specification *)
Module HifiveSpec.
Import M5outHifive.

(** The value a line gives to a metric: the word after its name, when the name
    stands alone and the word is a number. *)
Definition hit (key line : text) : option text :=
  if startswith line (key ++ t " ") || py_in (t " " ++ key ++ t " ") line then
    idx ← index_of key (split_words line); value ← split_words line !! (idx + 1)%nat;
    if is_number value then Some value else None
  else None.
Definition last_hit (key : text) (lines : list text) : option text := last (omap (hit key) lines).

Lemma extract_key_hit line key d :
  extract_key line key d = match hit key line with Some v => dict_set d (metrics_name key) v | None => d end.
Proof.
  unfold extract_key, hit. destruct (_ || _); [|done]. destruct (index_of key _) as [idx|]; [|done]. cbn [mbind option_bind].
  destruct (split_words line !! _) as [v|]; [|done]. cbn [mbind option_bind]. by destruct (is_number v).
Qed.
Lemma extract_keys_get line keys d :
  (NoDup d.*1 → NoDup (foldl (λ d key, extract_key line key d) d keys).*1) ∧
  (keys ⊆ metrics.*1 → ∀ key, key ∈ metrics.*1 →
   dict_get (foldl (λ d key, extract_key line key d) d keys) (metrics_name key) =
   if decide (key ∈ keys) then match hit key line with Some v => Some v | None => dict_get d (metrics_name key) end
   else dict_get d (metrics_name key)) ∧
  ∀ f, f ∉ map metrics_name keys → dict_get (foldl (λ d key, extract_key line key d) d keys) f = dict_get d f.
Proof.
  revert d. induction keys as [|k keys IH]; intros d; cbn [foldl].
  { split_and!; [done| |done]. intros _ key _. destruct (decide _) as [Hk|]; [by apply elem_of_nil in Hk|done]. }
  destruct (IH (extract_key line k d)) as (I1 & I2 & I3). rewrite extract_key_hit in *. split_and!.
  - intros Hd. apply I1. destruct (hit k line); [by apply dict_set_NoDup|done].
  - intros Hsub key Hkey. rewrite I2 by (done || intros x Hx; apply Hsub; by right).
    destruct (decide (key = k)) as [->|Hne].
    + destruct (decide (k ∈ k :: keys)) as [_|Hn]; [|by destruct Hn; left].
      destruct (hit k line) as [v|]; [|by destruct (decide _)].
      rewrite dict_get_set. destruct (decide (k ∈ keys)); [done|]. by rewrite decide_True.
    + assert (dict_get (match hit k line with Some v => dict_set d (metrics_name k) v | None => d end) (metrics_name key)
        = dict_get d (metrics_name key)) as ->.
      { destruct (hit k line); [|done]. rewrite dict_get_set, decide_False; [done|]. intros Heq. apply Hne.
        apply label_inj; [done| |done]. apply Hsub. by left. }
      destruct (decide (key ∈ keys)) as [Hk|Hk], (decide (key ∈ k :: keys)) as [Hk'|Hk']; try done.
      * by destruct Hk'; right.
      * by apply elem_of_cons in Hk' as [?|?].
  - intros f [Hf Hfs]%not_elem_of_cons. rewrite I3 by done. destruct (hit k line); [|done].
    by rewrite dict_get_set, decide_False.
Qed.
Lemma extract_lines_get lines d :
  (NoDup d.*1 → NoDup (foldl extract_line d lines).*1) ∧
  (∀ key, key ∈ metrics.*1 → dict_get (foldl extract_line d lines) (metrics_name key) =
    match last_hit key lines with Some v => Some v | None => dict_get d (metrics_name key) end) ∧
  ∀ f, f ∉ metrics.*2 → dict_get (foldl extract_line d lines) f = dict_get d f.
Proof.
  revert d. induction lines as [|line lines IH]; intros d; cbn [foldl]; [done|].
  destruct (extract_keys_get line metrics.*1 d) as (K1 & K2 & K3). rewrite <- metrics_labels in K3.
  destruct (IH (extract_line d line)) as (I1 & I2 & I3). split_and!; [by auto| |].
  - intros key Hk. rewrite (I2 key Hk). unfold extract_line. rewrite (K2 ltac:(done) key Hk), decide_True by done.
    unfold last_hit. cbn [omap list_omap]. destruct (hit key line) as [v|]; [|done].
    rewrite last_cons. by destruct (last _).
  - intros f Hf. rewrite (I3 f Hf). exact (K3 f Hf).
Qed.

Definition row (run : sdict * text) : option (list text) :=
  vs ← mapM (λ key, last_hit key (file_lines run.2)) metrics.*1; Some (run.1.*2 ++ vs).
Definition run_of (item : text * option (option text)) : option (sdict * text) :=
  stats ← mjoin item.2; config ← parse_directory_name item.1; Some (config, stats).

Lemma hifive_row item config stats :
  parse_directory_name item = Some config →
  match row (config, stats) with
  | Some r => ∃ d, validate_data (dict_update config (extract_metrics stats)) get_required_fields = Ok d ∧
      csv_row get_required_fields d = r
  | None => validate_data (dict_update config (extract_metrics stats)) get_required_fields =
      Throw "ValueError: Missing required field"
  end.
Proof.
  intros Hc. unfold parse_directory_name in Hc. apply bind_Some in Hc as (c & _ & [= <-]).
  destruct (extract_lines_get (file_lines stats) []) as (Hnd & Hget & Hout). specialize (Hnd (NoDup_nil_2)).
  unfold row, extract_metrics. cbn [fst snd].
  match goal with |- context [dict_update ?a ?b] => set (cfg := a); set (m := b) end.
  opose proof* (validated_row cfg m (λ key, last_hit key (file_lines stats)) get_required_fields) as H;
    [reflexivity| |done|done| |].
  - apply (bool_decide_unpack _). vm_compute. done.
  - intros key Hk. unfold m. rewrite (Hget key Hk). by destruct (last_hit key (file_lines stats)).
  - by destruct (mapM _ metrics.*1) as [vs|].
Qed.
Lemma process_items_rows items acc :
  map (csv_row get_required_fields) (process_items items acc) =
  map (csv_row get_required_fields) acc ++ omap row (omap run_of items).
Proof.
  revert acc. induction items as [|[item st] items IH]; intros acc; cbn [process_items omap list_omap].
  { by rewrite (right_id_L [] (++)). }
  unfold run_of at 1. cbn [fst snd]. destruct st as [[stats|]|]; [|apply IH..]. cbn [mjoin option_join mbind option_bind].
  destruct (parse_directory_name item) as [config|] eqn:Hc; cbn [mbind option_bind].
  2: { destruct (startswith item _); apply IH. }
  assert (startswith item (t "m5out-hifive-") = true) as ->.
  { unfold parse_directory_name in Hc. apply bind_Some in Hc as (c & Hm & _).
    exact (match_lit2 (t "m5out-hifive") (t "-") _ item c Hm). }
  pose proof (hifive_row item config stats Hc) as Hrow. cbn [omap list_omap].
  destruct (row (config, stats)) as [r|].
  - destruct Hrow as (d & -> & <-). rewrite IH, map_app, <- app_assoc. done.
  - rewrite Hrow. apply IH.
Qed.
End HifiveSpec.
