(* ===== verification/M5StatsTheorems.v ===== *)
(** * The tables of the statistics scripts

    The tables hold, for every run in the directories they are given, the
    values of all metrics; the names the shell scripts give to the runs are
    read back; on files in the format of the simulator the two ways of reading
    a metric agree. *)

From Stdlib Require Import ZArith Lia Ascii.
From stdpp Require Import base numbers list strings pretty.
From S2P Require Import Prelude Args PyText M5Stats M5StatsLaws.

(** ** The names of the runs, as bvb-gem5-test-all.sh and bvb-align-sifive.sh build them *)
Definition config_name (dataset distance : text) (dim train test topk : N) : text :=
  t "-" ++ dataset ++ t "-" ++ distance ++ t "-" ++ dec dim ++ t "-" ++ dec train ++ t "-" ++ dec test ++
  t "-top" ++ dec topk.
Definition m5out_name (workload dataset distance : text) (dim train test topk : N) : text :=
  t "m5out-" ++ workload ++ config_name dataset distance dim train test topk.
Definition output_name (prefix : text) (vlen elen : N) : text :=
  prefix ++ t "output-vlen" ++ dec vlen ++ t "-elen" ++ dec elen.

Definition is_name (w : text) : Prop := w ≠ [] ∧ forallb is_word w = true.

Ltac match_step :=
  first
    [ apply step_lit
    | apply step_group; [first [apply dec_nonempty|done]|first [apply dec_digits|done]|done|]
    | apply step_group_last; [first [apply dec_nonempty|done]|first [apply dec_digits|done]|done|] ].

Lemma run_config {B} (k : text → caps → option B) dataset distance dim train test topk rest x :
  is_name dataset → is_name distance → stops is_digit rest →
  k rest [Some dataset; Some distance; Some (dec dim); Some (dec train); Some (dec test); Some (dec topk)] = Some x →
  run config_pattern k (config_name dataset distance dim train test topk ++ rest) = Some x.
Proof.
  intros [Hd1 Hd2] [He1 He2] Hrest Hk. unfold config_pattern, config_name, word1, digits1. rewrite <- !app_assoc.
  repeat match_step. exact Hk.
Qed.

(** One of the words of a group; a shorter word tried first fails at the dash. *)
Lemma taken (w s : text) : take (length (w ++ s) - length s) (w ++ s) = w.
Proof. rewrite length_app. replace (length w + length s - length s)%nat with (length w) by lia. apply take_app_length. Qed.

Lemma run_workload {B} (k : text → caps → option B) w s x :
  w ∈ [t "rv"; t "rvv"; t "hifive"] → (∀ a s' c, a ≠ "-"%char → k (a :: s') c = None) → k s [Some w] = Some x →
  run (Group (Or (Lit (t "rv")) (Or (Lit (t "rvv")) (Lit (t "hifive"))))) k (w ++ s) = Some x.
Proof.
  intros Hw Hno Hk. set (k' := λ s' c, k s' (Some (take (length (w ++ s) - length s') (w ++ s)) :: c)).
  assert (∀ r, run r k' (w ++ s) = Some x → run (Group r) k (w ++ s) = Some x) as Hgr by done. apply Hgr.
  assert (k' s [] = Some x) as Hk' by (unfold k'; by rewrite taken).
  apply elem_of_cons in Hw as [->|Hw]; [|apply elem_of_cons in Hw as [->|Hw]].
  - apply step_or_l. by rewrite run_lit.
  - apply step_or_r; [by apply Hno|]. apply step_or_l. by rewrite run_lit.
  - apply list_elem_of_singleton in Hw as ->. do 2 (apply step_or_r; [done|]). by rewrite run_lit.
Qed.

Lemma run_prefix {B} (r : re) (k : text → caps → option B) prefix s x :
  prefix ∈ [[]; t "rv-"; t "rvv-"] → (∃ a s', s = a :: s' ∧ a ≠ "-" ∧ a ≠ "r")%char →
  (∀ a s' k', (a = "v" ∨ a = "-")%char → run (B:=B) r k' (a :: s') = None) → run r k s = Some x →
  run (Cat (Opt (Or (Lit (t "rv")) (Lit (t "rvv")))) (Cat (Opt (Lit (t "-"))) r)) k (prefix ++ s) = Some x.
Proof.
  intros Hp (a & s' & -> & Ha & Hr) Hno Hk. rewrite run_cat.
  assert (∀ k', run (B:=B) (Lit (t "-")) k' (a :: s') = None) as Hdash.
  { intros k'. by apply (run_lit_ne "-"%char []). }
  apply elem_of_cons in Hp as [->|Hp]; [|apply elem_of_cons in Hp as [->|Hp]].
  - apply step_skip.
    + by apply run_or_none; apply (run_lit_ne "r"%char).
    + rewrite run_cat. by apply step_skip.
  - apply step_opt, step_or_l. rewrite (run_lit (t "rv") _ (t "-" ++ a :: s')). rewrite run_cat. apply step_opt. by rewrite run_lit.
  - apply list_elem_of_singleton in Hp as ->. apply step_opt, step_or_r.
    + rewrite (run_lit (t "rv") _ (t "v-" ++ a :: s')). cbn. rewrite Hno; [done|]. by left.
    + rewrite (run_lit (t "rvv") _ (t "-" ++ a :: s')). rewrite run_cat. apply step_opt. by rewrite run_lit.
Qed.

(** C35. Round trip of the names: the name of a run directory, for any word of
    a workload the script knows, any data set and distance name and any
    numbers, and whatever non-digit follows, is parsed into exactly these; and
    so is the name of the directory above it, with or without the prefix the
    shell scripts write. *)
Theorem directory_names_roundtrip (workload dataset distance prefix rest : text) (dim train test topk vlen elen : N) :
  workload ∈ [t "rv"; t "rvv"; t "hifive"] → is_name dataset → is_name distance → stops is_digit rest →
  prefix ∈ [[]; t "rv-"; t "rvv-"] →
  M5outRvv.parse_directory_name (m5out_name workload dataset distance dim train test topk ++ rest) =
    Some [(t "workload_type", workload); (t "dataset_type", dataset); (t "distance_type", distance);
          (t "dimension", dec dim); (t "num_points", dec train); (t "num_queries", dec test); (t "top_k", dec topk)] ∧
  M5outHifive.parse_directory_name (m5out_name (t "hifive") dataset distance dim train test topk ++ rest) =
    M5outRvv.parse_directory_name (m5out_name (t "hifive") dataset distance dim train test topk ++ rest) ∧
  M5outRvv.parse_parent_directory_name (output_name prefix vlen elen ++ rest) =
    Some [(t "vlen", dec vlen); (t "elen", dec elen)] ∧
  py_int (dec dim) = dim.
Proof.
  intros Hw Hd Hdist Hrest Hp.
  assert (∀ w, w ∈ [t "rv"; t "rvv"; t "hifive"] →
    re_match M5outRvv.pattern (m5out_name w dataset distance dim train test topk ++ rest) =
    Some [Some w; Some dataset; Some distance; Some (dec dim); Some (dec train); Some (dec test); Some (dec topk)]) as Hm.
  { intros w Hw'. unfold M5outRvv.pattern, m5out_name, re_match. rewrite <- !app_assoc. apply step_lit.
    rewrite run_cat. apply run_workload; [done| |by apply run_config].
    intros a s c Ha. by apply (run_lit_ne "-"%char []). }
  split_and!.
  - unfold M5outRvv.parse_directory_name. by rewrite Hm.
  - unfold M5outRvv.parse_directory_name. rewrite Hm by (by right; right; left). unfold M5outHifive.parse_directory_name.
    assert (re_match M5outHifive.pattern (m5out_name (t "hifive") dataset distance dim train test topk ++ rest) =
      Some [Some dataset; Some distance; Some (dec dim); Some (dec train); Some (dec test); Some (dec topk)]) as ->; [|done].
    unfold M5outHifive.pattern, re_match, m5out_name. rewrite <- !app_assoc.
    apply (step_lit (t "m5out-hifive")). by apply run_config.
  - unfold M5outRvv.parse_parent_directory_name.
    assert (re_match M5outRvv.parent_pattern (output_name prefix vlen elen ++ rest) = Some [Some (dec vlen); Some (dec elen)])
      as ->; [|done].
    unfold M5outRvv.parent_pattern, re_match, output_name, digits1. rewrite <- !app_assoc.
    apply run_prefix; [done|by eexists _, _| |by repeat match_step]. by intros a s k [-> | ->].
  - apply py_int_dec.
Qed.

Definition gem5_line (key value : text) : text := key ++ t "   " ++ value ++ t "  # desc" ++ [nl].
(** A complete file, every metric with the value [value]. *)
Definition gem5_stats (value : text) : text := concat (map (λ key, gem5_line key value) metrics.*1).
Definition run_8 : text := m5out_name (t "rvv") (t "random") (t "euclidean") 8 1000 100 10.

Lemma directory_names_roundtrip_witness :
  M5outRvv.parse_directory_name (run_8 ++ []) =
    Some [(t "workload_type", t "rvv"); (t "dataset_type", t "random"); (t "distance_type", t "euclidean");
          (t "dimension", dec 8); (t "num_points", dec 1000); (t "num_queries", dec 100); (t "top_k", dec 10)] ∧
  M5outHifive.parse_directory_name (m5out_name (t "hifive") (t "random") (t "euclidean") 8 1000 100 10 ++ []) =
    M5outRvv.parse_directory_name (m5out_name (t "hifive") (t "random") (t "euclidean") 8 1000 100 10 ++ []) ∧
  M5outRvv.parse_parent_directory_name (output_name (t "rvv-") 512 64 ++ []) =
    Some [(t "vlen", dec 512); (t "elen", dec 64)] ∧
  py_int (dec 8) = 8%N.
Proof.
  apply (directory_names_roundtrip (t "rvv") (t "random") (t "euclidean") (t "rvv-") []);
    [by right; left|done..|by right; right; left].
Defined.

(** C34. parse-m5out-rvv.py: over a directory tree, the script writes the table
    with one row per run (a directory with a parsed name and a [stats.txt],
    under a directory with a parsed name), in the order of the walk, holding the
    configuration and, for each metric, the second word of the last line that
    contains its name; no run, no table.  One file in which a metric is missing
    makes it raise a ValueError, one line that has a metric's name and no second
    word an IndexError, and then there is no table. *)
Theorem m5out_rvv_table (walk : list (text * list (text * option text))) :
  M5outRvv.process_results walk =
  (rs <- RvvSpec.rows (RvvSpec.runs walk) ;; Ok (as_table M5outRvv.get_required_fields rs)).
Proof.
  unfold M5outRvv.process_results. pose proof (RvvSpec.process_walk_rows walk []) as H.
  destruct (M5outRvv.process_walk walk []) as [d|e| |], (RvvSpec.rows (RvvSpec.runs walk)) as [rs|e'| |];
    cbn [res_bind map app] in *; try done; try by injection H as ->.
  rewrite csv_table_rows. by injection H as <-.
Qed.

(** parse-m5out-hifive.py writes the rows of the runs all of whose metrics
    it finds, as a number after the name standing alone in a line, and leaves
    out the other runs; it raises nothing. *)
Theorem m5out_hifive_table (items : list (text * option (option text))) :
  M5outHifive.process_results items =
  as_table M5outHifive.get_required_fields (omap HifiveSpec.row (omap HifiveSpec.run_of items)).
Proof. unfold M5outHifive.process_results. by rewrite csv_table_rows, HifiveSpec.process_items_rows. Qed.

(** A run of each: the second file has no value for one metric. *)
Definition short_stats : text := concat (map (λ key, gem5_line key (t "3.5")) (drop 1 metrics.*1)).
Lemma m5out_tables_run :
  M5outRvv.process_results [(t "rvv-output-vlen512-elen64", [(run_8, Some (gem5_stats (t "7")))])] =
    Ok (Some [M5outRvv.get_required_fields;
              [t "512"; t "64"; t "rvv"; t "random"; t "euclidean"; t "8"; t "1000"; t "100"; t "10"] ++
              replicate 28 (t "7")]) ∧
  M5outRvv.process_results [(t "rvv-output-vlen512-elen64",
      [(run_8, Some (gem5_stats (t "7"))); (run_8, Some short_stats)])] =
    Throw "ValueError: Missing required field" ∧
  (length <$> M5outHifive.process_results
     [(t "m5out-hifive-random-euclidean-8-1000-100-top10", Some (Some (gem5_stats (t "7"))));
      (t "m5out-hifive-random-euclidean-8-1000-100-top100", Some (Some short_stats))]) = Some 2%nat.
Proof. split_and!; vm_compute; done. Qed.

(** The two ways of reading a metric agree on files in the format of the
    simulator, where a line that contains the name of a metric starts with it,
    followed by a space and a number. *)
Theorem extractors_agree (stats : text) :
  (∀ line key, line ∈ file_lines stats → key ∈ metrics.*1 → py_in key line = true →
    startswith line (key ++ t " ") = true ∧
    ∃ value rest, split_words line = key :: value :: rest ∧ M5outHifive.is_number value = true) →
  M5outRvv.extract_metrics stats = Ok (M5outHifive.extract_metrics stats).
Proof.
  unfold M5outRvv.extract_metrics, M5outHifive.extract_metrics. generalize (@nil (text * text)) as d.
  induction (file_lines stats) as [|line lines IH]; intros d H; [done|]. cbn [scan_lines foldl].
  assert (scan_keys metrics_name line metrics.*1 d = Ok (M5outHifive.extract_line d line)) as ->.
  2: { cbn [res_bind]. apply IH. intros l key Hl. apply H. by right. }
  unfold M5outHifive.extract_line. assert (∀ key, key ∈ metrics.*1 → py_in key line = true →
    startswith line (key ++ t " ") = true ∧
    ∃ value rest, split_words line = key :: value :: rest ∧ M5outHifive.is_number value = true) as Hl.
  { intros key. apply H. by left. }
  clear H IH. revert d Hl. induction metrics.*1 as [|key keys IH]; intros d Hl; [done|]. cbn [scan_keys foldl].
  rewrite HifiveSpec.extract_key_hit. unfold scan_key, HifiveSpec.hit. destruct (py_in key line) eqn:Hin.
  - destruct (Hl key) as (-> & value & rest & -> & Hnum); [by left|done|]. cbn [orb M5outHifive.index_of].
    rewrite decide_True by done. cbn. rewrite Hnum. apply IH. intros k Hk. apply Hl. by right.
  - assert (startswith line (key ++ t " ") || py_in (t " " ++ key ++ t " ") line = false) as ->.
    2: { cbn [res_bind]. apply IH. intros k Hk. apply Hl. by right. }
    apply not_true_iff_false. intros Hs. apply not_true_iff_false in Hin. apply Hin, py_in_spec.
    apply orb_true_iff in Hs as [[r ->]%startswith_spec|(a & b & ->)%py_in_spec].
    + exists [], (t " " ++ r). by rewrite <- app_assoc.
    + exists (a ++ t " "), (t " " ++ b). by rewrite <- !app_assoc.
Qed.
Lemma extractors_agree_witness :
  M5outRvv.extract_metrics (gem5_line (t "simTicks") (t "81")) =
  Ok (M5outHifive.extract_metrics (gem5_line (t "simTicks") (t "81"))).
Proof.
  apply extractors_agree. intros line key Hl Hk Hin.
  change (file_lines _) with [gem5_line (t "simTicks") (t "81")] in Hl. apply list_elem_of_singleton in Hl as ->.
  assert (Forall (λ key, py_in key (gem5_line (t "simTicks") (t "81")) = true → key = t "simTicks") metrics.*1) as H.
  { apply (bool_decide_unpack _). vm_compute. done. }
  rewrite Forall_forall in H. rewrite (H key Hk Hin).
  split; [vm_compute; done|]. exists (t "81"), [t "#"; t "desc"]. split; vm_compute; done.
Defined.

(** ** merge_stats.py *)
Definition with_stats (sub : text * option text) : option (text * text) := stats ← sub.2; Some (sub.1, stats).
Definition merged_table (subs : list (text * text)) : table :=
  (t "metric" :: subs.*1) ::
  map (λ key, metrics_name key :: map (λ s, default (t "N/A") (last_value key (file_lines s.2))) subs) metrics.*1.
Definition all_readable (subs : list (text * text)) : Prop := Forall (λ s, readable (file_lines s.2) = true) subs.

Lemma dict_set_fresh {K A} `{EqDecision K} (d : dict K A) k v : k ∉ d.*1 → dict_set d k v = d ++ [(k, v)].
Proof.
  induction d as [|[k0 v0] d IH]; [done|]. change (((k0, v0) :: d).*1) with (k0 :: d.*1).
  intros [Hk Hd]%not_elem_of_cons. cbn [dict_set app]. rewrite decide_False by done. by rewrite IH.
Qed.
Lemma merge_dir_ok subs acc :
  NoDup (acc.*1 ++ subs.*1) → all_readable (omap with_stats subs) →
  ∃ ds, MergeStats.merge_dir subs acc = Ok (acc ++ zip (omap with_stats subs).*1 ds) ∧
    Forall2 (λ s d, ∀ key, key ∈ metrics.*1 → dict_get d key = last_value key (file_lines s.2)) (omap with_stats subs) ds.
Proof.
  revert acc. induction subs as [|[sub st] subs IH]; intros acc Hnd Hr.
  { exists []. cbn. by rewrite (right_id_L [] (++)). }
  change (((sub, st) :: subs).*1) with (sub :: subs.*1) in Hnd. destruct st as [stats|]; cbn [MergeStats.merge_dir].
  - change (omap with_stats ((sub, Some stats) :: subs)) with ((sub, stats) :: omap with_stats subs) in *.
    apply Forall_cons in Hr as [Hr Hrs]. cbn [snd] in Hr.
    destruct (scan_lines_ok id ltac:(done) (file_lines stats) [] Hr) as (d & Hd & _ & Hget & _).
    unfold MergeStats.extract_metrics. rewrite Hd. cbn [res_bind].
    assert (sub ∉ acc.*1) as Hfresh.
    { apply NoDup_app in Hnd as (_ & Hdisj & _). intros Hin. apply (Hdisj sub Hin). by left. }
    rewrite dict_set_fresh by done. destruct (IH (acc ++ [(sub, d)])) as (ds & -> & Hds); [|done|].
    { rewrite fmap_app, <- app_assoc. exact Hnd. }
    exists (d :: ds). split; [by rewrite <- app_assoc|]. constructor; [|done]. intros key Hk. cbn [snd].
    pose proof (Hget key Hk) as Hv. cbn [id] in Hv. rewrite Hv. by destruct (last_value key (file_lines stats)).
  - change (omap with_stats ((sub, None) :: subs)) with (omap with_stats subs) in *. apply IH; [|done].
    apply NoDup_app in Hnd as (H1 & H2 & [_ H3]%NoDup_cons). apply NoDup_app. split_and!; [done| |done].
    intros x Hx Hin. apply (H2 x Hx). by right.
Qed.

(** merge_stats.py: for each directory whose files can be read, a table with
    a column per subdirectory that has a [stats.txt] and a row per metric, whose
    cell is the second word of the last line that contains the metric's name,
    or N/A when there is no such line. *)
Theorem merge_stats_tables (dirs : list (text * list (text * option text))) (written : list (text * table)) :
  Forall (λ d, NoDup d.2.*1 ∧ all_readable (omap with_stats d.2)) dirs →
  MergeStats.merge_results dirs written =
  (written ++ map (λ d, (d.1, merged_table (omap with_stats d.2))) dirs, Ok tt).
Proof.
  intros H. revert written. induction H as [|[dir subs] dirs [Hnd Hr] _ IH]; intros written.
  { cbn. by rewrite (right_id_L [] (++)). }
  cbn [MergeStats.merge_results]. destruct (merge_dir_ok subs [] Hnd Hr) as (ds & Hrun & Hds).
  rewrite (eff_bind_lift (λ _, MergeStats.merge_dir subs []) _ _ _ Hrun). erewrite eff_bind_ok by done.
  rewrite IH, <- app_assoc. cbn [map app fst snd]. do 4 f_equal.
  unfold MergeStats.write_to_csv, merged_table. rewrite fst_zip by (apply Forall2_length in Hds; rewrite length_fmap; lia).
  f_equal. apply map_ext_in. intros key Hk%list_elem_of_In. f_equal.
  clear -Hds Hk. induction Hds as [|s d ss ds Hsd _ IH]; [done|].
  cbn [fmap list_fmap zip zip_with map fst snd]. f_equal; [by rewrite (Hsd key Hk)|exact IH].
Qed.
Lemma merge_stats_tables_witness :
  MergeStats.merge_results [(t "RVVCore", [(t "a", Some (gem5_line (t "simTicks") (t "81"))); (t "b", None)])] [] =
  ([] ++ map (λ d, (d.1, merged_table (omap with_stats d.2)))
     [(t "RVVCore", [(t "a", Some (gem5_line (t "simTicks") (t "81"))); (t "b", None)])], Ok tt).
Proof.
  apply merge_stats_tables. apply Forall_singleton. split; [apply (bool_decide_unpack _); vm_compute; done|].
  apply Forall_singleton. vm_compute. done.
Defined.
