(* ===== verification/BenchLogs.v ===== *)
(** * script/: the logs of the benchmark

    parse-random-logs.py and parse-agnews-logs.py average the times that
    hnsw_search prints, parse-random-recall.py and parse-agnews-recall.py its
    recall, over the log files of the shell scripts.

    A script is given the path of its argument and the files it finds there
    (the members of the archive, or the files of the directory tree with their
    paths), each with its text, in the order it meets them; it returns the name
    of the file it writes and its rows. *)

From Stdlib Require Import ZArith Lia Ascii.
From stdpp Require Import base numbers list strings pretty sorting.
From S2P Require Import Prelude Args PyText M5Stats.
#[local] Open Scope N_scope.

(** ** Order of the keys: strings by their characters, numbers, tuples *)
Fixpoint text_le (a b : text) : bool :=
  match a, b with
  | [], _ => true
  | _ :: _, [] => false
  | x :: a, y :: b =>
      match N_of_ascii x ?= N_of_ascii y with Lt => true | Gt => false | Eq => text_le a b end
  end.
Fixpoint nums_le (a b : list N) : bool :=
  match a, b with
  | [], _ => true
  | _ :: _, [] => false
  | x :: a, y :: b => match x ?= y with Lt => true | Gt => false | Eq => nums_le a b end
  end.
(** A tuple of a string and numbers; the number of components is fixed in each script. *)
Definition key : Type := text * list N.
Definition key_le (a b : key) : bool := if decide (a.1 = b.1) then nums_le a.2 b.2 else text_le a.1 b.1.

(** [sorted(results.items(), key=...)] *)
Definition item_le {A} (x y : key * A) : Prop := key_le x.1 y.1 = true.
#[export] Instance item_le_dec {A} : RelDecision (item_le (A:=A)).
Proof. intros x y. unfold item_le. apply _. Defined.
Definition sorted_items {A} (d : dict key A) : dict key A := merge_sort item_le d.

Section scripts.
Context `{PS : PySum}.

(** [sum(l) / len(l)] *)
Definition average (l : list float64) : res float64 :=
  match l with [] => Throw "ZeroDivisionError" | _ => Ok (fdiv_len (py_sum l) (length l)) end.

(** [float(s)] and the subscripts of the scripts *)
Definition to_float (s : text) : res float64 := match py_float s with Some v => Ok v | None => Throw "ValueError" end.
Definition subscript (l : list text) (i : nat) : res text := match l !! i with Some w => Ok w | None => Throw "IndexError" end.

(** ** The times of a log: the same function in both scripts *)
Definition time_of (line : text) : res float64 :=
  field <- subscript (split_on ":" line) 1 ;; w <- subscript (split_words (strip field)) 0 ;; to_float w.
Definition times : Type := option float64 * option float64.
Definition parse_line (line : text) (ts : times) : res times :=
  if py_in (t "Time to create index:") line then v <- time_of line ;; Ok (Some v, ts.2)
  else if py_in (t "Time to search:") line then v <- time_of line ;; Ok (ts.1, Some v)
  else Ok ts.
Fixpoint parse_lines (lines : list text) (ts : times) : res times :=
  match lines with [] => Ok ts | line :: lines => ts <- parse_line line ts ;; parse_lines lines ts end.
Definition parse_log_file (file_content : text) : res times := parse_lines (split_on nl file_content) (None, None).

(** The lists of a key: [index_times] and [search_times]. *)
Definition lists : Type := list float64 * list float64.
Definition results : Type := dict key lists.
Definition at_key (r : results) (k : key) : lists := default ([], []) (dict_get r k).
Definition add_times (r : results) (k : key) (ts : times) : results :=
  let r := match ts.1 with Some v => dict_set r k ((at_key r k).1 ++ [v], (at_key r k).2) | None => r end in
  match ts.2 with Some v => dict_set r k ((at_key r k).1, (at_key r k).2 ++ [v]) | None => r end.

(** What the scripts make of the path they are given. *)
Definition model_of (input_path : text) : text :=
  let base_name := basename (rstrip_slash input_path) in
  let base_name := if endswith base_name (t ".tar.gz") then take (length base_name - 7) base_name else base_name in
  if py_in (t "-") base_name then default [] (split_on "-" base_name !! 1%nat) else t "unknown".

(** Alternatives of literals: [w1|...|wn]. *)
Fixpoint words (ws : list text) : re :=
  match ws with [] => Lit [] | [w] => Lit w | w :: ws => Or (Lit w) (words ws) end.
End scripts.

(** ** parse-random-logs.py *)
Module RandomLogs.
Section script.
Context `{PS : PySum}.

(** [(rvv|rv|base|avx|avx512|sse|sse4|hifive)-random-euclidean-(\d+)-1000-100-top(\d+)(-run\d+)?\.log] *)
Definition workloads : list text :=
  [t "rvv"; t "rv"; t "base"; t "avx"; t "avx512"; t "sse"; t "sse4"; t "hifive"].
Definition pattern : re :=
  Cat (Group (words workloads)) (Cat (Lit (t "-random-euclidean-")) (Cat digits1 (Cat (Lit (t "-1000-100-top"))
    (Cat digits1 (Cat (Opt (Group (Cat (Lit (t "-run")) (Plus is_digit)))) (Lit (t ".log"))))))).

(** The body of both loops: [name] is searched for the pattern. *)
Definition process (name file_content : text) (r : results) : res results :=
  match re_search pattern name with
  | Some c =>
      ts <- parse_log_file file_content ;;
      Ok (add_times r (group c 1, [py_int (group c 2); py_int (group c 3)]) ts)
  | None => Ok r
  end.
Definition process_file (file_path file_content : text) (r : results) : res results :=
  if endswith file_path (t ".log") then process (basename file_path) file_content r else Ok r.
Fixpoint process_files (files : list (text * text)) (r : results) : res results :=
  match files with
  | [] => Ok r
  | (file_path, content) :: files => r <- process_file file_path content r ;; process_files files r
  end.
Fixpoint process_tar (members : list (text * text)) (r : results) : res results :=
  match members with
  | [] => Ok r
  | (name, content) :: members =>
      r <- (if endswith name (t ".log") then process name content r else Ok r) ;; process_tar members r
  end.

Definition header : list text :=
  [t "workload_type"; t "dimension"; t "topk"; t "avg_index_time(ms)"; t "avg_search_time(ms)"].
Fixpoint write_rows (sorted_results : results) : res table :=
  match sorted_results with
  | [] => Ok []
  | ((workload_type, nums), ts) :: rest =>
      avg_index <- average ts.1 ;; avg_search <- average ts.2 ;;
      rows <- write_rows rest ;;
      Ok ((workload_type :: map dec nums ++ [fmt3 avg_index; fmt3 avg_search]) :: rows)
  end.
Definition main (input_path : text) (files : list (text * text)) : res (text * table) :=
  r <- (if endswith input_path (t ".tar.gz") then process_tar files [] else process_files files []) ;;
  rows <- write_rows (sorted_items r) ;;
  Ok (t "results-" ++ model_of input_path ++ t ".csv", header :: rows).
End script.
End RandomLogs.

(** ** What the two scripts for the AG News data share *)
Module Agnews.
(** [(rvv|rv|base|avx|avx512|sse|sse42)-M(\d+)-ef(\d+)-run\d+\.log] *)
Definition workloads : list text := [t "rvv"; t "rv"; t "base"; t "avx"; t "avx512"; t "sse"; t "sse42"].
Definition pattern : re :=
  Cat (Group (words workloads)) (Cat (Lit (t "-M")) (Cat digits1 (Cat (Lit (t "-ef")) (Cat digits1
    (Cat (Lit (t "-run")) (Cat (Plus is_digit) (Lit (t ".log")))))))).
Definition dim_pattern : re := Cat (Lit (t "Dataset Dimension: ")) digits1.
Definition topk_pattern : re := Cat (Lit (t "Dataset topk: ")) digits1.
(** The key of a log, when its text has a dimension and a [topk]. *)
Definition key_of (c : caps) (file_content : text) : option key :=
  d ← re_search dim_pattern file_content; k ← re_search topk_pattern file_content;
  Some (group c 1, [py_int (group d 1); py_int (group k 1); py_int (group c 2); py_int (group c 3)]).
End Agnews.

(** ** parse-agnews-logs.py *)
Module AgnewsLogs.
Section script.
Context `{PS : PySum}.

Definition process (name file_content : text) (r : results) : res results :=
  match re_search Agnews.pattern name with
  | Some c =>
      ts <- parse_log_file file_content ;;
      Ok (match Agnews.key_of c file_content with Some k => add_times r k ts | None => r end)
  | None => Ok r
  end.
Definition process_file (file_path file_content : text) (r : results) : res results :=
  if endswith file_path (t ".log") then process (basename file_path) file_content r else Ok r.
Fixpoint process_files (files : list (text * text)) (r : results) : res results :=
  match files with
  | [] => Ok r
  | (file_path, content) :: files => r <- process_file file_path content r ;; process_files files r
  end.
Fixpoint process_tar (members : list (text * text)) (r : results) : res results :=
  match members with
  | [] => Ok r
  | (name, content) :: members =>
      r <- (if endswith name (t ".log") then process name content r else Ok r) ;; process_tar members r
  end.

Definition header : list text :=
  [t "workload_type"; t "dimension"; t "topk"; t "M"; t "ef"; t "avg_index_time(ms)"; t "avg_search_time(ms)"].
Fixpoint write_rows (sorted_results : results) : res table :=
  match sorted_results with
  | [] => Ok []
  | (_, ([], _)) :: rest | (_, (_, [])) :: rest => write_rows rest
  | ((workload_type, nums), ts) :: rest =>
      avg_index <- average ts.1 ;; avg_search <- average ts.2 ;;
      rows <- write_rows rest ;;
      Ok ((workload_type :: map dec nums ++ [fmt3 avg_index; fmt3 avg_search]) :: rows)
  end.
Definition main (input_path : text) (files : list (text * text)) : res (text * table) :=
  r <- (if endswith input_path (t ".tar.gz") then process_tar files [] else process_files files []) ;;
  rows <- write_rows (sorted_items r) ;;
  Ok (t "results-" ++ model_of input_path ++ t "-ag_news.csv", header :: rows).
End script.
End AgnewsLogs.

(** ** The recall of a log: the same function in both scripts *)
(** [Recall@\d+: ([\d.]+)%] *)
Definition recall_pattern : re :=
  Cat (Lit (t "Recall@")) (Cat (Plus is_digit) (Cat (Lit (t ": "))
    (Cat (Group (Plus (λ c, is_digit c || Ascii.eqb c "."))) (Lit (t "%"))))).
Fixpoint recall_lines (lines : list text) (recall : option float64) : res (option float64) :=
  match lines with
  | [] => Ok recall
  | line :: lines =>
      match re_search recall_pattern line with
      | Some c => v <- to_float (group c 1) ;; recall_lines lines (Some v)
      | None => recall_lines lines recall
      end
  end.
Definition parse_recall_file (file_content : text) : res (option float64) := recall_lines (split_on nl file_content) None.
Definition recalls : Type := dict key (list float64).
Definition add_recall (r : recalls) (k : key) (recall : option float64) : recalls :=
  match recall with Some v => dict_set r k (default [] (dict_get r k) ++ [v]) | None => r end.

(** ** parse-random-recall.py *)
Module RandomRecall.
Section script.
Context `{PS : PySum}.

(** [sse42-random-euclidean-(\d+)-1000-100-top(\d+)-run\d+\.log] *)
Definition pattern : re :=
  Cat (Lit (t "sse42-random-euclidean-")) (Cat digits1 (Cat (Lit (t "-1000-100-top")) (Cat digits1
    (Cat (Lit (t "-run")) (Cat (Plus is_digit) (Lit (t ".log"))))))).
(** Files and members of the archive alike; the key has no string. *)
Definition process_file (file_path file_content : text) (r : recalls) : res recalls :=
  if endswith file_path (t ".log") then
    match re_search pattern (basename file_path) with
    | Some c =>
        recall <- parse_recall_file file_content ;;
        Ok (add_recall r ([], [py_int (group c 1); py_int (group c 2)]) recall)
    | None => Ok r
    end
  else Ok r.
Fixpoint process_files (files : list (text * text)) (r : recalls) : res recalls :=
  match files with
  | [] => Ok r
  | (file_path, content) :: files => r <- process_file file_path content r ;; process_files files r
  end.
Definition header : list text := [t "dimension"; t "topk"; t "avg_recall(%)"].
Fixpoint write_rows (sorted_results : recalls) : res table :=
  match sorted_results with
  | [] => Ok []
  | ((_, nums), data) :: rest =>
      avg_recall <- match data with [] => Ok (t "0.000") | _ => v <- average data ;; Ok (fmt3 v) end ;;
      rows <- write_rows rest ;;
      Ok ((map dec nums ++ [avg_recall]) :: rows)
  end.
Definition main (files : list (text * text)) : res (text * table) :=
  r <- process_files files [] ;; rows <- write_rows (sorted_items r) ;;
  Ok (t "recall-random-M8-ef200.csv", header :: rows).
End script.
End RandomRecall.

(** ** parse-agnews-recall.py *)
Module AgnewsRecall.
Section script.
Context `{PS : PySum}.

Definition process (name file_content : text) (r : recalls) : res recalls :=
  match re_search Agnews.pattern name with
  | Some c =>
      recall <- parse_recall_file file_content ;;
      Ok (match Agnews.key_of c file_content with Some k => add_recall r k recall | None => r end)
  | None => Ok r
  end.
Definition process_file (file_path file_content : text) (r : recalls) : res recalls :=
  if endswith file_path (t ".log") then process (basename file_path) file_content r else Ok r.
Fixpoint process_files (files : list (text * text)) (r : recalls) : res recalls :=
  match files with
  | [] => Ok r
  | (file_path, content) :: files => r <- process_file file_path content r ;; process_files files r
  end.
Fixpoint process_tar (members : list (text * text)) (r : recalls) : res recalls :=
  match members with
  | [] => Ok r
  | (name, content) :: members =>
      r <- (if endswith name (t ".log") then process name content r else Ok r) ;; process_tar members r
  end.
Definition header : list text := [t "workload_type"; t "dimension"; t "topk"; t "M"; t "ef"; t "avg_recall(%)"].
Fixpoint write_rows (sorted_results : recalls) : res table :=
  match sorted_results with
  | [] => Ok []
  | (_, []) :: rest => write_rows rest
  | ((workload_type, nums), data) :: rest =>
      avg_recall <- average data ;; rows <- write_rows rest ;;
      Ok ((workload_type :: map dec nums ++ [fmt3 avg_recall]) :: rows)
  end.
Definition main (input_path : text) (files : list (text * text)) : res (text * table) :=
  r <- (if endswith input_path (t ".tar.gz") then process_tar files [] else process_files files []) ;;
  rows <- write_rows (sorted_items r) ;;
  Ok (t "recall-" ++ model_of input_path ++ t ".csv", header :: rows).
End script.
End AgnewsRecall.
