(* ===== verification/BenchLogsLaws.v ===== *)
(** * What the log scripts compute: grouping, order and averages *)

From Stdlib Require Import ZArith Lia Ascii.
From stdpp Require Import base numbers list strings pretty sorting.
From S2P Require Import Prelude Args PyText M5Stats M5StatsLaws BenchLogs.
#[local] Open Scope N_scope.

(** ** The order of the keys *)
Lemma nums_le_total a b : nums_le a b = true ∨ nums_le b a = true.
Proof.
  revert b. induction a as [|x a IH]; intros [|y b]; simpl; auto.
  rewrite (N.compare_antisym x y). destruct (x ?= y); simpl; auto.
Qed.
Lemma nums_le_trans a b c : nums_le a b = true → nums_le b c = true → nums_le a c = true.
Proof.
  revert b c. induction a as [|x a IH]; intros [|y b] [|z c]; simpl; try done.
  destruct (N.compare_spec x y), (N.compare_spec y z), (N.compare_spec x z); subst; try done; try lia. apply IH.
Qed.
Lemma text_le_total a b : text_le a b = true ∨ text_le b a = true.
Proof.
  revert b. induction a as [|x a IH]; intros [|y b]; simpl; auto.
  rewrite (N.compare_antisym (N_of_ascii x)). destruct (N_of_ascii x ?= N_of_ascii y); simpl; auto.
Qed.
Lemma text_le_trans a b c : text_le a b = true → text_le b c = true → text_le a c = true.
Proof.
  revert b c. induction a as [|x a IH]; intros [|y b] [|z c]; simpl; try done.
  destruct (N.compare_spec (N_of_ascii x) (N_of_ascii y)), (N.compare_spec (N_of_ascii y) (N_of_ascii z)),
    (N.compare_spec (N_of_ascii x) (N_of_ascii z)); try done; try lia. apply IH.
Qed.
Lemma text_le_antisym a b : text_le a b = true → text_le b a = true → a = b.
Proof.
  revert b. induction a as [|x a IH]; intros [|y b]; simpl; try done.
  rewrite (N.compare_antisym (N_of_ascii x)). destruct (N.compare_spec (N_of_ascii x) (N_of_ascii y)) as [E| |]; try done.
  simpl. intros H1 H2. f_equal; [|by apply IH]. rewrite <- (ascii_N_embedding x), <- (ascii_N_embedding y). by rewrite E.
Qed.
#[export] Instance item_le_total {A} : Total (item_le (A:=A)).
Proof.
  intros [k1 v1] [k2 v2]. unfold item_le, key_le. simpl. destruct (decide (k1.1 = k2.1)) as [E|E].
  - rewrite E. rewrite decide_True by done. apply nums_le_total.
  - rewrite decide_False by congruence. apply text_le_total.
Qed.
#[export] Instance item_le_trans {A} : Transitive (item_le (A:=A)).
Proof.
  intros [k1 v1] [k2 v2] [k3 v3]. unfold item_le, key_le. simpl.
  destruct (decide (k1.1 = k2.1)) as [E1|E1], (decide (k2.1 = k3.1)) as [E2|E2], (decide (k1.1 = k3.1)) as [E3|E3];
    try congruence.
  - apply nums_le_trans.
  - intros H1 H2. destruct E1. rewrite <- E3 in H2. by apply text_le_antisym.
  - apply text_le_trans.
Qed.
Lemma sorted_items_perm {A} (d : dict key A) : sorted_items d ≡ₚ d.
Proof. apply merge_sort_Permutation. Qed.
Lemma sorted_items_sorted {A} (d : dict key A) : StronglySorted (λ k1 k2, key_le k1 k2 = true) (sorted_items d).*1.
Proof.
  assert (StronglySorted item_le (sorted_items d)) as H by (apply StronglySorted_merge_sort; apply _).
  induction H as [|x l _ IH Hx]; [constructor|]. cbn. constructor; [done|]. by apply Forall_fmap.
Qed.

(** ** Grouping by key *)
Definition entry : Type := key * times.
(** The times of a key, in the order of the files. *)
Definition collected (es : list entry) (k : key) : lists :=
  (omap (λ e, if decide (e.1 = k) then e.2.1 else None) es, omap (λ e, if decide (e.1 = k) then e.2.2 else None) es).
Definition add_entries (es : list entry) (r : results) : results := foldl (λ r e, add_times r e.1 e.2) r es.

Definition olist {A} (o : option A) : list A := match o with Some x => [x] | None => [] end.
Definition timed (ts : times) : bool := match ts with (None, None) => false | _ => true end.
Lemma at_key_set (r : results) k x : at_key (dict_set r k x) k = x.
Proof. unfold at_key. by rewrite dict_get_set, decide_True. Qed.
Lemma add_times_get r k ts k' :
  dict_get (add_times r k ts) k' =
  if decide (k' = k ∧ timed ts = true) then
    Some ((at_key r k).1 ++ olist ts.1, (at_key r k).2 ++ olist ts.2)
  else dict_get r k'.
Proof.
  destruct ts as [[v|] [w|]]; unfold add_times; cbn [fst snd olist]; rewrite ?(right_id_L [] (++)).
  - rewrite !at_key_set, !dict_get_set. destruct (decide (k' = k)) as [->|Hne].
    + by rewrite !decide_True.
    + by rewrite decide_False by tauto.
  - rewrite dict_get_set. destruct (decide (k' = k)) as [->|Hne]; [by rewrite decide_True|by rewrite decide_False by tauto].
  - rewrite dict_get_set. destruct (decide (k' = k)) as [->|Hne]; [by rewrite decide_True|by rewrite decide_False by tauto].
  - by rewrite decide_False by (intros [_ ?]; done).
Qed.
Lemma add_times_NoDup r k ts : NoDup r.*1 → NoDup (add_times r k ts).*1.
Proof. intros Hr. unfold add_times. destruct ts.1, ts.2; auto using dict_set_NoDup. Qed.
Lemma collected_cons e es k :
  collected (e :: es) k =
  if decide (e.1 = k) then (olist e.2.1 ++ (collected es k).1, olist e.2.2 ++ (collected es k).2) else collected es k.
Proof. destruct e as [k0 [o1 o2]]. unfold collected. cbn. by destruct (decide (k0 = k)), o1, o2. Qed.

Definition never (l : lists) : Prop := l = ([], []).
Lemma add_entries_at es r k :
  at_key (add_entries es r) k = ((at_key r k).1 ++ (collected es k).1, (at_key r k).2 ++ (collected es k).2).
Proof.
  revert r. induction es as [|e es IH]; intros r; cbn [add_entries foldl].
  { cbn. rewrite !(right_id_L [] (++)). by destruct (at_key r k). }
  change (foldl _ ?r es) with (add_entries es r). rewrite IH, collected_cons.
  assert (at_key (add_times r e.1 e.2) k = if decide (e.1 = k) then
    ((at_key r k).1 ++ olist e.2.1, (at_key r k).2 ++ olist e.2.2) else at_key r k) as ->.
  { destruct e as [k0 ts]. cbn [fst snd]. unfold at_key at 1. rewrite add_times_get.
    destruct (decide (k0 = k)) as [->|Hne]; [|by rewrite decide_False by (intros [? _]; congruence)].
    destruct (decide (k = k ∧ timed ts = true)) as [|Hn]; [done|].
    destruct ts as [[] []]; try by destruct Hn.
    cbn [fst snd olist]. rewrite !(right_id_L [] (++)). by destruct (at_key r k) as [? ?] eqn:E; unfold at_key in E. }
  destruct (decide (e.1 = k)); [|done]. cbn [fst snd]. by rewrite <- !app_assoc.
Qed.
Lemma add_entries_keys es r : NoDup r.*1 → (∀ k v, dict_get r k = Some v → ¬ never v) →
  NoDup (add_entries es r).*1 ∧ ∀ k v, dict_get (add_entries es r) k = Some v → ¬ never v.
Proof.
  revert r. induction es as [|e es IH]; intros r Hnd Hv; [done|]. apply IH; [by apply add_times_NoDup|].
  intros k v. rewrite add_times_get. destruct (decide _) as [[-> Hn]|]; [|by apply Hv]. intros [= <-] [E1 E2]%pair_eq.
  apply app_eq_nil in E1 as [_ E1]. apply app_eq_nil in E2 as [_ E2]. by destruct (e.2) as [[] []].
Qed.

(** The results of a list of entries: one item per key that has a time. *)
Lemma results_spec es :
  let r := add_entries es [] in
  NoDup r.*1 ∧ (∀ k, k ∈ r.*1 ↔ ¬ never (collected es k)) ∧ ∀ k v, (k, v) ∈ r → v = collected es k.
Proof.
  intros r. destruct (add_entries_keys es []) as [Hnd Hv]; [constructor|done|]. fold r in Hnd, Hv.
  assert (∀ k, at_key r k = collected es k) as Hat.
  { intros k. unfold r. rewrite add_entries_at. by destruct (collected es k). }
  assert (∀ k v, (k, v) ∈ r → v = collected es k) as Hin.
  { intros k v Hkv. apply dict_get_elem in Hkv; [|done]. rewrite <- Hat. unfold at_key. by rewrite Hkv. }
  split_and!; [done| |done]. intros k. split.
  - intros ([k' v] & -> & Hkv)%list_elem_of_fmap. cbn [fst]. rewrite <- (Hin _ _ Hkv).
    apply dict_get_elem in Hkv; [|done]. by eapply Hv.
  - intros Hn. destruct (decide (k ∈ r.*1)) as [|Hk]; [done|]. apply dict_get_keys in Hk. destruct Hn.
    rewrite <- Hat. unfold at_key. by rewrite Hk.
Qed.
