(* ===== verification/BenchLogsTheorems.v ===== *)
(** * The tables of the log scripts

    A table has one row per key with times, in the order of the keys, with the
    averages of all times of that key; the names the shell scripts give to the
    logs and the lines the benchmark prints are read back. *)

From Stdlib Require Import ZArith Lia Ascii.
From stdpp Require Import base numbers list strings pretty sorting.
From S2P Require Import Prelude Args PyText M5Stats M5StatsLaws M5StatsTheorems BenchLogs BenchLogsLaws.
#[local] Open Scope N_scope.

(** ** What a file contributes *)
Section gather.
Variable entry_of : text * text → res (list entry).
Fixpoint gather (files : list (text * text)) : res (list entry) :=
  match files with [] => Ok [] | f :: files => es <- entry_of f ;; rest <- gather files ;; Ok (es ++ rest) end.
Variable loop : list (text * text) → results → res results.
Hypothesis loop_nil : ∀ r, loop [] r = Ok r.
Hypothesis loop_cons : ∀ f files r, loop (f :: files) r = (es <- entry_of f ;; loop files (add_entries es r)).
Lemma loop_gather files : ∀ r, loop files r = (es <- gather files ;; Ok (add_entries es r)).
Proof.
  induction files as [|f files IH]; intros r; [apply loop_nil|]. rewrite loop_cons. cbn [gather].
  destruct (entry_of f) as [es| | |]; try done. cbn [res_bind]. rewrite IH. destruct (gather files); try done.
  cbn [res_bind]. unfold add_entries. by rewrite foldl_app.
Qed.
End gather.

(** The keys of a table, and its rows. *)
Definition keys_of (es : list entry) : list key := (sorted_items (add_entries es [])).*1.
Definition both (l : lists) : bool := match l with (_ :: _, _ :: _) => true | _ => false end.

Lemma keys_of_spec es :
  NoDup (keys_of es) ∧ StronglySorted (λ k1 k2, key_le k1 k2 = true) (keys_of es) ∧
  ∀ k, k ∈ keys_of es ↔ ¬ never (collected es k).
Proof.
  destruct (results_spec es) as (Hnd & Hk & _). pose proof (sorted_items_perm (add_entries es [])) as Hp.
  split_and!; [|apply sorted_items_sorted|].
  - unfold keys_of. by rewrite Hp.
  - intros k. unfold keys_of. rewrite Hp. apply Hk.
Qed.
Lemma items_of es : sorted_items (add_entries es []) = map (λ k, (k, collected es k)) (keys_of es).
Proof.
  destruct (results_spec es) as (_ & _ & Hv). unfold keys_of.
  assert (Forall (λ x, x.2 = collected es x.1) (sorted_items (add_entries es []))) as H.
  { apply Forall_forall. intros [k v] Hin. rewrite sorted_items_perm in Hin. by apply Hv. }
  induction H as [|[k v] l Hx _ IH]; [done|]. cbn in *. by rewrite <- IH, Hx.
Qed.

Section tables.
Context `{PS : PySum}.
Definition mean (l : list float64) : float64 := fdiv_len (py_sum l) (length l).
Definition time_row (es : list entry) (k : key) : list text :=
  k.1 :: map dec k.2 ++ [fmt3 (mean (collected es k).1); fmt3 (mean (collected es k).2)].

(** ** parse-random-logs.py *)
Definition random_entry (name_of : text → text) (f : text * text) : res (list entry) :=
  if endswith f.1 (t ".log") then
    match re_search RandomLogs.pattern (name_of f.1) with
    | Some c => ts <- parse_log_file f.2 ;; Ok [((group c 1, [py_int (group c 2); py_int (group c 3)]), ts)]
    | None => Ok []
    end
  else Ok [].
Definition name_in (input_path : text) : text → text := if endswith input_path (t ".tar.gz") then id else basename.

Lemma random_files_gather files r :
  RandomLogs.process_files files r = (es <- gather (random_entry basename) files ;; Ok (add_entries es r)).
Proof.
  revert r. apply loop_gather; [done|]. intros [p c] fs r. cbn [RandomLogs.process_files].
  unfold RandomLogs.process_file, RandomLogs.process, random_entry. cbn [fst snd].
  destruct (endswith p _); [|done]. destruct (re_search _ _); [|done]. by destruct (parse_log_file c).
Qed.
Lemma random_tar_gather files r :
  RandomLogs.process_tar files r = (es <- gather (random_entry id) files ;; Ok (add_entries es r)).
Proof.
  revert r. apply loop_gather; [done|]. intros [p c] fs r. cbn [RandomLogs.process_tar].
  unfold RandomLogs.process, random_entry. cbn [fst snd id].
  destruct (endswith p _); [|done]. destruct (re_search _ _); [|done]. by destruct (parse_log_file c).
Qed.
Lemma random_write_rows es ks :
  RandomLogs.write_rows (map (λ k, (k, collected es k)) ks) =
  if forallb (λ k, both (collected es k)) ks then Ok (map (time_row es) ks) else Throw "ZeroDivisionError".
Proof.
  induction ks as [|[w ns] ks IH]; [done|]. cbn [map RandomLogs.write_rows forallb]. rewrite IH. unfold time_row at 2, mean.
  destruct (collected es (w, ns)) as [[|x xs] [|y ys]]; try done. cbn [both andb average res_bind fst snd].
  by destruct (forallb _ ks).
Qed.

Definition random_table (input_path : text) (es : list entry) : res (text * table) :=
  if forallb (λ k, both (collected es k)) (keys_of es)
  then Ok (t "results-" ++ model_of input_path ++ t ".csv", RandomLogs.header :: map (time_row es) (keys_of es))
  else Throw "ZeroDivisionError".
Lemma random_main input_path files :
  RandomLogs.main input_path files =
  (es <- gather (random_entry (name_in input_path)) files ;; random_table input_path es).
Proof.
  unfold RandomLogs.main, name_in.
  assert (∀ m : res (list entry),
    (r <- (es <- m ;; Ok (add_entries es [])) ;; rows <- RandomLogs.write_rows (sorted_items r) ;;
     Ok (t "results-" ++ model_of input_path ++ t ".csv", RandomLogs.header :: rows)) =
    (es <- m ;; random_table input_path es)) as H.
  { intros [es| | |]; try done. cbn [res_bind]. rewrite items_of, random_write_rows. unfold random_table.
    by destruct (forallb _ _). }
  destruct (endswith input_path _); [rewrite random_tar_gather|rewrite random_files_gather]; apply H.
Qed.

(** parse-random-logs.py: when every log can be parsed, the table has one row
    per workload, dimension and k for which some log has a time, in increasing
    order without duplicates, and its averages are those of all times of that
    key in the order of the files; but when a key has index times and no search
    times, or the reverse, the script ends with a ZeroDivisionError.  What a log
    that cannot be parsed raises, the script raises. *)
Theorem random_logs_table (input_path : text) (files : list (text * text)) :
  RandomLogs.main input_path files =
    (es <- gather (random_entry (name_in input_path)) files ;;
     if forallb (λ k, both (collected es k)) (keys_of es)
     then Ok (t "results-" ++ model_of input_path ++ t ".csv", RandomLogs.header :: map (time_row es) (keys_of es))
     else Throw "ZeroDivisionError") ∧
  ∀ es, NoDup (keys_of es) ∧ StronglySorted (λ k1 k2, key_le k1 k2 = true) (keys_of es) ∧
    ∀ k, k ∈ keys_of es ↔ ¬ never (collected es k).
Proof. split; [apply random_main|apply keys_of_spec]. Qed.

(** ** parse-agnews-logs.py *)
Definition agnews_entry (name_of : text → text) (f : text * text) : res (list entry) :=
  if endswith f.1 (t ".log") then
    match re_search Agnews.pattern (name_of f.1) with
    | Some c =>
        ts <- parse_log_file f.2 ;; Ok (match Agnews.key_of c f.2 with Some k => [(k, ts)] | None => [] end)
    | None => Ok []
    end
  else Ok [].
Lemma agnews_files_gather files r :
  AgnewsLogs.process_files files r = (es <- gather (agnews_entry basename) files ;; Ok (add_entries es r)).
Proof.
  revert r. apply loop_gather; [done|]. intros [p c] fs r. cbn [AgnewsLogs.process_files].
  unfold AgnewsLogs.process_file, AgnewsLogs.process, agnews_entry. cbn [fst snd].
  destruct (endswith p _); [|done]. destruct (re_search _ _) as [cs|]; [|done].
  destruct (parse_log_file c); try done. cbn [res_bind]. by destruct (Agnews.key_of cs c).
Qed.
Lemma agnews_tar_gather files r :
  AgnewsLogs.process_tar files r = (es <- gather (agnews_entry id) files ;; Ok (add_entries es r)).
Proof.
  revert r. apply loop_gather; [done|]. intros [p c] fs r. cbn [AgnewsLogs.process_tar].
  unfold AgnewsLogs.process, agnews_entry. cbn [fst snd id].
  destruct (endswith p _); [|done]. destruct (re_search _ _) as [cs|]; [|done].
  destruct (parse_log_file c); try done. cbn [res_bind]. by destruct (Agnews.key_of cs c).
Qed.
Lemma agnews_write_rows es ks :
  AgnewsLogs.write_rows (map (λ k, (k, collected es k)) ks) =
  Ok (map (time_row es) (filter (λ k, both (collected es k) = true) ks)).
Proof.
  induction ks as [|[w ns] ks IH]; [done|]. cbn [map AgnewsLogs.write_rows]. rewrite filter_cons, IH.
  destruct (collected es (w, ns)) as [[|x xs] [|y ys]] eqn:E; try done.
  rewrite decide_True by done. cbn [map average res_bind fst snd]. do 2 f_equal. unfold time_row, mean. by rewrite E.
Qed.

Lemma agnews_main input_path files :
  AgnewsLogs.main input_path files =
    (es <- gather (agnews_entry (name_in input_path)) files ;;
     Ok (t "results-" ++ model_of input_path ++ t "-ag_news.csv",
         AgnewsLogs.header :: map (time_row es) (filter (λ k, both (collected es k) = true) (keys_of es)))).
Proof.
  unfold AgnewsLogs.main, name_in.
  assert (∀ m : res (list entry),
    (r <- (es <- m ;; Ok (add_entries es [])) ;; rows <- AgnewsLogs.write_rows (sorted_items r) ;;
     Ok (t "results-" ++ model_of input_path ++ t "-ag_news.csv", AgnewsLogs.header :: rows)) =
    (es <- m ;; Ok (t "results-" ++ model_of input_path ++ t "-ag_news.csv",
         AgnewsLogs.header :: map (time_row es) (filter (λ k, both (collected es k) = true) (keys_of es))))) as H.
  { intros [es| | |]; try done. cbn [res_bind]. by rewrite items_of, agnews_write_rows. }
  destruct (endswith input_path _); [rewrite agnews_tar_gather|rewrite agnews_files_gather]; apply H.
Qed.

Lemma filter_all {A} (P : A → Prop) `{∀ x, Decision (P x)} l : Forall P l → filter P l = l.
Proof. induction 1 as [|x l Hx _ IH]; [done|]. by rewrite filter_cons, decide_True, IH. Qed.
(** Entries with both times: no key lacks one of the two kinds. *)
Lemma both_collected es k : Forall (λ e, is_Some e.2.1 ∧ is_Some e.2.2) es → ¬ never (collected es k) →
  both (collected es k) = true.
Proof.
  intros Hes Hn. assert (length (collected es k).1 = length (collected es k).2) as Hlen.
  { clear Hn. induction Hes as [|[k0 [o1 o2]] es [[v Hv] [w Hw]] _ IH]; [done|]. rewrite !collected_cons.
    cbn [fst snd] in *. subst o1 o2. destruct (decide (k0 = k)); [|done]. cbn. f_equal. exact IH. }
  destruct (collected es k) as [[|x xs] [|y ys]]; done.
Qed.
End tables.
