(* ===== verification/BenchNames.v ===== *)
(** * The names and the contents of the log files

    The shell scripts (bvb-*.sh) run hnsw_search and write its output to files
    whose names hold the parameters of the run; [driver_log] is that output. *)

From Stdlib Require Import ZArith Lia Ascii.
From stdpp Require Import base numbers list strings pretty sorting.
From S2P Require Import Prelude Args PyText M5Stats M5StatsLaws M5StatsTheorems BenchLogs BenchLogsLaws BenchLogsTheorems.
#[local] Open Scope N_scope.

(** ** Names, as bvb-x86.sh, bvb-hifive.sh, bvb-xuantie.sh and bvb-gem5-test-all.sh build them *)
Definition run_suffix (i : option N) : text := match i with Some i => t "-run" ++ dec i | None => [] end.
Definition random_name (workload : text) (dim topk : N) (i : option N) : text :=
  workload ++ t "-random-euclidean-" ++ dec dim ++ t "-1000-100-top" ++ dec topk ++ run_suffix i ++ t ".log".
Definition agnews_name (workload : text) (M ef i : N) : text :=
  workload ++ t "-M" ++ dec M ++ t "-ef" ++ dec ef ++ t "-run" ++ dec i ++ t ".log".

(** ** Alternatives of words, followed by a dash *)
Definition no_dash (w : text) : bool := forallb (λ c, negb (Ascii.eqb c "-")) w.
Lemma words_groups ws : ngroups (words ws) = 0%nat.
Proof. induction ws as [|w [|w' ws] IH]; [done|done|]. exact IH. Qed.

Section words.
Context {B : Type} (k : text → caps → option B).
Hypothesis k_dash : ∀ a s c, a ≠ "-"%char → k (a :: s) c = None.

Lemma other_word w w' s : no_dash w = true → no_dash w' = true → w' ≠ w →
  run (Lit w') k (w ++ "-"%char :: s) = None.
Proof.
  intros Hw Hw' Hne. cbn [run]. destruct (startswith _ w') eqn:E; [|done]. apply startswith_spec in E as [r E].
  rewrite E, drop_app_length. apply app_eq_app in E as (l & [[-> ->]|[-> E]]).
  - destruct l as [|a l]; [by rewrite (right_id_L [] (++)) in Hne|]. apply k_dash. intros ->.
    unfold no_dash in Hw. by rewrite forallb_app, andb_false_r in Hw.
  - destruct l as [|a l]; [by rewrite (right_id_L [] (++)) in Hne|]. injection E as <- _.
    unfold no_dash in Hw'. by rewrite forallb_app, andb_false_r in Hw'.
Qed.
Lemma run_words ws w s x : w ∈ ws → forallb no_dash ws = true → k ("-"%char :: s) [] = Some x →
  run (words ws) k (w ++ "-"%char :: s) = Some x.
Proof.
  intros Hin Hws Hk. assert (no_dash w = true) as Hw.
  { rewrite forallb_forall in Hws. by apply Hws, list_elem_of_In. }
  induction ws as [|w' ws IH]; [by apply elem_of_nil in Hin|]. apply andb_true_iff in Hws as [Hw' Hws].
  destruct (decide (w' = w)) as [->|Hne].
  - destruct ws as [|w2 ws]; [change (words [w]) with (Lit w); by rewrite run_lit|]. apply (step_or_l (Lit w) (words (w2 :: ws))). by rewrite run_lit, words_groups.
  - apply elem_of_cons in Hin as [->|Hin]; [done|]. destruct ws as [|w2 ws]; [by apply elem_of_nil in Hin|].
    apply (step_or_r (Lit w') (words (w2 :: ws))); [|by apply IH]. rewrite words_groups. pose proof (other_word w w' s Hw Hw' Hne) as Ho. revert Ho. cbn [run].
    destruct (startswith _ w'); [|done]. done.
Qed.
End words.

Lemma run_words_group {B} (k : text → caps → option B) ws w s x :
  (∀ a s c, a ≠ "-"%char → k (a :: s) c = None) → w ∈ ws → forallb no_dash ws = true →
  k ("-"%char :: s) [Some w] = Some x → run (Group (words ws)) k (w ++ "-"%char :: s) = Some x.
Proof.
  intros Hd Hin Hws Hk. set (k' := λ s' c, k s' (Some (take (length (w ++ "-"%char :: s) - length s') (w ++ "-"%char :: s)) :: c)).
  change (run (words ws) k' (w ++ "-"%char :: s) = Some x). apply run_words; [by intros; apply Hd|done..|].
  unfold k'. by rewrite taken.
Qed.
(** No word starts here. *)
Definition starts_with (a : ascii) (w : text) : bool := match w with b :: _ => Ascii.eqb b a | [] => true end.
Lemma run_words_none {B} (k : text → caps → option B) ws a s :
  ws ≠ [] → forallb (λ w, negb (starts_with a w)) ws = true → run (words ws) k (a :: s) = None.
Proof.
  intros Hne Hws. revert k. induction ws as [|[|b w] ws IH]; intros k; [done|done|]. apply andb_true_iff in Hws as [Hb Hws].
  apply negb_true_iff, Ascii.eqb_neq in Hb. destruct ws as [|w2 ws]; [by apply run_lit_ne|].
  apply (run_or_none (Lit (b :: w)) (words (w2 :: ws))); [by apply run_lit_ne|by apply IH].
Qed.
Lemma re_search_step r a s : re_match r (a :: s) = None → re_search r (a :: s) = re_search r s.
Proof. cbn [re_search]. by intros ->. Qed.

Ltac step :=
  first
    [ match_step
    | rewrite run_cat; apply step_plus; [apply dec_nonempty|apply dec_digits|done|]
    | apply step_plus; [apply dec_nonempty|apply dec_digits|done|] ].

Lemma random_match w dim topk i : w ∈ RandomLogs.workloads →
  ∃ c, re_search RandomLogs.pattern (random_name w dim topk i) = Some c ∧
    group c 1 = w ∧ group c 2 = dec dim ∧ group c 3 = dec topk.
Proof.
  intros Hw.
  exists [Some w; Some (dec dim); Some (dec topk); match i with Some _ => Some (run_suffix i) | None => None end].
  split; [|done]. apply re_search_match. unfold re_match, RandomLogs.pattern, digits1. rewrite run_cat.
  apply (run_words_group _ RandomLogs.workloads w (drop 1 (t "-random-euclidean-") ++ dec dim ++ t "-1000-100-top" ++
    dec topk ++ run_suffix i ++ t ".log")); [|done|done|].
  { intros a s c Ha. by apply (run_lit_ne "-"%char). }
  change ("-"%char :: drop 1 (t "-random-euclidean-") ++ ?x) with (t "-random-euclidean-" ++ x).
  do 3 step. destruct i as [i|]; unfold run_suffix; [rewrite <- app_assoc|]; step; rewrite run_cat.
  - apply step_opt.
    match goal with |- run (Group ?r) ?k ?s = _ =>
      change (run r (λ s' c, k s' (Some (take (length s - length s') s) :: c)) s = Some [Some w; Some (dec dim);
        Some (dec topk); Some (t "-run" ++ dec i)]) end.
    step. step. match goal with |- run (Lit ?l) ?k _ = _ => change (k [] [] = Some [Some w; Some (dec dim);
        Some (dec topk); Some (t "-run" ++ dec i)]) end.
    cbv beta. by rewrite (assoc_L (++)), taken.
  - by apply step_skip.
Qed.

Lemma agnews_match w M ef i : w ∈ Agnews.workloads →
  ∃ c, re_search Agnews.pattern (agnews_name w M ef i) = Some c ∧
    group c 1 = w ∧ group c 2 = dec M ∧ group c 3 = dec ef.
Proof.
  intros Hw. exists [Some w; Some (dec M); Some (dec ef)].
  split; [|done]. apply re_search_match. unfold re_match, Agnews.pattern, digits1. rewrite run_cat.
  apply (run_words_group _ Agnews.workloads w (drop 1 (t "-M") ++ dec M ++ t "-ef" ++ dec ef ++ t "-run" ++ dec i ++ t ".log"));
    [|done|done|].
  { intros a s c Ha. by apply (run_lit_ne "-"%char). }
  change ("-"%char :: drop 1 (t "-M") ++ ?x) with (t "-M" ++ x).
  do 6 step. done.
Qed.

(** A search passes over digits: no workload starts with one. *)
Lemma random_skip_digits ds s : forallb is_digit ds = true →
  re_search RandomLogs.pattern (ds ++ s) = re_search RandomLogs.pattern s.
Proof.
  induction ds as [|d ds IH]; [done|]. intros [Hd Hds]%andb_true_iff. rewrite <- (IH Hds). cbn [app]. apply re_search_step.
  unfold re_match, RandomLogs.pattern. rewrite run_cat.
  match goal with |- run (Group ?r) ?k ?s = _ => change (run r (λ s' c, k s' (Some (take (length s - length s') s) :: c)) s = None) end.
  apply run_words_none; [done|]. apply forallb_forall. intros w Hw%list_elem_of_In. apply negb_true_iff.
  assert (Forall (λ w, ∃ b l, w = b :: l ∧ is_digit b = false) RandomLogs.workloads) as H.
  { repeat constructor; by eexists _, _. }
  rewrite Forall_forall in H. destruct (H w Hw) as (b & l & -> & Hb). cbn. apply Ascii.eqb_neq. intros ->. congruence.
Qed.
(** And over a character of a literal. *)
Ltac skip_char := cbn [app t String.list_ascii_of_string]; rewrite re_search_step by reflexivity.
Lemma random_sse42 dim topk i : re_search RandomLogs.pattern (random_name (t "sse42") dim topk i) = None.
Proof.
  unfold random_name.
  do 23 skip_char.
  rewrite random_skip_digits by apply dec_digits.
  do 13 skip_char.
  rewrite random_skip_digits by apply dec_digits. destruct i as [i|]; [|reflexivity]. unfold run_suffix. rewrite <- app_assoc.
  do 4 skip_char.
  rewrite random_skip_digits by apply dec_digits. reflexivity.
Qed.

(** ** Paths *)
Lemma endswith_app a p : endswith (a ++ p) p = true.
Proof. unfold endswith. rewrite rev_app_distr. apply startswith_app. Qed.
Lemma last_split c d s : List.last (split_on c (d ++ c :: s)) [] = List.last (split_on c s) [].
Proof.
  assert (∀ w ws, ws ≠ [] → List.last (w :: ws) [] = List.last ws (@nil ascii)) as Hl by by intros w [|].
  induction d as [|a d IH]; cbn [app split_on].
  - rewrite Ascii.eqb_refl. apply Hl, split_on_nonempty.
  - destruct (split_on_second c d s) as [w Hw]. rewrite <- IH.
    destruct (split_on c (d ++ c :: s)) as [|w1 [|w2 ws]]; [done|done|]. destruct (Ascii.eqb a c); by rewrite Hl.
Qed.
Definition no_slash (w : text) : bool := forallb (λ c, negb (Ascii.eqb c "/")) w.
Lemma basename_path d name : no_slash name = true → basename (d ++ t "/" ++ name) = name.
Proof.
  intros Hn. unfold basename. change (t "/" ++ name) with ("/"%char :: name). by rewrite last_split, split_on_last.
Qed.
Lemma digits_no_slash ds : forallb is_digit ds = true → no_slash ds = true.
Proof.
  unfold no_slash. rewrite !forallb_forall. intros H c Hc. specialize (H c Hc). apply negb_true_iff, Ascii.eqb_neq. by intros ->.
Qed.
Lemma random_name_no_slash w dim topk i : no_slash w = true → no_slash (random_name w dim topk i) = true.
Proof.
  intros Hw. pose proof (λ n, digits_no_slash _ (dec_digits n)) as Hd. unfold no_slash in *.
  unfold random_name. destruct i; unfold run_suffix; rewrite !forallb_app, Hw, !Hd; done.
Qed.
Lemma agnews_name_no_slash w M ef i : no_slash w = true → no_slash (agnews_name w M ef i) = true.
Proof.
  intros Hw. pose proof (λ n, digits_no_slash _ (dec_digits n)) as Hd. unfold no_slash in *.
  unfold agnews_name. rewrite !forallb_app, Hw, !Hd. done.
Qed.
Lemma random_name_log d w dim topk i : endswith (d ++ t "/" ++ random_name w dim topk i) (t ".log") = true.
Proof. unfold random_name. rewrite !(assoc_L (++)). apply endswith_app. Qed.
Lemma agnews_name_log d w M ef i : endswith (d ++ t "/" ++ agnews_name w M ef i) (t ".log") = true.
Proof. unfold agnews_name. rewrite !(assoc_L (++)). apply endswith_app. Qed.
