(* ===== verification/DriverLog.v ===== *)
(** * From the output of hnsw_search to the tables

    [driver_log] is what src/hnsw_search.cpp and [read_bin] print in a run that
    searches; the scripts read the times, the dimension and the [topk] of the
    data set back from it.  It holds no recall. *)

From Stdlib Require Import ZArith Lia Ascii.
From Stdlib Require Import Floats.SpecFloat.
From stdpp Require Import base numbers list strings pretty sorting.
From S2P Require Import Prelude Args PyText M5Stats M5StatsLaws M5StatsTheorems BenchLogs BenchLogsLaws BenchLogsTheorems BenchNames.
#[local] Open Scope N_scope.

(** ** The output *)
(** [duration / 1000.0], printed with [std::fixed << std::setprecision(3)]. *)
Definition milliseconds (duration : N) : float64 :=
  SFdiv 53 1024 (binary_normalize 53 1024 (Z.of_N duration) 0 false) (binary_normalize 53 1024 1000 0 false).
Definition time_line (what : text) (duration : N) : text := t ">>> Time to " ++ what ++ t ": " ++ fmt3 (milliseconds duration) ++ t " ms".
Definition read_lines (file_name : text) (dim train_elements test_elements dataset_topk : N) : list text :=
  [t "Read data from " ++ file_name ++ t " with " ++ dec train_elements ++ t " train elements and " ++
     dec test_elements ++ t " test elements";
   t "Dataset Dimension: " ++ dec dim;
   t "Dataset topk: " ++ dec dataset_topk].
Definition driver_lines (file_name : text) (dim train_elements test_elements dataset_topk : N)
    (read create search : N) : list text :=
  [t "--------- Reading data ---------"] ++ read_lines file_name dim train_elements test_elements dataset_topk ++
  [time_line (t "read binary file") read;
   t "--------- Creating index ---------"; time_line (t "create index") create;
   t "--------- Searching ---------"; time_line (t "search") search].
Definition text_of (lines : list text) : text := concat (map (λ l, l ++ [nl]) lines).
Definition driver_log (file_name : text) (dim train_elements test_elements dataset_topk read create search : N) : text :=
  text_of (driver_lines file_name dim train_elements test_elements dataset_topk read create search).

(** A name without colons and newlines. *)
Definition lacks (c : ascii) (s : text) : bool := forallb (λ a, negb (Ascii.eqb a c)) s.
Definition plain_path (file_name : text) : Prop := lacks ":" file_name = true ∧ lacks nl file_name = true.

Lemma lacks_app c s1 s2 : lacks c (s1 ++ s2) = lacks c s1 && lacks c s2.
Proof. apply forallb_app. Qed.

(** ** Printed numbers *)
Definition number_char (c : ascii) : bool := is_digit c || existsb (Ascii.eqb c) (t "-.infa").
Lemma digits_number ds : forallb is_digit ds = true → forallb number_char ds = true.
Proof. rewrite !forallb_forall. intros H c Hc. unfold number_char. by rewrite H. Qed.
Lemma digit_char n : n < 10 → is_digit (ascii_of_N (48 + n)) = true.
Proof.
  intros Hn. assert (n = 0 ∨ n = 1 ∨ n = 2 ∨ n = 3 ∨ n = 4 ∨ n = 5 ∨ n = 6 ∨ n = 7 ∨ n = 8 ∨ n = 9) as H by lia.
  by repeat (destruct H as [->|H]); [..|subst].
Qed.
Lemma pad3_digits n : n < 1000 → forallb is_digit (pad3 n) = true.
Proof.
  intros Hn. unfold pad3. cbn [forallb]. rewrite !digit_char; [done|by apply N.mod_lt..|].
  apply N.Div0.div_lt_upper_bound. lia.
Qed.
Lemma fixed3_chars neg n : forallb number_char (fixed3 neg n) = true.
Proof.
  unfold fixed3. rewrite !forallb_app, (digits_number (dec _)) by apply dec_digits.
  rewrite (digits_number (pad3 _)) by (apply pad3_digits; by apply N.mod_lt). by destruct neg.
Qed.
Lemma fmt3_chars x : forallb number_char (fmt3 x) = true.
Proof.
  pose proof fixed3_chars as H. destruct x as [neg|neg| |neg m e]; cbn [fmt3]; [apply H| |done|apply H]. by destruct neg.
Qed.
Lemma fmt3_nonempty x : fmt3 x ≠ [].
Proof.
  assert (∀ neg n, fixed3 neg n ≠ []) as H.
  { intros neg n. unfold fixed3. pose proof (dec_nonempty (n / 1000)). by destruct neg, (dec (n / 1000)). }
  destruct x as [neg|neg| |neg m e]; cbn [fmt3]; [apply H| |done|apply H]. by destruct neg.
Qed.
Lemma number_lacks c s : number_char c = false → forallb number_char s = true → lacks c s = true.
Proof.
  intros Hc. unfold lacks. rewrite !forallb_forall. intros H a Ha. apply negb_true_iff, Ascii.eqb_neq. intros ->.
  rewrite (H c Ha) in Hc. done.
Qed.

(** The value read back: [x] with three decimals. *)
Definition reread (x : float64) : float64 :=
  match x with S754_finite neg m e => of_decimal neg (thousandths m e) (-3) | _ => x end.
Lemma digit_part_digits ds r : forallb is_digit ds = true → stops (λ c, is_digit c || Ascii.eqb c "_") r →
  digit_part (ds ++ r) = (ds, r).
Proof.
  intros Hds Hr. induction ds as [|d ds IH].
  - destruct r as [|a r]; [done|]. cbn in *. apply orb_false_iff in Hr as [-> _]. done.
  - apply andb_true_iff in Hds as [Hd Hds]. cbn [app digit_part]. rewrite Hd.
    specialize (IH Hds). destruct (ds ++ r) as [|b s] eqn:Eds; [by apply app_nil in Eds as [-> ->]|].
    assert (b ≠ "_"%char) as Hne; [|by rewrite (proj2 (Ascii.eqb_neq _ _) Hne), IH].
    intros ->. destruct ds as [|d' ds]; cbn in Eds.
    + subst r. by apply orb_false_iff in Hr as [_ ?].
    + injection Eds as -> _. done.
Qed.

(** The digits around the point are those of the number. *)
Lemma digits_value_app acc s1 s2 : digits_value acc (s1 ++ s2) = digits_value (digits_value acc s1) s2.
Proof. apply foldl_app. Qed.
Lemma digit_of n : n < 10 → digit (ascii_of_N (48 + n)) = n.
Proof. intros Hn. unfold digit. rewrite N_ascii_embedding by lia. lia. Qed.
Lemma py_int_fixed n : py_int (dec (n / 1000) ++ pad3 (n mod 1000)) = n.
Proof.
  unfold py_int. rewrite digits_value_app. fold (py_int (dec (n / 1000))). rewrite py_int_dec.
  unfold pad3, digits_value. cbn [foldl]. assert (n mod 1000 < 1000) as Hm by by apply N.mod_lt.
  rewrite !digit_of; [|by apply N.mod_lt..|apply N.Div0.div_lt_upper_bound; lia].
  set (q := n / 1000). set (r := n mod 1000) in *. assert (n = 1000 * q + r) as Hn by apply N.div_mod'.
  assert (r = 10 * (r / 10) + r mod 10) as E1 by apply N.div_mod'.
  assert (r / 10 = 10 * (r / 100) + r / 10 mod 10) as E2.
  { change 100 with (10 * 10). rewrite <- N.Div0.div_div. apply N.div_mod'. }
  lia.
Qed.
Lemma strip_number s : forallb (λ c, negb (py_space c)) s = true → strip s = s.
Proof.
  assert (∀ s, forallb (λ c, negb (py_space c)) s = true → lstrip s = s) as H.
  { intros [|a l]; [done|]. intros [Ha _]%andb_true_iff. unfold lstrip. cbn. apply negb_true_iff in Ha. by rewrite Ha. }
  intros Hs. unfold strip. rewrite (H s Hs), H, rev_involutive; [done|].
  rewrite forallb_forall in *. intros c Hc. apply Hs. by apply in_rev.
Qed.
Lemma number_not_space s : forallb number_char s = true → forallb (λ c, negb (py_space c)) s = true.
Proof.
  rewrite !forallb_forall. intros H c Hc. specialize (H c Hc). destruct (py_space c) eqn:E; [|done].
  destruct c as [[] [] [] [] [] [] [] []]; vm_compute in H, E; done.
Qed.
Lemma sign_part_fixed neg n : sign_part (fixed3 neg n) = (neg, dec (n / 1000) ++ t "." ++ pad3 (n mod 1000)).
Proof.
  unfold fixed3. destruct neg; [done|]. cbn [app]. pose proof (dec_digits (n / 1000)) as Hd.
  pose proof (dec_nonempty (n / 1000)). destruct (dec (n / 1000)) as [|d ds]; [done|].
  apply andb_true_iff in Hd as [Hd _]. cbn [app sign_part].
  rewrite !(proj2 (Ascii.eqb_neq _ _)); [done|by intros ->..].
Qed.
(** A number that starts with a digit is no word. *)
Lemma not_word d s w : is_digit d = true → stops is_digit w → w ≠ [] → map lower (d :: s) ≠ w.
Proof.
  intros Hd Hw Hne Heq. destruct w as [|a w]; [done|]. injection Heq as Ha _. cbn in Hw. subst a.
  assert (lower d = d) as E; [|congruence]. unfold lower. unfold is_digit in Hd. cbv zeta in *.
  apply andb_true_iff in Hd as [_ Hd%N.leb_le]. by rewrite (proj2 (N.leb_gt 65 _)) by lia.
Qed.
Lemma py_float_fixed neg n : py_float (fixed3 neg n) = Some (of_decimal neg n (-3)).
Proof.
  unfold py_float. rewrite strip_number by apply number_not_space, fixed3_chars. rewrite sign_part_fixed.
  pose proof (dec_digits (n / 1000)) as Hd. pose proof (dec_nonempty (n / 1000)) as Hne.
  pose proof (digit_part_digits (dec (n / 1000)) (t "." ++ pad3 (n mod 1000)) Hd eq_refl) as E1.
  assert (n mod 1000 < 1000) as Hm by by apply N.mod_lt.
  pose proof (digit_part_digits (pad3 (n mod 1000)) [] (pad3_digits _ Hm) I) as E2.
  rewrite (right_id_L [] (++)) in E2. rewrite E1. cbn [t String.list_ascii_of_string app]. rewrite E2.
  pose proof (py_int_fixed n) as Hn. destruct (dec (n / 1000)) as [|d ds]; [done|]. cbn [app] in *.
  apply andb_true_iff in Hd as [Hd _].
  rewrite !bool_decide_eq_false_2 by (intros H; (destruct H as [H|H] || idtac); by apply not_word in H).
  rewrite Hn. done.
Qed.
Lemma py_float_fmt3 x : py_float (fmt3 x) = Some (reread x).
Proof.
  destruct x as [neg|[]| |neg m e]; cbn [fmt3 reread]; [|done|done|done|]; by rewrite py_float_fixed.
Qed.

(** ** The lines of the output *)
Lemma split_text_of lines : forallb (lacks nl) lines = true → split_on nl (text_of lines) = lines ++ [[]].
Proof.
  induction lines as [|l lines IH]; [done|]. intros [Hl Hls]%andb_true_iff. unfold text_of. cbn [map concat].
  rewrite <- app_assoc. cbn [app]. rewrite split_on_field by done. f_equal. by apply IH.
Qed.
Lemma py_in_lacks c p s : lacks c s = true → lacks c p = false → py_in p s = false.
Proof.
  intros Hs Hc. apply not_true_iff_false. intros (a & b & ->)%py_in_spec.
  by rewrite !lacks_app, Hc, andb_false_r in Hs.
Qed.
Lemma dec_lacks c n : is_digit c = false → lacks c (dec n) = true.
Proof.
  intros Hc. pose proof (dec_digits n) as Hd. unfold lacks. rewrite forallb_forall in *. intros a Ha.
  apply negb_true_iff, Ascii.eqb_neq. intros ->. rewrite (Hd c Ha) in Hc. done.
Qed.
Lemma fmt3_lacks c x : number_char c = false → lacks c (fmt3 x) = true.
Proof. intros Hc. apply number_lacks; [done|apply fmt3_chars]. Qed.
Ltac solve_lacks := unfold time_line; rewrite ?lacks_app, ?dec_lacks, ?fmt3_lacks by done; try done.

Lemma driver_lines_nl file_name dim train test k read create search : plain_path file_name →
  forallb (lacks nl) (driver_lines file_name dim train test k read create search) = true.
Proof.
  intros [_ Hf]. unfold driver_lines, read_lines. cbn [app forallb]. rewrite !andb_true_iff.
  split_and!; solve_lacks. by rewrite Hf.
Qed.

(** A line that lacks a character of both markers holds no time. *)
Lemma parse_skip c line ts : lacks c line = true → lacks c (t "Time to create index:") = false →
  lacks c (t "Time to search:") = false →
  parse_line line ts = Ok ts.
Proof. intros Hl H1 H2. unfold parse_line. by rewrite !(py_in_lacks c) by done. Qed.

Lemma time_of_line what duration : lacks ":" what = true → time_of (time_line what duration) = Ok (reread (milliseconds duration)).
Proof.
  intros Hw. unfold time_of, time_line. set (v := fmt3 (milliseconds duration)).
  assert (split_on ":" (t ">>> Time to " ++ what ++ t ": " ++ v ++ t " ms") = [t ">>> Time to " ++ what; t " " ++ v ++ t " ms"]) as ->.
  { rewrite (assoc_L (++)). change (t ": " ++ ?x) with (":"%char :: t " " ++ x).
    assert (lacks ":" (t ">>> Time to " ++ what) = true) as H1 by by rewrite lacks_app, Hw.
    assert (lacks ":" (t " " ++ v ++ t " ms") = true) as H2 by (unfold v; by rewrite !lacks_app, fmt3_lacks).
    by rewrite (split_on_field _ _ _ H1), (split_on_last _ _ H2). }
  cbn [subscript lookup list_lookup res_bind].
  assert (split_words (strip (t " " ++ v ++ t " ms")) = [v; t "ms"]) as ->.
  { pose proof (number_not_space v (fmt3_chars _)) as Hv. pose proof (fmt3_nonempty (milliseconds duration)) as Hne. fold v in Hne.
    assert (strip (t " " ++ v ++ t " ms") = v ++ t " ms") as ->; [|by rewrite split_words_word].
    unfold strip. assert (lstrip (t " " ++ v ++ t " ms") = v ++ t " ms") as ->.
    { destruct v as [|a v]; [done|]. apply andb_true_iff in Hv as [Ha _]. apply negb_true_iff in Ha.
      unfold lstrip. cbn. by rewrite Ha. }
    rewrite rev_app_distr. unfold lstrip. cbn [t String.list_ascii_of_string rev app span py_space].
    change (rev (rev (t " ms") ++ rev v) = v ++ t " ms"). by rewrite <- rev_app_distr, rev_involutive. }
  change (to_float v = Ok (reread (milliseconds duration))). unfold to_float, v. by rewrite py_float_fmt3.
Qed.
Lemma marker_in what duration : py_in (t "Time to " ++ what ++ t ":") (time_line what duration) = true.
Proof.
  apply py_in_spec. unfold time_line. exists (t ">>> "), (t " " ++ fmt3 (milliseconds duration) ++ t " ms").
  by rewrite <- !app_assoc.
Qed.

(** The times of a run. *)
Lemma driver_log_times file_name dim train test k read create search : plain_path file_name →
  parse_log_file (driver_log file_name dim train test k read create search) =
  Ok (Some (reread (milliseconds create)), Some (reread (milliseconds search))).
Proof.
  intros Hf. unfold parse_log_file, driver_log. rewrite split_text_of by by apply driver_lines_nl.
  destruct Hf as [Hf _]. unfold driver_lines, read_lines. cbn [app parse_lines].
  rewrite (parse_skip ":" (t "--------- Reading data ---------")) by done. cbn [res_bind].
  rewrite (parse_skip ":"); [|by rewrite !lacks_app, !dec_lacks, Hf|done|done]. cbn [res_bind].
  rewrite (parse_skip "T"); [|solve_lacks|done|done]. cbn [res_bind].
  rewrite (parse_skip "T"); [|solve_lacks|done|done]. cbn [res_bind].
  rewrite (parse_skip "c"); [|solve_lacks|done|done]. cbn [res_bind].
  rewrite (parse_skip ":" (t "--------- Creating index ---------")) by done. cbn [res_bind].
  unfold parse_line at 1. rewrite (marker_in (t "create index")), time_of_line by done. cbn [res_bind].
  rewrite (parse_skip ":" (t "--------- Searching ---------")) by done. cbn [res_bind].
  unfold parse_line at 1. rewrite (py_in_lacks "x" (t "Time to create index:")); [|solve_lacks|done].
  rewrite (marker_in (t "search")), time_of_line by done. done.
Qed.

(** ** The dimension and the [topk] of the data set *)
(** A line without a colon is passed over by a search that starts with a
    literal that has one. *)
Lemma skip_line l r line s : lacks ":" line = true → lacks ":" l = false → lacks nl l = true →
  re_search (Cat (Lit l) r) (line ++ nl :: s) = re_search (Cat (Lit l) r) s.
Proof.
  intros Hline Hl Hnl. change (line ++ nl :: s) with (line ++ [nl] ++ s). rewrite (assoc_L (++)). apply re_search_skip.
  intros a b Hab Hb. unfold re_match. rewrite run_cat. cbn [run].
  destruct (startswith (b ++ s) l) eqn:E; [|done]. apply startswith_spec in E as [q E].
  assert (lacks ":" b = true) as Hbc.
  { assert (lacks ":" (line ++ [nl]) = true) as H by by rewrite lacks_app, Hline.
    rewrite Hab, lacks_app in H. by apply andb_true_iff in H as [_ ?]. }
  assert (lacks nl b = false) as Hbn.
  { destruct (exists_last Hb) as (b' & x & ->). rewrite (assoc_L (++)) in Hab. apply app_inj_tail in Hab as [_ <-].
    by rewrite lacks_app, andb_false_r. }
  apply app_eq_app in E as (w & [[-> ->]|[-> _]]).
  - rewrite lacks_app in Hbc. by apply andb_true_iff in Hbc as [? _]; congruence.
  - by rewrite lacks_app, Hbn in Hnl.
Qed.
Lemma skip_other b l r w s : lacks b w = true → re_search (Cat (Lit (b :: l)) r) (w ++ s) = re_search (Cat (Lit (b :: l)) r) s.
Proof.
  induction w as [|a w IH]; [done|]. intros [Ha Hw]%andb_true_iff. rewrite <- (IH Hw). cbn [app]. apply re_search_step.
  unfold re_match. rewrite run_cat. apply run_lit_ne. apply negb_true_iff, Ascii.eqb_neq in Ha. congruence.
Qed.
Lemma search_digits l n s : stops is_digit s → re_search (Cat (Lit l) digits1) (l ++ dec n ++ s) = Some [Some (dec n)].
Proof.
  intros Hs. apply re_search_match. unfold re_match, digits1. apply step_lit.
  apply step_group_last; [apply dec_nonempty|apply dec_digits|done|done].
Qed.

Lemma text_of_cons l lines : text_of (l :: lines) = l ++ nl :: text_of lines.
Proof. unfold text_of. cbn [map concat]. by rewrite <- app_assoc. Qed.
Lemma driver_log_key file_name dim train test k read create search c : plain_path file_name →
  Agnews.key_of c (driver_log file_name dim train test k read create search) =
  Some (group c 1, [dim; k; py_int (group c 2); py_int (group c 3)]).
Proof.
  intros [Hf _]. unfold Agnews.key_of, driver_log, driver_lines, read_lines. cbn [app]. rewrite 4!text_of_cons.
  set (tail := text_of _). rewrite <- !app_assoc.
  assert (∀ l r s, lacks ":" l = false → lacks nl l = true →
    re_search (Cat (Lit l) r) (t "--------- Reading data ---------" ++ nl :: t "Read data from " ++ file_name ++ t " with " ++
      dec train ++ t " train elements and " ++ dec test ++ t " test elements" ++ nl :: s) =
    re_search (Cat (Lit l) r) s) as Hskip.
  { intros l r s H1 H2. rewrite skip_line by done.
    replace (t "Read data from " ++ file_name ++ t " with " ++ dec train ++ t " train elements and " ++ dec test ++
      t " test elements" ++ nl :: s) with ((t "Read data from " ++ file_name ++ t " with " ++ dec train ++
      t " train elements and " ++ dec test ++ t " test elements") ++ nl :: s) by by rewrite <- !app_assoc.
    rewrite skip_line; [done| |done|done]. by rewrite !lacks_app, !dec_lacks, Hf. }
  unfold Agnews.dim_pattern, Agnews.topk_pattern. rewrite !Hskip by done. rewrite search_digits by done.
  assert (re_search (Cat (Lit (t "Dataset topk: ")) digits1) (t "Dataset Dimension: " ++ dec dim ++ nl :: t "Dataset topk: " ++
    dec k ++ nl :: tail) = Some [Some (dec k)]) as ->.
  { do 19 skip_char. rewrite (skip_other "D") by by apply dec_lacks. skip_char. by apply (search_digits (t "Dataset topk: ")). }
  cbn [mbind option_bind]. unfold group at 2 3. cbn. by rewrite !py_int_dec.
Qed.

(** ** No recall *)
Lemma star_none {B} f (k : text → option B) c s : (∀ s', lacks c s' = true → k s' = None) → lacks c s = true → star f k s = None.
Proof.
  intros Hk. induction s as [|a s IH]; intros Hs; cbn [star]; [by apply Hk|].
  pose proof Hs as [_ Hs']%andb_true_iff. destruct (f a); [rewrite (IH Hs')|]; by apply Hk.
Qed.
Lemma lacks_drop c n s : lacks c s = true → lacks c (drop n s) = true.
Proof. intros H. rewrite <- (take_drop n s), lacks_app in H. by apply andb_true_iff in H as [_ ?]. Qed.
Lemma recall_no_colon line : lacks ":" line = true → re_search recall_pattern line = None.
Proof.
  assert (∀ s, lacks ":" s = true → re_match recall_pattern s = None) as Hm.
  { intros s Hs. unfold re_match, recall_pattern. rewrite run_cat. cbn [run].
    destruct (startswith s _); [|done]. apply (lacks_drop _ (length (t "Recall@"))) in Hs. revert Hs.
    generalize (drop (length (t "Recall@")) s). intros [|a s'] Hs; [done|]. apply andb_true_iff in Hs as [_ Hs].
    destruct (is_digit a); [|done]. apply (star_none _ _ ":"%char); [|done].
    intros s2 Hs2. destruct (startswith s2 (t ": ")) eqn:E; [|done]. apply startswith_spec in E as [q ->]. done. }
  induction line as [|a line IH]; intros Hl; cbn [re_search]; rewrite Hm by done; [done|].
  apply IH. by apply andb_true_iff in Hl as [_ ?].
Qed.
Lemma recall_no_R line : lacks "R" line = true → re_search recall_pattern line = None.
Proof.
  intros Hl. rewrite <- (right_id_L [] (++) line). unfold recall_pattern.
  change (t "Recall@") with ("R"%char :: t "ecall@"). by rewrite skip_other.
Qed.
Lemma driver_log_recall file_name dim train test k read create search : plain_path file_name →
  parse_recall_file (driver_log file_name dim train test k read create search) = Ok None.
Proof.
  intros Hf. unfold parse_recall_file, driver_log. rewrite split_text_of by by apply driver_lines_nl.
  destruct Hf as [Hf _]. unfold driver_lines, read_lines. cbn [app recall_lines].
  rewrite (recall_no_colon (t "--------- Reading data ---------")) by done.
  rewrite recall_no_colon; [|by rewrite !lacks_app, !dec_lacks, Hf].
  rewrite !recall_no_R; [done|solve_lacks..].
Qed.

(** ** From the runs to the tables *)
Record bench := mkBench {
  workload : text; file_name : text; dim : N; topk : N; train : N; test : N; dataset_topk : N;
  nth_run : N; read_time : N; create_time : N; search_time : N; M : N; ef : N
}.
Definition output (b : bench) : text :=
  driver_log (file_name b) (dim b) (train b) (test b) (dataset_topk b) (read_time b) (create_time b) (search_time b).
Definition random_log (dir : text) (b : bench) : text * text :=
  (dir ++ t "/" ++ random_name (workload b) (dim b) (topk b) (Some (nth_run b)), output b).
Definition agnews_log (dir : text) (b : bench) : text * text :=
  (dir ++ t "/" ++ agnews_name (workload b) (M b) (ef b) (nth_run b), output b).
(** The times of a run, as the tables average them. *)
Definition bench_times (b : bench) : times :=
  (Some (reread (milliseconds (create_time b))), Some (reread (milliseconds (search_time b)))).

Lemma output_times b : plain_path (file_name b) → parse_log_file (output b) = Ok (bench_times b).
Proof. intros Hf. unfold output. by rewrite driver_log_times. Qed.
Lemma workloads_no_slash w : w ∈ t "sse42" :: RandomLogs.workloads → no_slash w = true.
Proof.
  revert w. apply Forall_forall. apply (bool_decide_unpack _). vm_compute. done.
Qed.
Definition is_sse42 (b : bench) : Prop := workload b = t "sse42".
#[export] Instance is_sse42_dec b : Decision (is_sse42 b).
Proof. unfold is_sse42. apply _. Defined.
Definition random_key (b : bench) : entry := ((workload b, [dim b; topk b]), bench_times b).
Lemma random_entry_log dir b : workload b ∈ t "sse42" :: RandomLogs.workloads → plain_path (file_name b) →
  random_entry basename (random_log dir b) = Ok (if decide (is_sse42 b) then [] else [random_key b]).
Proof.
  intros Hw Hf. unfold random_entry, random_log. cbn [fst snd].
  rewrite random_name_log, basename_path by by apply random_name_no_slash, workloads_no_slash.
  destruct (decide (is_sse42 b)) as [E|E].
  - by rewrite E, random_sse42.
  - apply elem_of_cons in Hw as [?|Hw]; [done|].
    destruct (random_match _ (dim b) (topk b) (Some (nth_run b)) Hw) as (c & -> & G1 & G2 & G3).
    rewrite (output_times b Hf). cbn [res_bind]. by rewrite G1, G2, G3, !py_int_dec.
Qed.
Definition agnews_key (b : bench) : entry := ((workload b, [dim b; dataset_topk b; M b; ef b]), bench_times b).
Lemma agnews_entry_log dir b : workload b ∈ Agnews.workloads → plain_path (file_name b) →
  agnews_entry basename (agnews_log dir b) = Ok [agnews_key b].
Proof.
  intros Hw Hf. unfold agnews_entry, agnews_log. cbn [fst snd].
  rewrite agnews_name_log, basename_path.
  2: { apply agnews_name_no_slash. revert Hw. generalize (workload b). apply Forall_forall.
       apply (bool_decide_unpack _). vm_compute. done. }
  destruct (agnews_match _ (M b) (ef b) (nth_run b) Hw) as (c & -> & G1 & G2 & G3).
  rewrite (output_times b Hf). cbn [res_bind]. unfold output. rewrite driver_log_key by done.
  by rewrite G1, G2, G3, !py_int_dec.
Qed.

Section claims.
Context `{PS : PySum}.

(** C33. From the runs of the benchmark to the table of parse-random-logs.py: for
    any runs whose logs the shell scripts named and whose output hnsw_search
    wrote, the script writes the averages, per workload, dimension and k, of the
    printed times of all these runs, except those with the workload sse42, whose
    logs it does not recognise. *)
Theorem random_logs_end_to_end (dir : text) (benches : list bench) :
  endswith dir (t ".tar.gz") = false →
  Forall (λ b, workload b ∈ t "sse42" :: RandomLogs.workloads ∧ plain_path (file_name b)) benches →
  let es := map random_key (filter (λ b, ¬ is_sse42 b) benches) in
  RandomLogs.main dir (map (random_log dir) benches) =
  Ok (t "results-" ++ model_of dir ++ t ".csv", RandomLogs.header :: map (time_row es) (keys_of es)).
Proof.
  intros Hdir Hb es. rewrite random_main. unfold name_in. rewrite Hdir.
  assert (gather (random_entry basename) (map (random_log dir) benches) = Ok es) as ->.
  { unfold es. clear es. induction Hb as [|b bs [Hw Hf] _ IH]; [done|]. cbn [map gather].
    rewrite random_entry_log, IH by done. rewrite filter_cons. cbn [res_bind].
    destruct (decide (is_sse42 b)) as [E|E]; [by rewrite decide_False by tauto|by rewrite decide_True by tauto]. }
  cbn [res_bind]. unfold random_table.
  assert (forallb (λ k, both (collected es k)) (keys_of es) = true) as ->; [|done].
  apply forallb_forall. intros k Hk%list_elem_of_In%keys_of_spec. apply both_collected; [|done].
  unfold es. apply Forall_fmap, Forall_forall. intros b _. by split; eexists.
Qed.

(** The same for parse-agnews-logs.py, whose keys are the workload, the
    dimension and the number of neighbours of the data set, M and ef; here all
    workloads of the shell scripts are recognised. *)
Theorem agnews_logs_end_to_end (dir : text) (benches : list bench) :
  endswith dir (t ".tar.gz") = false →
  Forall (λ b, workload b ∈ Agnews.workloads ∧ plain_path (file_name b)) benches →
  let es := map agnews_key benches in
  AgnewsLogs.main dir (map (agnews_log dir) benches) =
  Ok (t "results-" ++ model_of dir ++ t "-ag_news.csv", AgnewsLogs.header :: map (time_row es) (keys_of es)).
Proof.
  intros Hdir Hb es. rewrite agnews_main. unfold name_in. rewrite Hdir.
  assert (gather (agnews_entry basename) (map (agnews_log dir) benches) = Ok es) as ->.
  { unfold es. clear es. induction Hb as [|b bs [Hw Hf] _ IH]; [done|]. cbn [map gather].
    by rewrite agnews_entry_log, IH. }
  cbn [res_bind]. do 4 f_equal. rewrite filter_all; [done|].
  apply Forall_forall. intros k Hk%keys_of_spec. apply both_collected; [|done].
  unfold es. apply Forall_fmap, Forall_forall. intros b _. by split; eexists.
Qed.

(** C40. The recall scripts find nothing in the output of the benchmark: whatever
    runs there are, parse-random-recall.py and parse-agnews-recall.py write
    their header and no row. *)
Theorem recall_tables_empty (dir : text) (benches : list bench) :
  endswith dir (t ".tar.gz") = false → Forall (λ b, plain_path (file_name b)) benches →
  RandomRecall.main (map (random_log dir) benches) = Ok (t "recall-random-M8-ef200.csv", [RandomRecall.header]) ∧
  AgnewsRecall.main dir (map (agnews_log dir) benches) = Ok (t "recall-" ++ model_of dir ++ t ".csv", [AgnewsRecall.header]).
Proof.
  intros Hdir Hb. unfold RandomRecall.main, AgnewsRecall.main. rewrite Hdir.
  assert (RandomRecall.process_files (map (random_log dir) benches) [] = Ok []) as ->.
  { induction Hb as [|b bs Hf _ IH]; [done|]. cbn [map RandomRecall.process_files]. unfold random_log at 1, RandomRecall.process_file, output.
    rewrite random_name_log. destruct (re_search _ _); [|done]. by rewrite driver_log_recall. }
  assert (AgnewsRecall.process_files (map (agnews_log dir) benches) [] = Ok []) as ->; [|done].
  induction Hb as [|b bs Hf _ IH]; [done|]. cbn [map AgnewsRecall.process_files].
  unfold agnews_log at 1, AgnewsRecall.process_file, AgnewsRecall.process, output.
  rewrite agnews_name_log. destruct (re_search _ _); [|done]. rewrite driver_log_recall by done. cbn [res_bind].
  by rewrite driver_log_key.
Qed.
End claims.

(** ** Runs *)
Definition bench_8 (w : text) (create search : N) : bench :=
  mkBench w (t "data/random-euclidean-8-1000-100.bin") 8 10 1000 100 100 1 421 create search 16 200.

Lemma random_logs_end_to_end_witness :
  let benches := [bench_8 (t "rvv") 12345 6789; bench_8 (t "sse42") 5 5] in
  let es := map random_key (filter (λ b, ¬ is_sse42 b) benches) in
  RandomLogs.main (t "logs-x86") (map (random_log (t "logs-x86")) benches) =
  Ok (t "results-" ++ model_of (t "logs-x86") ++ t ".csv", RandomLogs.header :: map (time_row es) (keys_of es)).
Proof.
  intros benches es. apply (random_logs_end_to_end (t "logs-x86") benches); [done|].
  repeat constructor; apply (bool_decide_unpack _); vm_compute; done.
Defined.
Lemma agnews_logs_end_to_end_witness :
  let benches := [bench_8 (t "avx512") 12345 6789; bench_8 (t "sse42") 5 5] in
  let es := map agnews_key benches in
  AgnewsLogs.main (t "logs-x86") (map (agnews_log (t "logs-x86")) benches) =
  Ok (t "results-" ++ model_of (t "logs-x86") ++ t "-ag_news.csv", AgnewsLogs.header :: map (time_row es) (keys_of es)).
Proof.
  intros benches es. apply (agnews_logs_end_to_end (t "logs-x86") benches); [done|].
  repeat constructor; apply (bool_decide_unpack _); vm_compute; done.
Defined.
Lemma recall_tables_empty_witness :
  let benches := [bench_8 (t "sse42") 12345 6789] in
  RandomRecall.main (map (random_log (t "logs-x86")) benches) = Ok (t "recall-random-M8-ef200.csv", [RandomRecall.header]) ∧
  AgnewsRecall.main (t "logs-x86") (map (agnews_log (t "logs-x86")) benches) =
    Ok (t "recall-" ++ model_of (t "logs-x86") ++ t ".csv", [AgnewsRecall.header]).
Proof.
  intros benches. apply (recall_tables_empty (t "logs-x86") benches); [done|].
  repeat constructor; apply (bool_decide_unpack _); vm_compute; done.
Defined.

(** The numbers of a table are those the benchmark printed; the log of a run that
    stopped before the search ends the script. *)
Lemma random_logs_run :
  RandomLogs.main (t "logs-x86") (map (random_log (t "logs-x86"))
    [bench_8 (t "rvv") 12345 6789; bench_8 (t "base") 2000 1; bench_8 (t "base") 4001 2; bench_8 (t "sse42") 5 5]) =
  Ok (t "results-x86.csv",
      [RandomLogs.header; [t "base"; t "8"; t "10"; t "3.001"; t "0.002"]; [t "rvv"; t "8"; t "10"; t "12.345"; t "6.789"]]) ∧
  RandomLogs.main (t "logs-x86")
    [(t "logs-x86/rvv-random-euclidean-8-1000-100-top10.log", t ">>> Time to create index: 5.000 ms")] =
  Throw "ZeroDivisionError".
Proof. split; vm_compute; done. Qed.
