(* ===== verification/PyIndex.v ===== *)
(** * python_bindings/bindings.cpp: class [Index]

    The Python class [Index] owns a space and, after [init_index] or
    [load_index], a [HierarchicalNSW].  Its state is the record [index]; the
    pointer [appr_alg] is null, points to an index or, after a failed
    [load_index], to freed memory.  Every method is a state transformer.

    A numpy array is its shape and its bytes; [items.data(row)] belongs to
    pybind11 and is the interface [Numpy].  Where [ParallelFor] uses several
    threads, the calls it makes are an argument [calls], in the order in which
    they take effect: an [addPoint] or [searchKnn] call is one step here. *)

From Stdlib Require Import ZArith Lia SpecFloat.
From stdpp Require Import base numbers list gmap strings pretty.
From S2P Require Import Prelude Heap Binary VisitedList ParallelFor Arith Floats Dataset.
From S2P Require Import Hnsw HnswPersist HnswSearch HnswInsert.
#[local] Open Scope N_scope.

(** ** Arguments from Python *)
Record buffer := mkBuffer { shape : list N; buf_data : list N }.
Record ids_array := mkIds { ids_shape : list N; ids_data : list N }.

(** [items.data(row)] of a C-contiguous array of [float]s. *)
Class Numpy := {
  items_data : buffer → N → res point;
  items_data_1d b n : shape b = [n] → 0 < n → items_data b 0 = Ok (buf_data b);
  items_data_2d b rows features row : shape b = [rows; features] → row < rows →
    items_data b row = Ok (drop (N.to_nat (4 * row * features)) (buf_data b))
}.

(** Rows and features. *)
Definition get_input_array_shapes (b : buffer) : res (N * N) :=
  match shape b with
  | [rows; features] => Ok (rows, features)
  | [features] => Ok (1, features)
  | s => Throw ("Input vector data wrong shape. Number of dimensions " +:+ pretty (N.of_nat (length s)) +:+
                ". Data must be a 1D or 2D array.")
  end.
Definition get_input_ids_and_check_shapes (ids_ : option ids_array) (feature_rows : N) : res (list N) :=
  match ids_ with
  | None => Ok []
  | Some a =>
      let mismatch := Throw ("The input label shape " +:+ pretty (N.of_nat (length (ids_shape a))) +:+
        " does not match the input data vector shape " +:+ pretty feature_rows) in
      match ids_shape a with
      | [n] => if n =? feature_rows then Ok (take (N.to_nat n) (ids_data a)) else mismatch
      | [] => if feature_rows =? 1 then x <- of_opt "empty scalar" (head (ids_data a)) ;; Ok [x] else mismatch
      | _ => mismatch
      end
  end.

(** ** Calls of [ParallelFor] *)
Fixpoint seq_calls {S} (f : N → N → eff S unit) (n : nat) (id : N) : eff S unit :=
  match n with
  | O => eff_ret tt
  | Datatypes.S n => let* _ := f id 0 in seq_calls f n (id + 1)
  end.
(** The calls of several threads; the last exception is thrown at the end. *)
Fixpoint run_calls {S} (f : N → N → eff S unit) (calls : list (N * N)) (lastException : option string) :
    eff S unit :=
  match calls with
  | [] => match lastException with Some e => eff_throw e | None => eff_ret tt end
  | (id, t) :: calls => λ s,
      match f id t s with
      | (s', Ok _) => run_calls f calls lastException s'
      | (s', Throw e) => run_calls f calls (Some e) s'
      | (s', Undef u) => (s', Undef u)
      | (s', Fuel) => (s', Fuel)
      end
  end.
Definition parallel_calls {S} (hardware start end_ numThreads : N) (calls : list (N * N)) (f : N → N → eff S unit) :
    eff S unit :=
  if thread_count numThreads hardware =? 1
  then seq_calls f (N.to_nat (end_ - start)) start
  else run_calls f calls None.

Section index.
Context `{RE : RandomEngine} `{HI : HeapImpl} `{AL : Alloc} `{HS : HashOrder} `{NP : Numpy}.
Context {D : Type} `{HD : DistT D}.
(** The distances of [L2Space(dim)] and [InnerProductSpace(dim)]. *)
Variables l2_dist ip_dist : N → point → point → D.
(** [std::thread::hardware_concurrency()]; the iteration order of [label_lookup_]. *)
Variable hardware_concurrency : Z.
Variable lookup_order : gmap labeltype tableint → list (labeltype * tableint).

Inductive alg := NoAlg | Alg (s : hnsw) | Freed.
(** [seed] and [cur_l] have no value before [init_index]. *)
Record index := mkIndex {
  space_name : string;
  dim : Z;
  seed : option N;
  default_ef : N;
  index_inited : bool;
  ep_added : bool;
  normalize : bool;
  num_threads_default : Z;
  cur_l : option N;
  appr_alg : alg
}.
Implicit Types ix : index.

Definition with_alg (a : alg) ix : index :=
  mkIndex (space_name ix) (dim ix) (seed ix) (default_ef ix) (index_inited ix) (ep_added ix) (normalize ix)
    (num_threads_default ix) (cur_l ix) a.
Definition with_state (sd : option N) (ef : N) (inited ep : bool) (l : option N) ix : index :=
  mkIndex (space_name ix) (dim ix) sd ef inited ep (normalize ix) (num_threads_default ix) l (appr_alg ix).
Definition with_ep (ep : bool) ix : index :=
  with_state (seed ix) (default_ef ix) (index_inited ix) ep (cur_l ix) ix.
Definition with_cur_l (l : option N) ix : index :=
  with_state (seed ix) (default_ef ix) (index_inited ix) (ep_added ix) l ix.

(** A call through [appr_alg]. *)
Definition on_alg {A} (m : eff hnsw A) : eff index A := λ ix,
  match appr_alg ix with
  | Alg s => let '(s', r) := m s in (with_alg (Alg s') ix, r)
  | NoAlg => (ix, Undef "call through a null appr_alg")
  | Freed => (ix, Undef "call through a freed appr_alg")
  end.

(** ** Construction *)
Definition Index_new (space_name : string) (dim : Z) : res index :=
  let make norm := Ok (mkIndex space_name dim None 10 false true norm hardware_concurrency None NoAlg) in
  if String.eqb space_name "l2" then make false
  else if String.eqb space_name "ip" then make false
  else if String.eqb space_name "cosine" then make true
  else Throw "Space name must be one of l2, ip, or cosine.".

Definition space_dist ix : point → point → D :=
  if String.eqb (space_name ix) "l2" then l2_dist (to_size_t (dim ix)) else ip_dist (to_size_t (dim ix)).
Definition space_size ix : N := (to_size_t (dim ix) * 4) mod 18446744073709551616.

Definition init_new_index (maxElements M efConstruction random_seed : N) (allow_replace_deleted : bool) :
    eff index unit := λ ix,
  match appr_alg ix with
  | NoAlg =>
      let s := HierarchicalNSW_new (space_size ix) maxElements M efConstruction random_seed allow_replace_deleted in
      (with_alg (Alg (setEf (default_ef ix) s))
         (with_state (Some random_seed) (default_ef ix) true false (Some 0) ix), Ok tt)
  | _ => (ix, Throw "The index is already initiated.")
  end.

Definition set_ef (ef : N) : eff index unit := λ ix,
  let ix := with_state (seed ix) ef (index_inited ix) (ep_added ix) (cur_l ix) ix in
  match appr_alg ix with
  | NoAlg => (ix, Ok tt)
  | Alg s => (with_alg (Alg (setEf ef s)) ix, Ok tt)
  | Freed => (ix, Undef "call through a freed appr_alg")
  end.
Definition set_num_threads (num_threads : Z) : eff index unit := eff_mod (λ ix,
  mkIndex (space_name ix) (dim ix) (seed ix) (default_ef ix) (index_inited ix) (ep_added ix) (normalize ix)
    num_threads (cur_l ix) (appr_alg ix)).

Definition py_indexFileSize : eff index N := on_alg (eff_lift indexFileSize).
Definition py_saveIndex : eff index (list N) := on_alg (eff_lift saveIndex).

(** The old index is deleted first; a constructor that throws leaves the
    pointer to the freed memory. *)
Definition py_loadIndex (path_to_index : option (list N)) (max_elements : N) (allow_replace_deleted : bool) :
    eff index unit := λ ix,
  let old : res unit := match appr_alg ix with
                        | NoAlg => Ok tt
                        | Alg s => (clear s).2
                        | Freed => Undef "double free of appr_alg"
                        end in
  match old with
  | Ok _ =>
      match HierarchicalNSW_load (space_size ix) path_to_index max_elements allow_replace_deleted with
      | (s, Ok _) =>
          (with_alg (Alg s) (with_state (seed ix) (default_ef ix) true (ep_added ix) (Some (cur_element_count s)) ix), Ok tt)
      | (_, r) => (with_alg (match appr_alg ix with NoAlg => NoAlg | _ => Freed end) ix, r)
      end
  | Throw e => (ix, Throw e) | Undef u => (ix, Undef u) | Fuel => (ix, Fuel)
  end.

(** ** Normalised vectors *)
Definition f32_1e_minus_30 : float32 := float_of_bits 228737632.
Definition vector_norm (v : list float32) : float32 :=
  foldl (λ norm x, f32_add norm (f32_mul x x)) (S754_zero false) v.
Definition normalize_vector (dim : Z) (data : point) : res point :=
  v <- read_vector (Z.to_nat dim) data ;;
  let norm := f32_div (f32_of_Z 1) (f32_add (f32_sqrt (vector_norm v)) f32_1e_minus_30) in
  Ok (write_vector ((λ x, f32_mul x norm) <$> v)).

(** [int num_threads]: the default below 1, and one thread for few rows. *)
Definition threads_for ix (num_threads : Z) (rows : N) : res Z :=
  let n := if (num_threads <=? 0)%Z then num_threads_default ix else num_threads in
  m <- int_mul n 4 ;; Ok (if rows <=? to_size_t m then 1%Z else n).

(** [norm_array(num_threads * n)] and the part of [dim] elements of thread [t]. *)
Definition norm_segment ix (size t : N) : res unit :=
  if (t * to_size_t (dim ix) + to_size_t (dim ix) <=? size) then Ok tt else Undef "write past norm_array".

(** ** [addItems] *)
Definition row_id (ids : list N) (cur_l : option N) (row : N) : res N :=
  match ids with
  | [] => l <- of_opt "cur_l has no value" cur_l ;; Ok ((l + row) mod 18446744073709551616)
  | _ => match ids !! N.to_nat row with Some id => Ok id | None => Throw "vector::_M_range_check" end
  end.
(** The vector that is added for a row. *)
Definition row_vector ix (items : buffer) (row : N) : res point :=
  p <- items_data items row ;;
  if normalize ix then normalize_vector (dim ix) p else Ok p.
Definition add_row ix (items : buffer) (ids : list N) (replace_deleted : bool) (norm_size : N) (row t : N) :
    eff hnsw unit :=
  if normalize ix then
    let* v := eff_lift (λ _, _ <- norm_segment ix norm_size t ;; row_vector ix items row) in
    let* id := eff_lift (λ _, row_id ids (cur_l ix) row) in
    addPoint (space_dist ix) v id replace_deleted
  else
    let* id := eff_lift (λ _, row_id ids (cur_l ix) row) in
    let* v := eff_lift (λ _, row_vector ix items row) in
    addPoint (space_dist ix) v id replace_deleted.

Definition add_first ix (items : buffer) (ids : list N) (replace_deleted : bool) : eff hnsw unit :=
  let* id := eff_lift (λ _, row_id ids (cur_l ix) 0) in
  let* v := eff_lift (λ _, row_vector ix items 0) in
  addPoint (space_dist ix) v id replace_deleted.

Definition addItems (input : buffer) (ids_ : option ids_array) (num_threads : Z) (replace_deleted : bool)
    (calls : list (N * N)) : eff index unit :=
  let* '(rows, features) := eff_lift (λ _, get_input_array_shapes input) in
  let* _ := eff_lift (λ ix, if features =? to_size_t (dim ix) then Ok tt
                            else Throw "Wrong dimensionality of the vectors") in
  let* num_threads := eff_lift (λ ix, threads_for ix num_threads rows) in
  let* ids := eff_lift (λ _, get_input_ids_and_check_shapes ids_ rows) in
  let* ep := eff_get ep_added in
  let* start := (if ep then eff_ret 0
                 else let* ix := eff_get id in
                      let* _ := on_alg (add_first ix input ids replace_deleted) in
                      let* _ := eff_mod (with_ep true) in eff_ret 1) in
  let* ix := eff_get id in
  let* norm_size := eff_lift (λ _, if normalize ix then n <- int_mul num_threads (dim ix) ;; Ok (to_size_t n) else Ok 0) in
  let* _ := on_alg (parallel_calls (to_size_t hardware_concurrency) start rows (to_size_t num_threads) calls
                      (add_row ix input ids replace_deleted norm_size)) in
  eff_mod (λ ix, with_cur_l (l ← cur_l ix; Some ((l + rows) mod 18446744073709551616)) ix).

(** ** [getData], [getIdsList] *)
Fixpoint get_vectors (ids : list N) (dim : N) (s : hnsw) : res (list point) :=
  match ids with
  | [] => Ok []
  | id :: ids => p <- getDataByLabel dim s id ;; rest <- get_vectors ids dim s ;; Ok (p :: rest)
  end.
Definition quoted (s : string) : string := String (Ascii.ascii_of_N 34) (s +:+ String (Ascii.ascii_of_N 34) "").
(** An array of ids is read along its first axis.  [get_items] returns the
    vectors, as a numpy array or as a list. *)
Definition getData (ids_ : option ids_array) (return_type : string) : eff index (list point) :=
  if negb (String.eqb return_type "numpy") && negb (String.eqb return_type "list")
  then eff_throw ("return_type should be " +:+ quoted "numpy" +:+ " or " +:+ quoted "list")
  else
    let* ids := eff_lift (λ _,
      match ids_ with
      | None => Ok []
      | Some a =>
          match ids_shape a with
          | [] => Throw "get_items accepts a list of indices and returns a list of vectors"
          | n :: _ => Ok (take (N.to_nat n) (ids_data a))
          end
      end) in
    let* d := eff_get (λ ix, to_size_t (dim ix)) in
    match ids with [] => eff_ret [] | _ => on_alg (eff_lift (get_vectors ids d)) end.
Definition getIdsList : eff index (list labeltype) := on_alg (eff_get (λ s, (lookup_order (label_lookup_ s)).*1)).

(** ** Queries *)

(** The loop that empties the queue into row [row] of the arrays. *)
Fixpoint take_results (i : nat) (result acc : list (D * labeltype)) : res (list (D * labeltype)) :=
  match i with
  | O => Ok acc
  | S i => top <- of_opt "top() of an empty queue" (pq_top result) ;;
           take_results i (pq_pop res_less result) (top :: acc)
  end.
(** Row [row] of the result arrays, nearest first. *)
Definition query_row ix (items : buffer) (k : N) (filter : option (labeltype → bool)) (norm_size : N) (row t : N) :
    eff hnsw (list (D * labeltype)) :=
  let* q := eff_lift (λ _,
    _ <- (if normalize ix then norm_segment ix norm_size t else Ok tt) ;;
    p <- items_data items row ;;
    if normalize ix then normalize_vector (dim ix) p
    else if (Z.of_nat (length p) <? 4 * dim ix)%Z then Undef "distance reads past the array" else Ok p) in
  let* result := searchKnn (space_dist ix) q k filter in
  if pq_size result =? k then eff_lift (λ _, take_results (N.to_nat k) result [])
  else eff_throw "Cannot return the results in a contiguous 2D array. Probably ef or M is too small".

(** The two arrays, as a map from rows to results. *)
Definition store_rows (f : N → N → eff hnsw (list (D * labeltype))) : N → N → eff (hnsw * gmap N (list (D * labeltype))) unit :=
  λ row t '(s, m), let '(s', r) := f row t s in
    match r with
    | Ok l => ((s', <[row := l]> m), Ok tt)
    | Throw e => ((s', m), Throw e) | Undef u => ((s', m), Undef u) | Fuel => ((s', m), Fuel)
    end.
Definition knnQuery_return_numpy (input : buffer) (k : N) (num_threads : Z) (filter : option (labeltype → bool))
    (calls : list (N * N)) : eff index (list (list (D * labeltype))) :=
  let* '(rows, features) := eff_lift (λ _, get_input_array_shapes input) in
  let* num_threads := eff_lift (λ ix, threads_for ix num_threads rows) in
  let* ix := eff_get id in
  λ ix0, match appr_alg ix0 with
  | Alg s =>
      let norm_size := (to_size_t num_threads * features) mod 18446744073709551616 in
      let '((s', m), r) := parallel_calls (to_size_t hardware_concurrency) 0 rows (to_size_t num_threads) calls
                             (store_rows (query_row ix input k filter norm_size)) (s, ∅) in
      (with_alg (Alg s') ix0,
       _ <- r ;; Ok ((λ row, default [] (m !! N.of_nat row)) <$> seq 0 (N.to_nat rows)))
  | NoAlg => (ix0, Undef "call through a null appr_alg")
  | Freed => (ix0, Undef "call through a freed appr_alg")
  end.

(** ** Methods that are one call *)
Definition markDeleted (label : N) : eff index unit := on_alg (markDelete label).
Definition unmarkDeleted (label : N) : eff index unit := on_alg (unmarkDelete label).
Definition py_resizeIndex (new_size : N) : eff index unit := on_alg (resizeIndex new_size).
Definition py_getMaxElements : eff index N := on_alg (eff_get (λ s, max_elements_ (cfg s))).
Definition getCurrentCount : eff index N := on_alg (eff_get cur_element_count).
(** The property [ef] and the read-only properties. *)
Definition get_ef : eff index N := λ ix,
  if index_inited ix then on_alg (eff_get (λ s, ef_ (cfg s))) ix else (ix, Ok (default_ef ix)).
Definition prop_of (f : hnsw → N) : eff index N := λ ix,
  if index_inited ix then on_alg (eff_get f) ix else (ix, Ok 0).
Definition prop_max_elements : eff index N := prop_of (λ s, max_elements_ (cfg s)).
Definition prop_element_count : eff index N := prop_of cur_element_count.
Definition prop_ef_construction : eff index N := prop_of (λ s, ef_construction_ (cfg s)).
Definition prop_M : eff index N := prop_of (λ s, M_ (cfg s)).
End index.
