(* ===== verification/PyLaws.v ===== *)
(** * The Python class [Index]

    Adding and querying many rows with several threads.  The rows are added by
    [ParallelFor] in any order; the collection they leave does not depend on it.
    Every row of a query gets an answer of the collection. *)

From Stdlib Require Import ZArith Lia SpecFloat.
From stdpp Require Import base numbers list gmap strings pretty sorting.
From S2P Require Import Prelude Heap Binary VisitedList ParallelFor Arith Floats Dataset ToolsLaws.
From S2P Require Import Hnsw HnswPersist HnswSearch HnswInsert PyIndex.
From S2P Require Import HnswWf HnswKnn HnswAddLaws HnswIndexLaws HnswSpec.
#[local] Open Scope N_scope.

(** ** Runs of calls *)
Section calls.
Context {S : Type}.
Implicit Types (f : N → N → eff S unit) (s : S).

Lemma run_calls_thrown f calls : ∀ e s s', run_calls f calls (Some e) s ≠ (s', Ok tt).
Proof.
  induction calls as [|[id t] calls IH]; intros e s s'; cbn [run_calls]; [done|].
  destruct (f id t s) as [s1 []]; [apply IH|apply IH|done|done].
Qed.
Lemma seq_calls_run f n : ∀ id s s',
  run_calls f ((λ k, (id + N.of_nat k, 0)) <$> seq 0 n) None s = (s', Ok tt) → seq_calls f n id s = (s', Ok tt).
Proof.
  induction n as [|n IH]; intros id s s'; cbn [seq fmap list_fmap run_calls seq_calls]; [done|].
  rewrite N.add_0_r. destruct (f id 0 s) as [s1 r] eqn:E. unfold eff_bind. rewrite E.
  destruct r as [[]|e|u|]; [|intros H; by apply run_calls_thrown in H|done|done].
  intros H. apply IH. rewrite <- H. f_equal. rewrite <- fmap_S_seq, <- list_fmap_compose.
  apply list_fmap_ext. intros _ k _. simpl. f_equal. lia.
Qed.

(** Calls that all return. *)
Lemma run_calls_inv f (I : list (N * N) → S → Prop) calls :
  (∀ pre id t post s, calls = pre ++ (id, t) :: post → I pre s →
     ∃ s', f id t s = (s', Ok tt) ∧ I (pre ++ [(id, t)]) s') →
  ∀ s, I [] s → ∃ s', run_calls f calls None s = (s', Ok tt) ∧ I calls s'.
Proof.
  intros Hf. assert (∀ post pre s, calls = pre ++ post → I pre s →
    ∃ s', run_calls f post None s = (s', Ok tt) ∧ I calls s') as H.
  { induction post as [|[id t] post IH]; intros pre s E Hs; cbn [run_calls].
    - exists s. rewrite E, (right_id_L [] (++)). done.
    - destruct (Hf _ _ _ _ _ E Hs) as (s1 & -> & Hs1). apply (IH (pre ++ [(id, t)])); [|done].
      by rewrite E, <- app_assoc. }
  intros s Hs. by apply (H calls []).
Qed.

(** The calls that are made, and in which order they take effect. *)
Definition calls_made (hardware start end_ numThreads : N) (calls : list (N * N)) : list (N * N) :=
  if thread_count numThreads hardware =? 1
  then (λ k, (start + N.of_nat k, 0)) <$> seq 0 (N.to_nat (end_ - start)) else calls.
Lemma parallel_calls_run f hardware start end_ numThreads calls s s' :
  run_calls f (calls_made hardware start end_ numThreads calls) None s = (s', Ok tt) →
  parallel_calls hardware start end_ numThreads calls f s = (s', Ok tt).
Proof.
  unfold calls_made, parallel_calls. destruct (thread_count numThreads hardware =? 1); [apply seq_calls_run|done].
Qed.

(** Calls that return or throw: the rows of those that returned are collected. *)
Section outcomes.
Context (f : N → N → eff S unit) (I : list N → S → Prop) (E : string → Prop) (V : N → N → Prop).
Context (f_ok : ∀ id t L s, V id t → I L s → ∃ s' r, f id t s = (s', r) ∧
  match r with Ok _ => I (L ++ [id]) s' | Throw e => E e ∧ I L s' | _ => False end).

Lemma run_calls_outcome calls : (∀ id t, (id, t) ∈ calls → V id t) → ∀ L le s, I L s → (∀ e, le = Some e → E e) →
  ∃ s' r, run_calls f calls le s = (s', r) ∧
    match r with
    | Ok _ => le = None ∧ I (L ++ (calls.*1)) s'
    | Throw e => E e ∧ ∃ L', I L' s'
    | _ => False
    end.
Proof using f_ok.
  induction calls as [|[id t] calls IH]; intros HV L le s Hs Hle; cbn [run_calls].
  - destruct le as [e|]; [exists s, (Throw e); eauto|]. exists s, (Ok tt). cbn [fmap list_fmap]. rewrite (right_id_L [] (++)). eauto.
  - assert (∀ id t, (id, t) ∈ calls → V id t) as HV' by (intros; apply HV; by right).
    destruct (f_ok id t L s) as (s1 & r & -> & Hr); [apply HV; left|done|]. destruct r as [[]|e|u|]; [| |done|done].
    + destruct (IH HV' _ le s1 Hr Hle) as (s' & r & -> & H). exists s', r. split; [done|].
      destruct r as [[]|e|u|]; [|done..]. by rewrite <- app_assoc in H.
    + destruct Hr as [He Hr]. destruct (IH HV' L (Some e) s1 Hr) as (s' & r & -> & H); [by intros ? [= <-]|].
      exists s', r. split; [done|]. by destruct r as [[]|e'|u|]; [destruct H|..].
Qed.
Lemma seq_calls_outcome n : ∀ id L s, (∀ k : nat, (k < n)%nat → V (id + N.of_nat k) 0) → I L s →
  ∃ s' r, seq_calls f n id s = (s', r) ∧
    match r with
    | Ok _ => I (L ++ ids id n) s'
    | Throw e => E e ∧ ∃ L', I L' s'
    | _ => False
    end.
Proof using f_ok.
  induction n as [|n IH]; intros id L s HV Hs; cbn [seq_calls].
  - exists s, (Ok tt). split; [done|]. unfold ids. simpl. by rewrite (right_id_L [] (++)).
  - destruct (f_ok id 0 L s) as (s1 & r & Hf & Hr); [rewrite <- (N.add_0_r id); apply (HV 0%nat); lia|done|].
    unfold eff_bind. rewrite Hf. destruct r as [[]|e|u|]; [| |done|done].
    + destruct (IH (id + 1) (L ++ [id]) s1) as (s' & r & Hrun & H); [|done|].
      { intros k Hk. replace (id + 1 + N.of_nat k) with (id + N.of_nat (Datatypes.S k)) by lia. apply HV. lia. }
      exists s', r. split; [done|]. destruct r as [[]|e|u|]; [|done..]. by rewrite <- app_assoc in H; rewrite ids_cons.
    + exists s1, (Throw e). split; [done|]. destruct Hr. eauto.
Qed.

Lemma parallel_calls_outcome hardware start end_ numThreads calls s :
  (∀ id t, (id, t) ∈ calls_made hardware start end_ numThreads calls → V id t) → I [] s →
  ∃ s' r, parallel_calls hardware start end_ numThreads calls f s = (s', r) ∧
    match r with
    | Ok _ => I (calls_made hardware start end_ numThreads calls).*1 s'
    | Throw e => E e ∧ ∃ L', I L' s'
    | _ => False
    end.
Proof using f_ok.
  unfold calls_made, parallel_calls. intros HV Hs. destruct (thread_count numThreads hardware =? 1).
  - rewrite <- list_fmap_compose. apply (seq_calls_outcome _ start []); [|done].
    intros k Hk. apply HV, list_elem_of_fmap. exists k. split; [done|]. apply elem_of_seq. lia.
  - destruct (run_calls_outcome calls HV [] None s Hs ltac:(done)) as (s' & r & Hrun & H). exists s', r. split; [done|].
    by destruct r as [[]|e|u|]; [destruct H|..].
Qed.
End outcomes.

(** [calls] are those of a run of [ParallelFor] in which nothing is thrown,
    in any order. *)
Definition for_calls (hardware start end_ numThreads : N) (calls : list (N * N)) : Prop :=
  ∃ cs, parallel_for start end_ (λ _ _ r, r = Ok tt) numThreads hardware cs (Ok tt) ∧ calls ≡ₚ cs.
Lemma for_calls_exist hardware start end_ numThreads :
  1 ≤ numThreads → N.max start end_ + numThreads < size_max1 →
  ∃ cs, parallel_for start end_ (λ _ _ r, r = Ok tt) numThreads hardware cs (Ok tt).
Proof.
  intros Hn Hroom. set (fn := λ (_ _ : N) r, r = Ok tt).
  assert (∀ id t, fn id t (Ok tt) ∨ ∃ e, fn id t (Throw e)) as Htot by by left.
  assert (thread_count numThreads hardware = numThreads) as Hc.
  { unfold thread_count. by decide_cmp. }
  assert (∃ cs r, parallel_for start end_ fn numThreads hardware cs r) as (cs & r & Hr).
  { unfold parallel_for. rewrite Hc. destruct (N.eqb_spec numThreads 1); [by eapply seq_finishes|].
    destruct (for_finishes start end_ fn numThreads Hroom Htot (for_measure start end_ (for_init start numThreads)) (for_init start numThreads)) as (s & Hs & Hj);
      [by apply for_init_inv|done|]. eauto 10. }
  exists cs. apply parallel_for_outcome in Hr as Ho; rewrite ?Hc; [|done|done]. pose proof (oc_result _ _ _ _ _ _ Ho) as H.
  destruct r as [[]|e|u|]; [done| |done|done]. by destruct H as (id & t & _ & ?).
Qed.
Lemma calls_made_outcome hardware start end_ numThreads calls fn cs r :
  1 ≤ numThreads → N.max start end_ + numThreads < size_max1 →
  parallel_for start end_ fn numThreads hardware cs r → calls ≡ₚ cs →
  (r = Ok tt → (calls_made hardware start end_ numThreads calls).*1 ≡ₚ ids start (N.to_nat (end_ - start))) ∧
  ∀ id t, (id, t) ∈ calls_made hardware start end_ numThreads calls → start ≤ id < end_ ∧ t < numThreads.
Proof.
  intros Hn Hroom Hrun Hp.
  assert (thread_count numThreads hardware = numThreads) as Hc.
  { unfold thread_count. by decide_cmp. }
  unfold calls_made. rewrite Hc. destruct (N.eqb_spec numThreads 1) as [->|Hne].
  - split; [by rewrite <- list_fmap_compose|]. intros id t (k & [= -> ->] & Hk%elem_of_seq)%list_elem_of_fmap. lia.
  - apply parallel_for_outcome in Hrun as Ho; rewrite ?Hc in *; [|done|done].
    apply outcome_once in Ho as Ho'; [|done]. destruct Ho' as (_ & H2 & H3). split.
    + intros Hr. rewrite Hp. by apply H3.
    + intros id t. rewrite Hp. intros Hin. split; [|by apply (oc_tid _ _ _ _ _ _ Ho) in Hin].
      apply H2, list_elem_of_fmap. by exists (id, t).
Qed.
Lemma for_calls_made hardware start end_ numThreads calls :
  1 ≤ numThreads → N.max start end_ + numThreads < size_max1 →
  for_calls hardware start end_ numThreads calls →
  (calls_made hardware start end_ numThreads calls).*1 ≡ₚ ids start (N.to_nat (end_ - start)) ∧
  ∀ id t, (id, t) ∈ calls_made hardware start end_ numThreads calls → t < numThreads.
Proof.
  intros Hn Hroom (cs & Hrun & Hp). destruct (calls_made_outcome _ _ _ _ _ _ _ _ Hn Hroom Hrun Hp) as [H1 H2].
  split; [by apply H1|]. intros id t Hin. by destruct (H2 id t Hin).
Qed.
End calls.

(** ** Putting rows into a collection *)
Definition put_rows (σ : spec) (l : list (labeltype * point)) : spec :=
  foldl (λ σ '(id, v), put_item σ id v) σ l.

Lemma put_rows_snoc σ l id v : put_rows σ (l ++ [(id, v)]) = put_item (put_rows σ l) id v.
Proof. unfold put_rows. by rewrite foldl_app. Qed.
Lemma put_item_swap σ i j v w : i ≠ j → put_item (put_item σ i v) j w = put_item (put_item σ j w) i v.
Proof. intros H. unfold put_item, with_items. simpl. f_equal. by rewrite insert_insert_ne. Qed.

(** Rows under distinct labels may be put in any order. *)
Lemma put_rows_perm l l' : l ≡ₚ l' → NoDup l.*1 → ∀ σ, put_rows σ l = put_rows σ l'.
Proof.
  induction 1 as [|[id v] l l' Hp IH|[i v] [j w] l|l1 l2 l3 H1 IH1 H2 IH2]; intros Hnd σ.
  - done.
  - simpl. apply IH. by inversion Hnd.
  - simpl. rewrite put_item_swap; [done|]. simpl in Hnd. apply NoDup_cons in Hnd as [Hnd _]. set_solver.
  - rewrite IH1 by done. apply IH2. by rewrite <- H1.
Qed.
Lemma put_rows_fields σ l : sp_cap (put_rows σ l) = sp_cap σ ∧ sp_size (put_rows σ l) = sp_size σ ∧
  sp_allow (put_rows σ l) = sp_allow σ.
Proof. revert σ. induction l as [|[id v] l IH]; intros σ; [done|]. simpl. destruct (IH (put_item σ id v)) as (-> & -> & ->). done. Qed.
Lemma put_item_size σ id v : (size (sp_items (put_item σ id v)) ≤ S (size (sp_items σ)))%nat.
Proof. simpl. rewrite map_size_insert. case_match; simpl; lia. Qed.
Lemma put_rows_size σ l : (size (sp_items (put_rows σ l)) ≤ size (sp_items σ) + length l)%nat.
Proof.
  revert σ. induction l as [|[id v] l IH]; intros σ; [simpl; lia|]. cbn [put_rows foldl length].
  specialize (IH (put_item σ id v)). pose proof (put_item_size σ id v). unfold put_rows in *. lia.
Qed.
Lemma put_item_live σ id v : all_items_live σ → all_items_live (put_item σ id v).
Proof. intros H. apply map_Forall_insert_2; [done|exact H]. Qed.
Lemma put_rows_live σ l : all_items_live σ → all_items_live (put_rows σ l).
Proof. revert σ. induction l as [|[id v] l IH]; intros σ Hl; [done|]. apply IH. by apply put_item_live. Qed.

(** ** Rows of an array *)
Section rows.
Context `{RE : RandomEngine} `{NP : Numpy}.
Implicit Types (ix : index) (input : buffer).

(** A [float] array of [rows] vectors of [dim] elements. *)
Record array_ok (dim : Z) input (rows : N) : Prop := {
  ar_dim : (0 < dim ≤ 2147483647)%Z;
  ar_shape : get_input_array_shapes input = Ok (rows, Z.to_N dim);
  ar_data : N.of_nat (length (buf_data input)) = 4 * rows * Z.to_N dim;
  ar_rows : 1 ≤ rows
}.
Lemma array_row dim input rows row : array_ok dim input rows → row < rows →
  ∃ p, items_data input row = Ok p ∧ (4 * Z.to_nat dim ≤ length p)%nat.
Proof.
  intros [[D1 D2] Hs Hd Hr] Hrow. unfold get_input_array_shapes in Hs.
  destruct (shape input) as [|a [|b [|]]] eqn:Hsh; simplify_eq.
  - assert (row = 0) as -> by lia. exists (buf_data input). split; [apply (items_data_1d _ (Z.to_N dim)); [done|lia]|]. lia.
  - eexists. split; [by eapply items_data_2d|]. rewrite length_drop. nia.
Qed.

Definition row_entry ix input (ids : list N) (row : N) : labeltype * point :=
  (match row_id ids (cur_l ix) row with Ok id => id | _ => 0 end,
   match row_vector ix input row with Ok v => v | _ => [] end).

Lemma normalize_vector_ok dim p : (4 * Z.to_nat dim ≤ length p)%nat →
  ∃ v, normalize_vector dim p = Ok v ∧ (length v = 4 * Z.to_nat dim)%nat.
Proof.
  intros Hp. unfold normalize_vector. destruct (read_vector_ok (Z.to_nat dim) p Hp) as (v & -> & Hv). cbn [res_bind].
  eexists. split; [done|]. by rewrite write_vector_length, length_fmap, Hv.
Qed.
Lemma row_vector_ok ix input rows row : array_ok (dim ix) input rows → row < rows →
  ∃ v, row_vector ix input row = Ok v ∧ (4 * Z.to_nat (dim ix) ≤ length v)%nat.
Proof.
  intros Ha Hrow. destruct (array_row _ _ _ _ Ha Hrow) as (p & Hp & Hlen). unfold row_vector. rewrite Hp. cbn [res_bind].
  destruct (normalize ix); [|by exists p]. destruct (normalize_vector_ok _ _ Hlen) as (v & Hv & Hl). exists v. split; [done|lia].
Qed.

(** Labels: the given ones, one for each row, or numbers from [cur_l] on. *)
Definition ids_for ix (ids : list N) (rows : N) : Prop :=
  if decide (ids = []) then is_Some (cur_l ix) else N.of_nat (length ids) = rows.
Lemma row_id_ok ids cur_l rows row :
  (if decide (ids = []) then is_Some cur_l else N.of_nat (length ids) = rows) → row < rows →
  row_id ids cur_l row = Ok (match row_id ids cur_l row with Ok id => id | _ => 0 end).
Proof.
  intros Hi Hrow. destruct ids as [|x ids].
  - simpl in Hi. destruct Hi as [l ->]. done.
  - rewrite decide_False in Hi by done. destruct (lookup_lt_is_Some_2 (x :: ids) (N.to_nat row)) as [y Hy]; [lia|].
    unfold row_id. by rewrite Hy.
Qed.
Lemma row_entry_ok ix input ids rows row :
  array_ok (dim ix) input rows → ids_for ix ids rows → row < rows →
  row_id ids (cur_l ix) row = Ok (row_entry ix input ids row).1 ∧
  row_vector ix input row = Ok (row_entry ix input ids row).2 ∧
  (4 * Z.to_nat (dim ix) ≤ length (row_entry ix input ids row).2)%nat.
Proof.
  intros Ha Hi Hrow. destruct (row_vector_ok _ _ _ _ Ha Hrow) as (v & Hv & Hlen). unfold row_entry. rewrite Hv.
  cbn [fst snd]. split_and!; [|done..]. by eapply row_id_ok.
Qed.
(** [ix] after [ep_added] was set reads the same rows. *)
Lemma row_entry_ep ix a input ids row : row_entry (with_ep true (with_alg a ix)) input ids row = row_entry ix input ids row.
Proof. done. Qed.
End rows.

Section add.
Context `{RE : RandomEngine} `{HI : HeapImpl} `{AL : Alloc} `{HS : HashOrder} `{NP : Numpy}.
Context {D : Type} `{HD : DistT D} `{HO : !DistOrder D}.
Variables l2_dist ip_dist : N → point → point → D.
Variable hardware_concurrency : Z.
Hypothesis level_total : ∀ M g, 2 ≤ M → (random_level (inv_log M) g).1 ≠ None.
Implicit Types (ix : index) (input : buffer) (s : hnsw) (σ : spec).

Lemma add_one dist s σ q label :
  implements s σ → all_items_live σ → (N.to_nat (sp_size σ) ≤ length q)%nat →
  N.of_nat (size (sp_items σ)) < sp_cap σ →
  ∃ s', addPoint dist q label false s = (s', Ok tt) ∧ implements s' (put_item σ label q).
Proof using level_total HO.
  intros Hs Hl Hq Hroom.
  destruct (sim_op dist level_total s σ (OpAdd q label false) Hs) as (s' & σ' & x & Hrun & Hs' & Hst); [by split|].
  assert (spec_add σ q label = (put_item σ label q, Ok tt)) as E.
  { unfold spec_add. destruct (sp_items σ !! label) as [[p []]|] eqn:Hlab; [done| |].
    - by specialize (Hl _ _ Hlab).
    - by rewrite (proj2 (N.leb_gt _ _)). }
  inversion Hst as [q' l' E1 E2| | | | | | |]; subst. rewrite E in *. by exists s'.
Qed.

(** The rows of one call, from a collection without deleted items. *)
Record add_inv σ (ent : N → labeltype * point) (rows : N) (done : list N) s : Prop := {
  ai_spec : implements s (put_rows σ (ent <$> done));
  ai_rows : Forall (λ r, r < rows) done;
  ai_nodup : NoDup done
}.
Lemma add_inv_room σ ent rows done s row :
  add_inv σ ent rows done s → row < rows → row ∉ done →
  N.of_nat (size (sp_items σ)) + rows ≤ sp_cap σ →
  N.of_nat (size (sp_items (put_rows σ (ent <$> done)))) < sp_cap (put_rows σ (ent <$> done)).
Proof.
  intros [_ Hr Hnd] Hrow Hnot Hroom. destruct (put_rows_fields σ (ent <$> done)) as (-> & _ & _).
  pose proof (put_rows_size σ (ent <$> done)) as Hsz. rewrite length_fmap in Hsz.
  assert (length (row :: done) ≤ length (ids 0 (N.to_nat rows)))%nat as Hlen.
  { apply submseteq_length, NoDup_submseteq; [by constructor|]. intros x Hx. apply elem_ids.
    apply elem_of_cons in Hx as [->|Hx]; [lia|]. rewrite Forall_forall in Hr. specialize (Hr x Hx). lia. }
  unfold ids in Hlen. rewrite length_fmap, length_seq in Hlen. simpl in Hlen. lia.
Qed.

(** What [add_items] needs, besides room for the rows. *)
Record items_ok ix input (ids_ : option ids_array) (num_threads : Z) (rows : N) (ids : list N) (nt : Z) : Prop := {
  it_array : array_ok (dim ix) input rows;
  it_ids : get_input_ids_and_check_shapes ids_ rows = Ok ids;
  it_labels : ids_for ix ids rows;
  it_nodup : NoDup (row_entry ix input ids <$> ParallelFor.ids 0 (N.to_nat rows)).*1;
  it_threads : threads_for ix num_threads rows = Ok nt;
  it_norm : (1 ≤ nt ∧ nt * dim ix ≤ 2147483647)%Z
}.

Lemma add_row_ok ix input ids rows norm_size row t s σ :
  array_ok (dim ix) input rows → ids_for ix ids rows → row < rows →
  (normalize ix = true → (t + 1) * Z.to_N (dim ix) ≤ norm_size) →
  implements s σ → all_items_live σ → sp_size σ = 4 * Z.to_N (dim ix) →
  N.of_nat (size (sp_items σ)) < sp_cap σ →
  ∃ s', add_row l2_dist ip_dist ix input ids false norm_size row t s = (s', Ok tt) ∧
    implements s' (put_item σ (row_entry ix input ids row).1 (row_entry ix input ids row).2).
Proof using level_total HO.
  intros Ha Hi Hrow Hseg Hs Hl Hsz Hroom. destruct (row_entry_ok _ _ _ _ _ Ha Hi Hrow) as (H1 & H2 & H3).
  destruct (add_one (space_dist l2_dist ip_dist ix) s σ (row_entry ix input ids row).2 (row_entry ix input ids row).1)
    as (s' & Hrun & Hs'); [done|done|lia|done|].
  exists s'. split; [|done]. pose proof (ar_dim _ _ _ Ha) as Hdim. unfold add_row. destruct (normalize ix) eqn:Hn.
  - assert (norm_segment ix norm_size t = Ok tt) as Hg.
    { unfold norm_segment. rewrite to_size_t_nonneg by lia. specialize (Hseg eq_refl).
      by decide_cmp. }
    erewrite eff_bind_lift; [|rewrite Hg; cbn [res_bind]; exact H2]. by erewrite eff_bind_lift by done.
  - erewrite eff_bind_lift by done. by erewrite eff_bind_lift by done.
Qed.

Lemma add_first_ok ix input ids rows s σ :
  array_ok (dim ix) input rows → ids_for ix ids rows →
  implements s σ → all_items_live σ → sp_size σ = 4 * Z.to_N (dim ix) →
  N.of_nat (size (sp_items σ)) < sp_cap σ →
  ∃ s', add_first l2_dist ip_dist ix input ids false s = (s', Ok tt) ∧
    implements s' (put_item σ (row_entry ix input ids 0).1 (row_entry ix input ids 0).2).
Proof using level_total HO.
  intros Ha Hi Hs Hl Hsz Hroom. pose proof (ar_rows _ _ _ Ha) as Hr.
  destruct (row_entry_ok _ _ _ _ 0 Ha Hi) as (H1 & H2 & H3); [lia|].
  destruct (add_one (space_dist l2_dist ip_dist ix) s σ (row_entry ix input ids 0).2 (row_entry ix input ids 0).1)
    as (s' & Hrun & Hs'); [done|done|lia|done|].
  exists s'. split; [|done]. unfold add_first. erewrite eff_bind_lift by done. by erewrite eff_bind_lift by done.
Qed.

(** The rows that are left, in any order. *)
Lemma add_rest ix input ids rows norm_size σ calls before s :
  array_ok (dim ix) input rows → ids_for ix ids rows →
  all_items_live σ → sp_size σ = 4 * Z.to_N (dim ix) → N.of_nat (size (sp_items σ)) + rows ≤ sp_cap σ →
  (∀ id t, (id, t) ∈ calls → id < rows ∧ (id ∉ before) ∧ (normalize ix = true → (t + 1) * Z.to_N (dim ix) ≤ norm_size)) →
  NoDup (calls.*1) → add_inv σ (row_entry ix input ids) rows before s →
  ∃ s', run_calls (add_row l2_dist ip_dist ix input ids false norm_size) calls None s = (s', Ok tt) ∧
    add_inv σ (row_entry ix input ids) rows (before ++ (calls.*1)) s'.
Proof using level_total HO.
  intros Ha Hi Hl Hsz Hroom Hcalls Hnd Hs.
  apply (run_calls_inv _ (λ pre s, add_inv σ (row_entry ix input ids) rows (before ++ (pre.*1)) s)).
  - intros pre id t post s1 E Hs1. destruct (Hcalls id t) as (Hid & Hnot & Hseg); [rewrite E; apply elem_of_app; right; left|].
    assert (id ∉ before ++ pre.*1) as Hfresh.
    { rewrite E, fmap_app in Hnd. apply NoDup_app in Hnd as (_ & Hdis & _).
      intros [?|Hpre]%elem_of_app; [done|]. apply (Hdis _ Hpre). left. }
    destruct (put_rows_fields σ (row_entry ix input ids <$> (before ++ (pre.*1)))) as (_ & Hf & _).
    destruct (add_row_ok ix input ids rows norm_size id t s1 (put_rows σ (row_entry ix input ids <$> (before ++ (pre.*1)))))
      as (s2 & Hrun & Hs2); [done..|apply Hs1|by apply put_rows_live|by rewrite Hf|by eapply add_inv_room|].
    exists s2. split; [done|]. split.
    + rewrite (fmap_app fst), app_assoc, (fmap_app (row_entry ix input ids)). cbn [fmap list_fmap fst].
      destruct (row_entry ix input ids id) as [l v] eqn:Ee. rewrite put_rows_snoc. done.
    + rewrite fmap_app, app_assoc. apply Forall_app. split; [apply Hs1|]. by repeat constructor.
    + rewrite fmap_app, app_assoc. apply NoDup_app. split_and!; [apply Hs1| |apply NoDup_singleton].
      intros x Hx ->%list_elem_of_singleton. done.
  - simpl. by rewrite (right_id_L [] (++)).
Qed.

(** [on_alg] on an initialised index. *)
Lemma on_alg_ok {A} (m : eff hnsw A) ix s s' (x : A) : appr_alg ix = Alg s → m s = (s', Ok x) →
  on_alg m ix = (with_alg (Alg s') ix, Ok x).
Proof. intros E Hm. unfold on_alg. by rewrite E, Hm. Qed.

(** The first row goes in alone when the index has no entry point. *)
Definition rows_before ix : list N := if ep_added ix then [] else [0].
Lemma rows_split ix rows : 1 ≤ rows →
  ids 0 (N.to_nat rows) = rows_before ix ++ ids (N.of_nat (length (rows_before ix)))
    (N.to_nat (rows - N.of_nat (length (rows_before ix)))).
Proof.
  intros Hr. unfold rows_before. destruct (ep_added ix); simpl.
  - by rewrite N.sub_0_r.
  - replace (N.to_nat rows) with (S (N.to_nat (rows - 1))) by lia. by rewrite ids_cons.
Qed.
Lemma add_before ix input ids rows s σ :
  array_ok (dim ix) input rows → ids_for ix ids rows → appr_alg ix = Alg s →
  implements s σ → all_items_live σ → sp_size σ = 4 * Z.to_N (dim ix) →
  N.of_nat (size (sp_items σ)) + rows ≤ sp_cap σ →
  ∃ s1, (if ep_added ix then eff_ret 0
         else let* ix := eff_get id in
              let* _ := on_alg (add_first l2_dist ip_dist ix input ids false) in
              let* _ := eff_mod (with_ep true) in eff_ret 1) ix =
      (with_ep true (with_alg (Alg s1) ix), Ok (N.of_nat (length (rows_before ix)))) ∧
    add_inv σ (row_entry ix input ids) rows (rows_before ix) s1.
Proof using level_total HO.
  intros Ha Hi Halg Hs Hl Hsz Hroom. pose proof (ar_rows _ _ _ Ha) as Hr. unfold rows_before.
  destruct (ep_added ix) eqn:Hep.
  - exists s. split; [|by split; [|apply Forall_nil_2|apply NoDup_nil_2]]. unfold eff_ret. f_equal. destruct ix. simpl in *. by subst.
  - destruct (add_first_ok ix input ids rows s σ) as (s1 & Hrun & Hs1); [done..|lia|]. exists s1. split.
    + erewrite eff_bind_ok by done. by rewrite (eff_bind_ok _ _ _ _ _ (on_alg_ok _ _ _ _ _ Halg Hrun)).
    + split; [|apply Forall_singleton; lia|apply NoDup_singleton].
      cbn [fmap list_fmap put_rows foldl]. rewrite (surjective_pairing (row_entry ix input ids 0)). exact Hs1.
Qed.

(** C7. [add_items] with any number of threads: when the index has room for the
    rows, holds no deleted element, and the rows have distinct labels, the call
    returns, and the index holds its former elements and every row under its
    label, normalised for the cosine space, in whatever order the calls of
    [ParallelFor] took effect. *)
Theorem addItems_any_order ix s σ input ids_ num_threads calls rows ids nt :
  implements s σ → appr_alg ix = Alg s → all_items_live σ → sp_size σ = space_size ix →
  items_ok ix input ids_ num_threads rows ids nt → N.of_nat (size (sp_items σ)) + rows ≤ sp_cap σ →
  for_calls (to_size_t hardware_concurrency) (if ep_added ix then 0 else 1) rows (Z.to_N nt) calls →
  ∃ s', addItems l2_dist ip_dist hardware_concurrency input ids_ num_threads false calls ix =
      (with_cur_l (l ← cur_l ix; Some ((l + rows) mod 18446744073709551616)) (with_ep true (with_alg (Alg s') ix)), Ok tt) ∧
    implements s' (put_rows σ (row_entry ix input ids <$> ParallelFor.ids 0 (N.to_nat rows))).
Proof using level_total HO.
  intros Hs Halg Hl Hsz [Ha I1 I2 I3 I4 [I5 I6]] Hroom Hcalls. pose proof (ar_dim _ _ _ Ha) as Hd.
  pose proof (ar_rows _ _ _ Ha) as Hr.
  assert (sp_size σ = 4 * Z.to_N (dim ix)) as Hsize.
  { rewrite Hsz. unfold space_size. rewrite to_size_t_nonneg, N.mod_small by lia. lia. }
  assert (sp_cap σ ≤ 2147483648) as Hcap.
  { destruct Hs as (Hix & _ & <-). apply (go_cfg _ (ix_graph _ Hix)). }
  destruct (add_before ix input ids rows s σ) as (s1 & Hb & Hs1); [done..|].
  assert ((if ep_added ix then 0 else 1) = N.of_nat (length (rows_before ix))) as Hst
    by (unfold rows_before; by destruct (ep_added ix)).
  rewrite Hst in Hcalls. set (start := N.of_nat (length (rows_before ix))) in *.
  assert (start ≤ 1) as Hs01 by (unfold start, rows_before; destruct (ep_added ix); simpl; lia).
  destruct (for_calls_made (to_size_t hardware_concurrency) start rows (Z.to_N nt) calls) as [Hp Ht];
    [lia|unfold size_max1; nia|done|].
  set (made := calls_made _ _ _ _ _) in *.
  set (norm_size := if normalize ix then Z.to_N (nt * dim ix) else 0).
  assert (∀ x, x ∈ made.*1 → x < rows ∧ x ∉ rows_before ix) as Hmade.
  { intros x. rewrite Hp, elem_ids. unfold start, rows_before. destruct (ep_added ix); simpl; rewrite ?list_elem_of_singleton.
    - split; [lia|]. by intros ?%elem_of_nil.
    - lia. }
  destruct (add_rest ix input ids rows norm_size σ made (rows_before ix) s1) as (s2 & Hrun & Hs2); try done.
  { intros id t Hin. destruct (Hmade id) as [? ?]; [apply list_elem_of_fmap; by exists (id, t)|]. split_and!; [done..|].
    intros Hn. unfold norm_size. rewrite Hn. specialize (Ht _ _ Hin). nia. }
  { rewrite Hp. apply nodup_ids. }
  exists s2. split.
  - unfold addItems. rewrite (eff_bind_lift (λ _, get_input_array_shapes input) _ ix (rows, Z.to_N (dim ix)))
      by apply Ha. cbv beta iota.
    rewrite (eff_bind_lift _ _ ix tt) by (rewrite to_size_t_nonneg by lia; by rewrite N.eqb_refl).
    rewrite (eff_bind_lift (λ ix, threads_for ix num_threads rows) _ ix nt) by done.
    rewrite (eff_bind_lift (λ _, get_input_ids_and_check_shapes ids_ rows) _ ix ids) by done.
    rewrite (eff_bind_ok _ _ ix ix (ep_added ix)) by done. rewrite (eff_bind_ok _ _ _ _ _ Hb).
    erewrite eff_bind_ok by done.
    rewrite (eff_bind_lift _ _ _ norm_size).
    2:{ unfold norm_size, id. cbn [normalize with_ep with_state with_alg dim]. destruct (normalize ix); [|done].
        rewrite int_mul_ok by nia. cbn [res_bind]. by rewrite to_size_t_nonneg by nia. }
    unfold id. set (ix1 := with_ep true (with_alg (Alg s1) ix)).
    rewrite (eff_bind_ok _ _ ix1 (with_alg (Alg s2) ix1) tt).
    + done.
    + apply (on_alg_ok _ _ s1); [done|]. rewrite (to_size_t_nonneg nt) by nia. by apply parallel_calls_run.
  - rewrite <- (put_rows_perm (row_entry ix input ids <$> rows_before ix ++ made.*1)); [apply Hs2| |].
    + rewrite (rows_split ix rows Hr). fold start. by rewrite Hp.
    + rewrite Hp. unfold start. rewrite <- (rows_split ix rows Hr). done.
Qed.

(** ** Queries *)
Definition contiguous_error : string :=
  "Cannot return the results in a contiguous 2D array. Probably ef or M is too small".

(** Row [row] of the result: [k] items of the collection, nearest first. *)
Record row_answers σ ix input (k : N) flt (row : N) (l : list (D * labeltype)) : Prop := {
  ra_length : N.of_nat (length l) = k;
  ra_sorted : StronglySorted (λ x y, res_less y x = false) l;
  ra_answers q : row_vector ix input row = Ok q → answers (space_dist l2_dist ip_dist ix) σ q k flt l
}.

Lemma answers_perm dist σ q k flt (l l' : list (D * labeltype)) :
  l ≡ₚ l' → answers dist σ q k flt l → answers dist σ q k flt l'.
Proof.
  intros Hp [A1 A2 A3]. split.
  - by rewrite <- Hp.
  - by rewrite <- Hp.
  - intros d lab. rewrite <- Hp. apply A3.
Qed.
Lemma take_results_drain n : ∀ (r acc : list (D * labeltype)), length r = n →
  take_results n r acc = Ok (rev (pq_drain res_less r) ++ acc).
Proof.
  induction n as [|n IH]; intros r acc Hr.
  - by destruct r.
  - destruct r as [|x r]; [done|]. cbn [take_results]. change (pq_top (x :: r)) with (Some x). cbn [of_opt res_bind].
    assert (length (pq_pop res_less (x :: r)) = n) as Hp by (rewrite pq_pop_length; simpl in *; lia).
    rewrite IH by done. unfold pq_drain. rewrite Hr. cbn [pq_drain_aux rev]. rewrite Hp, <- app_assoc. done.
Qed.

Lemma query_row_ok ix input rows k flt norm_size row t s σ :
  array_ok (dim ix) input rows → row < rows → (normalize ix = true → (t + 1) * Z.to_N (dim ix) ≤ norm_size) →
  implements s σ → 1 ≤ N.max (ef_ (cfg s)) k →
  ∃ s' r, query_row l2_dist ip_dist ix input k flt norm_size row t s = (s', r) ∧ implements s' σ ∧ cfg s' = cfg s ∧
    match r with
    | Ok l => row_answers σ ix input k flt row l
    | Throw e => e = contiguous_error
    | _ => False
    end.
Proof using HO.
  intros Ha Hrow Hseg Hs Hk. pose proof (ar_dim _ _ _ Ha) as Hd.
  destruct (row_vector_ok ix input rows row Ha Hrow) as (q & Hq & Hlen).
  destruct (sim_search_heap (space_dist l2_dist ip_dist ix) s σ q k flt Hs Hk) as (s' & r & Hrun & Hs' & Hc & Hans & Hh).
  assert ((_ <- (if normalize ix then norm_segment ix norm_size t else Ok tt) ;;
    p <- items_data input row ;;
    if normalize ix then normalize_vector (dim ix) p
    else if (Z.of_nat (length p) <? 4 * dim ix)%Z then Undef "distance reads past the array" else Ok p) = Ok q) as Hread.
  { unfold row_vector in Hq. destruct (array_row _ _ _ _ Ha Hrow) as (p & Hp & Hpl). rewrite Hp in *. cbn [res_bind] in *.
    destruct (normalize ix).
    - unfold norm_segment. rewrite to_size_t_nonneg by lia. specialize (Hseg eq_refl).
      by decide_cmp.
    - simplify_eq. by decide_cmp. }
  unfold query_row. rewrite (eff_bind_lift _ _ s q Hread), (eff_bind_ok _ _ _ _ _ Hrun).
  destruct (N.eqb_spec (pq_size r) k) as [Hsz|Hsz].
  - unfold pq_size in Hsz. exists s', (Ok (rev (pq_drain res_less r))). split_and!; [|done..|].
    { unfold eff_lift. rewrite (take_results_drain _ r []) by lia. by rewrite (right_id_L [] (++)). }
    assert (r ≡ₚ rev (pq_drain res_less r)) as Hp by (by rewrite <- Permutation_rev, pq_drain_perm).
    split.
    + by rewrite <- Hp.
    + apply (rev_sorted (λ x y, res_less x y = false)). by apply (pq_drain_sorted res_less).
    + intros q' Hq'. rewrite Hq in Hq'. injection Hq' as <-. eapply answers_perm; [exact Hp|done].
  - by exists s', (Throw contiguous_error).
Qed.

(** The rows answered so far, in the arrays [m]. *)
Definition query_inv σ ix input k flt (c : config) (L : list N) (x : hnsw * gmap N (list (D * labeltype))) : Prop :=
  implements x.1 σ ∧ cfg x.1 = c ∧ (∀ row, row ∈ L → is_Some (x.2 !! row)) ∧
  ∀ row l, x.2 !! row = Some l → row_answers σ ix input k flt row l.

Lemma store_rows_ok ix input rows k flt norm_size σ c id t L x :
  array_ok (dim ix) input rows → id < rows → (normalize ix = true → (t + 1) * Z.to_N (dim ix) ≤ norm_size) →
  1 ≤ N.max (ef_ c) k → query_inv σ ix input k flt c L x →
  ∃ x' r, store_rows (query_row l2_dist ip_dist ix input k flt norm_size) id t x = (x', r) ∧
    match r with
    | Ok _ => query_inv σ ix input k flt c (L ++ [id]) x'
    | Throw e => e = contiguous_error ∧ query_inv σ ix input k flt c L x'
    | _ => False
    end.
Proof using HO.
  intros Ha Hid Hseg Hk (Hs & Hc & HL & Hm). destruct x as [s m]. simpl in *. unfold store_rows.
  destruct (query_row_ok ix input rows k flt norm_size id t s σ Ha Hid Hseg Hs) as (s' & r & -> & Hs' & Hc' & Hr);
    [by rewrite Hc|].
  destruct r as [l|e|u|]; [| |done|done].
  - eexists _, (Ok tt). split; [done|]. split_and!; simpl; [done|congruence| |].
    + intros row [Hin| ->%list_elem_of_singleton]%elem_of_app; [|by rewrite lookup_insert_eq].
      destruct (decide (id = row)) as [->|]; [by rewrite lookup_insert_eq|]. rewrite lookup_insert_ne by done. auto.
    + intros row l'. destruct (decide (id = row)) as [->|]; [rewrite lookup_insert_eq|rewrite lookup_insert_ne by done; auto].
      by intros [= <-].
  - eexists _, (Throw e). split; [done|]. split; [done|]. split_and!; simpl; [done|congruence|done..].
Qed.

(** C8. [knn_query] with any number of threads: the call returns [k] answers for
    every row, nearest first, with correct distances, none deleted and all
    allowed by the filter, or it throws that the results do not fill the array;
    the contents of the index stay.  [calls] are those of a run of [ParallelFor]
    that ends with [outcome]. *)
Theorem knnQuery_rows ix s σ input k num_threads flt calls rows nt cs fn outcome :
  implements s σ → appr_alg ix = Alg s → array_ok (dim ix) input rows → rows ≤ 2147483647 →
  threads_for ix num_threads rows = Ok nt → (1 ≤ nt ≤ 2147483647)%Z → 1 ≤ N.max (ef_ (cfg s)) k →
  parallel_for 0 rows fn (Z.to_N nt) (to_size_t hardware_concurrency) cs outcome → calls ≡ₚ cs →
  ∃ s' r, knnQuery_return_numpy l2_dist ip_dist hardware_concurrency input k num_threads flt calls ix =
      (with_alg (Alg s') ix, r) ∧ implements s' σ ∧
    match r with
    | Ok res => length res = N.to_nat rows ∧ (outcome = Ok tt → ∀ row l, res !! N.to_nat row = Some l →
        row_answers σ ix input k flt row l)
    | Throw e => e = contiguous_error
    | _ => False
    end.
Proof using HO.
  intros Hs Halg Ha Hrows Hnt Hn Hk Hfor Hp. pose proof (ar_dim _ _ _ Ha) as Hd.
  destruct (calls_made_outcome (to_size_t hardware_concurrency) 0 rows (Z.to_N nt) calls fn cs outcome) as [O1 O2];
    [lia|unfold size_max1; lia|done|done|].
  set (norm_size := (to_size_t nt * Z.to_N (dim ix)) mod 18446744073709551616).
  destruct (parallel_calls_outcome (store_rows (query_row l2_dist ip_dist ix input k flt norm_size))
    (query_inv σ ix input k flt (cfg s)) (λ e, e = contiguous_error) (λ id t, id < rows ∧ t < Z.to_N nt)) with
    (hardware := to_size_t hardware_concurrency) (start := 0) (end_ := rows) (numThreads := Z.to_N nt) (calls := calls)
    (s := (s, ∅ : gmap N (list (D * labeltype)))) as ([s' m] & r & Hrun & Hr).
  { intros id t L x [Hid Ht] Hx. apply (store_rows_ok _ _ rows); auto. intros _.
    unfold norm_size. rewrite to_size_t_nonneg, N.mod_small by nia. nia. }
  { intros id t Hin. destruct (O2 id t Hin). lia. }
  { split_and!; [done|done|by intros row ?%elem_of_nil|]. intros row l H. simpl in H. by rewrite lookup_empty in H. }
  unfold knnQuery_return_numpy.
  rewrite (eff_bind_lift (λ _, get_input_array_shapes input) _ ix (rows, Z.to_N (dim ix))) by apply Ha. cbv beta iota.
  rewrite (eff_bind_lift (λ ix, threads_for ix num_threads rows) _ ix nt) by done. erewrite eff_bind_ok by done.
  rewrite Halg. unfold id. fold norm_size. rewrite (to_size_t_nonneg nt) by lia. rewrite Hrun.
  eexists s', _. split; [done|]. destruct r as [[]|e|u|]; cbn [res_bind]; [| |done|done].
  - destruct Hr as (I1 & _ & I3 & I4). simpl in *. split; [done|]. split; [by rewrite length_fmap, length_seq|].
    intros Ho row l Hl. apply I4. rewrite list_lookup_fmap in Hl.
    apply fmap_Some in Hl as (j & [-> Hj]%lookup_seq & ->). simpl. rewrite N2Nat.id.
    destruct (I3 row) as [l ->]; [|done]. rewrite (O1 Ho). apply elem_ids. lia.
  - destruct Hr as (-> & L & I1 & _). done.
Qed.
End add.

(** ** Runs on small arrays *)

(** [items.data(row)]: the byte [strides(0) * row] of the array. *)
Definition c_items_data (b : buffer) (row : N) : res point :=
  match shape b with
  | [n] => if row <? n then Ok (drop (N.to_nat (4 * row)) (buf_data b)) else Throw "index is out of bounds"
  | [rows; features] =>
      if row <? rows then Ok (drop (N.to_nat (4 * row * features)) (buf_data b)) else Throw "index is out of bounds"
  | _ => Throw "too many indices for an array"
  end.
#[export, program] Instance c_array : Numpy := { items_data := c_items_data }.
Next Obligation. intros b n E Hn. unfold c_items_data. by rewrite E, (proj2 (N.ltb_lt _ _)). Qed.
Next Obligation. intros b rows features row E Hr. unfold c_items_data. by rewrite E, (proj2 (N.ltb_lt _ _)). Qed.

Definition py_demo0 : hnsw := HierarchicalNSW_new 4 9 2 10 0 true.
Definition py_demo1 : hnsw := (addPointLevel (byte_l2 1) [0; 0; 128; 63] 11 1 py_demo0).1.
Definition py_demo2 : hnsw := (addPointLevel (byte_l2 1) [0; 0; 0; 64] 12 1 py_demo1).1.
Definition py_index (ep : bool) (s : hnsw) : index := mkIndex "cosine" 1 (Some 0) 10 true ep true 4 (Some 0) (Alg s).
Definition py_rows (n : nat) : buffer :=
  mkBuffer [N.of_nat n; 1] (concat ((λ k, le 4 (1065353216 + N.of_nat k)) <$> seq 0 n)).

Lemma py_demo2_ok : index_ok py_demo2.
Proof.
  apply (addPointLevel_ok _ _ _ _ _ 1); [|vm_compute; try done; lia..].
  apply (addPointLevel_ok _ _ _ _ _ 1); [by apply new_index_ok|vm_compute; try done; lia..].
Qed.
Lemma py_array_ok n : (0 < n)%nat → array_ok 1 (py_rows n) (N.of_nat n).
Proof.
  intros Hn. split; [done|done| |lia]. unfold py_rows. cbn [buf_data]. clear Hn.
  enough (∀ a, length (concat ((λ k, le 4 (1065353216 + N.of_nat k)) <$> seq a n)) = 4 * n)%nat as -> by lia.
  induction n as [|n IH]; intros a; [done|]. cbn [seq fmap list_fmap concat]. rewrite length_app, le_length, IH. lia.
Qed.

Lemma addItems_any_order_witness :
  ∃ calls s', addItems byte_l2 byte_l2 4 (py_rows 9) None 2 false calls (py_index false py_demo0) =
      (with_cur_l (Some 9) (with_ep true (with_alg (Alg s') (py_index false py_demo0))), Ok tt) ∧
    implements s' (put_rows (mkSpec 9 4 true ∅)
      (row_entry (py_index false py_demo0) (py_rows 9) [] <$> ParallelFor.ids 0 9)).
Proof.
  destruct (for_calls_exist 4 1 9 2) as [cs Hcs]; [done|done|]. exists cs.
  apply (addItems_any_order byte_l2 byte_l2 4) with (s := py_demo0) (rows := 9) (nt := 2%Z).
  - intros M g _. by destruct g.
  - by apply new_implements.
  - done.
  - apply map_Forall_empty.
  - done.
  - split; [by apply (py_array_ok 9); lia|done|by exists 0| |done|done].
    apply (bool_decide_unpack _). by vm_compute.
  - done.
  - by exists cs.
Defined.
Lemma knnQuery_rows_witness :
  ∃ calls s' r, knnQuery_return_numpy byte_l2 byte_l2 4 (py_rows 5) 2 2 (Some (λ l, l <? 13)) calls (py_index true py_demo2) =
      (with_alg (Alg s') (py_index true py_demo2), r) ∧ implements s' (abstraction py_demo2) ∧
    match r with
    | Ok res => length res = 5%nat ∧ (Ok tt = Ok tt → ∀ row l, res !! N.to_nat row = Some l →
        row_answers byte_l2 byte_l2 (abstraction py_demo2) (py_index true py_demo2) (py_rows 5) 2 (Some (λ l, l <? 13)) row l)
    | Throw e => e = contiguous_error
    | _ => False
    end.
Proof.
  destruct (for_calls_exist 4 0 5 1) as [cs Hcs]; [done|done|]. exists cs.
  apply (knnQuery_rows byte_l2 byte_l2 4) with (s := py_demo2) (rows := 5) (nt := 1%Z) (cs := cs)
    (fn := λ _ _ r, r = Ok tt).
  - apply implements_refl; [apply py_demo2_ok|by vm_compute].
  - done.
  - by apply (py_array_ok 5); lia.
  - done.
  - done.
  - done.
  - by vm_compute.
  - done.
  - done.
Defined.
