(* ===== verification/PyBF.v ===== *)
(** * python_bindings/bindings.cpp: class [BFIndex]

    The Python class over [BruteforceSearch].  Rows are added one after the
    other; queries run in [ParallelFor] and do not change the index, so the
    state of a query is the two result arrays, a map from rows to results. *)

From Stdlib Require Import ZArith Lia SpecFloat.
From stdpp Require Import base numbers list gmap strings sorting.
From S2P Require Import Prelude Heap Binary ParallelFor Arith Floats Bruteforce BrutePersist Dataset PyIndex PyLaws ToolsLaws.
#[local] Open Scope N_scope.

Section bf_index.
Context `{RM : RawMemory} `{HI : HeapImpl} `{NP : Numpy}.
Context {D : Type} `{HD : DistT D}.
Variables l2_dist ip_dist : N → point → point → D.
Variable hardware_concurrency : Z.
(** What [removePoint] reads from a freed node. *)
Variable freed : N → N.

Inductive bf_alg := NoBF | BF (s : bf) | FreedBF.
Record bf_index := mkBFIndex {
  b_space_name : string;
  b_dim : Z;
  b_index_inited : bool;
  b_normalize : bool;
  b_num_threads_default : Z;
  b_cur_l : option N;
  b_alg : bf_alg
}.
Implicit Types bx : bf_index.

Definition with_bf (a : bf_alg) bx : bf_index :=
  mkBFIndex (b_space_name bx) (b_dim bx) (b_index_inited bx) (b_normalize bx) (b_num_threads_default bx) (b_cur_l bx) a.
Definition with_bf_init (l : option N) bx : bf_index :=
  mkBFIndex (b_space_name bx) (b_dim bx) true (b_normalize bx) (b_num_threads_default bx) l (b_alg bx).
Definition on_bf {A} (m : eff bf A) : eff bf_index A := λ bx,
  match b_alg bx with
  | BF s => let '(s', r) := m s in (with_bf (BF s') bx, r)
  | NoBF => (bx, Undef "call through a null alg")
  | FreedBF => (bx, Undef "call through a freed alg")
  end.

Definition BFIndex_new (space_name : string) (dim : Z) : res bf_index :=
  let make norm := Ok (mkBFIndex space_name dim false norm hardware_concurrency None NoBF) in
  if String.eqb space_name "l2" then make false
  else if String.eqb space_name "ip" then make false
  else if String.eqb space_name "cosine" then make true
  else Throw "Space name must be one of l2, ip, or cosine.".
Definition bf_space_dist bx : point → point → D :=
  if String.eqb (b_space_name bx) "l2" then l2_dist (to_size_t (b_dim bx)) else ip_dist (to_size_t (b_dim bx)).
Definition bf_space_size bx : N := (to_size_t (b_dim bx) * 4) mod 18446744073709551616.

Definition bf_getMaxElements : eff bf_index N := on_bf (eff_get maxelements_).
Definition bf_getCurrentCount : eff bf_index N := on_bf (eff_get cur_element_count).
Definition bf_set_num_threads (num_threads : Z) : eff bf_index unit := eff_mod (λ bx,
  mkBFIndex (b_space_name bx) (b_dim bx) (b_index_inited bx) (b_normalize bx) num_threads (b_cur_l bx) (b_alg bx)).
Definition bf_init_new_index (maxElements : N) : eff bf_index unit := λ bx,
  match b_alg bx with
  | NoBF => (with_bf_init (Some 0) (with_bf (BF (BruteforceSearch_new (bf_space_size bx) maxElements)) bx), Ok tt)
  | _ => (bx, Throw "The index is already initiated.")
  end.

(** ** Adding and deleting *)
Definition bf_row_vector bx (items : buffer) (row : N) : res point :=
  p <- items_data items row ;;
  if b_normalize bx then normalize_vector (b_dim bx) p else Ok p.
Fixpoint bf_add_rows bx (items : buffer) (ids : list N) (n : nat) (row : N) : eff bf unit :=
  match n with
  | O => eff_ret tt
  | S n =>
      let* id := eff_lift (λ _, row_id ids (b_cur_l bx) row) in
      let* v := eff_lift (λ _, bf_row_vector bx items row) in
      let* _ := bf_addPoint v id in
      bf_add_rows bx items ids n (row + 1)
  end.
Definition bf_addItems (input : buffer) (ids_ : option ids_array) : eff bf_index unit :=
  let* '(rows, features) := eff_lift (λ _, get_input_array_shapes input) in
  let* _ := eff_lift (λ bx, if features =? to_size_t (b_dim bx) then Ok tt
                            else Throw "Wrong dimensionality of the vectors") in
  let* ids := eff_lift (λ _, get_input_ids_and_check_shapes ids_ rows) in
  let* bx := eff_get id in
  let* _ := on_bf (bf_add_rows bx input ids (N.to_nat rows) 0) in
  eff_mod (λ bx, mkBFIndex (b_space_name bx) (b_dim bx) (b_index_inited bx) (b_normalize bx) (b_num_threads_default bx)
                   (l ← b_cur_l bx; Some ((l + rows) mod 18446744073709551616)) (b_alg bx)).
Definition bf_deleteVector (label : N) : eff bf_index unit := on_bf (bf_removePoint freed label).

(** ** Files *)
Definition bf_py_saveIndex : eff bf_index (list N) := on_bf (eff_get bf_saveIndex).
(** [max_elements] is not used. *)
Definition bf_py_loadIndex (path_to_index : option (list N)) (max_elements : N) : eff bf_index unit := λ bx,
  match b_alg bx with
  | FreedBF => (bx, Undef "double free of alg")
  | _ =>
      match BruteforceSearch_load path_to_index (bf_space_size bx) with
      | Ok s => (with_bf_init (Some (cur_element_count s)) (with_bf (BF s) bx), Ok tt)
      | Throw e => (with_bf (match b_alg bx with NoBF => NoBF | _ => FreedBF end) bx, Throw e)
      | Undef u => (bx, Undef u)
      | Fuel => (bx, Fuel)
      end
  end.

(** ** Queries *)

(** The queue is emptied [k] times; the query is not normalised. *)
Fixpoint bf_take_results (i : nat) (result acc : list (D * labeltype)) : res (list (D * labeltype)) :=
  match i with
  | O => Ok acc
  | S i => top <- of_opt "top() of an empty queue" (pq_top result) ;;
           bf_take_results i (pq_pop res_lt result) (top :: acc)
  end.
Definition bf_query_row bx (s : bf) (items : buffer) (k : N) (filter : option (labeltype → bool)) (row t : N) :
    eff (gmap N (list (D * labeltype))) unit := λ m,
  match (p <- items_data items row ;;
         q <- (if (Z.of_nat (length p) <? 4 * b_dim bx)%Z then Undef "distance reads past the array" else Ok p) ;;
         result <- bf_searchKnn (bf_space_dist bx) s q k filter ;;
         bf_take_results (N.to_nat k) result []) with
  | Ok l => (<[row := l]> m, Ok tt)
  | Throw e => (m, Throw e) | Undef u => (m, Undef u) | Fuel => (m, Fuel)
  end.
Definition bf_knnQuery (input : buffer) (k : N) (num_threads : Z) (filter : option (labeltype → bool))
    (calls : list (N * N)) : eff bf_index (list (list (D * labeltype))) :=
  let* '(rows, features) := eff_lift (λ _, get_input_array_shapes input) in
  λ bx, match b_alg bx with
  | BF s =>
      let n := if (num_threads <=? 0)%Z then b_num_threads_default bx else num_threads in
      let '(m, r) := parallel_calls (to_size_t hardware_concurrency) 0 rows (to_size_t n) calls
                       (bf_query_row bx s input k filter) ∅ in
      (bx, _ <- r ;; Ok ((λ row, default [] (m !! N.of_nat row)) <$> seq 0 (N.to_nat rows)))
  | NoBF => (bx, Undef "call through a null alg")
  | FreedBF => (bx, Undef "call through a freed alg")
  end.
End bf_index.

(** ** Theorems *)
Section laws.
Context `{RM : RawMemory} `{HI : HeapImpl} `{NP : Numpy}.
Context {D : Type} `{HD : DistT D} `{HO : !DistOrder D}.
Variables l2_dist ip_dist : N → point → point → D.
Variable hardware_concurrency : Z.
Implicit Types (bx : bf_index) (s : bf).

Definition bf_row_entry bx input (ids : list N) (row : N) : labeltype * point :=
  (match row_id ids (b_cur_l bx) row with Ok id => id | _ => 0 end,
   match bf_row_vector bx input row with Ok v => v | _ => [] end).
Definition bf_ids_for bx (ids : list N) (rows : N) : Prop :=
  if decide (ids = []) then is_Some (b_cur_l bx) else N.of_nat (length ids) = rows.
Lemma bf_row_entry_ok bx input ids rows row :
  array_ok (b_dim bx) input rows → bf_ids_for bx ids rows → row < rows →
  row_id ids (b_cur_l bx) row = Ok (bf_row_entry bx input ids row).1 ∧
  bf_row_vector bx input row = Ok (bf_row_entry bx input ids row).2 ∧
  (4 * Z.to_nat (b_dim bx) ≤ length (bf_row_entry bx input ids row).2)%nat.
Proof.
  intros Ha Hi Hrow. destruct (array_row _ _ _ _ Ha Hrow) as (p & Hp & Hlen).
  assert (∃ v, bf_row_vector bx input row = Ok v ∧ (4 * Z.to_nat (b_dim bx) ≤ length v)%nat) as (v & Hv & Hl).
  { unfold bf_row_vector. rewrite Hp. cbn [res_bind]. destruct (b_normalize bx); [|by exists p].
    destruct (normalize_vector_ok _ _ Hlen) as (v & Hv & Hl). exists v. split; [done|lia]. }
  unfold bf_row_entry. rewrite Hv. cbn [fst snd]. split_and!; [|done..]. by eapply row_id_ok.
Qed.

(** Rows with distinct labels, one after the other. *)
Lemma bf_add_rows_ok bx input ids rows n : ∀ row s,
  array_ok (b_dim bx) input rows → bf_ids_for bx ids rows → row + N.of_nat n ≤ rows →
  NoDup (bf_row_entry bx input ids <$> ParallelFor.ids row n).*1 →
  bf_ok s → data_size_ s = 4 * Z.to_N (b_dim bx) → cur_element_count s + N.of_nat n ≤ maxelements_ s →
  ∃ s', bf_add_rows bx input ids n row s = (s', Ok tt) ∧ bf_ok s' ∧
    (∀ r, r ∈ ParallelFor.ids row n → bf_lookup s' (bf_row_entry bx input ids r).1 =
      Some (take (N.to_nat (data_size_ s)) (bf_row_entry bx input ids r).2)) ∧
    ∀ lab, lab ∉ (bf_row_entry bx input ids <$> ParallelFor.ids row n).*1 → bf_lookup s' lab = bf_lookup s lab.
Proof.
  induction n as [|n IH]; intros row s Ha Hi Hn Hnd Hok Hsz Hroom; cbn [bf_add_rows].
  { exists s. split_and!; [done|done| |done]. by intros r ?%elem_of_nil. }
  destruct (bf_row_entry_ok bx input ids rows row Ha Hi) as (H1 & H2 & H3); [lia|].
  destruct (bf_addPoint_runs s (bf_row_entry bx input ids row).2 (bf_row_entry bx input ids row).1)
    as (s1 & Hrun & K1 & K2 & K3 & K4 & K5); [done|lia|lia|].
  rewrite ids_cons in *. cbn [fmap list_fmap] in *. apply NoDup_cons in Hnd as [Hfresh Hnd].
  destruct (IH (row + 1) s1 Ha Hi) as (s' & Hrec & R1 & R2 & R3); [lia|done|done|by rewrite K3|lia|].
  exists s'. split_and!; [|done| |].
  - rewrite (eff_bind_lift (λ _, row_id ids (b_cur_l bx) row) _ s _ H1).
    rewrite (eff_bind_lift (λ _, bf_row_vector bx input row) _ s _ H2). by rewrite (eff_bind_ok _ _ _ _ _ Hrun).
  - intros r [->|Hr]%elem_of_cons; [|rewrite <- K3; auto]. rewrite R3, K5 by done. by rewrite decide_True.
  - intros lab [Hne Hlab]%not_elem_of_cons. rewrite R3, K5 by done. by rewrite decide_False.
Qed.

(** [BFIndex.add_items]: with room for the rows and distinct labels the call
    returns, every row is found under its label, normalised for the cosine
    space, and no other label changes. *)
Theorem bf_addItems_rows bx s input ids_ rows ids :
  bf_ok s → b_alg bx = BF s → data_size_ s = bf_space_size bx → array_ok (b_dim bx) input rows →
  get_input_ids_and_check_shapes ids_ rows = Ok ids → bf_ids_for bx ids rows →
  NoDup (bf_row_entry bx input ids <$> ParallelFor.ids 0 (N.to_nat rows)).*1 →
  cur_element_count s + rows ≤ maxelements_ s →
  ∃ bx' s', bf_addItems input ids_ bx = (bx', Ok tt) ∧ b_alg bx' = BF s' ∧ bf_ok s' ∧
    b_cur_l bx' = (l ← b_cur_l bx; Some ((l + rows) mod 18446744073709551616)) ∧
    (∀ r, r < rows → bf_lookup s' (bf_row_entry bx input ids r).1 =
      Some (take (N.to_nat (data_size_ s)) (bf_row_entry bx input ids r).2)) ∧
    ∀ lab, lab ∉ (bf_row_entry bx input ids <$> ParallelFor.ids 0 (N.to_nat rows)).*1 → bf_lookup s' lab = bf_lookup s lab.
Proof.
  intros Hok Hb Hsz Ha Hids Hi Hnd Hroom. pose proof (ar_dim _ _ _ Ha) as Hd.
  destruct (bf_add_rows_ok bx input ids rows (N.to_nat rows) 0 s) as (s' & Hrun & R1 & R2 & R3); [done|done|lia|done|done| |lia|].
  { rewrite Hsz. unfold bf_space_size. rewrite to_size_t_nonneg, N.mod_small by lia. lia. }
  assert (on_bf (bf_add_rows bx input ids (N.to_nat rows) 0) bx = (with_bf (BF s') bx, Ok tt)) as Hon.
  { unfold on_bf. by rewrite Hb, Hrun. }
  eexists _, s'. split_and!.
  - unfold bf_addItems. rewrite (eff_bind_lift (λ _, get_input_array_shapes input) _ bx (rows, Z.to_N (b_dim bx)))
      by apply Ha. cbv beta iota.
    rewrite (eff_bind_lift _ _ bx tt) by (rewrite to_size_t_nonneg by lia; by rewrite N.eqb_refl).
    rewrite (eff_bind_lift (λ _, get_input_ids_and_check_shapes ids_ rows) _ bx ids) by done.
    erewrite eff_bind_ok by done. rewrite (eff_bind_ok _ _ _ _ _ Hon). done.
  - done.
  - done.
  - done.
  - intros r Hr. apply R2, elem_ids. lia.
  - done.
Qed.

(** ** Queries *)
Record bf_row_answers bx s (input : buffer) (k row : N) (l : list (D * labeltype)) : Prop := {
  br_length : N.of_nat (length l) = k;
  br_sorted : StronglySorted (λ x y, res_lt y x = false) l;
  br_nearest q : items_data input row = Ok q → ∃ rest,
    scan (bf_space_dist l2_dist ip_dist bx) s q (N.to_nat (cur_element_count s)) 0 ≡ₚ l ++ rest ∧
    ∀ x y, x ∈ rest → y ∈ l → res_lt x y = false
}.
Lemma bf_take_results_drain n : ∀ (r acc : list (D * labeltype)), length r = n →
  bf_take_results n r acc = Ok (rev (pq_drain res_lt r) ++ acc).
Proof.
  induction n as [|n IH]; intros r acc Hr.
  - by destruct r.
  - destruct r as [|x r]; [done|]. cbn [bf_take_results]. change (pq_top (x :: r)) with (Some x). cbn [of_opt res_bind].
    assert (length (pq_pop res_lt (x :: r)) = n) as Hp by (rewrite pq_pop_length; simpl in *; lia).
    rewrite IH by done. unfold pq_drain. rewrite Hr. cbn [pq_drain_aux rev]. rewrite Hp, <- app_assoc. done.
Qed.
Lemma bf_query_row_ok bx s input rows k row t m :
  bf_ok s → k ≤ cur_element_count s → array_ok (b_dim bx) input rows → row < rows →
  ∃ l, bf_query_row l2_dist ip_dist bx s input k None row t m = (<[row := l]> m, Ok tt) ∧ bf_row_answers bx s input k row l.
Proof using HO.
  intros Hok Hk Ha Hrow. destruct (array_row _ _ _ _ Ha Hrow) as (q & Hq & Hlen). pose proof (ar_dim _ _ _ Ha) as Hd.
  destruct (bf_searchKnn_spec (bf_space_dist l2_dist ip_dist bx) s q k Hok Hk) as (r & rest & Hrun & Hp & Hsz & Hh & Hbest).
  exists (rev (pq_drain res_lt r)). unfold bf_query_row. rewrite Hq. cbn [res_bind].
  decide_cmp. cbn [res_bind]. rewrite Hrun. cbn [res_bind]. unfold pq_size in Hsz.
  rewrite (bf_take_results_drain _ r []) by lia. rewrite (right_id_L [] (++)). split; [done|].
  assert (r ≡ₚ rev (pq_drain res_lt r)) as Hr by (by rewrite <- Permutation_rev, pq_drain_perm). split.
  - by rewrite <- Hr.
  - apply (rev_sorted (λ x y, res_lt x y = false)). by apply (pq_drain_sorted res_lt).
  - intros q' Hq'. rewrite Hq in Hq'. injection Hq' as <-. exists rest. rewrite <- Hr. split; [done|].
    intros x y Hx. rewrite <- Hr. auto.
Qed.

(** [BFIndex.knn_query] without a filter and with [k] at most the number of
    elements returns the exact [k] nearest elements of every row, nearest first,
    for every schedule of [ParallelFor], and does not change the index. *)
Theorem bf_knnQuery_exact bx s input k num_threads calls rows :
  let n := if (num_threads <=? 0)%Z then b_num_threads_default bx else num_threads in
  bf_ok s → b_alg bx = BF s → k ≤ cur_element_count s → array_ok (b_dim bx) input rows → rows ≤ 2147483647 →
  (1 ≤ n ≤ 2147483647)%Z → for_calls (to_size_t hardware_concurrency) 0 rows (Z.to_N n) calls →
  ∃ res, bf_knnQuery l2_dist ip_dist hardware_concurrency input k num_threads None calls bx = (bx, Ok res) ∧
    length res = N.to_nat rows ∧ ∀ row l, res !! N.to_nat row = Some l → bf_row_answers bx s input k row l.
Proof using HO.
  intros n Hok Hb Hk Ha Hrows Hn Hcalls.
  destruct (for_calls_made (to_size_t hardware_concurrency) 0 rows (Z.to_N n) calls) as [Hp _];
    [lia|unfold size_max1; lia|done|].
  destruct (parallel_calls_outcome (bf_query_row l2_dist ip_dist bx s input k None)
    (λ L m, (∀ row, row ∈ L → is_Some (m !! row)) ∧ ∀ row l, m !! row = Some l → bf_row_answers bx s input k row l)
    (λ _, False) (λ id _, id < rows)) with
    (hardware := to_size_t hardware_concurrency) (start := 0) (end_ := rows) (numThreads := Z.to_N n) (calls := calls)
    (s := ∅ : gmap N (list (D * labeltype))) as (m & r & Hrun & Hr).
  { intros id t L m Hid [I1 I2]. destruct (bf_query_row_ok bx s input rows k id t m) as (l & -> & Hl); [done..|].
    eexists _, (Ok tt). split; [done|]. split.
    - intros row [Hin| ->%list_elem_of_singleton]%elem_of_app; [|by rewrite lookup_insert_eq].
      destruct (decide (id = row)) as [->|]; [by rewrite lookup_insert_eq|]. rewrite lookup_insert_ne by done. auto.
    - intros row l'. destruct (decide (id = row)) as [->|]; [rewrite lookup_insert_eq|rewrite lookup_insert_ne by done; auto].
      by intros [= <-]. }
  { intros id t Hin. assert (id ∈ ParallelFor.ids 0 (N.to_nat (rows - 0))) as Hid%elem_ids; [|lia].
    rewrite <- Hp. apply list_elem_of_fmap. by exists (id, t). }
  { split; [by intros row ?%elem_of_nil|]. intros row l H. by rewrite lookup_empty in H. }
  destruct r as [[]|e|u|]; [|by destruct Hr|done|done]. destruct Hr as [I1 I2].
  eexists. split; [|split].
  - unfold bf_knnQuery. rewrite (eff_bind_lift (λ _, get_input_array_shapes input) _ bx (rows, Z.to_N (b_dim bx))) by apply Ha.
    cbv beta iota. rewrite Hb. fold n. rewrite (to_size_t_nonneg n) by lia. rewrite Hrun. done.
  - by rewrite length_fmap, length_seq.
  - intros row l Hl. apply I2. rewrite list_lookup_fmap in Hl. apply fmap_Some in Hl as (j & [-> Hj]%lookup_seq & ->).
    simpl. rewrite N2Nat.id. destruct (I1 row) as [l ->]; [|done]. rewrite Hp. apply elem_ids. lia.
Qed.
End laws.

(** ** Runs on a small index: one float per vector, labels 7 to 9 *)
Definition bf_py_demo : bf :=
  mkBF {[ 0 := ([10; 0; 0; 0], 7); 1 := ([20; 0; 0; 0], 8); 2 := ([30; 0; 0; 0], 9) ]} 12 3 12 4 {[ 7 := 0; 8 := 1; 9 := 2 ]}.
Definition bf_py_index : bf_index := mkBFIndex "l2" 1 true false 4 (Some 3) (BF bf_py_demo).
Lemma bf_py_demo_ok : bf_ok bf_py_demo.
Proof.
  split_and!; [by vm_compute| |].
  - intros i Hi. change (cur_element_count bf_py_demo) with 3 in Hi.
    assert (i = 0 ∨ i = 1 ∨ i = 2) as [->|[->| ->]] by lia; by eexists _, _.
  - intros l i. change (dict_external_to_internal bf_py_demo) with ({[ 7 := 0; 8 := 1; 9 := 2 ]} : gmap labeltype N).
    rewrite !lookup_insert_Some, lookup_singleton_Some.
    intros [[<- <-]|[_ [[<- <-]|[_ [<- <-]]]]]; (split; [done|by eexists]).
Qed.
Lemma bf_addItems_rows_witness :
  ∃ bx' s', bf_addItems (py_rows 9) None bf_py_index = (bx', Ok tt) ∧ b_alg bx' = BF s' ∧ bf_ok s' ∧
    b_cur_l bx' = Some 12 ∧
    (∀ r, r < 9 → bf_lookup s' (bf_row_entry bf_py_index (py_rows 9) [] r).1 =
      Some (take 4 (bf_row_entry bf_py_index (py_rows 9) [] r).2)) ∧
    ∀ lab, lab ∉ (bf_row_entry bf_py_index (py_rows 9) [] <$> ParallelFor.ids 0 9).*1 → bf_lookup s' lab = bf_lookup bf_py_demo lab.
Proof.
  apply (bf_addItems_rows bf_py_index bf_py_demo (py_rows 9) None 9 []).
  - apply bf_py_demo_ok.
  - done.
  - done.
  - by apply (py_array_ok 9); lia.
  - done.
  - by exists 3.
  - apply (bool_decide_unpack _). by vm_compute.
  - done.
Defined.
Lemma bf_knnQuery_exact_witness :
  ∃ calls res, bf_knnQuery byte_l2 byte_l2 4 (py_rows 5) 2 3 None calls bf_py_index = (bf_py_index, Ok res) ∧
    length res = 5%nat ∧ ∀ row l, res !! N.to_nat row = Some l → bf_row_answers byte_l2 byte_l2 bf_py_index bf_py_demo (py_rows 5) 2 row l.
Proof.
  destruct (for_calls_exist 4 0 5 3) as [cs Hcs]; [done|done|]. exists cs.
  apply (bf_knnQuery_exact byte_l2 byte_l2 4 bf_py_index bf_py_demo (py_rows 5) 2 3 cs 5).
  - apply bf_py_demo_ok.
  - done.
  - done.
  - by apply (py_array_ok 5); lia.
  - done.
  - done.
  - by exists cs.
Defined.

(** With a filter the queue may hold fewer than [k] results, and the code takes
    [top()] of an empty queue. *)
Lemma bf_knnQuery_filter_undefined calls :
  bf_knnQuery byte_l2 byte_l2 4 (py_rows 1) 2 1 (Some (λ l, l =? 7)) calls bf_py_index =
    (bf_py_index, Undef "top() of an empty queue").
Proof. by vm_compute. Qed.
