(* ===== verification/PyLazy.v ===== *)
(** * python_bindings/LazyIndex.py: initialise on first use

    [LazyIndex] is a subclass of [Index] that keeps the parameters of
    [init_index] and calls it when the first items are added.  Its state is the
    [Index] and the three parameters, Python integers; pybind11 refuses an
    integer that is not a [size_t]. *)

From Stdlib Require Import ZArith Lia SpecFloat.
From stdpp Require Import base numbers list gmap strings.
From S2P Require Import Prelude Heap Binary VisitedList ParallelFor Arith Floats Dataset.
From S2P Require Import ToolsLaws Hnsw HnswSearch HnswInsert PyIndex PyLaws.
#[local] Open Scope N_scope.

Section lazy.
Context `{RE : RandomEngine} `{HI : HeapImpl} `{AL : Alloc} `{HS : HashOrder} `{NP : Numpy}.
Context {D : Type} `{HD : DistT D}.
Variables l2_dist ip_dist : N → point → point → D.
Variable hardware_concurrency : Z.

Record lazy_index := mkLazy {
  base : index;
  init_max_elements : Z;
  init_ef_construction : Z;
  init_M : Z
}.
Implicit Types lx : lazy_index.

(** A method of the superclass. *)
Definition super {A} (m : eff index A) : eff lazy_index A := λ lx,
  let '(ix, r) := m (base lx) in (mkLazy ix (init_max_elements lx) (init_ef_construction lx) (init_M lx), r).
Definition as_size_t (z : Z) : res N :=
  if ((0 <=? z) && (z <? 18446744073709551616))%Z then Ok (Z.to_N z)
  else Throw "TypeError: incompatible function arguments".
Definition max_elements : eff lazy_index N := super prop_max_elements.

Definition LazyIndex_new (space : string) (dim max_elements ef_construction M : Z) : res lazy_index :=
  ix <- Index_new hardware_concurrency space dim ;; Ok (mkLazy ix max_elements ef_construction M).
Definition lazy_init_index (max_elements M ef_construction : Z) : eff lazy_index unit :=
  let* _ := eff_mod (λ lx, mkLazy (base lx)
    (if (0 <? max_elements)%Z then max_elements else init_max_elements lx)
    (if (0 <? ef_construction)%Z then ef_construction else init_ef_construction lx)
    (if (0 <? M)%Z then M else init_M lx)) in
  let* mx := eff_lift (λ lx, as_size_t (init_max_elements lx)) in
  let* m := eff_lift (λ lx, as_size_t (init_M lx)) in
  let* ef := eff_lift (λ lx, as_size_t (init_ef_construction lx)) in
  super (init_new_index mx m ef 100 false).
Definition lazy_add_items (data : buffer) (ids : option ids_array) (num_threads : Z) (calls : list (N * N)) :
    eff lazy_index unit :=
  let* n := max_elements in
  let* _ := (if n =? 0 then lazy_init_index 0 0 0 else eff_ret tt) in
  super (addItems l2_dist ip_dist hardware_concurrency data ids num_threads false calls).
Definition lazy_get_items (ids : option ids_array) : eff lazy_index (list point) :=
  let* n := max_elements in
  if n =? 0 then eff_ret [] else super (getData ids "numpy").
Definition lazy_knn_query (data : buffer) (k : N) (num_threads : Z) (calls : list (N * N)) :
    eff lazy_index (list (list (D * labeltype))) :=
  let* n := max_elements in
  if n =? 0 then eff_ret []
  else super (knnQuery_return_numpy l2_dist ip_dist hardware_concurrency data k num_threads None calls).
Definition lazy_resize_index (size : Z) : eff lazy_index unit :=
  let* n := max_elements in
  if n =? 0 then lazy_init_index size 0 0
  else let* new_size := eff_lift (λ _, as_size_t size) in super (py_resizeIndex new_size).
Definition lazy_set_ef (ef : Z) : eff lazy_index unit :=
  let* n := max_elements in
  if n =? 0 then eff_mod (λ lx, mkLazy (base lx) (init_max_elements lx) ef (init_M lx))
  else let* e := eff_lift (λ _, as_size_t ef) in super (set_ef e).
Definition lazy_get_max_elements : eff lazy_index N := max_elements.
Definition lazy_get_current_count : eff lazy_index N := super prop_element_count.

(** ** Against an [Index] that is initialised at once *)

(** The calls of both classes that change or read the index. *)
Inductive lazy_op :=
| LAdd (data : buffer) (ids : option ids_array) (num_threads : Z) (calls : list (N * N))
| LResize (size : N)
| LEf (ef : N)
| LQuery (data : buffer) (k : N) (num_threads : Z) (calls : list (N * N)).
Definition lazy_exec (o : lazy_op) : eff lazy_index (list (list (D * labeltype))) :=
  match o with
  | LAdd data ids n calls => let* _ := lazy_add_items data ids n calls in eff_ret []
  | LResize size => let* _ := lazy_resize_index (Z.of_N size) in eff_ret []
  | LEf ef => let* _ := lazy_set_ef (Z.of_N ef) in eff_ret []
  | LQuery data k n calls => lazy_knn_query data k n calls
  end.
Definition eager_exec (o : lazy_op) : eff index (list (list (D * labeltype))) :=
  match o with
  | LAdd data ids n calls =>
      let* _ := addItems l2_dist ip_dist hardware_concurrency data ids n false calls in eff_ret []
  | LResize size => let* _ := py_resizeIndex size in eff_ret []
  | LEf ef => let* _ := set_ef ef in eff_ret []
  | LQuery data k n calls => knnQuery_return_numpy l2_dist ip_dist hardware_concurrency data k n None calls
  end.
Definition in_size_t (o : lazy_op) : Prop :=
  match o with LResize n | LEf n => n < 18446744073709551616 | _ => True end.

Lemma super_bind {A B} (m : eff index A) (f : A → eff index B) lx :
  super (let* x := m in f x) lx = (let* x := super m in super (f x)) lx.
Proof.
  unfold super, eff_bind. destruct (m (base lx)) as [ix [x|e|u|]]; simpl; done.
Qed.
Lemma as_size_t_ok n : n < 18446744073709551616 → as_size_t (Z.of_N n) = Ok n.
Proof.
  intros Hn. unfold as_size_t. decide_cmp. cbn [andb]. by rewrite N2Z.id.
Qed.

(** The number of elements the index was made for, and that it is inited. *)
Definition capacity (ix : index) : N :=
  match appr_alg ix with Alg s => max_elements_ (cfg s) | _ => 0 end.
Definition running (ix : index) : Prop := index_inited ix = true ∧ 0 < capacity ix.

Lemma max_elements_running lx : running (base lx) →
  max_elements lx = (lx, Ok (capacity (base lx))).
Proof.
  intros [Hi Hc]. unfold max_elements, super, prop_max_elements, prop_of, capacity in *. rewrite Hi. unfold on_alg.
  destruct lx as [ix m e M]. cbn [base init_max_elements init_ef_construction init_M] in *.
  destruct (appr_alg ix) as [|s|] eqn:Ha; [lia| |lia]. cbn. do 2 f_equal. destruct ix. simpl in *. by rewrite Ha.
Qed.
Lemma super_then {A B} (ml : eff lazy_index A) (m : eff index A) (x : B) lx :
  ml lx = super m lx → (let* _ := ml in eff_ret x) lx = super (let* _ := m in eff_ret x) lx.
Proof.
  intros H. rewrite super_bind. unfold eff_bind. rewrite H. unfold super. by destruct (m (base lx)) as [ix []].
Qed.
Lemma lazy_exec_running lx o : running (base lx) → in_size_t o → lazy_exec o lx = super (eager_exec o) lx.
Proof.
  intros Hr Ho. assert ((capacity (base lx) =? 0) = false) as Hc by (apply N.eqb_neq; destruct Hr; lia).
  pose proof (max_elements_running lx Hr) as Hm.
  destruct o as [data ids n calls|size|ef|data k n calls]; cbn [lazy_exec eager_exec]; try apply super_then.
  - unfold lazy_add_items. rewrite (eff_bind_ok _ _ _ _ _ Hm), Hc. by rewrite (eff_bind_ok _ _ lx lx tt).
  - unfold lazy_resize_index. rewrite (eff_bind_ok _ _ _ _ _ Hm), Hc.
    by rewrite (eff_bind_lift (λ _, as_size_t (Z.of_N size)) _ lx size (as_size_t_ok size Ho)).
  - unfold lazy_set_ef. rewrite (eff_bind_ok _ _ _ _ _ Hm), Hc.
    by rewrite (eff_bind_lift (λ _, as_size_t (Z.of_N ef)) _ lx ef (as_size_t_ok ef Ho)).
  - unfold lazy_knn_query. by rewrite (eff_bind_ok _ _ _ _ _ Hm), Hc.
Qed.

Lemma max_elements_new lx : index_inited (base lx) = false → max_elements lx = (lx, Ok 0).
Proof.
  intros Hi. unfold max_elements, super, prop_max_elements, prop_of. rewrite Hi. by destruct lx.
Qed.
Lemma lazy_init_new lx mx m ef :
  init_max_elements lx = Z.of_N mx → init_M lx = Z.of_N m → init_ef_construction lx = Z.of_N ef →
  mx < 18446744073709551616 → m < 18446744073709551616 → ef < 18446744073709551616 →
  lazy_init_index 0 0 0 lx = super (init_new_index mx m ef 100 false) lx.
Proof.
  intros E1 E2 E3 H1 H2 H3. unfold lazy_init_index. erewrite eff_bind_ok by done.
  assert (mkLazy (base lx) (init_max_elements lx) (init_ef_construction lx) (init_M lx) = lx) as Heta by by destruct lx.
  cbn [Z.ltb Z.compare]. rewrite Heta.
  rewrite (eff_bind_lift (λ lx, as_size_t (init_max_elements lx)) _ lx mx) by (rewrite E1; by apply as_size_t_ok).
  rewrite (eff_bind_lift (λ lx, as_size_t (init_M lx)) _ lx m) by (rewrite E2; by apply as_size_t_ok).
  by rewrite (eff_bind_lift (λ lx, as_size_t (init_ef_construction lx)) _ lx ef) by (rewrite E3; by apply as_size_t_ok).
Qed.

(** [LazyIndex] behaves like an [Index]: before the first items a query has
    no results and leaves the index as it is; the first [add_items] does what
    [init_index] with the stored parameters followed by [add_items] does; and
    once the index has a capacity every call does what the superclass does. *)
Theorem lazy_like_eager lx :
  (∀ data k n calls, index_inited (base lx) = false → lazy_exec (LQuery data k n calls) lx = (lx, Ok [])) ∧
  (∀ mx m ef data ids n calls, index_inited (base lx) = false → appr_alg (base lx) = NoAlg →
     init_max_elements lx = Z.of_N mx → init_M lx = Z.of_N m → init_ef_construction lx = Z.of_N ef →
     mx < 18446744073709551616 → m < 18446744073709551616 → ef < 18446744073709551616 →
     lazy_exec (LAdd data ids n calls) lx =
       super (let* _ := init_new_index mx m ef 100 false in eager_exec (LAdd data ids n calls)) lx) ∧
  (∀ o, running (base lx) → in_size_t o → lazy_exec o lx = super (eager_exec o) lx).
Proof.
  split_and!.
  - intros data k n calls Hi. cbn [lazy_exec]. unfold lazy_knn_query.
    by rewrite (eff_bind_ok _ _ _ _ _ (max_elements_new lx Hi)).
  - intros mx m ef data ids n calls Hi Ha E1 E2 E3 H1 H2 H3. cbn [lazy_exec].
    rewrite super_bind. pose proof (lazy_init_new lx mx m ef E1 E2 E3 H1 H2 H3) as Hinit.
    assert (∃ lx1, super (init_new_index mx m ef 100 false) lx = (lx1, Ok tt)) as [lx1 Hrun].
    { unfold super, init_new_index. rewrite Ha. eauto. }
    rewrite Hrun in Hinit. rewrite (eff_bind_ok _ _ _ _ _ Hrun). cbn [eager_exec]. rewrite super_bind.
    unfold lazy_add_items. unfold eff_bind at 1. rewrite (eff_bind_ok _ _ _ _ _ (max_elements_new lx Hi)).
    cbn [N.eqb]. rewrite (eff_bind_ok _ _ _ _ _ Hinit). unfold eff_bind.
    destruct (super _ lx1) as [lx2 []]; [|done..]. by destruct lx2.
  - intros o. apply lazy_exec_running.
Qed.

(** [set_ef] before the first items changes [ef_construction] instead. *)
Lemma lazy_set_ef_new lx ef : index_inited (base lx) = false →
  lazy_set_ef ef lx = (mkLazy (base lx) (init_max_elements lx) ef (init_M lx), Ok tt).
Proof. intros Hi. unfold lazy_set_ef. by rewrite (eff_bind_ok _ _ _ _ _ (max_elements_new lx Hi)). Qed.
End lazy.

(** ** A run: an index for 9 elements that was not initialised yet *)
Definition lazy_demo : lazy_index := mkLazy (mkIndex "l2" 1 None 10 false true false 4 None NoAlg) 9 200 16.
Lemma lazy_like_eager_witness :
  lazy_exec byte_l2 byte_l2 4 (LAdd (py_rows 2) None 1 []) lazy_demo =
    super (let* _ := init_new_index 9 16 200 100 false in
           eager_exec byte_l2 byte_l2 4 (LAdd (py_rows 2) None 1 [])) lazy_demo.
Proof.
  refine (proj1 (proj2 (lazy_like_eager byte_l2 byte_l2 4 lazy_demo)) 9 16 200 (py_rows 2) None 1%Z [] _ _ _ _ _ _ _ _); done.
Defined.
