(* ===== verification/PyPickle.v ===== *)
(** * python_bindings/bindings.cpp: pickling an [Index]

    [getIndexParams] puts an index into a Python dictionary, [createFromParams]
    makes an index from one; [__getstate__], [__setstate__] and the copy
    constructor use them.  The dictionary is the record [index_params].  The
    memory of an element, and of one upper link list, is copied as a whole
    ([memcpy] of its bytes, the two sizes are compared first), so the arrays
    [data_level0] and [link_lists] are lists of elements and of link lists.
    Neither the state of the random generators nor [cur_l] is stored. *)

From Stdlib Require Import ZArith Lia SpecFloat.
From stdpp Require Import base numbers list gmap strings pretty.
From S2P Require Import Prelude Heap Binary VisitedList Arith Dataset Hnsw HnswPersist PyIndex.
#[local] Open Scope N_scope.

Record ann_data := mkAnn {
  a_offset_level0 : N;
  a_max_elements : N;
  a_cur_element_count : N;
  a_size_data_per_element : N;
  a_label_offset : N;
  a_offset_data : N;
  a_max_level : Z;
  a_enterpoint_node : tableint;
  a_max_M : N;
  a_max_M0 : N;
  a_M : N;
  a_mult : N;
  a_ef_construction : N;
  a_ef : N;
  a_has_deletions : bool;
  a_size_links_per_element : N;
  a_allow_replace_deleted : option bool;
  a_label_lookup_external : list labeltype;
  a_label_lookup_internal : list tableint;
  a_element_levels : list Z;
  a_data_level0 : list element;
  a_link_lists : list linklist
}.
Record index_params := mkParams {
  i_ser_version : Z;
  i_space : string;
  i_dim : Z;
  i_index_inited : bool;
  i_ep_added : bool;
  i_normalize : bool;
  i_num_threads : Z;
  i_seed : N;
  i_ef : N;
  i_ann : option ann_data
}.
Definition ser_version : Z := 1.

Section pickle.
Context `{RE : RandomEngine} `{AL : Alloc}.
Variable hardware_concurrency : Z.
Variable lookup_order : gmap labeltype tableint → list (labeltype * tableint).
Implicit Types (s : hnsw) (ix : index).

(** ** [getAnnData] *)

(** The elements, and the upper lists one after the other; the code copies
    [size_links_per_element_ * level] bytes of each. *)
Fixpoint copy_elements (n : nat) s (i : tableint) : res (list element) :=
  match n with
  | O => Ok []
  | S n => e <- get_el s i ;; rest <- copy_elements n s (i + 1) ;; Ok (e :: rest)
  end.
Fixpoint copy_lists (n : nat) s (i : tableint) : res (list linklist) :=
  match n with
  | O => Ok []
  | S n =>
      level <- get_level s i ;;
      block <- (if (0 <? level)%Z then
                  ls <- of_opt "no upper lists" (upper s !! i) ;;
                  if (Z.to_nat level <=? length ls)%nat then Ok (take (Z.to_nat level) ls)
                  else Undef "memcpy reads past the lists"
                else Ok []) ;;
      rest <- copy_lists n s (i + 1) ;;
      Ok (block ++ rest)
  end.
Definition getAnnData s : res ann_data :=
  let n := N.to_nat (cur_element_count s) in
  let entries := lookup_order (label_lookup_ s) in
  elements <- copy_elements n s 0 ;;
  lists <- copy_lists n s 0 ;;
  Ok {| a_offset_level0 := offsetLevel0_ (cfg s); a_max_elements := max_elements_ (cfg s);
        a_cur_element_count := cur_element_count s; a_size_data_per_element := size_data_per_element_ (cfg s);
        a_label_offset := label_offset_ (cfg s); a_offset_data := offsetData_ (cfg s);
        a_max_level := maxlevel_ s; a_enterpoint_node := enterpoint_node_ s; a_max_M := maxM_ (cfg s);
        a_max_M0 := maxM0_ (cfg s); a_M := M_ (cfg s); a_mult := mult_ (cfg s);
        a_ef_construction := ef_construction_ (cfg s); a_ef := ef_ (cfg s);
        a_has_deletions := negb (num_deleted_ s =? 0);
        a_size_links_per_element := size_links_per_element_ (cfg s);
        a_allow_replace_deleted := Some (allow_replace_deleted_ (cfg s));
        a_label_lookup_external := entries.*1; a_label_lookup_internal := entries.*2;
        a_element_levels := element_levels_ s; a_data_level0 := elements; a_link_lists := lists |}.

Definition getIndexParams ix : res index_params :=
  sd <- of_opt "seed has no value" (seed ix) ;;
  let params (ef : N) (ann : option ann_data) : index_params :=
    mkParams ser_version (space_name ix) (dim ix) (index_inited ix) (ep_added ix) (normalize ix)
      (num_threads_default ix) sd ef ann in
  if negb (index_inited ix) then Ok (params (default_ef ix) None)
  else match appr_alg ix with
       | Alg s => a <- getAnnData s ;; Ok (params (a_ef a) (Some a))
       | NoAlg => Undef "call through a null appr_alg"
       | Freed => Undef "call through a freed appr_alg"
       end.

(** ** [setAnnData] *)
Definition assert_true (expr : bool) (msg : string) : eff hnsw unit :=
  if expr then eff_ret tt else eff_throw ("Unpickle Error: " +:+ msg)%string.

(** [label_lookup_.insert] keeps an entry that is present. *)
Fixpoint insert_labels (n : nat) (i : nat) (a : ann_data) : eff hnsw unit :=
  match n with
  | O => eff_ret tt
  | S n =>
      let* v := eff_lift (λ _, of_opt "read past the labels" (a_label_lookup_internal a !! i)) in
      let* k := eff_lift (λ _, of_opt "read past the labels" (a_label_lookup_external a !! i)) in
      let* _ := eff_mod (λ s, match label_lookup_ s !! k with
                              | Some _ => s
                              | None => set_lookup (<[k := v]> (label_lookup_ s)) s
                              end) in
      insert_labels n (i + 1)%nat a
  end.
(** [link_npy_offsets], counted in link lists. *)
Definition list_offset (levels : list Z) (i : nat) : nat := sum_list_with Z.to_nat (take i levels).
Definition put_elements (l : list element) (m : gmap tableint element) : gmap tableint element :=
  foldr (λ '(i, e) m, <[N.of_nat i := e]> m) m (zip (seq 0 (length l)) l).
Fixpoint put_lists (n : nat) (i : nat) (a : ann_data) : eff hnsw unit :=
  match n with
  | O => eff_ret tt
  | S n =>
      let* level := eff_lift (λ s, get_level s (N.of_nat i)) in
      let* _ := (if (level <=? 0)%Z then eff_mod (λ s, set_upper (delete (N.of_nat i) (upper s)) s)
                 else
                   let* off := eff_lift (λ s,
                     if (N.of_nat i <? cur_element_count s) then Ok (list_offset (element_levels_ s) i)
                     else Undef "read past link_npy_offsets") in
                   if (off + Z.to_nat level <=? length (a_link_lists a))%nat
                   then eff_mod (λ s,
                     set_upper (<[N.of_nat i := take (Z.to_nat level) (drop off (a_link_lists a))]> (upper s)) s)
                   else eff_undef "memcpy reads past link_lists") in
      put_lists n (i + 1)%nat a
  end.

Definition set_allow (b : bool) (s : hnsw) : hnsw :=
  let c := cfg s in
  set_cfg {| max_elements_ := max_elements_ c; size_data_per_element_ := size_data_per_element_ c;
    size_links_per_element_ := size_links_per_element_ c; M_ := M_ c; maxM_ := maxM_ c;
    maxM0_ := maxM0_ c; ef_construction_ := ef_construction_ c; ef_ := ef_ c; mult_ := mult_ c;
    size_links_level0_ := size_links_level0_ c; offsetData_ := offsetData_ c;
    offsetLevel0_ := offsetLevel0_ c; label_offset_ := label_offset_ c;
    data_size_ := data_size_ c; allow_replace_deleted_ := b |} s.

Definition check_members (a : ann_data) : eff hnsw unit :=
  let* c := eff_get cfg in
  let* _ := assert_true (offsetLevel0_ c =? a_offset_level0 a) "Invalid value of offsetLevel0_ " in
  let* _ := assert_true (max_elements_ c =? a_max_elements a) "Invalid value of max_elements_ " in
  let* _ := eff_mod (set_count (a_cur_element_count a)) in
  let* _ := assert_true (size_data_per_element_ c =? a_size_data_per_element a) "Invalid value of size_data_per_element_ " in
  let* _ := assert_true (label_offset_ c =? a_label_offset a) "Invalid value of label_offset_ " in
  let* _ := assert_true (offsetData_ c =? a_offset_data a) "Invalid value of offsetData_ " in
  let* _ := eff_mod (set_entry (a_enterpoint_node a) (a_max_level a)) in
  let* _ := assert_true (maxM_ c =? a_max_M a) "Invalid value of maxM_ " in
  let* _ := assert_true (maxM0_ c =? a_max_M0 a) "Invalid value of maxM0_ " in
  let* _ := assert_true (M_ c =? a_M a) "Invalid value of M_ " in
  let* _ := assert_true (mult_ c =? a_mult a) "Invalid value of mult_ " in
  let* _ := assert_true (ef_construction_ c =? a_ef_construction a) "Invalid value of ef_construction_ " in
  let* _ := eff_mod (setEf (a_ef a)) in
  assert_true (size_links_per_element_ c =? a_size_links_per_element a) "Invalid value of size_links_per_element_ ".

Definition put_arrays (a : ann_data) : eff hnsw unit :=
  let* _ := insert_labels (N.to_nat (a_cur_element_count a)) 0 a in
  let* _ := eff_lift (λ s, if (length (a_element_levels a) <=? length (element_levels_ s))%nat then Ok tt
                           else Undef "memcpy writes past element_levels_") in
  let* _ := eff_mod (λ s, set_levels (a_element_levels a ++ drop (length (a_element_levels a)) (element_levels_ s)) s) in
  let* _ := eff_lift (λ s, if (length (a_data_level0 a) <=? N.to_nat (max_elements_ (cfg s)))%nat then Ok tt
                           else Undef "memcpy writes past data_level0_memory_") in
  let* _ := eff_mod (λ s, set_level0 (put_elements (a_data_level0 a) (level0 s)) s) in
  let* mx := eff_get (λ s, max_elements_ (cfg s)) in
  put_lists (N.to_nat mx) 0 a.

Definition setAnnData (a : ann_data) : eff hnsw unit :=
  let* _ := check_members a in
  let* _ := put_arrays a in
  let* _ := eff_mod (set_allow (default false (a_allow_replace_deleted a))) in
  let* _ := eff_mod (λ s, set_deleted 0 (deleted_elements s) s) in
  if a_has_deletions a then load_deleted (N.to_nat (a_cur_element_count a)) 0 else eff_ret tt.

(** ** [createFromParams] *)
Definition createFromParams (d : index_params) : res index :=
  if negb (i_ser_version d <=? ser_version)%Z then Throw "Unpickle Error: Invalid serialization version!"
  else
    new_index <- Index_new hardware_concurrency (i_space d) (i_dim d) ;;
    let made (l : option N) (a : alg) : index :=
      mkIndex (i_space d) (i_dim d) (Some (i_seed d)) (i_ef d) (i_index_inited d) (i_ep_added d)
        (normalize new_index) (i_num_threads d) l a in
    if i_index_inited d then
      a <- match i_ann d with Some a => Ok a | None => Throw "KeyError" end ;;
      let s := HierarchicalNSW_new (space_size new_index) (a_max_elements a) (a_M a) (a_ef_construction a)
                 (i_seed d) false in
      match setAnnData a s with
      | (s', Ok _) => Ok (made (Some (a_cur_element_count a)) (Alg s'))
      | (_, Throw e) => Throw e | (_, Undef u) => Undef u | (_, Fuel) => Fuel
      end
    else Ok (made None NoAlg).
Definition createFromIndex ix : res index := d <- getIndexParams ix ;; createFromParams d.
End pickle.
