(* ===== verification/PyPickleLaws.v ===== *)
(** * Pickling an index

    [createFromIndex], which [pickle] and the copy constructor of the Python
    class amount to, gives a copy of the index: the same elements, links, labels,
    marks, entry point and parameters.  Only [cur_l] differs, which becomes the
    number of elements, and the generators, which start from the seed. *)

From Stdlib Require Import ZArith Lia SpecFloat.
From stdpp Require Import base numbers list gmap strings pretty.
From S2P Require Import Prelude Heap Binary VisitedList Arith Dataset Hnsw HnswPersist PyIndex PyLaws PyPickle.
From S2P Require Import HnswWf HnswKnn HnswAddLaws HnswIndexLaws HnswCopy HnswSpec.
#[local] Open Scope N_scope.

(** ** Blocks laid out one after the other *)
Lemma take_drop_block {A} (bs : list (list A)) (j : nat) b :
  bs !! j = Some b →
  take (length b) (drop (sum_list_with length (take j bs)) (concat bs)) = b ∧
  (sum_list_with length (take j bs) + length b ≤ length (concat bs))%nat.
Proof.
  revert j. induction bs as [|b0 bs IH]; intros [|j]; simpl; [done..| |].
  - intros [= ->]. rewrite drop_0, take_app_length, length_app. split; [done|lia].
  - intros H. destruct (IH j H) as [H1 H2]. rewrite length_app. split; [|lia].
    rewrite drop_app_ge by lia. by replace (_ + _ - _)%nat with (sum_list_with length (take j bs)) by lia.
Qed.
Lemma take_seq_map {A} (f : nat → A) (n j : nat) : (j ≤ n)%nat → take j (f <$> seq 0 n) = f <$> seq 0 j.
Proof. intros H. rewrite <- fmap_take, take_seq. by rewrite Nat.min_l by lia. Qed.

Lemma put_elements_at (l : list element) (m : gmap tableint element) : ∀ (k j : nat),
  foldr (λ '(i, e) (m : gmap tableint element), <[N.of_nat i := e]> m) m (zip (seq k (length l)) l) !! N.of_nat j =
  if decide (k ≤ j < k + length l)%nat then l !! (j - k)%nat else m !! N.of_nat j.
Proof.
  induction l as [|e l IH]; intros k j; simpl.
  - by rewrite decide_False by lia.
  - destruct (decide (j = k)) as [->|Hne].
    + rewrite lookup_insert, !decide_True by (done || lia). by rewrite Nat.sub_diag.
    + rewrite lookup_insert_ne by lia. rewrite IH. destruct (decide (S k ≤ j < S k + length l)%nat).
      * rewrite decide_True by lia. by replace (j - k)%nat with (S (j - S k)) by lia.
      * by rewrite decide_False by lia.
Qed.
Lemma put_elements_lookup l m (j : nat) :
  (j < length l)%nat → put_elements l m !! N.of_nat j = l !! j.
Proof.
  intros H. unfold put_elements. rewrite put_elements_at, decide_True by lia. by rewrite Nat.sub_0_r.
Qed.

Section laws.
Context `{RE : RandomEngine} `{AL : Alloc}.
Variable hardware_concurrency : Z.
Variable lookup_order : gmap labeltype tableint → list (labeltype * tableint).
Hypothesis lookup_order_ok : ∀ m, lookup_order m ≡ₚ map_to_list m.
Implicit Types (s : hnsw) (ix : index).

(** ** What the dictionary holds *)
Definition block s (i : nat) : list linklist :=
  if (0 <? default 0 (level_of s (N.of_nat i)))%Z then default [] (upper s !! N.of_nat i) else [].
Definition lists_of s : list linklist := concat (block s <$> seq 0 (N.to_nat (cur_element_count s))).

Lemma block_length s (i : nat) :
  graph_ok s → N.of_nat i < cur_element_count s →
  ∃ lv, element_levels_ s !! i = Some lv ∧ (0 ≤ lv)%Z ∧ length (block s i) = Z.to_nat lv ∧
    ((0 < lv)%Z → upper s !! N.of_nat i = Some (block s i)).
Proof.
  intros Hg Hi. destruct (go_node _ Hg _ Hi) as (e & lv & [_ _ N3 N4 N5 _]).
  exists lv. unfold block. rewrite N3. simpl. unfold level_of in N3. rewrite Nat2N.id in N3.
  split_and!; [done..| |].
  - destruct (Z.ltb_spec 0 lv); [|simpl; lia]. destruct (N5 H) as (ls & -> & <-). done.
  - intros Hpos. rewrite (proj2 (Z.ltb_lt _ _)) by done. destruct (N5 Hpos) as (ls & -> & _). done.
Qed.

Lemma copy_elements_ok s n : ∀ i,
  graph_ok s → N.of_nat (i + n) ≤ cur_element_count s →
  ∃ els, copy_elements n s (N.of_nat i) = Ok els ∧ length els = n ∧
    ∀ j, (j < n)%nat → els !! j = level0 s !! N.of_nat (i + j).
Proof.
  induction n as [|n IH]; intros i Hg Hi; cbn [copy_elements].
  { exists []. split_and!; [done..|]. intros j. lia. }
  assert (N.of_nat i < cur_element_count s) as Hlt by lia. destruct (go_node _ Hg _ Hlt) as (e & lv & Hn).
  rewrite (ok_get_el _ _ _ _ Hg Hlt Hn). cbn [res_bind].
  destruct (IH (S i) Hg) as (els & H1 & H2 & H3); [lia|].
  replace (N.of_nat i + 1) with (N.of_nat (S i)) by lia. rewrite H1. cbn [res_bind].
  exists (e :: els). split_and!; [done|by simpl; f_equal|]. intros [|j] Hj; simpl.
  - rewrite Nat.add_0_r. symmetry. apply Hn.
  - rewrite H3 by lia. do 2 f_equal. lia.
Qed.
Lemma copy_lists_ok s n : ∀ i,
  graph_ok s → N.of_nat (i + n) ≤ cur_element_count s →
  copy_lists n s (N.of_nat i) = Ok (concat (block s <$> seq i n)).
Proof.
  induction n as [|n IH]; intros i Hg Hi; cbn [copy_lists seq fmap list_fmap concat]; [done|].
  destruct (block_length s i Hg) as (lv & H1 & H2 & H3 & H4); [lia|].
  unfold get_level. rewrite Nat2N.id, H1. cbn [of_opt res_bind].
  replace (N.of_nat i + 1) with (N.of_nat (S i)) by lia. rewrite (IH (S i) Hg) by lia.
  destruct (Z.ltb_spec 0 lv).
  - rewrite (H4 H). cbn [of_opt res_bind]. decide_cmp. cbn [res_bind].
    by rewrite <- H3, take_ge.
  - cbn [res_bind]. by rewrite (nil_length_inv (block s i)) by lia.
Qed.

Lemma offset_blocks s (j : nat) :
  graph_ok s → N.of_nat j ≤ cur_element_count s →
  list_offset (element_levels_ s) j = sum_list_with length (take j (block s <$> seq 0 (N.to_nat (cur_element_count s)))).
Proof.
  intros Hg Hj. rewrite take_seq_map by lia. revert Hj. induction j as [|j IH]; intros Hj; [done|].
  destruct (block_length s j Hg) as (lv & H1 & H2 & H3 & _); [lia|]. unfold list_offset in *.
  rewrite (take_S_r _ _ _ H1), seq_S, fmap_app, !sum_list_with_app, IH by lia. simpl. lia.
Qed.

(** [label_lookup_] has one entry for each element. *)
Lemma lookup_entries s :
  index_ok s → length (lookup_order (label_lookup_ s)) = N.to_nat (cur_element_count s).
Proof.
  intros Hix. pose proof (size_contents s Hix) as H. unfold contents in H. rewrite map_size_fmap in H.
  rewrite (Permutation_length (lookup_order_ok _)), length_map_to_list. lia.
Qed.

(** ** Reading it back *)
Lemma insert_labels_ok (entries : list (labeltype * tableint)) (a : ann_data) n : ∀ i s,
  a_label_lookup_external a = entries.*1 → a_label_lookup_internal a = entries.*2 → NoDup entries.*1 →
  (i + n ≤ length entries)%nat → label_lookup_ s = list_to_map (take i entries) →
  eff_wp (insert_labels n i a) (λ s' _, s' = set_lookup (list_to_map (take (i + n) entries)) s) s.
Proof.
  induction n as [|n IH]; intros i s E1 E2 Hnd Hi Hs; cbn [insert_labels].
  { apply wp_ret. rewrite Nat.add_0_r, <- Hs. by destruct s. }
  destruct (lookup_lt_is_Some_2 entries i) as [[k v] Hkv]; [lia|].
  eapply wp_bind_lift; [by rewrite E2, list_lookup_fmap, Hkv|]. eapply wp_bind_lift; [by rewrite E1, list_lookup_fmap, Hkv|].
  assert (k ∉ (take i entries).*1) as Hk.
  { rewrite fmap_take. intros (j & Hj)%list_elem_of_lookup. apply lookup_take_Some in Hj as [Hj Hlt].
    assert (entries.*1 !! i = Some k) as Hik by (rewrite list_lookup_fmap, Hkv; done).
    pose proof (NoDup_lookup _ _ _ _ Hnd Hj Hik). lia. }
  apply wp_bind, wp_mod. rewrite Hs, not_elem_of_list_to_map_1 by done.
  eapply wp_mono; [apply IH; [done..|lia|]|].
  - simpl. by rewrite Nat.add_1_r, (take_S_r _ _ _ Hkv), list_to_map_snoc.
  - intros s' _u ->. simpl. by replace (i + 1 + n)%nat with (i + S n)%nat by lia.
Qed.

Lemma put_lists_ok (a : ann_data) (L : list Z) n : ∀ i s,
  element_levels_ s = L → (i + n = length L)%nat →
  (∀ j lv, L !! j = Some lv → (0 < lv)%Z →
     N.of_nat j < cur_element_count s ∧ (list_offset L j + Z.to_nat lv ≤ length (a_link_lists a))%nat) →
  eff_wp (put_lists n i a) (λ s' _, ∃ U, s' = set_upper U s ∧ ∀ (j : nat) lv, L !! j = Some lv → (0 < lv)%Z →
    U !! N.of_nat j = if decide (i ≤ j)%nat then Some (take (Z.to_nat lv) (drop (list_offset L j) (a_link_lists a)))
                      else upper s !! N.of_nat j) s.
Proof.
  induction n as [|n IH]; intros i s HL Hi Hfit; cbn [put_lists].
  { apply wp_ret. exists (upper s). split; [by destruct s|]. intros j lv Hj%lookup_lt_Some _.
    by rewrite decide_False by lia. }
  destruct (lookup_lt_is_Some_2 L i) as [lv Hlv]; [lia|].
  eapply wp_bind_lift; [unfold get_level; by rewrite Nat2N.id, HL, Hlv|].
  assert (∀ v, eff_wp (put_lists n (i + 1) a) (λ s' _, ∃ U, s' = set_upper U s ∧ ∀ (j : nat) lv, L !! j = Some lv → (0 < lv)%Z →
    U !! N.of_nat j = if decide (i + 1 ≤ j)%nat then Some (take (Z.to_nat lv) (drop (list_offset L j) (a_link_lists a)))
                      else v !! N.of_nat j) (set_upper v s)) as Hnext.
  { intros v. eapply wp_mono; [apply IH; [done|lia|done]|]. intros s' _u (U & -> & HU). by exists U. }
  destruct (Z.leb_spec lv 0).
  - apply wp_bind, wp_mod. eapply wp_mono; [apply Hnext|]. intros s' _u (U & -> & HU). exists U. split; [done|].
    intros j lv' Hj Hpos. rewrite (HU j lv' Hj Hpos). assert (j ≠ i) by (intros ->; simplify_eq; lia).
    rewrite lookup_delete_ne by lia. repeat case_decide; done || lia.
  - destruct (Hfit i lv Hlv) as [Hi' Hoff]; [done|].
    apply wp_seq with (R := λ s' _, s' = set_upper (<[N.of_nat i := take (Z.to_nat lv) (drop (list_offset L i) (a_link_lists a))]> (upper s)) s).
    + eapply wp_bind_lift; [by rewrite (proj2 (N.ltb_lt _ _)), HL|].
      rewrite (proj2 (Nat.leb_le _ _)) by done. by apply wp_mod.
    + intros s1 _u ->. eapply wp_mono; [apply Hnext|]. intros s' _v (U & -> & HU). exists U. split; [done|].
      intros j lv' Hj Hpos. rewrite (HU j lv' Hj Hpos). destruct (decide (j = i)) as [->|Hne].
      * simplify_eq. rewrite decide_False, decide_True by lia. apply lookup_insert_eq.
      * rewrite lookup_insert_ne by lia. repeat case_decide; done || lia.
Qed.

(** ** Indexes that can be pickled

    The members are those that the constructor computes for the space, the
    space is one of the three, and only elements have a level. *)
Record picklable ix s : Prop := {
  pk_alg : appr_alg ix = Alg s;
  pk_inited : index_inited ix = true;
  pk_seed : is_Some (seed ix);
  pk_space : space_name ix ∈ ["l2"; "ip"; "cosine"];
  pk_normalize : normalize ix = String.eqb (space_name ix) "cosine";
  pk_cfg : cfg s = cfg (setEf (ef_ (cfg s)) (HierarchicalNSW_new (space_size ix) (max_elements_ (cfg s))
    (M_ (cfg s)) (ef_construction_ (cfg s)) 0 (allow_replace_deleted_ (cfg s))));
  pk_levels (i : nat) lv : element_levels_ s !! i = Some lv → (0 < lv)%Z → N.of_nat i < cur_element_count s
}.

Definition ann_of s (els : list element) : ann_data :=
  mkAnn (offsetLevel0_ (cfg s)) (max_elements_ (cfg s)) (cur_element_count s) (size_data_per_element_ (cfg s))
    (label_offset_ (cfg s)) (offsetData_ (cfg s)) (maxlevel_ s) (enterpoint_node_ s) (maxM_ (cfg s)) (maxM0_ (cfg s))
    (M_ (cfg s)) (mult_ (cfg s)) (ef_construction_ (cfg s)) (ef_ (cfg s)) (negb (num_deleted_ s =? 0))
    (size_links_per_element_ (cfg s)) (Some (allow_replace_deleted_ (cfg s)))
    (lookup_order (label_lookup_ s)).*1 (lookup_order (label_lookup_ s)).*2 (element_levels_ s) els (lists_of s).
Lemma getAnnData_ok s : graph_ok s →
  ∃ els, getAnnData lookup_order s = Ok (ann_of s els) ∧ length els = N.to_nat (cur_element_count s) ∧
    ∀ j : nat, (j < length els)%nat → els !! j = level0 s !! N.of_nat j.
Proof.
  intros Hg. unfold getAnnData. destruct (copy_elements_ok s (N.to_nat (cur_element_count s)) 0 Hg) as (els & H1 & H2 & H3); [lia|].
  change (N.of_nat 0) with 0 in H1. rewrite H1. cbn [res_bind].
  pose proof (copy_lists_ok s (N.to_nat (cur_element_count s)) 0 Hg ltac:(lia)) as HL. change (N.of_nat 0) with 0 in HL.
  rewrite HL. exists els. split_and!; [done..|]. intros j Hj. apply H3. lia.
Qed.

(** The object after the members were compared and set. *)
Lemma check_members_ok s s0 els :
  cfg s = cfg (setEf (ef_ (cfg s)) (set_allow (allow_replace_deleted_ (cfg s)) s0)) →
  check_members (ann_of s els) s0 =
    (setEf (ef_ (cfg s)) (set_entry (enterpoint_node_ s) (maxlevel_ s) (set_count (cur_element_count s) s0)), Ok tt).
Proof.
  intros E. unfold check_members, ann_of, assert_true, eff_bind, eff_get, eff_mod. rewrite E. simpl.
  by rewrite !N.eqb_refl.
Qed.

Lemma put_arrays_ok s els s1 :
  index_ok s →
  (∀ (i : nat) lv, element_levels_ s !! i = Some lv → (0 < lv)%Z → N.of_nat i < cur_element_count s) →
  length els = N.to_nat (cur_element_count s) →
  cur_element_count s1 = cur_element_count s → max_elements_ (cfg s1) = max_elements_ (cfg s) →
  length (element_levels_ s1) = N.to_nat (max_elements_ (cfg s)) → label_lookup_ s1 = ∅ →
  eff_wp (put_arrays (ann_of s els)) (λ s2 _, ∃ U,
    s2 = set_upper U (set_level0 (put_elements els (level0 s1)) (set_levels (element_levels_ s)
           (set_lookup (label_lookup_ s) s1))) ∧
    ∀ j lv, j < cur_element_count s → level_of s j = Some lv → (0 < lv)%Z → U !! j = upper s !! j) s1.
Proof.
  intros Hix Hlev Hels Hcnt Hmax Hlen Hemp. unfold put_arrays. pose proof (ix_graph _ Hix) as Hg.
  pose proof (lookup_order_ok (label_lookup_ s)) as Hord. pose proof (lookup_entries s Hix) as Hent.
  assert (NoDup (lookup_order (label_lookup_ s)).*1) as Hnd.
  { rewrite Hord. apply NoDup_fst_map_to_list. }
  eapply wp_seq; [apply (insert_labels_ok (lookup_order (label_lookup_ s))); [done..|simpl; lia|done]|].
  intros sa _u ->. cbn [a_cur_element_count ann_of]. rewrite Nat.add_0_l, take_ge by lia.
  assert (list_to_map (lookup_order (label_lookup_ s)) = label_lookup_ s) as ->.
  { rewrite <- (list_to_map_to_list (label_lookup_ s)) at 2. by apply list_to_map_proper. }
  pose proof (go_levels _ Hg) as HL. pose proof (go_count _ Hg) as Hc.
  eapply wp_bind_lift; [simpl; by rewrite (proj2 (Nat.leb_le _ _)) by lia|]. apply wp_bind, wp_mod.
  eapply wp_bind_lift; [simpl; by rewrite (proj2 (Nat.leb_le _ _)) by lia|]. apply wp_bind, wp_mod. apply wp_bind, wp_get.
  cbn [a_element_levels a_data_level0 ann_of element_levels_ set_lookup cfg set_level0 set_levels level0].
  rewrite drop_ge, (right_id_L [] (++)) by lia.
  assert (∀ (j : nat) lv, element_levels_ s !! j = Some lv → (0 < lv)%Z →
    upper s !! N.of_nat j = Some (take (Z.to_nat lv) (drop (list_offset (element_levels_ s) j) (lists_of s))) ∧
    (list_offset (element_levels_ s) j + Z.to_nat lv ≤ length (lists_of s))%nat) as Hblk.
  { intros j lv Hj Hpos. pose proof (Hlev _ _ Hj Hpos) as Hlt.
    destruct (block_length s j Hg Hlt) as (lv' & B1 & _ & B3 & B4). simplify_eq.
    rewrite (offset_blocks s j Hg) by lia. rewrite <- B3, (B4 Hpos).
    destruct (take_drop_block (block s <$> seq 0 (N.to_nat (cur_element_count s))) j (block s j)) as [T1 T2].
    { rewrite list_lookup_fmap, lookup_seq_lt by lia. done. }
    split; [by f_equal|done]. }
  eapply wp_mono; [apply (put_lists_ok (ann_of s els) (element_levels_ s)); [done|simpl; lia|]|].
  - intros j lv Hj Hpos. simpl. rewrite Hcnt. split; [by eapply Hlev|]. by apply Hblk.
  - intros s2 _v (U & -> & HU). exists U. split; [done|]. intros j lv Hj Hlv Hpos.
    unfold level_of in Hlv. rewrite <- (N2Nat.id j). rewrite (HU _ _ Hlv Hpos), decide_True by lia.
    symmetry. by apply Hblk.
Qed.

(** The deleted elements, counted again. *)
Lemma deletions_ok s els s2 :
  index_ok s → allow_replace_deleted_ (cfg s2) = allow_replace_deleted_ (cfg s) →
  (∀ j, j < cur_element_count s → ∃ e, level0 s !! j = Some e ∧ get_el s2 j = Ok e) →
  num_deleted_ s2 = 0 → deleted_elements s2 = ∅ →
  eff_wp (if a_has_deletions (ann_of s els) then load_deleted (N.to_nat (a_cur_element_count (ann_of s els))) 0 else eff_ret tt)
    (λ s3 _, s3 = set_deleted (num_deleted_ s)
       (if allow_replace_deleted_ (cfg s) then list_to_set (deleted_ids s) else ∅) s2) s2.
Proof.
  intros Hix Hal Hget Hn Hd. destruct (ix_marks _ Hix) as [M1 _]. cbn [a_has_deletions a_cur_element_count ann_of].
  destruct (N.eqb_spec (num_deleted_ s) 0) as [E|E]; cbn [negb].
  - apply wp_ret. rewrite E in *. assert (deleted_ids s = []) as -> by (apply nil_length_inv; lia).
    destruct s2 as [c ? ? ? ? ? ? ? ? ? ? ? ? ? ?]. simpl in *. rewrite <- Hal, Hn, Hd. by destruct (allow_replace_deleted_ c).
  - eapply wp_mono; [apply (load_deleted_ok s); [lia|done]|]. intros s3 _u ->.
    change (dead_in s 0 (N.to_nat (cur_element_count s))) with (deleted_ids s).
    rewrite Hn, Hd, Hal, M1, (right_id_L ∅ (∪)). by rewrite N.add_0_l.
Qed.

Lemma setAnnData_copies s els s0 :
  index_ok s →
  cfg s = cfg (setEf (ef_ (cfg s)) (set_allow (allow_replace_deleted_ (cfg s)) s0)) →
  (∀ (i : nat) lv, element_levels_ s !! i = Some lv → (0 < lv)%Z → N.of_nat i < cur_element_count s) →
  length els = N.to_nat (cur_element_count s) →
  (∀ j : nat, (j < length els)%nat → els !! j = level0 s !! N.of_nat j) →
  length (element_levels_ s0) = N.to_nat (max_elements_ (cfg s)) → label_lookup_ s0 = ∅ → deleted_elements s0 = ∅ →
  visited_list_pool_ s0 = VisitedListPool_new 1 (max_elements_ (cfg s)) →
  eff_wp (setAnnData (ann_of s els)) (λ s' _, copied s s' ∧ cfg s' = cfg s) s0.
Proof.
  intros Hix Hcfg Hlev Hels Hel Hlen Hemp Hdel Hpool. pose proof (ix_graph _ Hix) as Hg.
  assert (max_elements_ (cfg s0) = max_elements_ (cfg s)) as Hmax by (symmetry; exact (f_equal max_elements_ Hcfg)).
  unfold setAnnData. eapply wp_seq with (R := λ s1 _, s1 = setEf (ef_ (cfg s))
    (set_entry (enterpoint_node_ s) (maxlevel_ s) (set_count (cur_element_count s) s0))).
  { unfold eff_wp. rewrite (check_members_ok s s0 els Hcfg). eauto. }
  intros s1 _u E1. eapply wp_seq; [apply put_arrays_ok; try done; by rewrite E1|].
  intros s2 _v (U & -> & HU). apply wp_bind, wp_mod. apply wp_bind, wp_mod.
  match goal with |- eff_wp _ _ ?s => set (s3 := s) end.
  assert (cfg s3 = cfg s) as E3 by (unfold s3; rewrite E1; symmetry; exact Hcfg).
  assert (∀ j, j < cur_element_count s → level0 s3 !! j = level0 s !! j) as Hl0.
  { intros j Hj. unfold s3. cbn. rewrite <- (N2Nat.id j), put_elements_lookup by lia. apply Hel. lia. }
  eapply wp_mono; [apply (deletions_ok s els s3 Hix); try done|].
  - intros j Hj. destruct (go_node _ Hg j Hj) as (e & lv & Hn). exists e. split; [apply Hn|].
    unfold get_el. rewrite Hl0, (no_el _ _ _ _ Hn), E3 by done. pose proof (go_count _ Hg).
    by decide_cmp.
  - unfold s3. by rewrite E1.
  - intros s' _w ->. split; [|done]. split; cbn [cfg set_deleted]; rewrite ?E3; try done.
    all: try (unfold s3; by rewrite E1).
    + split; [apply Hg|apply (go_cfg _ Hg)].
    + apply Hg.
    + apply Hg.
Qed.

(** C9. Pickling: from an index that [init_index] made (its members are those of
    the constructor) and that is well-formed, the dictionary can be read back,
    and gives an index with the same parameters, vectors, labels, marks, entry
    point and links, whose [cur_l] is the number of elements. *)
Theorem pickle_copies ix s :
  index_ok s → picklable ix s →
  ∃ s', createFromIndex hardware_concurrency lookup_order ix =
      Ok (mkIndex (space_name ix) (dim ix) (seed ix) (ef_ (cfg s)) true (ep_added ix) (normalize ix)
            (num_threads_default ix) (Some (cur_element_count s)) (Alg s')) ∧
    cfg s' = cfg s ∧ index_ok s' ∧
    maxlevel_ s' = maxlevel_ s ∧ enterpoint_node_ s' = enterpoint_node_ s ∧ (∀ lab, view s' lab = view s lab) ∧
    ∀ j l, at_level s j l → (0 ≤ l)%Z → nbs_at s' l j = nbs_at s l j.
Proof.
  intros Hix [P1 P2 [sd P3] P4 P5 P6 P7]. pose proof (ix_graph _ Hix) as Hg.
  destruct (getAnnData_ok s Hg) as (els & G1 & G2 & G3).
  unfold createFromIndex, getIndexParams. rewrite P1, P2, P3. cbn [of_opt res_bind negb]. rewrite G1. cbn [res_bind].
  unfold createFromParams. cbn [i_ser_version i_space i_dim i_seed i_ef i_index_inited i_ep_added i_num_threads i_ann].
  assert (∃ new, Index_new hardware_concurrency (space_name ix) (dim ix) = Ok new ∧ space_size new = space_size ix ∧
    normalize new = normalize ix) as (new & -> & Hsz & Hnm).
  { rewrite P5. unfold Index_new. revert P4. rewrite !elem_of_cons, elem_of_nil.
    intros [->|[->|[->|[]]]]; simpl; eexists; by split_and!. }
  cbn [negb Z.leb Z.compare Pos.compare Pos.compare_cont ser_version res_bind]. rewrite Hsz, Hnm.
  cbn [a_max_elements a_M a_ef_construction a_ef a_cur_element_count ann_of].
  set (s0 := HierarchicalNSW_new _ _ _ _ _ _).
  assert (eff_wp (setAnnData (ann_of s els)) (λ s' _, copied s s' ∧ cfg s' = cfg s) s0) as Hwp.
  { apply setAnnData_copies; try done. apply length_replicate. }
  destruct Hwp as (s' & _u & -> & Hcp & Hc).
  destruct (copied_index s s' Hix Hcp) as (I1 & I2 & I3). exists s'. split_and!; try done; apply Hcp.
Qed.
End laws.

(** ** A run: one float, two elements on two levels *)
Lemma py_index_picklable : picklable (py_index true py_demo2) py_demo2.
Proof.
  split; [reflexivity|reflexivity|by exists 0|apply list_elem_of_In; simpl; auto|reflexivity|by vm_compute|].
  intros i lv H Hpos. assert (element_levels_ py_demo2 = [1; 1; 0; 0; 0; 0; 0; 0; 0]%Z) as E by by vm_compute.
  assert (cur_element_count py_demo2 = 2) as -> by by vm_compute.
  rewrite E in H. clear E. do 2 (destruct i as [|i]; [simpl; lia|]).
  do 7 (destruct i as [|i]; [simpl in H; simplify_eq; lia|]). done.
Qed.
Lemma pickle_copies_witness :
  ∃ s', createFromIndex 4 map_to_list (py_index true py_demo2) =
      Ok (mkIndex "cosine" 1 (Some 0) (ef_ (cfg py_demo2)) true true true 4 (Some (cur_element_count py_demo2)) (Alg s')) ∧
    cfg s' = cfg py_demo2 ∧ index_ok s' ∧
    maxlevel_ s' = maxlevel_ py_demo2 ∧ enterpoint_node_ s' = enterpoint_node_ py_demo2 ∧
    (∀ lab, view s' lab = view py_demo2 lab) ∧
    ∀ j l, at_level py_demo2 j l → (0 ≤ l)%Z → nbs_at s' l j = nbs_at py_demo2 l j.
Proof.
  apply (pickle_copies 4 map_to_list (λ m, Permutation_refl _) (py_index true py_demo2) py_demo2).
  - apply py_demo2_ok.
  - apply py_index_picklable.
Defined.
