(* ===== verification/HnswTheorems.v ===== *)
(** * The theorems about HierarchicalNSW

    What hnswalg.h promises, stated on the operations of the model, each with a
    run on a small index; and the places where the code does not keep the
    promise, each as a run. *)

From Stdlib Require Import ZArith Lia.
From stdpp Require Import base numbers list gmap strings sorting relations.
From S2P Require Import Prelude Heap Binary VisitedList Arith SpaceL2 BeamSearch Hnsw HnswPersist HnswSearch HnswInsert HnswWf.
From S2P Require Import HnswSearchLaws HnswKnn HeuristicLaws HnswConnectLaws HnswAddLaws HnswUpdateLaws HnswIndexLaws HnswPersistLaws HnswChecks HnswSpec.
#[local] Open Scope N_scope.

(** ** A small index: two-dimensional byte vectors, [M = 2] *)
Definition demo_dist (a b : point) : Z := default 0%Z (L2SqrI a b 2).
Definition demo_add (p : point) (label : labeltype) (level : Z) (s : hnsw) : hnsw :=
  (addPointLevel demo_dist p label level s).1.
Definition demo0 : hnsw := HierarchicalNSW_new 2 8 2 10 0 true.
Definition demo1 : hnsw := demo_add [0; 100] 11 1 demo0.
Definition demo2 : hnsw := demo_add [100; 100] 12 (-1) demo1.
Definition demo3 : hnsw := demo_add [100; 104] 13 (-1) demo2.

Lemma demo_add_ok s p label level curlevel :
  index_ok s → label_lookup_ s !! label = None → cur_element_count s < max_elements_ (cfg s) →
  (N.to_nat (data_size_ (cfg s)) ≤ length p)%nat →
  (random_level (mult_ (cfg s)) (level_generator_ s)).1 ≠ None → drawn_level s level = Some curlevel →
  all_live s = true → index_ok (demo_add p label level s).
Proof.
  apply addPointLevel_ok.
Qed.
Lemma demo1_ok : index_ok demo1.
Proof.
  apply demo_add_ok with 1%Z; [by apply new_index_ok|..]; vm_compute; try done; lia.
Qed.
Lemma demo2_ok : index_ok demo2.
Proof. apply demo_add_ok with 0%Z; [apply demo1_ok|..]; vm_compute; try done; lia. Qed.
Lemma demo3_ok : index_ok demo3.
Proof. apply demo_add_ok with 0%Z; [apply demo2_ok|..]; vm_compute; try done; lia. Qed.

(** ** Queries *)
Section queries.
Context `{RE : RandomEngine} `{HI : HeapImpl} `{AL : Alloc} {D : Type} `{HD : DistT D} `{HO : !DistOrder D}.
Variable fstdistfunc_ : point → point → D.
#[local] Abbreviation dist := (dist_to fstdistfunc_).

(** C3. [searchKnn] on a well-formed non-empty index: the call returns (the
    greedy descent and the beam search end, no access leaves the arrays,
    [cand error] is not thrown), the index is left as it was but for pool and
    metrics, and the result is a queue of at most [k] distinct elements,
    farthest first, none deleted or filtered out, each with its label and its
    distance: the nearest acceptable ones of the set [V] of visited elements.
    [V] contains the element the descent ends in and is closed under level-0
    links except at elements no closer than every result; when [max(ef_, k)]
    is at least the number of elements, [V] holds every acceptable element
    that links lead to. *)
Theorem searchKnn_correct (s : hnsw) (q : point) (k : N) (flt : option (labeltype → bool)) :
  index_ok s → 0 < cur_element_count s → 1 ≤ N.max (ef_ (cfg s)) k →
  ∃ s' r ep V ids, searchKnn fstdistfunc_ q k flt s = (s', Ok r) ∧ quiet s s' ∧ index_ok s' ∧
    is_heap res_less r ∧ ep < cur_element_count s ∧ knn_result fstdistfunc_ s q k flt ep V r ids.
Proof.
  intros Hix Hc Hk.
  destruct (searchKnn_wp fstdistfunc_ s q k flt) as (s' & r & Hrun & Hq & Hh & ep & V & ids & Hep & Hr);
    [apply Hix..|done|done|].
  exists s', r, ep, V, ids. split_and!; try done. eapply frame_index; [apply Hq|apply Hq|done].
Qed.

(** C10. Exactness: when [max(ef_, k)] is at least the number of elements and
    level-0 links lead from every element to every other, [searchKnn] returns
    the [k] nearest of all acceptable elements. *)
Theorem searchKnn_exact (s : hnsw) (q : point) (k : N) (flt : option (labeltype → bool)) :
  index_ok s → 0 < cur_element_count s → cur_element_count s ≤ N.max (ef_ (cfg s)) k →
  (∀ i j, i < cur_element_count s → j < cur_element_count s → reach s 0 i j) →
  ∃ s' r ids, searchKnn fstdistfunc_ q k flt s = (s', Ok r) ∧
    r ≡ₚ ((λ i, (dist s q i, label_of s i)) <$> ids) ∧ NoDup ids ∧ N.of_nat (length ids) ≤ k ∧
    (∀ i, i ∈ ids → i < cur_element_count s ∧ st_acc s false flt i = true) ∧
    (∀ j, j < cur_element_count s → st_acc s false flt j = true → j ∈ ids ∨
      N.of_nat (length ids) = k ∧ ∀ i, i ∈ ids → dlt (dist s q j) (dist s q i) = false).
Proof.
  intros Hix Hc Hk Hreach.
  destruct (searchKnn_wp fstdistfunc_ s q k flt) as (s' & r & Hrun & _ & _ & ep & V & ids & Hep & Hr);
    [apply Hix..|lia|done|].
  exists s', r, ids. split_and!; [done|by apply Hr..| |].
  - intros i Hi. destruct (kr_acc _ _ _ _ _ _ _ _ _ Hr i Hi) as (? & ? & _). done.
  - intros j Hj Ha. apply (kr_best _ _ _ _ _ _ _ _ _ Hr); [|done].
    apply (kr_all _ _ _ _ _ _ _ _ _ Hr); auto.
Qed.

(** [searchKnnCloserFirst] returns the same pairs as [searchKnn], sorted by
    increasing distance. *)
Theorem searchKnnCloserFirst_sorted (s : hnsw) (q : point) (k : N) (flt : option (labeltype → bool)) :
  index_ok s → 0 < cur_element_count s → 1 ≤ N.max (ef_ (cfg s)) k →
  ∃ s' r r', searchKnn fstdistfunc_ q k flt s = (s', Ok r) ∧
    searchKnnCloserFirst fstdistfunc_ q k flt s = (s', Ok r') ∧
    r' ≡ₚ r ∧ StronglySorted (λ x y, dlt y.1 x.1 = false) r'.
Proof.
  intros Hix Hc Hk.
  destruct (searchKnn_wp fstdistfunc_ s q k flt) as (s' & r & Hrun & _ & Hh & _); [apply Hix..|done|done|].
  exists s', r, (rev (pq_drain res_less r)). split_and!; [done| | |].
  - unfold searchKnnCloserFirst. by rewrite (eff_bind_ok _ _ _ _ _ Hrun).
  - rewrite <- Permutation_rev. apply pq_drain_perm.
  - apply (rev_sorted (λ x y, dlt x.1 y.1 = false)).
    eapply sorted_mono; [|by apply (pq_drain_sorted res_less)].
    intros x y H. unfold res_less, lt_pair in H. by apply orb_false_iff in H as [? _].
Qed.

(** [bare_bone_search] changes nothing: with no deleted element and no
    filter, the instantiation of [searchBaseLayerST] that skips the deletion
    checks and the size test computes the same result and state as the one
    that performs them. *)
Theorem bare_bone_equivalent (s : hnsw) (q : point) (ep : tableint) (ef : N) :
  graph_ok s → 1 ≤ ef → ep < cur_element_count s → (∀ i, i < cur_element_count s → live s i = true) →
  searchBaseLayerST (SC:=Empty_set) fstdistfunc_ true false ep q ef None None s =
  searchBaseLayerST (SC:=Empty_set) fstdistfunc_ false false ep q ef None None s.
Proof. apply searchBaseLayerST_bare. Qed.

(** C17. The layer search of the construction, [searchBaseLayer]: on a
    well-formed index, from an element of the layer, it returns the
    [ef_construction_] nearest live elements of the visited set, all reached
    through links of that layer. *)
Theorem searchBaseLayer_correct (s : hnsw) (q : point) (ep : tableint) (layer : Z) :
  graph_ok s → (0 ≤ layer)%Z → at_level s ep layer →
  ∃ s' top V, searchBaseLayer fstdistfunc_ ep q layer s = (s', Ok top) ∧ quiet s s' ∧
    beam_result (nbs_at s layer) (dist s q) (live s) (ef_construction_ (cfg s)) (reach s layer ep) ep top V.
Proof.
  intros Hg Hl Hep. destruct (searchBaseLayer_wp fstdistfunc_ s q ep layer Hg Hl Hep) as (s' & top & Hrun & Hq & V & Hr).
  eauto 10.
Qed.

(** The greedy descent ends, in an element that is no farther from the
    query than the entry point and, on level 1, than any of its neighbours. *)
Theorem query_descent_correct (s : hnsw) (q : point) :
  index_ok s → 0 < cur_element_count s →
  ∃ s' o, query_descent fstdistfunc_ q s = (s', Ok o) ∧ quiet s s' ∧ o < cur_element_count s ∧
    dlt (dist s q (enterpoint_node_ s)) (dist s q o) = false ∧
    ((0 < maxlevel_ s)%Z → local_min fstdistfunc_ q s 1 o).
Proof.
  intros Hix Hc. destruct (query_descent_wp fstdistfunc_ s q) as (s' & o & Hrun & ?); [apply Hix..|done|].
  eauto.
Qed.

(** C16. [getNeighborsByHeuristic2] splits the candidates into kept and dropped
    ones: at most [M] are kept, the closest always; with at least [M]
    candidates the kept ones are in order of distance and no earlier one is
    closer to a later one than the centre is; a dropped one is closer to some
    kept one than to the centre, unless [M] were kept already. *)
Theorem getNeighborsByHeuristic2_correct (s : hnsw) (cands : list (D * tableint)) (M : N) :
  graph_ok s → ids_in s cands → 1 ≤ M → is_heap cmp cands →
  ∃ top kept dropped, getNeighborsByHeuristic2 fstdistfunc_ s cands M = Ok top ∧
    is_heap cmp top ∧ top ≡ₚ kept ∧ heuristic_result fstdistfunc_ s M cands kept dropped.
Proof. apply heuristic_ok. Qed.
End queries.

(** ** The small index, queried *)

(** Elements within [n] links. *)
Fixpoint within (s : hnsw) (l : Z) (n : nat) (i : tableint) : list tableint :=
  match n with
  | O => [i]
  | S n => i :: flat_map (within s l n) (nbs_at s l i)
  end.
Lemma within_reach s l n i j : j ∈ within s l n i → reach s l i j.
Proof.
  revert i. induction n as [|n IH]; intros i; simpl.
  - intros ->%list_elem_of_singleton. apply rtc_refl.
  - intros [->|Hj]%elem_of_cons; [apply rtc_refl|].
    apply list_elem_of_In, in_flat_map in Hj as (x & Hx%list_elem_of_In & Hj%list_elem_of_In).
    eapply rtc_l; [exact Hx|]. by apply IH.
Qed.
Definition all_within (s : hnsw) (n : nat) : bool :=
  let ids := N.of_nat <$> seq 0 (N.to_nat (cur_element_count s)) in
  forallb (λ i, forallb (λ j, bool_decide (j ∈ within s 0 n i)) ids) ids.
Lemma all_within_reach s n i j :
  all_within s n = true → i < cur_element_count s → j < cur_element_count s → reach s 0 i j.
Proof.
  intros H Hi Hj. unfold all_within in H. rewrite forallb_forall in H.
  assert (∀ x, x < cur_element_count s → List.In x (N.of_nat <$> seq 0 (N.to_nat (cur_element_count s)))) as Hin.
  { intros x Hx. apply list_elem_of_In, list_elem_of_fmap. exists (N.to_nat x). split; [lia|]. apply elem_of_seq. lia. }
  specialize (H i (Hin i Hi)). rewrite forallb_forall in H. specialize (H j (Hin j Hj)).
  apply bool_decide_eq_true in H. by eapply within_reach.
Qed.

Lemma searchKnn_correct_witness :
  ∃ s' r ep V ids, searchKnn demo_dist [90; 100] 2 (Some (λ l, negb (l =? 12))) demo3 = (s', Ok r) ∧
    quiet demo3 s' ∧ index_ok s' ∧ is_heap res_less r ∧ ep < 3 ∧
    knn_result demo_dist demo3 [90; 100] 2 (Some (λ l, negb (l =? 12))) ep V r ids.
Proof.
  apply (searchKnn_correct demo_dist demo3 [90; 100] 2 (Some (λ l, negb (l =? 12)))).
  - apply demo3_ok.
  - vm_compute. done.
  - vm_compute. done.
Defined.

Lemma searchKnn_exact_witness :
  ∃ s' r ids, searchKnn demo_dist [90; 100] 2 None demo3 = (s', Ok r) ∧
    r ≡ₚ ((λ i, (dist_to demo_dist demo3 [90; 100] i, label_of demo3 i)) <$> ids) ∧ NoDup ids ∧
    N.of_nat (length ids) ≤ 2 ∧
    (∀ i, i ∈ ids → i < 3 ∧ st_acc demo3 false None i = true) ∧
    (∀ j, j < 3 → st_acc demo3 false None j = true → j ∈ ids ∨
      N.of_nat (length ids) = 2 ∧
      ∀ i, i ∈ ids → dlt (dist_to demo_dist demo3 [90; 100] j) (dist_to demo_dist demo3 [90; 100] i) = false).
Proof.
  apply (searchKnn_exact demo_dist demo3 [90; 100] 2 None).
  - apply demo3_ok.
  - vm_compute. done.
  - vm_compute. done.
  - intros i j. apply (all_within_reach demo3 3). vm_compute. done.
Defined.

Lemma searchKnnCloserFirst_sorted_witness :
  ∃ s' r r', searchKnn demo_dist [90; 100] 3 None demo3 = (s', Ok r) ∧
    searchKnnCloserFirst demo_dist [90; 100] 3 None demo3 = (s', Ok r') ∧
    r' ≡ₚ r ∧ StronglySorted (λ x y, dlt y.1 x.1 = false) r'.
Proof.
  apply (searchKnnCloserFirst_sorted demo_dist demo3 [90; 100] 3 None).
  - apply demo3_ok.
  - vm_compute. done.
  - vm_compute. done.
Defined.

Lemma bare_bone_equivalent_witness :
  searchBaseLayerST (SC:=Empty_set) demo_dist true false 0 [90; 100] 2 None None demo3 =
  searchBaseLayerST (SC:=Empty_set) demo_dist false false 0 [90; 100] 2 None None demo3.
Proof.
  apply (bare_bone_equivalent demo_dist demo3 [90; 100] 0 2).
  - apply demo3_ok.
  - done.
  - vm_compute. done.
  - apply all_live_spec. vm_compute. done.
Defined.

Lemma searchBaseLayer_correct_witness :
  ∃ s' top V, searchBaseLayer demo_dist 0 [90; 100] 0 demo3 = (s', Ok top) ∧ quiet demo3 s' ∧
    beam_result (nbs_at demo3 0) (dist_to demo_dist demo3 [90; 100]) (live demo3) 10 (reach demo3 0 0) 0 top V.
Proof.
  apply (searchBaseLayer_correct demo_dist demo3 [90; 100] 0 0).
  - apply demo3_ok.
  - done.
  - split; [vm_compute; done|]. exists 1%Z. split; [vm_compute; done|done].
Defined.

Lemma query_descent_correct_witness :
  ∃ s' o, query_descent demo_dist [90; 100] demo3 = (s', Ok o) ∧ quiet demo3 s' ∧ o < 3 ∧
    dlt (dist_to demo_dist demo3 [90; 100] 0) (dist_to demo_dist demo3 [90; 100] o) = false ∧
    ((0 < 1)%Z → local_min demo_dist [90; 100] demo3 1 o).
Proof.
  apply (query_descent_correct demo_dist demo3 [90; 100]).
  - apply demo3_ok.
  - vm_compute. done.
Defined.

Lemma getNeighborsByHeuristic2_correct_witness :
  ∃ top kept dropped,
    getNeighborsByHeuristic2 demo_dist demo3 (pq_push_all cmp [] [(16%Z, 1); (9%Z, 2); (25%Z, 0)]) 2 = Ok top ∧
    is_heap cmp top ∧ top ≡ₚ kept ∧
    heuristic_result demo_dist demo3 2 (pq_push_all cmp [] [(16%Z, 1); (9%Z, 2); (25%Z, 0)]) kept dropped.
Proof.
  apply (getNeighborsByHeuristic2_correct demo_dist demo3 (pq_push_all cmp [] [(16%Z, 1); (9%Z, 2); (25%Z, 0)]) 2).
  - apply demo3_ok.
  - unfold ids_in. rewrite pq_push_all_perm. repeat constructor.
  - done.
  - apply pq_push_all_heap; [apply _|apply is_heap_nil].
Defined.

(** ** Changing the index *)
Section changes.
Context `{RE : RandomEngine} `{HI : HeapImpl} `{AL : Alloc} `{HS : HashOrder} {D : Type} `{HD : DistT D} `{HO : !DistOrder D}.
Variable fstdistfunc_ : point → point → D.

(** C4. [addPoint] of a new label on a well-formed index with room, when no
    element is deleted or the entry point is: it returns, the index stays
    well-formed (every link in range, no self link, no duplicate link, counts
    within the slots, every link on a level its target has; labels and ids one
    to one; deletion counters exact; entry point on the top level), holds one
    more element, maps the label to the vector and changes no other label, and
    the new element has between 1 and [M_] links on every level it shares with
    the previous index. *)
Theorem addPoint_insert_correct (s : hnsw) (q : point) (label : labeltype) (curlevel : Z) :
  index_ok s → label_lookup_ s !! label = None → cur_element_count s < max_elements_ (cfg s) →
  (N.to_nat (data_size_ (cfg s)) ≤ length q)%nat →
  (random_level (mult_ (cfg s)) (level_generator_ s)).1 = Some curlevel →
  (live s (enterpoint_node_ s) = false ∨ ∀ i, i < cur_element_count s → live s i = true) →
  ∃ s', addPoint fstdistfunc_ q label false s = (s', Ok tt) ∧
    added s s' (cur_element_count s) label (take (N.to_nat (data_size_ (cfg s))) q) curlevel.
Proof. apply addPoint_insert_run. Qed.

(** C14. [addPoint] of a label that is in the index (and not deleted while
    replacement is enabled) updates it: the call returns whatever the state of
    the deletions, the index stays well-formed with the same elements, the
    label maps to the new vector, is no longer deleted, and no other label
    changes. *)
Theorem addPoint_update_correct (s : hnsw) (q : point) (label : labeltype) (i : tableint) :
  index_ok s → label_lookup_ s !! label = Some i → (N.to_nat (data_size_ (cfg s)) ≤ length q)%nat →
  (allow_replace_deleted_ (cfg s) = false ∨ live s i = true) →
  ∃ s', addPoint fstdistfunc_ q label false s = (s', Ok tt) ∧ index_ok s' ∧
    cur_element_count s' = cur_element_count s ∧
    ∀ lab, view s' lab = if decide (lab = label) then Some (take (N.to_nat (data_size_ (cfg s))) q, true)
                         else view s lab.
Proof.
  intros Hix Hl Hq Hok. destruct (addPoint_update_run fstdistfunc_ s q label i Hix Hl Hq Hok) as (s' & Hrun & []).
  eauto.
Qed.

(** C15. [addPoint(..., replace_deleted = true)] with a deleted element to
    reuse and a label that is not in the index (or is the label of that
    element): the deleted element's slot is taken over, its old label
    disappears, the new label maps to the vector, no other label changes, and
    the index stays well-formed without growing. *)
Theorem addPoint_replace_correct (s : hnsw) (q : point) (label : labeltype) :
  let i := set_begin (deleted_elements s) in
  index_ok s → deleted_elements s ≠ ∅ → (N.to_nat (data_size_ (cfg s)) ≤ length q)%nat →
  (label_lookup_ s !! label = None ∨ label = label_of s i) →
  ∃ s', addPoint fstdistfunc_ q label true s = (s', Ok tt) ∧ index_ok s' ∧
    cur_element_count s' = cur_element_count s ∧
    ∀ lab, view s' lab = if decide (lab = label) then Some (take (N.to_nat (data_size_ (cfg s))) q, true)
                         else if decide (lab = label_of s i) then None else view s lab.
Proof.
  intros i Hix Hne Hq Hfree.
  destruct (addPoint_replace_run fstdistfunc_ s q label Hix Hne Hq Hfree) as (s' & Hrun & ? & _ & ? & ?). eauto.
Qed.
End changes.

Lemma addPoint_insert_correct_witness :
  ∃ s', addPoint demo_dist [7; 9; 1] 14 false demo3 = (s', Ok tt) ∧ added demo3 s' 3 14 [7; 9] 0.
Proof.
  apply (addPoint_insert_correct demo_dist demo3 [7; 9; 1] 14 0).
  - apply demo3_ok.
  - vm_compute. done.
  - vm_compute. done.
  - vm_compute. lia.
  - vm_compute. done.
  - right. apply all_live_spec. vm_compute. done.
Defined.

Lemma addPoint_update_correct_witness :
  ∃ s', addPoint demo_dist [7; 9] 12 false demo3 = (s', Ok tt) ∧ index_ok s' ∧ cur_element_count s' = 3 ∧
    ∀ lab, view s' lab = if decide (lab = 12) then Some ([7; 9], true) else view demo3 lab.
Proof.
  apply (addPoint_update_correct demo_dist demo3 [7; 9] 12 1).
  - apply demo3_ok.
  - vm_compute. done.
  - vm_compute. lia.
  - right. vm_compute. done.
Defined.

(** The small index with the label 13 deleted. *)
Definition demo_del : hnsw := (markDelete 13 demo3).1.
Lemma demo_del_ok : index_ok demo_del.
Proof.
  destruct (markDeletedInternal_ok demo3 2 demo3_ok) as (s' & Hrun & Hix & _); [vm_compute; done..|].
  unfold demo_del, markDelete. replace (label_lookup_ demo3 !! 13) with (Some 2) by (vm_compute; done).
  by rewrite Hrun.
Qed.

Lemma addPoint_replace_correct_witness :
  ∃ s', addPoint demo_dist [7; 9] 20 true demo_del = (s', Ok tt) ∧ index_ok s' ∧ cur_element_count s' = 3 ∧
    ∀ lab, view s' lab = if decide (lab = 20) then Some ([7; 9], true)
                         else if decide (lab = 13) then None else view demo_del lab.
Proof.
  replace 13 with (label_of demo_del (set_begin (deleted_elements demo_del))) by (vm_compute; done).
  apply (addPoint_replace_correct demo_dist demo_del [7; 9] 20).
  - apply demo_del_ok.
  - vm_compute. done.
  - vm_compute. lia.
  - left. vm_compute. done.
Defined.

(** ** The index as a collection of labelled vectors *)
Section collection.
Context `{RE : RandomEngine} `{HI : HeapImpl} `{AL : Alloc} `{HS : HashOrder} {D : Type} `{HD : DistT D} `{HO : !DistOrder D}.
Variable fstdistfunc_ : point → point → D.

(** C1. The index implements the labelled collection.  From a new index with
    [M] at least 2, every sequence of [addPoint] (with and without reuse of
    deleted slots), [markDelete], [unmarkDelete] and [resizeIndex] calls that
    is safe on the collection gives, call by call, the answers and exceptions
    of the collection, never an undefined operation; the index is well-formed
    afterwards, stands for the resulting collection, and a query on it answers
    with at most [k] items of the collection, under distinct labels, not
    deleted, allowed by the filter, each with its distance. *)
Theorem index_refines_collection (size n M efc seed : N) (allow : bool) (os : list op) :
  (∀ M g, 2 ≤ M → (random_level (inv_log M) g).1 ≠ None) →
  2 ≤ M → n ≤ 2147483648 → ops_safe (mkSpec n size allow ∅) os →
  ∃ s σ rs, execs fstdistfunc_ os (HierarchicalNSW_new size n M efc seed allow) = (s, rs) ∧
    spec_steps (mkSpec n size allow ∅) os σ rs ∧ index_ok s ∧ abstraction s = σ ∧
    ∀ q k flt, 1 ≤ N.max (ef_ (cfg s)) k →
      ∃ s' r, searchKnn fstdistfunc_ q k flt s = (s', Ok r) ∧ index_ok s' ∧ abstraction s' = σ ∧
        answers fstdistfunc_ σ q k flt r.
Proof.
  intros Hlev HM Hn Hsafe. set (s0 := HierarchicalNSW_new _ _ _ _ _ _).
  assert (implements s0 (mkSpec n size allow ∅)) as H0 by by apply new_implements.
  destruct (sim_ops fstdistfunc_ Hlev os s0 _ H0 Hsafe) as (s & σ & rs & Hrun & Hs & Hsteps).
  exists s, σ, rs. split_and!; [done|done|apply Hs|apply Hs|]. intros q k flt Hk.
  destruct (sim_search fstdistfunc_ s σ q k flt Hs Hk) as (s' & r & Hr & (Hix & _ & Ha) & Hans). eauto 10.
Qed.

(** What was added is read back: after [addPoint] of a full vector under a
    label that is new (nothing deleted, room left) or present and usable,
    [getDataByLabel] returns the vector, and for every other label what it
    returned before. *)
Theorem addPoint_getDataByLabel (s : hnsw) (q : point) (label : labeltype) (dim : N) :
  index_ok s → data_size_ (cfg s) = 4 * dim → length q = N.to_nat (4 * dim) →
  match label_lookup_ s !! label with
  | Some i => allow_replace_deleted_ (cfg s) = false ∨ live s i = true
  | None => cur_element_count s < max_elements_ (cfg s) ∧ (∀ i, i < cur_element_count s → live s i = true) ∧
            (random_level (mult_ (cfg s)) (level_generator_ s)).1 ≠ None
  end →
  ∃ s', addPoint fstdistfunc_ q label false s = (s', Ok tt) ∧ getDataByLabel dim s' label = Ok q ∧
    ∀ lab, lab ≠ label → getDataByLabel dim s' lab = getDataByLabel dim s lab.
Proof.
  intros Hix Hsz Hq Hcase.
  assert (∃ s', addPoint fstdistfunc_ q label false s = (s', Ok tt) ∧ index_ok s' ∧ cfg s' = cfg s ∧
    ∀ lab, view s' lab = if decide (lab = label) then Some (q, true) else view s lab) as (s' & Hrun & Hix' & Hc & Hv).
  { assert (take (N.to_nat (data_size_ (cfg s))) q = q) as Ht by (apply take_ge; lia).
    destruct (label_lookup_ s !! label) as [i|] eqn:Hl.
    - destruct (addPoint_update_run fstdistfunc_ s q label i) as (s' & Hrun & []); [done|done|lia|done|].
      rewrite Ht in *. eauto.
    - destruct Hcase as (Hroom & Hlive & Hr). destruct ((random_level _ _).1) as [lv|] eqn:Hlv; [|done].
      destruct (addPoint_insert_run fstdistfunc_ s q label lv) as (s' & Hrun & []); [done|done|done|lia|done|by right|].
      rewrite Ht in *. eauto. }
  exists s'. split; [done|]. split.
  - rewrite getDataByLabel_view, Hv by (by rewrite ?Hc). by rewrite decide_True.
  - intros lab Hne. rewrite !getDataByLabel_view, Hv by (by rewrite ?Hc). by rewrite decide_False.
Qed.
End collection.

Section readers.
Context `{RE : RandomEngine} `{AL : Alloc}.

(** [unmarkDelete] undoes [markDelete] exactly: the whole state, mark bit,
    counter and set of reusable slots included, is what it was. *)
Theorem markDelete_roundtrip (s : hnsw) (label : labeltype) (i : tableint) :
  index_ok s → label_lookup_ s !! label = Some i → live s i = true →
  ∃ s', markDelete label s = (s', Ok tt) ∧ unmarkDelete label s' = (s, Ok tt).
Proof. apply unmark_after_mark. Qed.

(** On a well-formed index every assertion of [checkIntegrity] about the
    link lists holds (targets in range, no self link, no duplicate), and it
    succeeds exactly when each of two or more elements is the target of some
    link; otherwise the assertion on the inbound count fails. *)
Theorem checkIntegrity_decides (s : hnsw) :
  index_ok s →
  ((1 < cur_element_count s → ∀ j, j < cur_element_count s → linked_from s 0 (cur_element_count s) j) ∧
   ∃ r, checkIntegrity s = Ok r) ∨
  ((1 < cur_element_count s ∧ ∃ j, j < cur_element_count s ∧ ¬ linked_from s 0 (cur_element_count s) j) ∧
   checkIntegrity s = Undef "assert(inbound_connections_num[i] > 0)").
Proof. intros [Hg _ _ _]. by apply checkIntegrity_spec. Qed.

(** [resizeIndex] to any capacity that holds the elements succeeds and
    keeps every element: contents, levels and all link lists; to a smaller one
    it throws and changes nothing. *)
Theorem resizeIndex_correct (s : hnsw) (n : N) :
  index_ok s → n ≤ 2147483648 →
  if n <? cur_element_count s
  then resizeIndex n s = (s, Throw "Cannot resize, max element is less than the current number of elements")
  else ∃ s', resizeIndex n s = (s', Ok tt) ∧ index_ok s' ∧ getMaxElements s' = n ∧
    (∀ lab, view s' lab = view s lab) ∧
    ∀ i, i < cur_element_count s → level_of s' i = level_of s i ∧
      ∀ l, get_linklist_at_level s' i l = get_linklist_at_level s i l.
Proof.
  intros Hix Hn. destruct (N.ltb_spec n (cur_element_count s)) as [Hlt|Hge].
  - unfold resizeIndex. by rewrite (proj2 (N.ltb_lt _ _)).
  - destruct (resize_index s n Hix Hge Hn) as [Hix' Hv]. exists (resizeIndex n s).1. split_and!; try done.
    + unfold resizeIndex. by rewrite (proj2 (N.ltb_ge _ _)).
    + unfold resizeIndex. by rewrite (proj2 (N.ltb_ge _ _)).
    + intros i Hi. destruct (resize_same s n i (ix_graph _ Hix) Hge Hi) as (_ & _ & ? & ?). done.
Qed.
End readers.

Definition demo_ops : list op :=
  [OpAdd [0; 100] 11 false; OpAdd [100; 100] 12 false; OpMark 12; OpAdd [5; 5] 13 true; OpMark 99; OpResize 1].
Lemma demo_ops_safe : ops_safe (mkSpec 8 2 true ∅) demo_ops.
Proof.
  do 4 (split; [apply (bool_decide_unpack _); vm_compute; exact I|]; intros σ r Hst; inversion Hst; subst; clear Hst).
  all: repeat split; done.
Qed.

Lemma index_refines_collection_witness :
  ∃ s σ rs, execs demo_dist demo_ops (HierarchicalNSW_new 2 8 2 10 0 true) = (s, rs) ∧
    spec_steps (mkSpec 8 2 true ∅) demo_ops σ rs ∧ index_ok s ∧ abstraction s = σ ∧
    ∀ q k flt, 1 ≤ N.max (ef_ (cfg s)) k →
      ∃ s' r, searchKnn demo_dist q k flt s = (s', Ok r) ∧ index_ok s' ∧ abstraction s' = σ ∧
        answers demo_dist σ q k flt r.
Proof.
  apply (index_refines_collection demo_dist 2 8 2 10 0 true demo_ops).
  - intros M g _. by destruct g.
  - done.
  - done.
  - apply demo_ops_safe.
Defined.

Definition demo_f0 : hnsw := HierarchicalNSW_new 4 8 2 10 0 false.
Definition demo_f1 : hnsw := demo_add [1; 2; 3; 4] 11 1 demo_f0.
Lemma demo_f1_ok : index_ok demo_f1.
Proof. apply demo_add_ok with 1%Z; [by apply new_index_ok|..]; vm_compute; try done; lia. Qed.

Lemma addPoint_getDataByLabel_witness :
  ∃ s', addPoint demo_dist [5; 6; 7; 8] 12 false demo_f1 = (s', Ok tt) ∧
    getDataByLabel 1 s' 12 = Ok [5; 6; 7; 8] ∧
    ∀ lab, lab ≠ 12 → getDataByLabel 1 s' lab = getDataByLabel 1 demo_f1 lab.
Proof.
  apply (addPoint_getDataByLabel demo_dist demo_f1 [5; 6; 7; 8] 12 1).
  - apply demo_f1_ok.
  - vm_compute. done.
  - vm_compute. done.
  - replace (label_lookup_ demo_f1 !! 12) with (@None tableint) by (vm_compute; done).
    split_and!; [vm_compute; done|apply all_live_spec; vm_compute; done|vm_compute; done].
Defined.

Lemma markDelete_roundtrip_witness :
  ∃ s', markDelete 13 demo3 = (s', Ok tt) ∧ unmarkDelete 13 s' = (demo3, Ok tt).
Proof. apply (markDelete_roundtrip demo3 13 2); [apply demo3_ok|vm_compute; done..]. Defined.

Lemma checkIntegrity_decides_witness :
  ((1 < cur_element_count demo3 → ∀ j, j < cur_element_count demo3 → linked_from demo3 0 (cur_element_count demo3) j) ∧
   ∃ r, checkIntegrity demo3 = Ok r) ∨
  ((1 < cur_element_count demo3 ∧
    ∃ j, j < cur_element_count demo3 ∧ ¬ linked_from demo3 0 (cur_element_count demo3) j) ∧
   checkIntegrity demo3 = Undef "assert(inbound_connections_num[i] > 0)").
Proof. apply (checkIntegrity_decides demo3). apply demo3_ok. Defined.

Lemma resizeIndex_correct_witness :
  ∃ s', resizeIndex 20 demo3 = (s', Ok tt) ∧ index_ok s' ∧ getMaxElements s' = 20 ∧
    (∀ lab, view s' lab = view demo3 lab) ∧
    ∀ i, i < cur_element_count demo3 → level_of s' i = level_of demo3 i ∧
      ∀ l, get_linklist_at_level s' i l = get_linklist_at_level demo3 i l.
Proof. apply (resizeIndex_correct demo3 20); [apply demo3_ok|done]. Defined.

(** ** Saving and loading *)
Section files.
Context `{RE : RandomEngine} `{AL : Alloc}.

(** C6. Round trip through a file: [saveIndex] of a well-formed index whose
    sizes, labels and levels fit the types of the file (the words of the links,
    the entry point and the offsets do, by the invariant) writes
    [indexFileSize] bytes, and the loading constructor, given that file, the
    same data size and a capacity of at most 2^31 elements, returns a
    well-formed index with the same vectors, labels and marks, the same entry
    point, levels and links. *)
Theorem saveIndex_loadIndex (s : hnsw) (max_elements : N) (allow : bool) :
  index_ok s → storable s → max_elements ≤ 2147483648 →
  N.max max_elements (max_elements_ (cfg s)) * size_data_per_element_ (cfg s) < 9223372036854775808 →
  ∃ f s', saveIndex s = Ok f ∧ indexFileSize s = Ok (N.of_nat (length f)) ∧
    HierarchicalNSW_load (data_size_ (cfg s)) (Some f) max_elements allow = (s', Ok tt) ∧
    index_ok s' ∧ (∀ lab, view s' lab = view s lab) ∧
    enterpoint_node_ s' = enterpoint_node_ s ∧ maxlevel_ s' = maxlevel_ s ∧
    (∀ i, i < cur_element_count s → level_of s' i = level_of s i) ∧
    ∀ i l, at_level s i l → (0 ≤ l)%Z → nbs_at s' l i = nbs_at s l i.
Proof.
  intros Hix Hst Hmx Hbytes. pose proof (go_cfg _ (ix_graph _ Hix)) as (_ & _ & _ & _ & _ & _ & Hcap & _).
  assert (load_max (header_of s) max_elements ≤ N.max max_elements (max_elements_ (cfg s))) as Hlm.
  { unfold load_max. simpl. destruct (_ <? _); lia. }
  destruct (load_file_ok s Hix Hst allow max_elements) as (s' & Hrun & Hre & Ha).
  { eapply N.le_lt_trans; [|exact Hbytes]. by apply N.mul_le_mono_r. }
  destruct (reloaded_index s Hix s' max_elements Hre) as (Hix' & Hv & Hn); [lia|].
  exists (file_of s), s'. split_and!; try done; [by apply saveIndex_ok|by apply indexFileSize_ok|apply Hre..].
Qed.

(** C11. A saved file that was cut short anywhere, or to which bytes were
    appended, is rejected with an exception by the loading constructor. *)
Theorem loadIndex_rejects_damage (s : hnsw) (space_data_size max_elements : N) (allow : bool) :
  index_ok s → storable s →
  ∃ f, saveIndex s = Ok f ∧
    (∀ k, (k < length f)%nat →
      (HierarchicalNSW_load space_data_size (Some (take k f)) max_elements allow).2 =
      Throw "Index seems to be corrupted or unsupported") ∧
    (∀ junk, junk ≠ [] →
      (HierarchicalNSW_load space_data_size (Some (f ++ junk)) max_elements allow).2 =
      Throw "Index seems to be corrupted or unsupported").
Proof.
  intros Hix Hst. exists (file_of s). split_and!; [by apply saveIndex_ok| |].
  - intros k Hk. by apply load_cut.
  - intros junk Hj. by apply load_extended.
Qed.
End files.

Lemma below_3 (i : N) (P : N → Prop) : P 0 → P 1 → P 2 → i < 3 → P i.
Proof. intros H0 H1 H2 Hi. assert (i = 0 ∨ i = 1 ∨ i = 2) as [->|[->| ->]] by lia; done. Qed.
Ltac decide_vm := apply (bool_decide_unpack _); vm_compute; exact I.
Lemma demo3_storable : storable demo3.
Proof.
  split; [decide_vm..| |].
  - intros i Hi. pattern i. apply below_3; [decide_vm..|exact Hi].
  - intros i lv Hi. revert lv. pattern i. apply below_3; [..|exact Hi]; intros lv Hlv; vm_compute in Hlv;
      injection Hlv as <-; decide_vm.
Qed.

Lemma saveIndex_loadIndex_witness :
  ∃ f s', saveIndex demo3 = Ok f ∧ indexFileSize demo3 = Ok (N.of_nat (length f)) ∧
    HierarchicalNSW_load 2 (Some f) 5 true = (s', Ok tt) ∧
    index_ok s' ∧ (∀ lab, view s' lab = view demo3 lab) ∧
    enterpoint_node_ s' = enterpoint_node_ demo3 ∧ maxlevel_ s' = maxlevel_ demo3 ∧
    (∀ i, i < cur_element_count demo3 → level_of s' i = level_of demo3 i) ∧
    ∀ i l, at_level demo3 i l → (0 ≤ l)%Z → nbs_at s' l i = nbs_at demo3 l i.
Proof.
  apply (saveIndex_loadIndex demo3 5 true).
  - apply demo3_ok.
  - apply demo3_storable.
  - done.
  - vm_compute. done.
Defined.

Lemma loadIndex_rejects_damage_witness :
  ∃ f, saveIndex demo3 = Ok f ∧
    (∀ k, (k < length f)%nat →
      (HierarchicalNSW_load 2 (Some (take k f)) 5 true).2 = Throw "Index seems to be corrupted or unsupported") ∧
    (∀ junk, junk ≠ [] →
      (HierarchicalNSW_load 2 (Some (f ++ junk)) 5 true).2 = Throw "Index seems to be corrupted or unsupported").
Proof. apply (loadIndex_rejects_damage demo3 2 5 true); [apply demo3_ok|apply demo3_storable]. Defined.
