(* ===== verification/HnswFindings.v ===== *)
(** * Where the index does not keep its contract

    Runs of the model in which hnswalg.h leaves the contract of HnswSpec.v, all
    on two-dimensional byte vectors with [M = 2]. *)

From Stdlib Require Import ZArith Lia.
From stdpp Require Import base numbers list gmap strings.
From S2P Require Import Prelude Heap VisitedList Arith SpaceL2 BeamSearch Hnsw HnswPersist HnswSearch.
From S2P Require Import StopConditions HnswInsert HnswTheorems.
#[local] Open Scope N_scope.

Definition run {A} (m : eff hnsw A) (s : hnsw) : hnsw := (m s).1.
Definition demo_adds (ps : list (point * labeltype)) (s : hnsw) : hnsw :=
  foldl (λ s pl, run (addPoint demo_dist pl.1 pl.2 false) s) s ps.

(** Two elements, one of them deleted. *)
Definition dup0 : hnsw :=
  run (markDelete 2) (demo_adds [([10; 10], 1); ([20; 20], 2)] (HierarchicalNSW_new 2 8 2 10 0 true)).


(** A far element and a cluster of deleted ones around the query; the first two
    also have level 1. *)
Definition cut0 : hnsw :=
  foldl (λ s l, run (markDelete l) s)
    (demo_adds [([100; 104], 3); ([98; 102], 4); ([100; 96], 5); ([104; 100], 6)]
      (demo_add [100; 100] 2 1 (demo_add [0; 100] 1 1 (HierarchicalNSW_new 2 8 2 10 0 false))))
    [2; 3; 4; 5; 6].


(** On the same index a query returns nothing, although the element with
    label 1 is not deleted. *)
Theorem searchKnn_misses_live :
  (searchKnn demo_dist [101; 100] 1 None cut0).2 = Ok [] ∧ isMarkedDeleted cut0 0 = Ok false.
Proof. vm_compute. done. Qed.

(** An index built by [addPoint] alone can fail the inbound-link assertion
    of [checkIntegrity]. *)
Theorem checkIntegrity_fails :
  checkIntegrity (demo_adds [([0; 100], 1); ([100; 100], 2); ([100; 104], 3); ([98; 102], 4); ([100; 96], 5); ([104; 100], 6)]
                    (HierarchicalNSW_new 2 8 2 10 0 false))
  = Undef "assert(inbound_connections_num[i] > 0)".
Proof. vm_compute. done. Qed.

Definition saved (s : hnsw) : option (list N) := match saveIndex s with Ok f => Some f | _ => None end.

(** [loadIndex] on an object that holds an index keeps its labels and its
    deletion count: after loading a file with one element into an index with
    three, a label of the old index still leads to an element that does not
    exist, and reading its vector is undefined; after loading a file with one
    deleted element twice, two are counted. *)
Theorem loadIndex_keeps_stale_members :
  (let '(s, r) := loadIndex (saved demo1) 2 8 demo3 in
   r = Ok tt ∧ cur_element_count s = 1 ∧ label_lookup_ s !! 13 = Some 2 ∧
   getDataByLabel 0 s 13 = Undef "element never written") ∧
  (let '(s, r) := loadIndex (saved demo_del) 2 8 (HierarchicalNSW_load 2 (saved demo_del) 8 true).1 in
   r = Ok tt ∧ getDeletedCount s = 2 ∧ isMarkedDeleted s 0 = Ok false ∧ isMarkedDeleted s 1 = Ok false).
Proof. vm_compute. done. Qed.

(** [loadIndex] sets [cur_element_count] before it checks the file: after
    the exception for a file that was cut short, the members claim elements
    whose memory is gone, and the destructor's [clear] follows [linkLists_],
    a null pointer by then. *)
Theorem loadIndex_failure_breaks_clear :
  let '(s, r) := loadIndex (take 120 <$> saved demo3) 2 8 demo3 in
  r = Throw "Index seems to be corrupted or unsupported" ∧ cur_element_count s = 3 ∧
  (clear s).2 = Undef "linkLists_[i] of no element".
Proof. vm_compute. done. Qed.

(** Three vectors of documents [d1], [d2], [d3]; the first two are equally far
    from the origin, the third is nearer. *)
Definition mv_index (d1 d2 d3 : N) : hnsw :=
  demo_adds [([5; 0; 0; 0; d1], 11); ([0; 5; 0; 0; d2], 12); ([4; 0; 0; 0; d3], 13)]
    (HierarchicalNSW_new 5 8 2 10 0 false).
Definition mv_query (num_docs ef_collection : N) (s : hnsw) : res (list (Z * labeltype)) :=
  r <- (searchStopConditionClosest (HS:=mv_stop mv_demo_space) demo_dist [0; 0; 0; 0; 0]
         (MultiVectorSearchStopCondition num_docs ef_collection) None s).2 ;; Ok r.1.

(** [searchStopConditionClosest] returns internal ids where the labels
    should be: the nearest vector was added under label 13 and is reported as
    2. *)
Theorem searchStopConditionClosest_ids :
  mv_query 3 3 (mv_index 1 2 3) = Ok [(16%Z, 2); (25%Z, 1); (25%Z, 0)] ∧
  getExternalLabel (mv_index 1 2 3) 2 = Ok 13.
Proof. vm_compute. done. Qed.

(** With two equally distant vectors, [searchBaseLayerST] and the stop
    condition can remove different ones: the counters no longer match the
    queue, [filter_results] decrements the counter of a document that has no
    vector left, and a query for the nearest document returns nothing.  With the
    document ids of the two swapped it returns the right one. *)
Theorem multi_vector_ties_lose_results :
  mv_query 1 2 (mv_index 1 2 3) = Ok [] ∧ mv_query 1 2 (mv_index 2 1 3) = Ok [(16%Z, 2)].
Proof. vm_compute. done. Qed.
